(** * BEAT installer: artifact collection, per-IDE rendering and cleanup

  A shallow embedding of the IDE installers under
  [tools/cli/installers/lib] and the properties of their
  collection, rendering, cleanup and configuration code.

  Strings are byte strings ([string] of the Standard Library); the
  JavaScript string methods are modelled on them, with case mapping
  and white space restricted to the ASCII range.  The file system is
  a finite map from paths to nodes; asynchronous calls are awaited in
  program order, so an installer is a function from a world (file
  tree and log of issued file-system calls) to an outcome and a new
  world. *)

From Stdlib Require Import Ascii String List Bool Arith Lia.
From stdpp Require Import gmap strings list fin_maps.

Set Warnings "-register-all".
#[local] Arguments String.append !_ _ : simpl nomatch.

(* ================================================================== *)
(** ** JavaScript string primitives *)
(* ================================================================== *)

Module Js.

Definition dquote : ascii := "034"%char.
Definition newline : ascii := "010"%char.
Definition nl : string := String newline EmptyString.
Definition dq : string := String dquote EmptyString.

(** [String.prototype.toUpperCase], ASCII letters only. *)
Definition toUpperChar (c : ascii) : ascii :=
  let n := nat_of_ascii c in
  if (97 <=? n) && (n <=? 122) then ascii_of_nat (n - 32) else c.

Fixpoint toUpperCase (s : string) : string :=
  match s with
  | EmptyString => EmptyString
  | String c s' => String (toUpperChar c) (toUpperCase s')
  end.

(** [s.startsWith(p)] *)
Fixpoint startsWith (p s : string) : bool :=
  match p, s with
  | EmptyString, _ => true
  | String a p', String b s' => Ascii.eqb a b && startsWith p' s'
  | String _ _, EmptyString => false
  end.

(** [s.endsWith(suf)]: some suffix of [s] is [suf]. *)
Fixpoint endsWith (suf s : string) : bool :=
  String.eqb suf s ||
  match s with
  | EmptyString => false
  | String _ s' => endsWith suf s'
  end.

(** [s.includes(sub)] *)
Fixpoint includes (sub s : string) : bool :=
  startsWith sub s ||
  match s with
  | EmptyString => false
  | String _ s' => includes sub s'
  end.

Fixpoint drop (n : nat) (s : string) : string :=
  match n, s with
  | O, _ => s
  | S k, String _ s' => drop k s'
  | S _, EmptyString => EmptyString
  end.

(** [s.slice(1)] *)
Definition slice1 (s : string) : string := drop 1 s.

(** The replacement text of [replace]/[replaceAll] for a string
    pattern (GetSubstitution with no capture groups): a dollar sign
    followed by a dollar sign, an ampersand, a backquote or a quote
    stands for a dollar sign, the matched text, the text before the
    match and the text after it. *)
Fixpoint substitution (matched before after rep : string) : string :=
  match rep with
  | EmptyString => EmptyString
  | String a t =>
      if Ascii.eqb a "$"%char then
        match t with
        | String c r =>
            if Ascii.eqb c "$"%char then String "$"%char (substitution matched before after r)
            else if Ascii.eqb c "&"%char then matched +:+ substitution matched before after r
            else if Ascii.eqb c "`"%char then before +:+ substitution matched before after r
            else if Ascii.eqb c "'"%char then after +:+ substitution matched before after r
            else String a (substitution matched before after t)
        | EmptyString => String a EmptyString
        end
      else String a (substitution matched before after t)
  end.

(** [s.replace(pat, rep)] with a non-empty string pattern: the first
    occurrence only.  [before] is the text already passed. *)
Fixpoint replace_from (pat rep before s : string) : string :=
  if startsWith pat s then
    substitution pat before (drop (String.length pat) s) rep
      +:+ drop (String.length pat) s
  else
    match s with
    | EmptyString => EmptyString
    | String c s' => String c (replace_from pat rep (before +:+ String c EmptyString) s')
    end.

Definition replace (pat rep s : string) : string :=
  replace_from pat rep EmptyString s.

(** [s.replaceAll(pat, rep)] with a non-empty string pattern: every
    occurrence, left to right, without overlap.  [skip] counts the
    characters of a match still to be passed over. *)
Fixpoint replaceAll_from (pat rep before : string) (skip : nat) (s : string) : string :=
  match s with
  | EmptyString => EmptyString
  | String c s' =>
      match skip with
      | S k => replaceAll_from pat rep (before +:+ String c EmptyString) k s'
      | O =>
          if startsWith pat s then
            substitution pat before (drop (String.length pat) s) rep
              +:+ replaceAll_from pat rep (before +:+ String c EmptyString)
                    (String.length pat - 1) s'
          else String c (replaceAll_from pat rep (before +:+ String c EmptyString) 0 s')
      end
  end.

Definition replaceAll (pat rep s : string) : string :=
  replaceAll_from pat rep EmptyString 0 s.

(** [s.replaceAll(/[\\/]/g, '-')]: every slash and backslash becomes
    the given character. *)
Definition is_sep (c : ascii) : bool :=
  Ascii.eqb c "/"%char || Ascii.eqb c "\"%char.

Fixpoint replaceSeps (by_ : ascii) (s : string) : string :=
  match s with
  | EmptyString => EmptyString
  | String c s' => String (if is_sep c then by_ else c) (replaceSeps by_ s')
  end.

(** [s.replaceAll('\\', '/')] *)
Fixpoint replaceChar (from to_ : ascii) (s : string) : string :=
  match s with
  | EmptyString => EmptyString
  | String c s' => String (if Ascii.eqb c from then to_ else c) (replaceChar from to_ s')
  end.

(** [s.split(sep)] for a one-character separator. *)
Fixpoint split (sep : ascii) (s : string) : list string :=
  match s with
  | EmptyString => [EmptyString]
  | String c s' =>
      if Ascii.eqb c sep then EmptyString :: split sep s'
      else match split sep s' with
           | w :: ws => String c w :: ws
           | [] => [String c EmptyString]
           end
  end.

(** [l.join(sep)] *)
Fixpoint join (sep : string) (l : list string) : string :=
  match l with
  | [] => EmptyString
  | [w] => w
  | w :: ws => w +:+ sep +:+ join sep ws
  end.

(** White space of [\s] and of [trim], ASCII range: tab, line feed,
    vertical tab, form feed, carriage return, space. *)
Definition is_space (c : ascii) : bool :=
  let n := nat_of_ascii c in
  ((9 <=? n) && (n <=? 13)) || (n =? 32).

Fixpoint trimStart (s : string) : string :=
  match s with
  | EmptyString => EmptyString
  | String c s' => if is_space c then trimStart s' else s
  end.

(** [trimEnd]: a character is kept when it is not white space or
    when something is kept after it. *)
Fixpoint trimEnd (s : string) : string :=
  match s with
  | EmptyString => EmptyString
  | String c s' =>
      match trimEnd s' with
      | EmptyString => if is_space c then EmptyString else String c EmptyString
      | t => String c t
      end
  end.

Definition trim (s : string) : string := trimEnd (trimStart s).

(** A JavaScript value is truthy unless it is one of the falsy
    values; for a string, unless it is empty. *)
Definition nonempty (s : string) : bool :=
  match s with EmptyString => false | String _ _ => true end.

End Js.

(* ================================================================== *)
(** ** Regular expressions of the installers *)
(* ================================================================== *)

(** The patterns used by the installers are sequences of literals,
  starred character classes and at most one capturing group over a
  character class.  Matching follows the backtracking order of
  ECMAScript: a greedy quantifier tries the longest repetition
  first, a lazy one the shortest. *)
Module Regex.

Inductive atom :=
| Lit (s : string)                 (* literal text *)
| Star (cls : ascii -> bool)       (* cls*   *)
| StarLazy (cls : ascii -> bool)   (* cls*?  *)
| Group (cls : ascii -> bool).     (* (cls+) *)

Definition regex := list atom.

Definition any (_ : ascii) : bool := true.
Definition not_char (x : ascii) (c : ascii) : bool := negb (Ascii.eqb c x).

(** The input after the literal [p], when it starts with it. *)
Fixpoint lit (p s : string) : option string :=
  match p, s with
  | EmptyString, _ => Some s
  | String a p', String b s' => if Ascii.eqb a b then lit p' s' else None
  | String _ _, EmptyString => None
  end.

Section Continuations.
Context {R : Type}.

Fixpoint star (cls : ascii -> bool) (k : string -> option R) (s : string) : option R :=
  match s with
  | String c s' =>
      if cls c then
        match star cls k s' with
        | Some r => Some r
        | None => k s
        end
      else k s
  | EmptyString => k EmptyString
  end.

Fixpoint star_lazy (cls : ascii -> bool) (k : string -> option R) (s : string) : option R :=
  match k s with
  | Some r => Some r
  | None =>
      match s with
      | String c s' => if cls c then star_lazy cls k s' else None
      | EmptyString => None
      end
  end.

(** [acc] is the text captured so far. *)
Fixpoint group (cls : ascii -> bool) (k : string -> string -> option R)
    (acc s : string) : option R :=
  match s with
  | String c s' =>
      if cls c then
        let acc' := acc +:+ String c EmptyString in
        match group cls k acc' s' with
        | Some r => Some r
        | None => k acc' s'
        end
      else None
  | EmptyString => None
  end.
End Continuations.

(** A match of [r] at the start of [s]: the captured text and the
    input left after the match. *)
Fixpoint exec (r : regex) (cap s : string) : option (string * string) :=
  match r with
  | [] => Some (cap, s)
  | Lit p :: r' =>
      match lit p s with
      | Some s' => exec r' cap s'
      | None => None
      end
  | Star cls :: r' => star cls (exec r' cap) s
  | StarLazy cls :: r' => star_lazy cls (exec r' cap) s
  | Group cls :: r' => group cls (fun c rest => exec r' c rest) EmptyString s
  end.

(** [s.match(re)] for a pattern without anchor: the capture of the
    leftmost match, [None] for [null]. *)
Fixpoint search (r : regex) (s : string) : option string :=
  match exec r EmptyString s with
  | Some (c, _) => Some c
  | None =>
      match s with
      | String _ s' => search r s'
      | EmptyString => None
      end
  end.

(** [s.replace(re, '')] for a pattern anchored at the start. *)
Definition strip_anchored (r : regex) (s : string) : string :=
  match exec r EmptyString s with
  | Some (_, rest) => rest
  | None => s
  end.

(** [/key=Q([^Q]+)Q/], writing Q for the double quote. *)
Definition attr (key : string) : regex :=
  [Lit (key +:+ "=" +:+ Js.dq); Group (not_char Js.dquote); Lit Js.dq].

(** [/key:\s*Q([^Q]+)Q/], writing Q for the double quote. *)
Definition field (key : string) : regex :=
  [Lit (key +:+ ":"); Star Js.is_space; Lit Js.dq; Group (not_char Js.dquote); Lit Js.dq].

(** [/<name>([^<]+)<\/name>/] *)
Definition name_element : regex :=
  [Lit "<name>"; Group (not_char "<"%char); Lit "</name>"].

(** [/^---\s*\n[\s\S]*?\n---\s*\n/] *)
Definition frontmatterRegex : regex :=
  [Lit "---"; Star Js.is_space; Lit Js.nl; StarLazy any;
   Lit (Js.nl +:+ "---"); Star Js.is_space; Lit Js.nl].

Definition stripFrontmatter (s : string) : string :=
  strip_anchored frontmatterRegex s.

End Regex.

(* ================================================================== *)
(** ** Node's [path] module (POSIX) *)
(* ================================================================== *)

(** A directory or file location: the segments of a normalized
    absolute path. *)
Abbreviation path := (list string).

Module Path.


Definition is_dot (s : string) : bool := String.eqb s ".".
Definition is_dotdot (s : string) : bool := String.eqb s "..".

(** One step of normalization under a root; [acc] holds the segments
    seen so far, last first. *)
Definition step (acc : list string) (seg : string) : list string :=
  if negb (Js.nonempty seg) || is_dot seg then acc
  else if is_dotdot seg then tail acc
  else seg :: acc.

Definition segments (args : list string) : list string :=
  concat (map (Js.split "/"%char) args).

(** [path.join(dir, ...args)] where [dir] is a normalized absolute
    path. *)
Definition join (dir : path) (args : list string) : path :=
  rev (fold_left step (segments args) (rev dir)).

(** Normalization of a relative path, which may climb above its
    start. *)
Definition step_rel (acc : list string) (seg : string) : list string :=
  if negb (Js.nonempty seg) || is_dot seg then acc
  else if is_dotdot seg then
    match acc with
    | [] => [seg]
    | top :: rest => if is_dotdot top then seg :: acc else rest
    end
  else seg :: acc.

(** [path.normalize(s)] *)
Definition normalize (s : string) : string :=
  let absolute := Js.startsWith "/" s in
  let trailing := Js.endsWith "/" s && Js.nonempty s in
  let segs := rev (fold_left (if absolute then step else step_rel)
                     (Js.split "/"%char s) []) in
  let body := Js.join "/" segs in
  if Js.nonempty body then
    (if absolute then "/" else EmptyString) +:+ body
      +:+ (if trailing then "/" else EmptyString)
  else if absolute then "/"
  else if trailing then "./" else ".".

(** [path.join(...args)] as a string. *)
Definition join_str (args : list string) : string :=
  let joined := Js.join "/" (filter (fun a => Js.nonempty a) args) in
  if Js.nonempty joined then normalize joined else ".".

End Path.

(* ================================================================== *)
(** ** The file system and the installer monad *)
(* ================================================================== *)

Module Fs.
Import Path.

(** What a path names: a regular file with its content, a directory,
    or something else (socket, pipe, device), which [stat] reports
    as neither a file nor a directory. *)
Inductive node :=
| File (content : string)
| Directory
| Special.

Inductive kind := KFile | KDirectory | KOther.

Definition kind_of (n : node) : kind :=
  match n with
  | File _ => KFile
  | Directory => KDirectory
  | Special => KOther
  end.

Definition isFile (k : kind) : bool := match k with KFile => true | _ => false end.
Definition isDirectory (k : kind) : bool := match k with KDirectory => true | _ => false end.

(** The calls issued to [fs-extra], in the order they are awaited. *)
Inductive call :=
| PathExists (p : path)
| Readdir (p : path)
| ReadFile (p : path)
| Stat (p : path)
| Remove (p : path)
| EnsureDir (p : path)
| WriteFile (p : path) (content : string).

Inductive error :=
| ENOENT (p : path)
| ENOTDIR (p : path)
| EISDIR (p : path)
| EEXIST (p : path)
| EINVAL (p : path)
| Exception (message : string).

Record world := World {
  files : gmap path node;
  log : list call
}.

Definition M (A : Type) : Type := world -> (error + A) * world.

Definition ret {A} (a : A) : M A := fun w => (inr a, w).

Definition bind {A B} (m : M A) (f : A -> M B) : M B :=
  fun w =>
    match m w with
    | (inl e, w') => (inl e, w')
    | (inr a, w') => f a w'
    end.

Definition throw {A} (e : error) : M A := fun w => (inl e, w).

(** [try { m } catch { h }] *)
Definition catch {A} (m : M A) (h : error -> M A) : M A :=
  fun w =>
    match m w with
    | (inl e, w') => h e w'
    | (inr a, w') => (inr a, w')
    end.

Definition record (c : call) : M unit :=
  fun w => (inr tt, World (files w) (log w ++ [c])).

Definition get_files : M (gmap path node) := fun w => (inr (files w), w).

Definition put_files (t : gmap path node) : M unit :=
  fun w => (inr tt, World t (log w)).

End Fs.

Declare Scope fs_scope.
Delimit Scope fs_scope with fs.
Notation "x <- m ;; k" := (Fs.bind m (fun x => k))
(at level 100, m at next level, right associativity) : fs_scope.
Notation "m ;; k" := (Fs.bind m (fun _ => k))
(at level 100, right associativity) : fs_scope.
Open Scope fs_scope.

Module FsOps.
Import Path Fs.

(** The root is a directory; every other path is looked up. *)
Definition node_at (t : gmap path node) (p : path) : option node :=
  match p with
  | [] => Some Directory
  | _ => t !! p
  end.

Fixpoint strip_prefix (d k : path) : option path :=
  match d, k with
  | [], _ => Some k
  | a :: d', b :: k' => if String.eqb a b then strip_prefix d' k' else None
  | _ :: _, [] => None
  end.

Definition child_of (d k : path) : option string :=
  match strip_prefix d k with
  | Some [n] => Some n
  | _ => None
  end.

(** The names directly under [d]. *)
Definition names (t : gmap path node) (d : path) : list string :=
  omap (fun kv => child_of d kv.1) (map_to_list t).

(** The names directly under [d] with their kinds
    ([readdir] with [withFileTypes]). *)
Definition dirents (t : gmap path node) (d : path) : list (string * kind) :=
  omap (fun kv => match child_of d kv.1 with
                  | Some n => Some (n, kind_of kv.2)
                  | None => None
                  end) (map_to_list t).

(** [rm -rf p]: [p] and everything below it. *)
Definition rm (p : path) (t : gmap path node) : gmap path node :=
  filter (fun kv => ~ p `prefix_of` kv.1) t.

(** [mkdir -p]: [seen] exists already, [todo] is created under it
    segment by segment. *)
Fixpoint mkdirs (t : gmap path node) (seen : path) (todo : list string)
    : error + gmap path node :=
  match todo with
  | [] => inr t
  | s :: rest =>
      let d := seen ++ [s] in
      match t !! d with
      | None => mkdirs (<[d := Directory]> t) d rest
      | Some Directory => mkdirs t d rest
      | Some _ => inl (ENOTDIR d)
      end
  end.

Definition parent (p : path) : path := removelast p.

(** [fs.pathExists(p)] *)
Definition pathExists (p : path) : M bool :=
  record (PathExists p) ;;
  t <- get_files ;;
  ret (match node_at t p with Some _ => true | None => false end).

(** [fs.readdir(p)] *)
Definition readdir (p : path) : M (list string) :=
  record (Readdir p) ;;
  t <- get_files ;;
  match node_at t p with
  | Some Directory => ret (names t p)
  | Some _ => throw (ENOTDIR p)
  | None => throw (ENOENT p)
  end.

(** [fs.readdir(p, { withFileTypes: true })] *)
Definition readdirTypes (p : path) : M (list (string * kind)) :=
  record (Readdir p) ;;
  t <- get_files ;;
  match node_at t p with
  | Some Directory => ret (dirents t p)
  | Some _ => throw (ENOTDIR p)
  | None => throw (ENOENT p)
  end.

(** [fs.readFile(p, 'utf8')] *)
Definition readFile (p : path) : M string :=
  record (ReadFile p) ;;
  t <- get_files ;;
  match node_at t p with
  | Some (File c) => ret c
  | Some Directory => throw (EISDIR p)
  | Some Special => throw (EINVAL p)
  | None => throw (ENOENT p)
  end.

(** [fs.stat(p)] *)
Definition stat (p : path) : M kind :=
  record (Stat p) ;;
  t <- get_files ;;
  match node_at t p with
  | Some n => ret (kind_of n)
  | None => throw (ENOENT p)
  end.

(** [fs.remove(p)]: no error when nothing is there. *)
Definition remove (p : path) : M unit :=
  record (Remove p) ;;
  t <- get_files ;;
  put_files (rm p t).

(** [fs.ensureDir(p)] *)
Definition ensureDir (p : path) : M unit :=
  record (EnsureDir p) ;;
  t <- get_files ;;
  match mkdirs t [] p with
  | inr t' => put_files t'
  | inl e => throw e
  end.

(** [fs.writeFile(p, content)]: the parent must be a directory; a
    file is created or replaced; a directory in the way is an error;
    writing to a socket, pipe or device leaves the tree as it is. *)
Definition writeFile (p : path) (content : string) : M unit :=
  record (WriteFile p content) ;;
  t <- get_files ;;
  match p with
  | [] => throw (EISDIR p)
  | _ =>
      match node_at t (parent p) with
      | Some Directory =>
          match t !! p with
          | Some Directory => throw (EISDIR p)
          | Some Special => ret tt
          | _ => put_files (<[p := File content]> t)
          end
      | Some _ => throw (ENOTDIR p)
      | None => throw (ENOENT p)
      end
  end.

(** [for (const x of l) { await f(x) }] *)
Fixpoint forEach {A} (l : list A) (f : A -> M unit) : M unit :=
  match l with
  | [] => ret tt
  | x :: rest => f x ;; forEach rest f
  end.

(** A loop that pushes onto an array: [acc] is the array so far. *)
Fixpoint foldM {A B} (f : B -> A -> M B) (acc : B) (l : list A) : M B :=
  match l with
  | [] => ret acc
  | x :: rest => acc' <- f acc x ;; foldM f acc' rest
  end.

(** [if (await fs.pathExists(p)) { await fs.remove(p) }] *)
Definition removeIfExists (p : path) : M unit :=
  ex <- pathExists p ;;
  if ex then remove p else ret tt.

(** The calls a computation adds to the log. *)
Definition calls {A} (m : M A) (w : world) : list call :=
  List.skipn (length (log w)) (log (m w).2).

(** A file name: not empty, without slash, neither [.] nor [..]. *)
Definition valid_name (s : string) : bool :=
  Js.nonempty s && negb (Js.includes "/" s) && negb (is_dot s) && negb (is_dotdot s).

(** Every segment of every path of the tree is a file name. *)
Definition valid_tree (t : gmap path node) : Prop :=
  forall p n, t !! p = Some n -> Forall (fun s => valid_name s = true) p.

(** Whatever exists lies in a directory. *)
Definition wf_tree (t : gmap path node) : Prop :=
  forall p s n, t !! (p ++ [s]) = Some n -> node_at t p = Some Directory.

End FsOps.

(* ================================================================== *)
(** ** shared/beat-artifacts.js: the collector *)
(* ================================================================== *)

Module BeatArtifacts.
Import Path Fs FsOps.

(** An entry of the collected lists: [{ path, name, module }]. *)
Record item := Item {
  item_path : path;
  item_name : string;
  item_module : string
}.

(** The body of the loop over the files of an agents directory. *)
Definition agentFile (dirPath : path) (moduleName : string)
    (agents : list item) (file : string) : M (list item) :=
  if negb (Js.endsWith ".md" file) then ret agents
  else if Js.includes ".customize." file then ret agents
  else
    let filePath := join dirPath [file] in
    content <- readFile filePath ;;
    if Js.includes ("localskip=" +:+ Js.dq +:+ "true" +:+ Js.dq) content then ret agents
    else ret (agents ++ [Item filePath (Js.replace ".md" EmptyString file) moduleName]).

Definition getAgentsFromDir (dirPath : path) (moduleName : string) : M (list item) :=
  ex <- pathExists dirPath ;;
  if negb ex then ret []
  else
    files <- readdir dirPath ;;
    foldM (agentFile dirPath moduleName) [] files.

Definition taskFile (dirPath : path) (moduleName : string)
    (tasks : list item) (file : string) : list item :=
  if negb (Js.endsWith ".md" file) then tasks
  else tasks ++ [Item (join dirPath [file]) (Js.replace ".md" EmptyString file) moduleName].

Definition getTasksFromDir (dirPath : path) (moduleName : string) : M (list item) :=
  ex <- pathExists dirPath ;;
  if negb ex then ret []
  else
    files <- readdir dirPath ;;
    ret (fold_left (taskFile dirPath moduleName) files []).

(** The loop over the selected modules, for agents and for tasks. *)
Definition moduleItems (fromDir : path -> string -> M (list item))
    (beatDir : path) (sub : string) (acc : list item) (moduleName : string)
    : M (list item) :=
  let p := join beatDir [moduleName; sub] in
  ex <- pathExists p ;;
  if ex then
    found <- fromDir p moduleName ;;
    ret (acc ++ found)
  else ret acc.

(** The loop over the directories of [agents/], the standalone area. *)
Definition standaloneDir (standaloneAgentsDir : path)
    (agents : list item) (agentDir : string * kind) : M (list item) :=
  if negb (isDirectory agentDir.2) then ret agents
  else
    let agentDirPath := join standaloneAgentsDir [agentDir.1] in
    agentFiles <- readdir agentDirPath ;;
    foldM (agentFile agentDirPath "standalone") agents agentFiles.

Definition getAgentsFromBeat (beatDir : path) (selectedModules : list string)
    : M (list item) :=
  ex <- pathExists (join beatDir ["core"; "agents"]) ;;
  agents <- (if ex then getAgentsFromDir (join beatDir ["core"; "agents"]) "core"
             else ret []) ;;
  agents <- foldM (moduleItems getAgentsFromDir beatDir "agents") agents selectedModules ;;
  let standaloneAgentsDir := join beatDir ["agents"] in
  ex <- pathExists standaloneAgentsDir ;;
  if ex then
    agentDirs <- readdirTypes standaloneAgentsDir ;;
    foldM (standaloneDir standaloneAgentsDir) agents agentDirs
  else ret agents.

Definition getTasksFromBeat (beatDir : path) (selectedModules : list string)
    : M (list item) :=
  ex <- pathExists (join beatDir ["core"; "tasks"]) ;;
  tasks <- (if ex then getTasksFromDir (join beatDir ["core"; "tasks"]) "core"
            else ret []) ;;
  foldM (moduleItems getTasksFromDir beatDir "tasks") tasks selectedModules.

End BeatArtifacts.

Module Examples.
Import Path Fs FsOps BeatArtifacts.

Definition mk (l : list (path * node)) : world := World (list_to_map l) [].

(** An installation with one core agent that carries a title, a
    customization file beside it, a skipped agent and two tasks. *)
Definition beat : path := ["proj"; "beat"].

Definition dev_md : string :=
  "<agent id=" +:+ Js.dq +:+ "dev" +:+ Js.dq +:+ " title=" +:+ Js.dq +:+ "Developer"
    +:+ Js.dq +:+ ">".

Definition installed : world :=
  mk [ (["proj"], Directory);
       (beat, Directory);
       (beat ++ ["core"], Directory);
       (beat ++ ["core"; "agents"], Directory);
       (beat ++ ["core"; "agents"; "dev.md"], File dev_md);
       (beat ++ ["core"; "agents"; "dev.customize.md"], File "notes");
       (beat ++ ["core"; "agents"; "web.md"],
          File ("<agent localskip=" +:+ Js.dq +:+ "true" +:+ Js.dq +:+ ">"));
       (beat ++ ["core"; "tasks"], Directory);
       (beat ++ ["core"; "tasks"; "index.md"], File "<task>");
       (beat ++ ["core"; "tasks"; "index.customize.md"],
          File ("<task localskip=" +:+ Js.dq +:+ "true" +:+ Js.dq +:+ ">")) ].

End Examples.

(* ================================================================== *)
(** ** Node's [path.relative] *)
(* ================================================================== *)

Module PathRel.
Import Path.

Fixpoint common (from to_ : path) : path * path :=
  match from, to_ with
  | a :: from', b :: to' => if String.eqb a b then common from' to' else (from, to_)
  | _, _ => (from, to_)
  end.

(** [path.relative(from, to)] for normalized absolute paths: one
    [..] for each segment of [from] below the common directory, then
    the rest of [to]. *)
Definition relative (from to_ : path) : string :=
  let (up, down) := common from to_ in
  Js.join "/" (map (fun _ => "..") up ++ down).

End PathRel.

(* ================================================================== *)
(** ** shared/agent-command-generator.js *)
(* ================================================================== *)

Module AgentCommandGenerator.
Import Path Fs FsOps BeatArtifacts.

(** A launcher artifact:
    [{ type, module, name, relativePath, content, sourcePath }]. *)
Record artifact := Artifact {
  art_type : string;
  art_module : string;
  art_name : string;
  art_relativePath : string;
  art_content : string;
  art_sourcePath : path
}.

Section Generator.
(** [this.templatePath], the launcher template shipped beside the
    installer, and [this.beatFolderName]. *)
Variable templatePath : path.
Variable beatFolderName : string.

(** The agents of the collector carry no description, so the
    description placeholder always receives the name followed by
    [agent]. *)
Definition instantiate (template : string) (agent : item) : string :=
  Js.replaceAll "{beat_folder}" beatFolderName
    (Js.replaceAll "{{description}}" (item_name agent +:+ " agent")
      (Js.replaceAll "{{module}}" (item_module agent)
        (Js.replaceAll "{{name}}" (item_name agent) template))).

Definition generateLauncherContent (agent : item) : M string :=
  template <- readFile templatePath ;;
  ret (instantiate template agent).

(** The artifact of an agent with its launcher. *)
Definition launcherArtifact (agent : item) (launcherContent : string) : artifact :=
  Artifact "agent-launcher" (item_module agent) (item_name agent)
    (join_str [item_module agent; "agents"; item_name agent +:+ ".md"])
    launcherContent (item_path agent).

Definition launcher (artifacts : list artifact) (agent : item) : M (list artifact) :=
  launcherContent <- generateLauncherContent agent ;;
  ret (artifacts ++ [launcherArtifact agent launcherContent]).

(** Returns the artifacts; [counts.agents] is their number. *)
Definition collectAgentArtifacts (beatDir : path) (selectedModules : list string)
    : M (list artifact) :=
  agents <- getAgentsFromBeat beatDir selectedModules ;;
  foldM launcher [] agents.

End Generator.

(** Returns the number of launchers written. *)
Definition writeAgentLaunchers (baseCommandsDir : path) (artifacts : list artifact) : M nat :=
  foldM (fun writtenCount a =>
    if String.eqb (art_type a) "agent-launcher" then
      let moduleAgentsDir := join baseCommandsDir [art_module a; "agents"] in
      ensureDir moduleAgentsDir ;;
      let launcherPath := join moduleAgentsDir [art_name a +:+ ".md"] in
      writeFile launcherPath (art_content a) ;;
      ret (S writtenCount)
    else ret writtenCount) 0 artifacts.

End AgentCommandGenerator.

(* ================================================================== *)
(** ** _base-ide.js: what the adapters inherit *)
(* ================================================================== *)

Module BaseIdeSetup.
Import Path Fs FsOps.

(** [{ module, name }], the metadata handed to [processContent]. *)
Record metadata := Metadata {
  meta_module : string;
  meta_name : string
}.

(** A task, tool or workflow as the base class lists it. *)
Record resource := Resource {
  res_path : path;
  res_name : string;
  res_module : string;
  res_description : option string
}.

(** Modelled from the spec: the file-write step common to all targets
    (the base class is not among the sources): the content is written
    at the path, nothing else. *)
Definition writeFile (p : path) (content : string) : M unit :=
  FsOps.writeFile p content.

(** Modelled from the spec: the directory-creation step of the base
    class, as the Cline adapter spells it out. *)
Definition ensureDir (p : path) : M unit := FsOps.ensureDir p.

(** Modelled from the spec: reading a source file as text. *)
Definition readFile (p : path) : M string := FsOps.readFile p.

End BaseIdeSetup.

(* ================================================================== *)
(** ** ide/trae.js *)
(* ================================================================== *)

Module Trae.
Import Path Fs FsOps BaseIdeSetup AgentCommandGenerator.

Definition configDir : string := ".trae".
Definition rulesDir : string := "rules".

(** [formatTitle]: each word between hyphens with its first letter
    in upper case, joined by spaces. *)
Definition capitalize (word : string) : string :=
  match word with
  | EmptyString => EmptyString
  | String c rest => String (Js.toUpperChar c) rest
  end.

Definition formatTitle (name : string) : string :=
  Js.join " " (map capitalize (Js.split "-"%char name)).

(** The title of an agent rule. *)
Definition agentTitle (a : artifact) : string :=
  match Regex.search (Regex.field "description") (art_content a) with
  | Some t => t
  | None => formatTitle (art_name a)
  end.

Definition createAgentRule (a : artifact) (projectDir : path) : string :=
  let contentWithoutFrontmatter := Js.trim (Regex.stripFrontmatter (art_content a)) in
  let title := agentTitle a in
  let relativePath :=
    Js.replaceChar "\"%char "/"%char (PathRel.relative projectDir (art_sourcePath a)) in
  "# " +:+ title +:+ " Agent Rule

This rule is triggered when the user types `@" +:+ art_name a +:+ "` and activates the "
  +:+ title +:+ " agent persona.

## Agent Activation

" +:+ contentWithoutFrontmatter +:+ "

## File Reference

The full agent definition is located at: `" +:+ relativePath +:+ "`
".

(** The name of a task or tool rule. *)
Definition resourceTitle (r : resource) (content : string) : string :=
  match Regex.search (Regex.attr "name") content with
  | Some t => t
  | None => formatTitle (res_name r)
  end.

Definition createTaskRule (task : resource) (content : string) : string :=
  let taskName := resourceTitle task content in
  "# " +:+ taskName +:+ " Task Rule

This rule defines the " +:+ taskName +:+ " task workflow.

## Task Definition

When this task is triggered, execute the following workflow:

" +:+ content +:+ "

## Usage

Reference this task with `@task-" +:+ res_name task +:+ "` to execute the defined workflow.

## Module

Part of the BEAT " +:+ Js.toUpperCase (res_module task) +:+ " module.
".

Definition createToolRule (tool : resource) (content : string) : string :=
  let toolName := resourceTitle tool content in
  "# " +:+ toolName +:+ " Tool Rule

This rule defines the " +:+ toolName +:+ " tool.

## Tool Definition

When this tool is triggered, execute the following:

" +:+ content +:+ "

## Usage

Reference this tool with `@tool-" +:+ res_name tool +:+ "` to execute it.

## Module

Part of the BEAT " +:+ Js.toUpperCase (res_module tool) +:+ " module.
".

Definition createWorkflowRule (workflow : resource) (content : string) : string :=
  "# " +:+ res_name workflow +:+ " Workflow Rule

This rule defines the " +:+ res_name workflow +:+ " workflow.

## Workflow Description

" +:+ match res_description workflow with
      | Some d => if Js.nonempty d then d else "No description provided"
      | None => "No description provided"
      end +:+ "

## Workflow Definition

" +:+ content +:+ "

## Usage

Reference this workflow with `@workflow-" +:+ res_name workflow
  +:+ "` to execute the guided workflow.

## Module

Part of the BEAT " +:+ Js.toUpperCase (res_module workflow) +:+ " module.
".

(** The file names of the rules: [beat-{kind}-{module}-{name}.md]. *)
Definition ruleName (kind module_ name : string) : string :=
  "beat-" +:+ kind +:+ "-" +:+ module_ +:+ "-" +:+ name +:+ ".md".

(** The destination of a rule in the rules directory. *)
Definition target (rulesPath : path) (kind module_ name : string) : path :=
  join rulesPath [ruleName kind module_ name].

Definition ruleFor (file : string) : bool :=
  Js.startsWith "beat-" file && Js.endsWith ".md" file.

(** [cleanup]: only the entries of the rules directory that start
    with [beat-] and end with [.md]. *)
Definition cleanup (projectDir : path) : M unit :=
  let rulesPath := join projectDir [configDir; rulesDir] in
  ex <- pathExists rulesPath ;;
  if ex then
    files <- readdir rulesPath ;;
    forEach files (fun file =>
      if ruleFor file then remove (join rulesPath [file]) else ret tt)
  else ret tt.

Record result := Result {
  agents : nat;
  tasks : nat;
  tools : nat;
  workflows : nat
}.

Section Setup.
Variable templatePath : path.
Variable beatFolderName : string.
(** The listings of the base class, which is not among the sources. *)
Variable getTasks getTools getWorkflows : path -> bool -> M (list resource).

Definition writeRules (rulesPath : path) (kind : string)
    (create : resource -> string -> string) (l : list resource) : M unit :=
  forEach l (fun r =>
    content <- BaseIdeSetup.readFile (res_path r) ;;
    BaseIdeSetup.writeFile
      (target rulesPath kind (res_module r) (res_name r))
      (create r content)).

Definition setup (projectDir beatDir : path) (selectedModules : list string) : M result :=
  let rulesPath := join (join projectDir [configDir]) [rulesDir] in
  BaseIdeSetup.ensureDir rulesPath ;;
  cleanup projectDir ;;
  agentArtifacts <- collectAgentArtifacts templatePath beatFolderName beatDir selectedModules ;;
  taskList <- getTasks beatDir true ;;
  toolList <- getTools beatDir true ;;
  workflowList <- getWorkflows beatDir true ;;
  forEach agentArtifacts (fun a =>
    BaseIdeSetup.writeFile
      (target rulesPath "agent" (art_module a) (art_name a))
      (createAgentRule a projectDir)) ;;
  writeRules rulesPath "task" createTaskRule taskList ;;
  writeRules rulesPath "tool" createToolRule toolList ;;
  writeRules rulesPath "workflow" createWorkflowRule workflowList ;;
  ret (Result (length agentArtifacts) (length taskList) (length toolList)
         (length workflowList)).

End Setup.
End Trae.

(* ================================================================== *)
(** ** ide/cursor.js *)
(* ================================================================== *)

Module Cursor.
Import Path Fs FsOps BaseIdeSetup AgentCommandGenerator.

Definition configDir : string := ".cursor".
Definition rulesDir : string := "rules".

(** [cleanup]: the whole [beat] directory under the rules. *)
Definition cleanup (projectDir : path) : M unit :=
  let beatRulesDir := join projectDir [configDir; rulesDir; "beat"] in
  removeIfExists beatRulesDir.

(** The description line of [processContent]: the kind is read off
    the content, the title or name is the captured attribute when
    there is one and the name of the metadata otherwise. *)
Definition captured (r : Regex.regex) (content fallback : string) : string :=
  match Regex.search r content with
  | Some t => t
  | None => fallback
  end.

Definition description (content : string) (md : metadata) : string :=
  let isAgent := Js.includes "<agent" content in
  let isTask := Js.includes "<task" content in
  let isTool := Js.includes "<tool" content in
  let isWorkflow := Js.includes "workflow:" content || Js.includes "name:" content in
  let M_ := Js.toUpperCase (meta_module md) in
  if isAgent then
    "BEAT " +:+ M_ +:+ " Agent: " +:+ captured (Regex.attr "title") content (meta_name md)
  else if isTask then
    "BEAT " +:+ M_ +:+ " Task: " +:+ captured (Regex.attr "name") content (meta_name md)
  else if isTool then
    "BEAT " +:+ M_ +:+ " Tool: " +:+ captured (Regex.attr "name") content (meta_name md)
  else if isWorkflow then
    "BEAT " +:+ M_ +:+ " Workflow: " +:+ meta_name md
  else
    "BEAT " +:+ M_ +:+ ": " +:+ meta_name md.

Section Content.
(** [super.processContent], the processing of the base class. *)
Variable baseProcessContent : string -> metadata -> string.

Definition processContent (content : string) (md : metadata) : string :=
  let processed := Regex.stripFrontmatter (baseProcessContent content md) in
  let globs := EmptyString in
  "---
description: " +:+ description content md +:+ "
globs: " +:+ globs +:+ "
alwaysApply: false
---

" +:+ processed.

Definition readAndProcess (filePath : path) (md : metadata) : M string :=
  content <- FsOps.readFile filePath ;;
  ret (processContent content md).

End Content.

Definition wrapLauncherWithMDC (launcherContent : string) (md : metadata) : string :=
  let contentWithoutFrontmatter := Regex.stripFrontmatter launcherContent in
  let name := captured (Regex.field "name") launcherContent (meta_name md) in
  let description := "BEAT " +:+ Js.toUpperCase (meta_module md) +:+ " Agent: " +:+ name in
  "---
description: " +:+ description +:+ "
globs:
alwaysApply: false
---

" +:+ contentWithoutFrontmatter.

(** A JavaScript [Set] filled in order: the distinct members, each at
    its first insertion. *)
Definition setOf (l : list string) : list string :=
  fold_left (fun acc x => if bool_decide (x ∈ acc) then acc else acc ++ [x]) l [].

(** One section of the index for a kind of one module. *)
Definition indexSection (heading kind module_ : string) (names : list string) : string :=
  match names with
  | [] => EmptyString
  | _ =>
      "**" +:+ heading +:+ ":**" +:+ Js.nl +:+
      fold_left (fun acc n =>
        acc +:+ "- @beat/" +:+ module_ +:+ "/" +:+ kind +:+ "/" +:+ n +:+ " - " +:+ n +:+ Js.nl)
        names EmptyString
      +:+ Js.nl
  end.

Definition namesIn (module_ : string) (l : list (string * string)) : list string :=
  map snd (filter (fun mn => String.eqb mn.1 module_) l).

Definition indexContent (agents tasks tools workflows : list (string * string))
    (modules : list string) : string :=
  "---
description: BEAT Method - Master Index
globs:
alwaysApply: true
---

# BEAT Method - Cursor Rules Index

This is the master index for all BEAT agents, tasks, tools, and workflows available in your project.

## Installation Complete!

BEAT rules have been installed to: `.cursor/rules/beat/`

**Note:** BEAT does not modify your `.cursorrules` file. You manage that separately.

## How to Use

- Reference specific agents: @beat/{module}/agents/{agent-name}
- Reference specific tasks: @beat/{module}/tasks/{task-name}
- Reference specific tools: @beat/{module}/tools/{tool-name}
- Reference specific workflows: @beat/{module}/workflows/{workflow-name}
- Reference entire modules: @beat/{module}
- Reference this index: @beat/index

## Available Modules

" +:+
  fold_left (fun acc m =>
    acc +:+ "### " +:+ Js.toUpperCase m +:+ Js.nl +:+ Js.nl
      +:+ indexSection "Agents" "agents" m (namesIn m agents)
      +:+ indexSection "Tasks" "tasks" m (namesIn m tasks)
      +:+ indexSection "Tools" "tools" m (namesIn m tools)
      +:+ indexSection "Workflows" "workflows" m (namesIn m workflows))
    modules EmptyString
  +:+ "
## Quick Reference

- All BEAT rules are Manual type - reference them explicitly when needed
- Agents provide persona-based assistance with specific expertise
- Tasks are reusable workflows for common operations
- Tools provide specialized functionality
- Workflows orchestrate multi-step processes
- Each agent includes an activation block for proper initialization

## Configuration

BEAT rules are configured as Manual rules (alwaysApply: false) to give you control
over when they're included in your context. Reference them explicitly when you need
specific agent expertise, task workflows, tools, or guided workflows.
".

Definition createBEATIndex (beatRulesDir : path)
    (agents tasks tools workflows : list (string * string)) (modules : list string)
    : M unit :=
  BaseIdeSetup.writeFile (join beatRulesDir ["index.mdc"])
    (indexContent agents tasks tools workflows modules).

(** The destination of a rule: [beat/{module}/{kind}/{name}.mdc]. *)
Definition target (beatRulesDir : path) (module_ kind name : string) : path :=
  join beatRulesDir [module_; kind; name +:+ ".mdc"].

Definition writeLaunchers (beatRulesDir : path) (l : list artifact) : M unit :=
  forEach l (fun a =>
    BaseIdeSetup.writeFile
      (target beatRulesDir (art_module a) "agents" (art_name a))
      (wrapLauncherWithMDC (art_content a) (Metadata (art_module a) (art_name a)))).

Record result := Result {
  agents : nat;
  tasks : nat;
  tools : nat;
  workflows : nat
}.

Section Setup.
Variable templatePath : path.
Variable beatFolderName : string.
Variable baseProcessContent : string -> metadata -> string.
Variable getTasks getTools getWorkflows : path -> bool -> M (list resource).

Definition writeResources (beatRulesDir : path) (kind : string) (l : list resource)
    : M unit :=
  forEach l (fun r =>
    content <- readAndProcess baseProcessContent (res_path r)
                 (Metadata (res_module r) (res_name r)) ;;
    BaseIdeSetup.writeFile (target beatRulesDir (res_module r) kind (res_name r)) content).

Definition keyOf (r : resource) : string * string := (res_module r, res_name r).

Definition setup (projectDir beatDir : path) (selectedModules : list string) : M result :=
  cleanup projectDir ;;
  let cursorDir := join projectDir [configDir] in
  let rulesPath := join cursorDir [rulesDir] in
  let beatRulesDir := join rulesPath ["beat"] in
  BaseIdeSetup.ensureDir beatRulesDir ;;
  agentArtifacts <- collectAgentArtifacts templatePath beatFolderName beatDir selectedModules ;;
  let agentList := map (fun a => (art_module a, art_name a)) agentArtifacts in
  taskList <- getTasks beatDir true ;;
  toolList <- getTools beatDir true ;;
  workflowList <- getWorkflows beatDir true ;;
  let modules :=
    setOf (map fst agentList ++ map res_module taskList ++ map res_module toolList
             ++ map res_module workflowList) in
  forEach modules (fun m =>
    BaseIdeSetup.ensureDir (join beatRulesDir [m]) ;;
    BaseIdeSetup.ensureDir (join beatRulesDir [m; "agents"]) ;;
    BaseIdeSetup.ensureDir (join beatRulesDir [m; "tasks"]) ;;
    BaseIdeSetup.ensureDir (join beatRulesDir [m; "tools"]) ;;
    BaseIdeSetup.ensureDir (join beatRulesDir [m; "workflows"])) ;;
  writeLaunchers beatRulesDir agentArtifacts ;;
  writeResources beatRulesDir "tasks" taskList ;;
  writeResources beatRulesDir "tools" toolList ;;
  writeResources beatRulesDir "workflows" workflowList ;;
  createBEATIndex beatRulesDir agentList (map keyOf taskList) (map keyOf toolList)
    (map keyOf workflowList) modules ;;
  ret (Result (length agentArtifacts) (length taskList) (length toolList)
         (length workflowList)).

End Setup.
End Cursor.

(* ================================================================== *)
(** ** ide/codex.js and ide/cline.js: flat exports *)
(* ================================================================== *)

Module Flat.
Import Path Fs FsOps BaseIdeSetup BeatArtifacts AgentCommandGenerator.

(** An exported artifact:
    [{ type, module, sourcePath, relativePath, content }]. *)
Record export := Export {
  exp_type : string;
  exp_module : string;
  exp_sourcePath : path;
  exp_relativePath : string;
  exp_content : string
}.

Record counts := Counts {
  agents : nat;
  tasks : nat;
  workflows : nat;
  workflowLaunchers : nat
}.

(** [flattenFilename], the same in both adapters. *)
Definition flattenFilename (relativePath : string) : string :=
  let sanitized := Js.replaceSeps "-"%char relativePath in
  "beat-" +:+ sanitized.

(** The destination of an artifact in the flat directory. *)
Definition target (destDir : path) (relativePath : string) : path :=
  let flattenedName := flattenFilename relativePath in
  join destDir [flattenedName].

Definition flattenAndWriteArtifacts (artifacts : list export) (destDir : path) : M nat :=
  foldM (fun written a =>
    let targetPath := target destDir (exp_relativePath a) in
    FsOps.writeFile targetPath (exp_content a) ;;
    ret (S written)) 0 artifacts.

Definition clearOldBeatFiles (destDir : path) : M unit :=
  ex <- pathExists destDir ;;
  if negb ex then ret tt
  else
    entries <- readdir destDir ;;
    forEach entries (fun entry =>
      if negb (Js.startsWith "beat-" entry) then ret tt
      else
        let entryPath := join destDir [entry] in
        st <- stat entryPath ;;
        if isFile st then remove entryPath
        else if isDirectory st then remove entryPath
        else ret tt).

Section Collect.
Variable templatePath : path.
Variable beatFolderName : string.
(** [super.processContent(content, metadata, projectDir)] *)
Variable baseProcessContent : string -> metadata -> path -> string.
(** [WorkflowCommandGenerator.collectWorkflowArtifacts], which is not
    among the sources: the workflow artifacts and the numbers of
    commands and of launchers. *)
Variable collectWorkflowArtifacts : path -> M (list export * (nat * nat)).

Definition readAndProcessWithProject (filePath : path) (md : metadata) (projectDir : path)
    : M string :=
  content <- FsOps.readFile filePath ;;
  ret (baseProcessContent content md projectDir).

(** [collectClaudeArtifacts] of Codex and [collectClineArtifacts] of
    Cline, which differ in name only. *)
Definition collectArtifacts (projectDir beatDir : path) (selectedModules : list string)
    : M (list export * counts) :=
  agentArtifacts <- collectAgentArtifacts templatePath beatFolderName beatDir selectedModules ;;
  let artifacts :=
    map (fun a => Export "agent" (art_module a) (art_sourcePath a) (art_relativePath a)
                    (art_content a)) agentArtifacts in
  taskList <- getTasksFromBeat beatDir selectedModules ;;
  artifacts <- foldM (fun acc task =>
      content <- readAndProcessWithProject (item_path task)
                   (Metadata (item_module task) (item_name task)) projectDir ;;
      ret (acc ++ [Export "task" (item_module task) (item_path task)
                     (join_str [item_module task; "tasks"; item_name task +:+ ".md"])
                     content]))
    artifacts taskList ;;
  wf <- collectWorkflowArtifacts beatDir ;;
  ret (artifacts ++ wf.1,
       Counts (length agentArtifacts) (length taskList) wf.2.1 wf.2.2).

End Collect.
End Flat.

Module Codex.
Import Path Fs FsOps BaseIdeSetup Flat.

Section Setup.
Variable templatePath : path.
Variable beatFolderName : string.
Variable baseProcessContent : string -> metadata -> path -> string.
Variable collectWorkflowArtifacts : path -> M (list export * (nat * nat)).
(** [os.homedir()] *)
Variable homedir : path.

Definition getCodexPromptDir : path := join homedir [".codex"; "prompts"].

(** Returns the counts and the number of files written. *)
Definition setup (projectDir beatDir : path) (selectedModules : list string)
    : M (counts * nat) :=
  ac <- collectArtifacts templatePath beatFolderName baseProcessContent
          collectWorkflowArtifacts projectDir beatDir selectedModules ;;
  let destDir := getCodexPromptDir in
  FsOps.ensureDir destDir ;;
  clearOldBeatFiles destDir ;;
  written <- flattenAndWriteArtifacts ac.1 destDir ;;
  ret (ac.2, written).

Definition cleanup : M unit := clearOldBeatFiles getCodexPromptDir.

(** [detect]: some entry of the prompt directory starts with
    [beat-]. *)
Definition detect : M bool :=
  let destDir := getCodexPromptDir in
  ex <- pathExists destDir ;;
  if negb ex then ret false
  else
    entries <- readdir destDir ;;
    ret (existsb (fun entry => Js.startsWith "beat-" entry) entries).

End Setup.
End Codex.

Module Cline.
Import Path Fs FsOps BaseIdeSetup Flat.

Definition configDir : string := ".clinerules".
Definition workflowsDir : string := "workflows".

Section Setup.
Variable templatePath : path.
Variable beatFolderName : string.
Variable baseProcessContent : string -> metadata -> path -> string.
Variable collectWorkflowArtifacts : path -> M (list export * (nat * nat)).

Definition setup (projectDir beatDir : path) (selectedModules : list string)
    : M (counts * nat) :=
  let clineDir := join projectDir [configDir] in
  let workflowsPath := join clineDir [workflowsDir] in
  FsOps.ensureDir workflowsPath ;;
  clearOldBeatFiles workflowsPath ;;
  ac <- collectArtifacts templatePath beatFolderName baseProcessContent
          collectWorkflowArtifacts projectDir beatDir selectedModules ;;
  written <- flattenAndWriteArtifacts ac.1 workflowsPath ;;
  ret (ac.2, written).

End Setup.

Definition cleanup (projectDir : path) : M unit :=
  clearOldBeatFiles (join projectDir [configDir; workflowsDir]).

Definition detect (projectDir : path) : M bool :=
  let workflowsPath := join projectDir [configDir; workflowsDir] in
  ex <- pathExists workflowsPath ;;
  if negb ex then ret false
  else
    entries <- readdir workflowsPath ;;
    ret (existsb (fun entry => Js.startsWith "beat-" entry) entries).

End Cline.

(* ================================================================== *)
(** ** ide/windsurf.js *)
(* ================================================================== *)

Module Windsurf.
Import Path Fs FsOps BaseIdeSetup AgentCommandGenerator.

Definition configDir : string := ".windsurf".
Definition workflowsDir : string := "workflows".

Definition createWorkflowContent (agent : metadata) (content : string) : string :=
  let contentWithoutFrontmatter := Regex.stripFrontmatter content in
  "---
description: " +:+ meta_name agent +:+ "
auto_execution_mode: 3
---

" +:+ contentWithoutFrontmatter.

Definition createTaskWorkflowContent (task : resource) (content : string) : string :=
  "---
description: task-" +:+ res_name task +:+ "
auto_execution_mode: 2
---

" +:+ content.

Definition createToolWorkflowContent (tool : resource) (content : string) : string :=
  "---
description: tool-" +:+ res_name tool +:+ "
auto_execution_mode: 2
---

" +:+ content.

Definition createWorkflowWorkflowContent (workflow : resource) (content : string) : string :=
  "---
description: " +:+ res_name workflow +:+ "
auto_execution_mode: 1
---

" +:+ content.

(** [cleanup]: the whole [beat] directory under the workflows. *)
Definition cleanup (projectDir : path) : M unit :=
  let beatPath := join projectDir [configDir; workflowsDir; "beat"] in
  removeIfExists beatPath.

(** The destination of a workflow: [beat/{module}/{kind}/{name}.md]. *)
Definition target (beatWorkflowsDir : path) (module_ kind name : string) : path :=
  join beatWorkflowsDir [module_; kind; name +:+ ".md"].

Definition writeLaunchers (beatWorkflowsDir : path) (l : list artifact) : M unit :=
  forEach l (fun a =>
    BaseIdeSetup.writeFile
      (target beatWorkflowsDir (art_module a) "agents" (art_name a))
      (createWorkflowContent (Metadata (art_module a) (art_name a)) (art_content a))).

Record result := Result {
  agents : nat;
  tasks : nat;
  tools : nat;
  workflows : nat
}.

Section Setup.
Variable templatePath : path.
Variable beatFolderName : string.
Variable getTasks getTools getWorkflows : path -> bool -> M (list resource).

Definition writeResources (beatWorkflowsDir : path) (kind : string)
    (create : resource -> string -> string) (l : list resource) : M unit :=
  forEach l (fun r =>
    content <- BaseIdeSetup.readFile (res_path r) ;;
    BaseIdeSetup.writeFile (target beatWorkflowsDir (res_module r) kind (res_name r))
      (create r content)).

Definition setup (projectDir beatDir : path) (selectedModules : list string) : M result :=
  let windsurfDir := join projectDir [configDir] in
  let workflowsPath := join windsurfDir [workflowsDir] in
  let beatWorkflowsDir := join workflowsPath ["beat"] in
  BaseIdeSetup.ensureDir beatWorkflowsDir ;;
  cleanup projectDir ;;
  agentArtifacts <- collectAgentArtifacts templatePath beatFolderName beatDir selectedModules ;;
  taskList <- getTasks beatDir true ;;
  toolList <- getTools beatDir true ;;
  workflowList <- getWorkflows beatDir true ;;
  let modules :=
    Cursor.setOf (map art_module agentArtifacts ++ map res_module taskList
                    ++ map res_module toolList ++ map res_module workflowList) in
  forEach modules (fun m =>
    BaseIdeSetup.ensureDir (join beatWorkflowsDir [m]) ;;
    BaseIdeSetup.ensureDir (join beatWorkflowsDir [m; "agents"]) ;;
    BaseIdeSetup.ensureDir (join beatWorkflowsDir [m; "tasks"]) ;;
    BaseIdeSetup.ensureDir (join beatWorkflowsDir [m; "tools"]) ;;
    BaseIdeSetup.ensureDir (join beatWorkflowsDir [m; "workflows"])) ;;
  writeLaunchers beatWorkflowsDir agentArtifacts ;;
  writeResources beatWorkflowsDir "tasks" createTaskWorkflowContent taskList ;;
  writeResources beatWorkflowsDir "tools" createToolWorkflowContent toolList ;;
  writeResources beatWorkflowsDir "workflows" createWorkflowWorkflowContent workflowList ;;
  ret (Result (length agentArtifacts) (length taskList) (length toolList)
         (length workflowList)).

End Setup.
End Windsurf.

(* ================================================================== *)
(** ** The cleanup of the remaining adapters *)
(* ================================================================== *)

Module Qwen.
Import Path Fs FsOps.

Definition configDir : string := ".qwen".
Definition commandsDir : string := "commands".
Definition beatDir : string := "beat".

(** [cleanupOldConfig], run by [setup] before the commands are
    written. *)
Definition cleanupOldConfig (qwenDir : path) : M unit :=
  removeIfExists (join qwenDir ["agents"]) ;;
  removeIfExists (join qwenDir ["beat-method"]) ;;
  removeIfExists (join qwenDir ["beatDir"]).

Definition cleanup (projectDir : path) : M unit :=
  removeIfExists (join projectDir [configDir; commandsDir; beatDir]) ;;
  removeIfExists (join projectDir [configDir; "beat-method"]) ;;
  removeIfExists (join projectDir [configDir; "Beat"]).

End Qwen.

Module Auggie.
Import Path Fs FsOps.

Definition cleanup (projectDir : path) : M unit :=
  let location := join projectDir [".augment"; "commands"] in
  removeIfExists (join location ["beat"]).

Import BaseIdeSetup AgentCommandGenerator.

(** The destination of a command: [{dir}/{module}-{name}.md]. *)
Definition target (dir : path) (module_ name : string) : path :=
  join dir [module_ +:+ "-" +:+ name +:+ ".md"].

Record result := Result {
  agents : nat;
  tasks : nat;
  tools : nat;
  workflows : nat
}.

Section Setup.
Variable templatePath : path.
Variable beatFolderName : string.
(** [formatTitle] and the listings of the base class, which is not
    among the sources. *)
Variable formatTitle : string -> string.
Variable getTasks getTools getWorkflows : path -> bool -> M (list resource).

(** The name of a task or tool command. *)
Definition resourceTitle (r : resource) (content : string) : string :=
  match Regex.search (Regex.attr "name") content with
  | Some t => t
  | None => formatTitle (res_name r)
  end.

Definition createTaskCommand (task : resource) (content : string) : string :=
  let taskName := resourceTitle task content in
  "---
description: " +:+ Js.dq +:+ "Execute the " +:+ taskName +:+ " task" +:+ Js.dq +:+ "
---

# " +:+ taskName +:+ " Task

" +:+ content +:+ "

## Module
BEAT " +:+ Js.toUpperCase (res_module task) +:+ " module
".

Definition createToolCommand (tool : resource) (content : string) : string :=
  let toolName := resourceTitle tool content in
  "---
description: " +:+ Js.dq +:+ "Use the " +:+ toolName +:+ " tool" +:+ Js.dq +:+ "
---

# " +:+ toolName +:+ " Tool

" +:+ content +:+ "

## Module
BEAT " +:+ Js.toUpperCase (res_module tool) +:+ " module
".

Definition createWorkflowCommand (workflow : resource) (content : string) : string :=
  let description :=
    match res_description workflow with
    | Some d => if Js.nonempty d then d
                else "Execute the " +:+ res_name workflow +:+ " workflow"
    | None => "Execute the " +:+ res_name workflow +:+ " workflow"
    end in
  "---
description: " +:+ Js.dq +:+ description +:+ Js.dq +:+ "
---

# " +:+ res_name workflow +:+ " Workflow

" +:+ content +:+ "

## Module
BEAT " +:+ Js.toUpperCase (res_module workflow) +:+ " module
".

Definition writeCommands (dir : path) (create : resource -> string -> string)
    (l : list resource) : M unit :=
  forEach l (fun r =>
    content <- BaseIdeSetup.readFile (res_path r) ;;
    let commandContent := create r content in
    BaseIdeSetup.writeFile (target dir (res_module r) (res_name r)) commandContent).

Definition setup (projectDir beatDir : path) (selectedModules : list string) : M result :=
  let location := join projectDir [".augment"; "commands"] in
  cleanup projectDir ;;
  agentArtifacts <- collectAgentArtifacts templatePath beatFolderName beatDir selectedModules ;;
  taskList <- getTasks beatDir true ;;
  toolList <- getTools beatDir true ;;
  workflowList <- getWorkflows beatDir true ;;
  let beatCommandsDir := join location ["beat"] in
  let agentsDir := join beatCommandsDir ["agents"] in
  let tasksDir := join beatCommandsDir ["tasks"] in
  let toolsDir := join beatCommandsDir ["tools"] in
  let workflowsDir := join beatCommandsDir ["workflows"] in
  BaseIdeSetup.ensureDir agentsDir ;;
  BaseIdeSetup.ensureDir tasksDir ;;
  BaseIdeSetup.ensureDir toolsDir ;;
  BaseIdeSetup.ensureDir workflowsDir ;;
  forEach agentArtifacts (fun a =>
    BaseIdeSetup.writeFile (target agentsDir (art_module a) (art_name a)) (art_content a)) ;;
  writeCommands tasksDir createTaskCommand taskList ;;
  writeCommands toolsDir createToolCommand toolList ;;
  writeCommands workflowsDir createWorkflowCommand workflowList ;;
  ret (Result (length agentArtifacts) (length taskList) (length toolList)
         (length workflowList)).

End Setup.
End Auggie.

Module IFlow.
Import Path Fs FsOps.

Definition configDir : string := ".iflow".
Definition commandsDir : string := "commands".

Definition cleanup (projectDir : path) : M unit :=
  removeIfExists (join projectDir [configDir; commandsDir; "beat"]).

Import BaseIdeSetup AgentCommandGenerator.

(** The destination of a command: [{dir}/{module}-{name}.md]. *)
Definition target (dir : path) (module_ name : string) : path :=
  join dir [module_ +:+ "-" +:+ name +:+ ".md"].

(** The launcher is complete and is returned as it is. *)
Definition createAgentCommand (a : artifact) : string := art_content a.

Section Setup.
Variable templatePath : path.
Variable beatFolderName : string.
(** [formatTitle] and the listing of the base class, which is not
    among the sources. *)
Variable formatTitle : string -> string.
Variable getTasks : path -> M (list resource).

Definition createTaskCommand (task : resource) (content : string) : string :=
  let taskName :=
    match Regex.search Regex.name_element content with
    | Some t => t
    | None => formatTitle (res_name task)
    end in
  "# /task-" +:+ res_name task +:+ " Command

When this command is used, execute the following task:

## " +:+ taskName +:+ " Task

" +:+ content +:+ "

## Usage

This command executes the " +:+ taskName +:+ " task from the BEAT "
  +:+ Js.toUpperCase (res_module task) +:+ " module.

## Module

Part of the BEAT " +:+ Js.toUpperCase (res_module task) +:+ " module.
".

(** Returns the numbers of agent and of task commands created. *)
Definition setup (projectDir beatDir : path) (selectedModules : list string)
    : M (nat * nat) :=
  let iflowDir := join projectDir [configDir] in
  let commandsPath := join iflowDir [commandsDir; "beat"] in
  let agentsDir := join commandsPath ["agents"] in
  let tasksDir := join commandsPath ["tasks"] in
  BaseIdeSetup.ensureDir agentsDir ;;
  BaseIdeSetup.ensureDir tasksDir ;;
  agentArtifacts <- collectAgentArtifacts templatePath beatFolderName beatDir selectedModules ;;
  forEach agentArtifacts (fun a =>
    let commandContent := createAgentCommand a in
    BaseIdeSetup.writeFile (target agentsDir (art_module a) (art_name a)) commandContent) ;;
  taskList <- getTasks beatDir ;;
  forEach taskList (fun task =>
    content <- BaseIdeSetup.readFile (res_path task) ;;
    let commandContent := createTaskCommand task content in
    BaseIdeSetup.writeFile (target tasksDir (res_module task) (res_name task))
      commandContent) ;;
  ret (length agentArtifacts, length taskList).

End Setup.
End IFlow.

Module OpenCode.
Import Path Fs FsOps.

Definition configDir : string := ".opencode".
Definition commandsDir : string := "command".
Definition agentsDir : string := "agent".

Definition cleanFolder (dir : path) : M unit :=
  ex <- pathExists dir ;;
  if ex then
    files <- readdir dir ;;
    forEach files (fun file =>
      if Trae.ruleFor file then remove (join dir [file]) else ret tt)
  else ret tt.

Definition cleanup (projectDir : path) : M unit :=
  cleanFolder (join projectDir [configDir; agentsDir]) ;;
  cleanFolder (join projectDir [configDir; commandsDir]).

End OpenCode.

(* ================================================================== *)
(** ** core/ide-config-manager.js *)
(* ================================================================== *)

Module IdeConfigManager.
Import Path Fs FsOps.

(** The values a YAML document holds. *)
Inductive value :=
| VUndefined
| VNull
| VBool (b : bool)
| VNum (n : Z)
| VStr (s : string)
| VDate (iso : string)
| VArr (items : list value)
| VObj (fields : list (string * value)).

Definition truthy (v : value) : bool :=
  match v with
  | VUndefined | VNull => false
  | VBool b => b
  | VNum n => negb (Z.eqb n 0)
  | VStr s => Js.nonempty s
  | VDate _ | VArr _ | VObj _ => true
  end.

Fixpoint assoc (k : string) (l : list (string * value)) : value :=
  match l with
  | [] => VUndefined
  | (k', v) :: rest => if String.eqb k k' then v else assoc k rest
  end.

(** [v.k] for a key that no built-in type defines. *)
Definition prop (v : value) (k : string) : value :=
  match v with
  | VObj fields => assoc k fields
  | _ => VUndefined
  end.

Section Manager.
(** [yaml.load], [None] when it throws, and [yaml.dump] with the
    options of the manager. *)
Variable yaml_load : string -> option value.
Variable yaml_dump : value -> string.

Definition getIdeConfigDir (beatDir : path) : path := join beatDir ["_cfg"; "ides"].

Definition getIdeConfigPath (beatDir : path) (ideName : string) : path :=
  join (getIdeConfigDir beatDir) [ideName +:+ ".yaml"].

Definition loadIdeConfig (beatDir : path) (ideName : string) : M value :=
  let configPath := getIdeConfigPath beatDir ideName in
  ex <- pathExists configPath ;;
  if negb ex then ret VNull
  else
    catch
      (content <- readFile configPath ;;
       match yaml_load content with
       | Some config => ret config
       | None => throw (Exception "YAMLException")
       end)
      (fun _ => ret VNull).

Definition configData (ideName : string) (configuredDate : value) (now : string)
    (configuration : value) : value :=
  VObj [("ide", VStr ideName);
        ("configured_date", configuredDate);
        ("last_updated", VStr now);
        ("configuration", if truthy configuration then configuration else VObj [])].

(** [now] is the reading of the clock, [new Date().toISOString()]. *)
Definition saveIdeConfig (now : string) (beatDir : path) (ideName : string)
    (configuration : value) : M unit :=
  let configDir := getIdeConfigDir beatDir in
  ensureDir configDir ;;
  let configPath := getIdeConfigPath beatDir ideName in
  ex <- pathExists configPath ;;
  configuredDate <-
    (if ex then
       catch
         (existing <- loadIdeConfig beatDir ideName ;;
          if truthy existing && truthy (prop existing "configured_date")
          then ret (prop existing "configured_date")
          else ret (VStr now))
         (fun _ => ret (VStr now))
     else ret (VStr now)) ;;
  let yamlContent := yaml_dump (configData ideName configuredDate now configuration) in
  let content := if Js.endsWith Js.nl yamlContent then yamlContent
                 else yamlContent +:+ Js.nl in
  writeFile configPath content.

(** [configs[k] = v] on a plain object, as far as its own properties
    go: the key [__proto__] names the prototype and adds no
    property. *)
Definition assign (k : string) (v : value) (o : gmap string value) : gmap string value :=
  if String.eqb k "__proto__" then o else <[k := v]> o.

(** The body of the loop of [loadAllIdeConfigs]. *)
Definition loadEntry (beatDir : path) (configs : gmap string value) (file : string)
    : M (gmap string value) :=
  if Js.endsWith ".yaml" file then
    let ideName := Js.replace ".yaml" EmptyString file in
    config <- loadIdeConfig beatDir ideName ;;
    if truthy config then ret (assign ideName (prop config "configuration") configs)
    else ret configs
  else ret configs.

(** A loop inside [try] that fills an object declared outside of it:
    an exception ends the loop and leaves what was filled. *)
Fixpoint fillUntilError {A B} (f : B -> A -> M B) (acc : B) (l : list A) : M B :=
  match l with
  | [] => ret acc
  | x :: rest =>
      fun w =>
        match f acc x w with
        | (inl _, w') => (inr acc, w')
        | (inr acc', w') => fillUntilError f acc' rest w'
        end
  end.

(** The handler is reached from [readdir] only, with nothing filled
    yet; an exception of the loop is taken by [fillUntilError]. *)
Definition loadAllIdeConfigs (beatDir : path) : M (gmap string value) :=
  let configDir := getIdeConfigDir beatDir in
  ex <- pathExists configDir ;;
  if negb ex then ret ∅
  else
    catch
      (files <- readdir configDir ;;
       fillUntilError (loadEntry beatDir) ∅ files)
      (fun _ => ret ∅).

Definition hasIdeConfig (beatDir : path) (ideName : string) : M bool :=
  let configPath := getIdeConfigPath beatDir ideName in
  pathExists configPath.

Definition deleteIdeConfig (beatDir : path) (ideName : string) : M unit :=
  let configPath := getIdeConfigPath beatDir ideName in
  ex <- pathExists configPath ;;
  if ex then remove configPath else ret tt.

End Manager.
End IdeConfigManager.

(* ================================================================== *)
(** ** The words of the specification *)
(* ================================================================== *)

Module Spec.

(** The title-cased transform of a name, read off the specification:
    every letter that starts a word between hyphens is in upper case
    and every hyphen is a space.  [start] tells whether the next
    character starts a word. *)
Fixpoint titleCaseFrom (start : bool) (name : string) : string :=
  match name with
  | EmptyString => EmptyString
  | String c rest =>
      if Ascii.eqb c "-"%char then String " "%char (titleCaseFrom true rest)
      else String (if start then Js.toUpperChar c else c) (titleCaseFrom false rest)
  end.

Definition titleCase (name : string) : string := titleCaseFrom true name.

(** The ownership marker of the specification: the prefix [beat-],
    or the owned subdirectory [beat]. *)
Definition marked (name : string) : bool :=
  Js.startsWith "beat-" name || String.eqb name "beat".

(** The kinds of artifact and the words the flat and nested names
    use for them. *)
Inductive kind := Agent | Task | Tool | Workflow.

Definition singular (k : kind) : string :=
  match k with
  | Agent => "agent" | Task => "task" | Tool => "tool" | Workflow => "workflow"
  end.

Definition plural (k : kind) : string :=
  match k with
  | Agent => "agents" | Task => "tasks" | Tool => "tools" | Workflow => "workflows"
  end.

End Spec.

(* ================================================================== *)
(** ** Notions used to state what the collector returns *)
(* ================================================================== *)

Module Collected.
Import Path Fs FsOps BeatArtifacts.

(** The marker of an agent left out of local installs. *)
Definition localskip : string := "localskip=" +:+ Js.dq +:+ "true" +:+ Js.dq.

(** The entry collected for a file of a directory. *)
Definition mkItem (dirPath : path) (moduleName file : string) : item :=
  Item (join dirPath [file]) (Js.replace ".md" EmptyString file) moduleName.

(** An agent file is kept when its name ends in [.md] and has no
    customization segment, and it is a regular file whose content
    lacks the skip marker. *)
Definition agent_keep (t : gmap path node) (dirPath : path) (file : string) : bool :=
  Js.endsWith ".md" file && negb (Js.includes ".customize." file) &&
  match node_at t (join dirPath [file]) with
  | Some (File content) => negb (Js.includes localskip content)
  | _ => false
  end.

(** The directory of a kind of a module exists. *)
Definition present (t : gmap path node) (beatDir : path) (sub moduleName : string) : bool :=
  match node_at t (join beatDir [moduleName; sub]) with
  | Some _ => true
  | None => false
  end.

(** The collector signals an error. *)
Definition fails {A} (outcome : error + A) : Prop := exists e, outcome = inl e.

End Collected.

(* ================================================================== *)
(** ** Checking a tree *)
(* ================================================================== *)

Module TreeCheck.
Import Path Fs FsOps.

Definition valid_treeb (t : gmap path node) : bool :=
  forallb (fun kv : path * node => forallb valid_name kv.1) (map_to_list t).

Definition wf_treeb (t : gmap path node) : bool :=
  forallb (fun kv : path * node =>
             match kv.1 with
             | [] => true
             | _ => match node_at t (parent kv.1) with
                    | Some Directory => true
                    | _ => false
                    end
             end) (map_to_list t).

End TreeCheck.

(* ================================================================== *)
(** ** The cleanups side by side *)
(* ================================================================== *)

Module Cleanup.
Import Path Fs FsOps.

(** The cleanups of the adapters, and the removal of old
    configuration that the Qwen adapter runs before it installs. *)
Inductive cleaner :=
| TraeCleanup
| OpenCodeCleanup
| CursorCleanup
| WindsurfCleanup
| AuggieCleanup
| IFlowCleanup
| QwenCleanup
| QwenOldConfig
| CodexCleanup
| ClineCleanup.

Definition run (c : cleaner) (projectDir homedir : path) : M unit :=
  match c with
  | TraeCleanup => Trae.cleanup projectDir
  | OpenCodeCleanup => OpenCode.cleanup projectDir
  | CursorCleanup => Cursor.cleanup projectDir
  | WindsurfCleanup => Windsurf.cleanup projectDir
  | AuggieCleanup => Auggie.cleanup projectDir
  | IFlowCleanup => IFlow.cleanup projectDir
  | QwenCleanup => Qwen.cleanup projectDir
  | QwenOldConfig => Qwen.cleanupOldConfig (join projectDir [Qwen.configDir])
  | CodexCleanup => Codex.cleanup homedir
  | ClineCleanup => Cline.cleanup projectDir
  end.

Definition is_ (name : string) (entry : string) : bool := String.eqb entry name.

Definition one_of (names : list string) (entry : string) : bool :=
  existsb (String.eqb entry) names.

(** The directories a cleanup looks into, each with the test an entry
    directly under it must pass to be removed. *)
Definition scope (c : cleaner) (projectDir homedir : path)
    : list (path * (string -> bool)) :=
  match c with
  | TraeCleanup => [(projectDir ++ [".trae"; "rules"], Trae.ruleFor)]
  | OpenCodeCleanup =>
      [(projectDir ++ [".opencode"; "agent"], Trae.ruleFor);
       (projectDir ++ [".opencode"; "command"], Trae.ruleFor)]
  | CursorCleanup => [(projectDir ++ [".cursor"; "rules"], is_ "beat")]
  | WindsurfCleanup => [(projectDir ++ [".windsurf"; "workflows"], is_ "beat")]
  | AuggieCleanup => [(projectDir ++ [".augment"; "commands"], is_ "beat")]
  | IFlowCleanup => [(projectDir ++ [".iflow"; "commands"], is_ "beat")]
  | QwenCleanup =>
      [(projectDir ++ [".qwen"; "commands"], is_ "beat");
       (projectDir ++ [".qwen"], one_of ["beat-method"; "Beat"])]
  | QwenOldConfig =>
      [(projectDir ++ [".qwen"], one_of ["agents"; "beat-method"; "beatDir"])]
  | CodexCleanup => [(homedir ++ [".codex"; "prompts"], Js.startsWith "beat-")]
  | ClineCleanup => [(projectDir ++ [".clinerules"; "workflows"], Js.startsWith "beat-")]
  end.

(** [p] is an entry that passes the test of its directory, or lies
    below such an entry. *)
Definition owned (sc : list (path * (string -> bool))) (p : path) : Prop :=
  exists root test name rest,
    (root, test) ∈ sc /\ p = root ++ name :: rest /\ test name = true.

(** What the claim says: an entry directly under a directory the
    cleanup looks into, whose name lacks the marker, is still there
    afterwards. *)
Definition unmarked_kept (c : cleaner) (projectDir homedir : path) (w : world) : Prop :=
  forall root test name n,
    (root, test) ∈ scope c projectDir homedir ->
    files w !! (root ++ [name]) = Some n ->
    Spec.marked name = false ->
    files (run c projectDir homedir w).2 !! (root ++ [name]) = Some n.

End Cleanup.

Module CleanupExamples.
Import Path Fs FsOps.

(** A project whose Qwen directory holds a directory [agents] of the
    user. *)
Definition qwen_project : world :=
  Examples.mk [ (["proj"], Directory);
                (["proj"; ".qwen"], Directory);
                (["proj"; ".qwen"; "agents"], Directory);
                (["proj"; ".qwen"; "agents"; "notes.md"], File "my notes") ].

(** A project whose Trae rules hold an installed rule and a rule of
    the user. *)
Definition trae_project : world :=
  Examples.mk [ (["proj"], Directory);
                (["proj"; ".trae"], Directory);
                (["proj"; ".trae"; "rules"], Directory);
                (["proj"; ".trae"; "rules"; "beat-agent-core-dev.md"], File "# Dev Agent Rule");
                (["proj"; ".trae"; "rules"; "my-notes.md"], File "my notes") ].

End CleanupExamples.

Module ConfigExamples.
Import Path Fs FsOps IdeConfigManager.

(** A stand-in for the YAML library on the documents of the example:
    a document is its configured date. *)
Definition load_date (content : string) : option value :=
  Some (VObj [("configured_date", VStr content)]).

Definition dump_date (v : value) : string :=
  match prop v "configured_date" with
  | VStr s => s
  | _ => EmptyString
  end.

Definition configured : world :=
  Examples.mk [ (["proj"], Directory);
                (["proj"; "beat"], Directory);
                (["proj"; "beat"; "_cfg"], Directory);
                (["proj"; "beat"; "_cfg"; "ides"], Directory);
                (["proj"; "beat"; "_cfg"; "ides"; "cursor.yaml"],
                   File "2024-01-01T00:00:00.000Z") ].

End ConfigExamples.

(* ================================================================== *)
(** ** Reinstalling on top of an installation *)
(* ================================================================== *)

Module Sync.
Import Path Fs FsOps Flat.

(** The cleanup-then-write sequence of the Codex and Cline adapters
    for a list of artifacts already rendered. *)
Definition sync (artifacts : list export) (destDir : path) : M nat :=
  clearOldBeatFiles destDir ;;
  flattenAndWriteArtifacts artifacts destDir.

(** An entry of the destination that [clearOldBeatFiles] removes: its
    name starts with [beat-] and it is a file or a directory. *)
Definition removable (t : gmap path node) (d : path) (entry : string) : bool :=
  Js.startsWith "beat-" entry &&
  match t !! (d ++ [entry]) with
  | Some (File _) | Some Directory => true
  | _ => false
  end.

(** What one round of the loop of [clearOldBeatFiles] does to the
    tree. *)
Definition clear_step (d : path) (t : gmap path node) (entry : string) : gmap path node :=
  if removable t d entry then rm (d ++ [entry]) t else t.

Definition cleared (d : path) (t : gmap path node) : gmap path node :=
  fold_left (clear_step d) (names t d) t.

(** [p] is a removable entry of [d] or lies below one. *)
Definition under_removable (t : gmap path node) (d p : path) : bool :=
  match strip_prefix d p with
  | Some (entry :: _) => removable t d entry
  | _ => false
  end.

End Sync.

Module SyncExamples.
Import Path Fs FsOps Flat.

(** A prompt directory with an older export, a note of the user and
    a directory of the user. *)
Definition prompts : world :=
  Examples.mk [ (["home"], Directory);
                (["home"; ".codex"], Directory);
                (["home"; ".codex"; "prompts"], Directory);
                (["home"; ".codex"; "prompts"; "beat-core-agents-old.md"], File "old");
                (["home"; ".codex"; "prompts"; "beat-legacy"], Directory);
                (["home"; ".codex"; "prompts"; "beat-legacy"; "x.md"], File "x");
                (["home"; ".codex"; "prompts"; "notes.md"], File "my notes") ].

Definition exports : list export :=
  [ Export "agent" "core" ["proj"; "beat"; "core"; "agents"; "dev.md"]
      "core/agents/dev.md" "launcher of dev";
    Export "task" "core" ["proj"; "beat"; "core"; "tasks"; "index.md"]
      "core/tasks/index.md" "task index" ].

End SyncExamples.

Module ExportExamples.
Import Path Fs FsOps BaseIdeSetup Flat.

(** The launcher template of the example. *)
Definition template : string :=
  "---
name: '{{name}}'
description: '{{description}}'
---

LOAD the FULL agent file from @{beat_folder}/{{module}}/agents/{{name}}.md
".

Definition templatePath : path := ["installer"; "templates"; "agent-command-template.md"].

(** An installation whose only artifact is the core agent dev, with
    the title Developer. *)
Definition single_agent : world :=
  Examples.mk [ (["installer"], Directory);
                (["installer"; "templates"], Directory);
                (templatePath, File template);
                (["home"], Directory);
                (["proj"], Directory);
                (Examples.beat, Directory);
                (Examples.beat ++ ["core"], Directory);
                (Examples.beat ++ ["core"; "agents"], Directory);
                (Examples.beat ++ ["core"; "agents"; "dev.md"], File Examples.dev_md) ].

(** No workflows are installed, and the processing of the base class
    leaves the text as it is. *)
Definition noWorkflows (beatDir : path) : M (list export * (nat * nat)) :=
  ret ([], (0, 0)).

Definition plain (content : string) (md : metadata) (projectDir : path) : string := content.

Definition dest : path := ["home"; ".codex"; "prompts"].

(** The Codex setup on that installation. *)
Definition installed : world :=
  (Codex.setup templatePath "beat" plain noWorkflows ["home"] ["proj"] Examples.beat []
     single_agent).2.

(** What the claim says of the scenario: a file beat-core-agent-dev.md
    whose content embeds the title. *)
Definition as_claimed (w : world) : Prop :=
  exists content,
    files w !! (dest ++ ["beat-core-agent-dev.md"]) = Some (File content) /\
    Js.includes "Developer" content = true.

End ExportExamples.

(* ================================================================== *)
(** ** What an installer writes, and in which order it issues calls *)
(* ================================================================== *)

Module Output.
Import Path Fs FsOps.

Definition written (c : call) : option (path * string) :=
  match c with
  | WriteFile p content => Some (p, content)
  | _ => None
  end.

(** The files a computation writes, in order: destination and
    content. *)
Definition outputs {A} (m : M A) (w : world) : list (path * string) :=
  omap written (calls m w).

(** The computation returns normally. *)
Definition completes {A} (m : M A) (w : world) : Prop :=
  exists a, (m w).1 = inr a.

(** The calls that inspect the tree without changing it. *)
Definition is_read (c : call) : Prop :=
  match c with
  | PathExists _ | Readdir _ | ReadFile _ | Stat _ => True
  | _ => False
  end.

Definition no_remove (c : call) : Prop :=
  match c with Remove _ => False | _ => True end.

Definition no_write (c : call) : Prop :=
  match c with WriteFile _ _ => False | _ => True end.

(** The calls of a cleanup: listing, inspecting, removing. *)
Definition cleaning (c : call) : Prop :=
  match c with
  | WriteFile _ _ | ReadFile _ => False
  | _ => True
  end.

Definition is_write (c : call) : Prop :=
  match c with WriteFile _ _ => True | _ => False end.

(** Every removal comes before every write. *)
Definition removes_before_writes (l : list call) : Prop :=
  forall i j p q content,
    l !! i = Some (Remove p) -> l !! j = Some (WriteFile q content) -> i < j.

(** Every reading of a source file comes before every removal:
    collection is over when the cleanup deletes. *)
Definition reads_before_removes (l : list call) : Prop :=
  forall i j p q,
    l !! i = Some (ReadFile q) -> l !! j = Some (Remove p) -> i < j.

End Output.

Module OrderExamples.
Import Path Fs FsOps BaseIdeSetup ExportExamples.

(** The installation of the example in a project that already has
    Cursor rules of an earlier install. *)
Definition reinstall : world :=
  Examples.mk [ (["installer"], Directory);
                (["installer"; "templates"], Directory);
                (templatePath, File template);
                (["proj"], Directory);
                (Examples.beat, Directory);
                (Examples.beat ++ ["core"], Directory);
                (Examples.beat ++ ["core"; "agents"], Directory);
                (Examples.beat ++ ["core"; "agents"; "dev.md"], File Examples.dev_md);
                (["proj"; ".cursor"], Directory);
                (["proj"; ".cursor"; "rules"], Directory);
                (["proj"; ".cursor"; "rules"; "beat"], Directory);
                (["proj"; ".cursor"; "rules"; "beat"; "index.mdc"], File "old index") ].

(** No tasks, tools or workflows are installed. *)
Definition nothing (beatDir : path) (standaloneOnly : bool) : M (list resource) := ret [].

Definition unchanged (content : string) (md : metadata) : string := content.

(** The calls of the Cursor setup on that project. *)
Definition cursor_calls : list call :=
  calls (Cursor.setup templatePath "beat" unchanged nothing nothing nothing
           ["proj"] Examples.beat []) reinstall.

End OrderExamples.

Module StoreExamples.
Import Path Fs FsOps IdeConfigManager.

(** A stand-in for the YAML library on the documents of the
    examples: a document is written as the name of its IDE, and read
    back as the first document of that IDE saved at the given
    time. *)
Definition toy_dump (v : value) : string :=
  match prop v "ide" with
  | VStr s => s
  | _ => EmptyString
  end.

Definition toy_load (now : string) (content : string) : option value :=
  Some (configData (Js.trimEnd content) (VStr now) now VNull).

(** An installation without configuration directory. *)
Definition fresh : world :=
  Examples.mk [ (["proj"], Directory); (["proj"; "beat"], Directory) ].

(** An installation with the configurations of two IDEs. *)
Definition two_configs : world :=
  Examples.mk [ (["proj"], Directory);
                (["proj"; "beat"], Directory);
                (["proj"; "beat"; "_cfg"], Directory);
                (["proj"; "beat"; "_cfg"; "ides"], Directory);
                (["proj"; "beat"; "_cfg"; "ides"; "cursor.yaml"], File "cursor");
                (["proj"; "beat"; "_cfg"; "ides"; "trae.yaml"], File "trae") ].

End StoreExamples.

Module CollectExamples.
Import Path Fs FsOps.

(** An installation whose agents directory holds, beside the agent
    dev, a directory whose name ends in [.md]. *)
Definition broken : world :=
  Examples.mk [ (["proj"], Directory);
                (Examples.beat, Directory);
                (Examples.beat ++ ["core"], Directory);
                (Examples.beat ++ ["core"; "agents"], Directory);
                (Examples.beat ++ ["core"; "agents"; "dev.md"], File Examples.dev_md);
                (Examples.beat ++ ["core"; "agents"; "notes.md"], Directory);
                (Examples.beat ++ ["core"; "tasks"], Directory);
                (Examples.beat ++ ["core"; "tasks"; "index.md"], File "<task>") ].

End CollectExamples.

(* ================================================================== *)
(** ** ide/qwen.js: the settings file *)
(* ================================================================== *)

Module QwenSettings.
Import Path Fs FsOps IdeConfigManager.

(** The test of the filter on one entry: [startsWith] is a method of
    strings, and the call on anything else raises a TypeError
    ([None]). *)
Definition keep (fileName : string) : bool :=
  negb (Js.startsWith "agents/" fileName) && negb (Js.startsWith "beat-method/" fileName).

Definition keepFile (fileName : value) : option bool :=
  match fileName with
  | VStr s => Some (keep s)
  | _ => None
  end.

(** [contextFileName.filter(...)], the entries taken in order. *)
Fixpoint filterFiles (l : list value) : option (list value) :=
  match l with
  | [] => Some []
  | v :: rest =>
      match keepFile v with
      | None => None
      | Some k =>
          match filterFiles rest with
          | None => None
          | Some kept => Some (if k then v :: kept else kept)
          end
      end
  end.

(** [o.k = v] on the properties of an object: the property keeps its
    place when it exists. *)
Fixpoint setField (k : string) (v : value) (fields : list (string * value))
    : list (string * value) :=
  match fields with
  | [] => [(k, v)]
  | (k', v') :: rest =>
      if String.eqb k k' then (k, v) :: rest else (k', v') :: setField k v rest
  end.

(** The body of the [try] after the settings are parsed: the settings
    as they are afterwards and the flag [updated], or the TypeError
    of a property read on null or of a call on an entry that is not a
    string. *)
Definition filterContext (settings : value) : error + (value * bool) :=
  match settings with
  | VNull | VUndefined => inl (Exception "TypeError")
  | VObj fields =>
      match assoc "contextFileName" fields with
      | VArr fileNames =>
          match filterFiles fileNames with
          | None => inl (Exception "TypeError")
          | Some kept =>
              inr (VObj (setField "contextFileName" (VArr kept) fields),
                   negb (length kept =? length fileNames))
          end
      | _ => inr (settings, false)
      end
  | _ => inr (settings, false)
  end.

Section Settings.
(** [JSON.parse], [None] when it throws, and
    [JSON.stringify(settings, null, 2)]. *)
Variable json_parse : string -> option value.
Variable json_stringify : value -> string.

Definition updateSettings (qwenDir : path) : M unit :=
  let settingsPath := join qwenDir ["settings.json"] in
  ex <- pathExists settingsPath ;;
  if ex then
    catch
      (settingsContent <- readFile settingsPath ;;
       match json_parse settingsContent with
       | None => throw (Exception "SyntaxError")
       | Some settings =>
           match filterContext settings with
           | inl e => throw e
           | inr (settings', updated) =>
               if updated then writeFile settingsPath (json_stringify settings')
               else ret tt
           end
       end)
      (fun _ => ret tt)
  else ret tt.

End Settings.
End QwenSettings.

Module SettingsExamples.
Import Path Fs FsOps IdeConfigManager.

(** A stand-in for the JSON library on the settings of the example:
    a text is the list of its lines under [contextFileName]. *)
Definition parse_lines (content : string) : option value :=
  Some (VObj [("theme", VStr "dark");
              ("contextFileName", VArr (map VStr (Js.split Js.newline content)))]).

Definition stringify_lines (v : value) : string :=
  match prop v "contextFileName" with
  | VArr l => Js.join Js.nl (omap (fun x => match x with VStr s => Some s | _ => None end) l)
  | _ => EmptyString
  end.

Definition qwen_settings : world :=
  Examples.mk [ (["proj"], Directory);
                (["proj"; ".qwen"], Directory);
                (["proj"; ".qwen"; "settings.json"],
                   File "README.md
agents/dev.md
beat-method/core.md
NOTES.md") ].

End SettingsExamples.

(* ================================================================== *)
(** ** ide/qwen.js: the setup *)
(* ================================================================== *)

Module QwenSetup.
Import Path Fs FsOps BeatArtifacts BaseIdeSetup AgentCommandGenerator.

(** Three double quotes, the delimiter of a multi-line TOML string. *)
Definition tq : string := Js.dq +:+ Js.dq +:+ Js.dq.

(** The TOML command of a launcher: the description is the one of the
    front matter of the launcher when it has one between double
    quotes, the name of the agent otherwise; the prompt is the
    launcher without its front matter, trimmed. *)
Definition processAgentLauncherContent (launcherContent : string) (md : metadata) : string :=
  let contentWithoutFrontmatter := Regex.stripFrontmatter launcherContent in
  let title := Cursor.captured (Regex.field "description") launcherContent (meta_name md) in
  "description = " +:+ Js.dq +:+ "BEAT " +:+ Js.toUpperCase (meta_module md)
    +:+ " Agent: " +:+ title +:+ Js.dq +:+ "
prompt = " +:+ tq +:+ "
" +:+ Js.trim contentWithoutFrontmatter +:+ "
" +:+ tq +:+ "
".

(** The description of [processContent]: the kind is read off the
    content. *)
Definition description (content : string) (md : metadata) : string :=
  let isAgent := Js.includes "<agent" content in
  let isTask := Js.includes "<task" content in
  let isTool := Js.includes "<tool" content in
  let isWorkflow := Js.includes "workflow:" content || Js.includes "name:" content in
  let M_ := Js.toUpperCase (meta_module md) in
  if isAgent then
    "BEAT " +:+ M_ +:+ " Agent: "
      +:+ Cursor.captured (Regex.attr "title") content (meta_name md)
  else if isTask then
    "BEAT " +:+ M_ +:+ " Task: "
      +:+ Cursor.captured (Regex.attr "name") content (meta_name md)
  else if isTool then
    "BEAT " +:+ M_ +:+ " Tool: "
      +:+ Cursor.captured (Regex.attr "name") content (meta_name md)
  else if isWorkflow then
    "BEAT " +:+ M_ +:+ " Workflow: " +:+ meta_name md
  else
    "BEAT " +:+ M_ +:+ ": " +:+ meta_name md.

(** The destination of a command: [beat/{module}/{kind}/{name}.toml]. *)
Definition target (beatCommandsDir : path) (module_ kind name : string) : path :=
  join beatCommandsDir [module_; kind; name +:+ ".toml"].

Record result := Result {
  agents : nat;
  tasks : nat;
  tools : nat;
  workflows : nat
}.

Section Setup.
Variable templatePath : path.
Variable beatFolderName : string.
(** [super.processContent], the processing of the base class. *)
Variable baseProcessContent : string -> metadata -> string.
(** The listings of the base class. *)
Variable getTools getWorkflows : path -> bool -> M (list resource).
(** [JSON.parse], [None] when it throws, and
    [JSON.stringify(settings, null, 2)]. *)
Variable json_parse : string -> option IdeConfigManager.value.
Variable json_stringify : IdeConfigManager.value -> string.

Definition processContent (content : string) (md : metadata) : string :=
  let prompt := baseProcessContent content md in
  "description = " +:+ Js.dq +:+ description content md +:+ Js.dq +:+ "
prompt = " +:+ tq +:+ "
" +:+ prompt +:+ "
" +:+ tq +:+ "
".

Definition readAndProcess (filePath : path) (md : metadata) : M string :=
  content <- FsOps.readFile filePath ;;
  ret (processContent content md).

Definition writeResources (beatCommandsDir : path) (kind : string) (l : list resource)
    : M unit :=
  forEach l (fun r =>
    content <- readAndProcess (res_path r) (Metadata (res_module r) (res_name r)) ;;
    BaseIdeSetup.writeFile (target beatCommandsDir (res_module r) kind (res_name r)) content).

Definition setup (projectDir beatDir : path) (selectedModules : list string) : M result :=
  let qwenDir := join projectDir [Qwen.configDir] in
  let commandsDir := join qwenDir [Qwen.commandsDir] in
  let beatCommandsDir := join commandsDir [Qwen.beatDir] in
  BaseIdeSetup.ensureDir beatCommandsDir ;;
  QwenSettings.updateSettings json_parse json_stringify qwenDir ;;
  Qwen.cleanupOldConfig qwenDir ;;
  agentArtifacts <- collectAgentArtifacts templatePath beatFolderName beatDir selectedModules ;;
  tasks <- getTasksFromBeat beatDir selectedModules ;;
  tools <- getTools beatDir true ;;
  workflows <- getWorkflows beatDir true ;;
  let modules :=
    Cursor.setOf (map art_module agentArtifacts ++ map item_module tasks
                    ++ map res_module tools ++ map res_module workflows) in
  forEach modules (fun m =>
    BaseIdeSetup.ensureDir (join beatCommandsDir [m]) ;;
    BaseIdeSetup.ensureDir (join beatCommandsDir [m; "agents"]) ;;
    BaseIdeSetup.ensureDir (join beatCommandsDir [m; "tasks"]) ;;
    BaseIdeSetup.ensureDir (join beatCommandsDir [m; "tools"]) ;;
    BaseIdeSetup.ensureDir (join beatCommandsDir [m; "workflows"])) ;;
  forEach agentArtifacts (fun a =>
    BaseIdeSetup.writeFile
      (target beatCommandsDir (art_module a) "agents" (art_name a))
      (processAgentLauncherContent (art_content a)
         (Metadata (art_module a) (art_name a)))) ;;
  forEach tasks (fun t =>
    content <- readAndProcess (item_path t) (Metadata (item_module t) (item_name t)) ;;
    BaseIdeSetup.writeFile (target beatCommandsDir (item_module t) "tasks" (item_name t))
      content) ;;
  writeResources beatCommandsDir "tools" tools ;;
  writeResources beatCommandsDir "workflows" workflows ;;
  ret (Result (length agentArtifacts) (length tasks) (length tools) (length workflows)).

End Setup.
End QwenSetup.

Module QwenExamples.
Import Path Fs FsOps BaseIdeSetup ExportExamples.

(** The project of the example with a Qwen settings file that names
    agent files and with the agents directory of an old install. *)
Definition upgraded : world :=
  Examples.mk [ (["installer"], Directory);
                (["installer"; "templates"], Directory);
                (templatePath, File template);
                (["proj"], Directory);
                (Examples.beat, Directory);
                (Examples.beat ++ ["core"], Directory);
                (Examples.beat ++ ["core"; "agents"], Directory);
                (Examples.beat ++ ["core"; "agents"; "dev.md"], File Examples.dev_md);
                (["proj"; ".qwen"], Directory);
                (["proj"; ".qwen"; "settings.json"],
                   File "README.md
agents/dev.md
NOTES.md");
                (["proj"; ".qwen"; "agents"], Directory);
                (["proj"; ".qwen"; "agents"; "dev.md"], File "old agent") ].

Definition qwen_setup : M QwenSetup.result :=
  QwenSetup.setup templatePath "beat" OrderExamples.unchanged
    OrderExamples.nothing OrderExamples.nothing
    SettingsExamples.parse_lines SettingsExamples.stringify_lines
    ["proj"] Examples.beat [].

End QwenExamples.

(* ================================================================== *)
(** ** ide/opencode.js: the setup *)
(* ================================================================== *)

Module OpenCodeSetup.
Import Path Fs FsOps BaseIdeSetup AgentCommandGenerator Flat IdeConfigManager.

(** An entry of a task or tool manifest, as far as the adapter reads
    it: [{ name, module, standalone }]. *)
Record entry := Entry {
  ent_name : string;
  ent_module : string;
  ent_standalone : value
}.

(** [t.standalone === 'true' || t.standalone === true] *)
Definition standalone (t : entry) : bool :=
  match ent_standalone t with
  | VStr s => String.eqb s "true"
  | VBool b => b
  | _ => false
  end.

(** The destination of a file in the flat folders:
    [beat-{kind}-{module}-{name}.md]. *)
Definition target (dir : path) (kind module_ name : string) : path :=
  join dir ["beat-" +:+ kind +:+ "-" +:+ module_ +:+ "-" +:+ name +:+ ".md"].

Record result := Result {
  agents : nat;
  workflows : nat;
  workflowCounts : nat * nat
}.

Section Setup.
Variable templatePath : path.
Variable beatFolderName : string.
(** [WorkflowCommandGenerator.collectWorkflowArtifacts], which is not
    among the sources. *)
Variable collectWorkflowArtifacts : path -> M (list export * (nat * nat)).
(** [path.basename(p, ext)] of Node. *)
Variable basename : string -> string -> string.
(** The task and tool generator, which is not among the sources: the
    manifests, null ([None]) when there is none, and the content of
    a command. *)
Variable loadTaskManifest loadToolManifest : path -> M (option (list entry)).
Variable generateCommandContent : entry -> string -> string.

(** [m ? m.filter(standalone) : []] *)
Definition standaloneOf (manifest : option (list entry)) : list entry :=
  match manifest with
  | Some l => List.filter standalone l
  | None => []
  end.

(** Returns the numbers of tasks and of tools. *)
Definition generateFlatTaskToolCommands (beatDir commandsBaseDir : path) : M (nat * nat) :=
  tasks <- loadTaskManifest beatDir ;;
  tools <- loadToolManifest beatDir ;;
  let standaloneTasks := standaloneOf tasks in
  let standaloneTools := standaloneOf tools in
  forEach standaloneTasks (fun task =>
    let commandContent := generateCommandContent task "task" in
    BaseIdeSetup.writeFile (target commandsBaseDir "task" (ent_module task) (ent_name task))
      commandContent) ;;
  forEach standaloneTools (fun tool =>
    let commandContent := generateCommandContent tool "tool" in
    BaseIdeSetup.writeFile (target commandsBaseDir "tool" (ent_module tool) (ent_name tool))
      commandContent) ;;
  ret (length standaloneTasks, length standaloneTools).

Definition setup (projectDir beatDir : path) (selectedModules : list string) : M result :=
  let baseDir := join projectDir [OpenCode.configDir] in
  let commandsBaseDir := join baseDir [OpenCode.commandsDir] in
  let agentsBaseDir := join baseDir [OpenCode.agentsDir] in
  BaseIdeSetup.ensureDir commandsBaseDir ;;
  BaseIdeSetup.ensureDir agentsBaseDir ;;
  OpenCode.cleanup projectDir ;;
  agentArtifacts <- collectAgentArtifacts templatePath beatFolderName beatDir selectedModules ;;
  forEach agentArtifacts (fun a =>
    BaseIdeSetup.writeFile (target agentsBaseDir "agent" (art_module a) (art_name a))
      (art_content a)) ;;
  wf <- collectWorkflowArtifacts beatDir ;;
  workflowCommandCount <-
    foldM (fun count a =>
      if String.eqb (exp_type a) "workflow-command" then
        let workflowName := basename (exp_relativePath a) ".md" in
        BaseIdeSetup.writeFile
          (target commandsBaseDir "workflow" (exp_module a) workflowName)
          (exp_content a) ;;
        ret (S count)
      else ret count) 0 wf.1 ;;
  generateFlatTaskToolCommands beatDir commandsBaseDir ;;
  ret (Result (length agentArtifacts) workflowCommandCount wf.2).

End Setup.
End OpenCodeSetup.

(* ================================================================== *)
(** ** Further examples *)
(* ================================================================== *)

Module MissingExamples.
Import Path Fs FsOps BeatArtifacts.

(** An installation without core: the module bmm has one agent, and
    there is one standalone agent. *)
Definition modules_only : world :=
  Examples.mk [ (["proj"], Directory);
                (Examples.beat, Directory);
                (Examples.beat ++ ["bmm"], Directory);
                (Examples.beat ++ ["bmm"; "agents"], Directory);
                (Examples.beat ++ ["bmm"; "agents"; "pm.md"], File "<agent>");
                (Examples.beat ++ ["agents"], Directory);
                (Examples.beat ++ ["agents"; "solo"], Directory);
                (Examples.beat ++ ["agents"; "solo"; "helper.md"], File "<agent>") ].

End MissingExamples.

Module ResaveExamples.
Import Path Fs FsOps IdeConfigManager.

(** A stand-in for the dump of the YAML library that shows the
    configuration of a document. *)
Definition dump_configuration (v : value) : string :=
  match prop v "configuration" with
  | VNum _ => "configuration: 0"
  | VBool _ => "configuration: false"
  | VStr _ => "configuration: ''"
  | VObj [] => "configuration: {}"
  | _ => "configuration: ..."
  end.

End ResaveExamples.

Module ReinstallExamples.
Import Path Fs FsOps BaseIdeSetup ExportExamples.

(** The installation of the example in a project, and under a home
    directory, that hold the files of an earlier install of every
    adapter. *)
Definition upgraded : world :=
  Examples.mk [ (["installer"], Directory);
                (["installer"; "templates"], Directory);
                (templatePath, File template);
                (["home"], Directory);
                (["home"; ".codex"], Directory);
                (["home"; ".codex"; "prompts"], Directory);
                (["home"; ".codex"; "prompts"; "beat-old.md"], File "old prompt");
                (["proj"], Directory);
                (Examples.beat, Directory);
                (Examples.beat ++ ["core"], Directory);
                (Examples.beat ++ ["core"; "agents"], Directory);
                (Examples.beat ++ ["core"; "agents"; "dev.md"], File Examples.dev_md);
                (["proj"; ".clinerules"], Directory);
                (["proj"; ".clinerules"; "workflows"], Directory);
                (["proj"; ".clinerules"; "workflows"; "beat-old.md"], File "old workflow");
                (["proj"; ".cursor"], Directory);
                (["proj"; ".cursor"; "rules"], Directory);
                (["proj"; ".cursor"; "rules"; "beat"], Directory);
                (["proj"; ".cursor"; "rules"; "beat"; "index.mdc"], File "old index");
                (["proj"; ".trae"], Directory);
                (["proj"; ".trae"; "rules"], Directory);
                (["proj"; ".trae"; "rules"; "beat-agent-core-old.md"], File "old rule");
                (["proj"; ".windsurf"], Directory);
                (["proj"; ".windsurf"; "workflows"], Directory);
                (["proj"; ".windsurf"; "workflows"; "beat"], Directory);
                (["proj"; ".windsurf"; "workflows"; "beat"; "old.md"], File "old workflow");
                (["proj"; ".augment"], Directory);
                (["proj"; ".augment"; "commands"], Directory);
                (["proj"; ".augment"; "commands"; "beat"], Directory);
                (["proj"; ".augment"; "commands"; "beat"; "old.md"], File "old command");
                (["proj"; ".opencode"], Directory);
                (["proj"; ".opencode"; "agent"], Directory);
                (["proj"; ".opencode"; "agent"; "beat-agent-core-old.md"], File "old agent");
                (["proj"; ".iflow"], Directory);
                (["proj"; ".iflow"; "commands"], Directory);
                (["proj"; ".iflow"; "commands"; "beat"], Directory);
                (["proj"; ".iflow"; "commands"; "beat"; "agents"], Directory);
                (["proj"; ".iflow"; "commands"; "beat"; "agents"; "core-old.md"],
                   File "old command") ].

End ReinstallExamples.
Example toUpperCase_core : Js.toUpperCase "core" = "CORE".
Proof. reflexivity. Qed.

Example split_dev_story : Js.split "-"%char "dev-story" = ["dev"; "story"].
Proof. reflexivity. Qed.

Example replace_md : Js.replace ".md" EmptyString "x.mdy.md" = "xy.md".
Proof. reflexivity. Qed.

Example replaceAll_name :
Js.replaceAll "{{name}}" "dev" "a {{name}} b {{name}}" = "a dev b dev".
Proof. reflexivity. Qed.

Example replaceAll_dollar :
Js.replaceAll "{{name}}" "$&$$" "<{{name}}>" = "<{{name}}$>".
Proof. reflexivity. Qed.

Example trim_both : Js.trim "  a b
" = "a b".
Proof. reflexivity. Qed.

Example search_title :
Regex.search (Regex.attr "title") ("<agent title=" +:+ Js.dq +:+ "Developer" +:+ Js.dq +:+ ">")
= Some "Developer".
Proof. reflexivity. Qed.

Example search_title_empty :
Regex.search (Regex.attr "title") ("<agent title=" +:+ Js.dq +:+ Js.dq +:+ ">") = None.
Proof. reflexivity. Qed.

Example search_description :
Regex.search (Regex.field "description")
  ("description:   " +:+ Js.dq +:+ "dev agent" +:+ Js.dq) = Some "dev agent".
Proof. reflexivity. Qed.

Example strip_frontmatter :
Regex.stripFrontmatter "---
name: x
---

body
--- 
" = "body
--- 
".
Proof. reflexivity. Qed.

Example strip_frontmatter_none :
Regex.stripFrontmatter "---
---
body" = "---
---
body".
Proof. reflexivity. Qed.

Example join_str_agent :
Path.join_str ["core"; "agents"; "dev.md"] = "core/agents/dev.md".
Proof. reflexivity. Qed.

Example join_str_dots :
Path.join_str ["a/../b"; "./c//d/"; ".."] = "b/c".
Proof. reflexivity. Qed.

Example join_str_above : Path.join_str [".."; "agents"; "x.md"] = "../agents/x.md".
Proof. reflexivity. Qed.

Example join_dir :
Path.join ["proj"; ".trae"] ["rules"; "beat-agent-core-dev.md"]
= ["proj"; ".trae"; "rules"; "beat-agent-core-dev.md"].
Proof. reflexivity. Qed.

Example join_dir_escape :
Path.join ["proj"; ".cursor"; "rules"; "beat"] [".."; "agents"; "x.mdc"]
= ["proj"; ".cursor"; "rules"; "agents"; "x.mdc"].
Proof. reflexivity. Qed.

Example collect_agents :
(BeatArtifacts.getAgentsFromBeat Examples.beat [] Examples.installed).1
= inr [BeatArtifacts.Item (Examples.beat ++ ["core"; "agents"; "dev.md"]) "dev" "core"].
Proof. vm_compute. reflexivity. Qed.

(* ================================================================== *)
(** ** Reasoning about installer computations *)
(* ================================================================== *)

Module FsFacts.
Import Path Fs FsOps.

Lemma bind_run {A B} (m : M A) (f : A -> M B) w :
  bind m f w = match m w with
               | (inl e, w') => (inl e, w')
               | (inr a, w') => f a w'
               end.
Proof. reflexivity. Qed.

Lemma bind_ok {A B} (m : M A) (f : A -> M B) w a w1 :
  m w = (inr a, w1) -> bind m f w = f a w1.
Proof. intros H. unfold bind. now rewrite H. Qed.

Lemma bind_err {A B} (m : M A) (f : A -> M B) w e w1 :
  m w = (inl e, w1) -> bind m f w = (inl e, w1).
Proof. intros H. unfold bind. now rewrite H. Qed.

Lemma bind_inv {A B} (m : M A) (f : A -> M B) w r w' :
  bind m f w = (r, w') ->
  (exists e, m w = (inl e, w') /\ r = inl e) \/
  (exists a w1, m w = (inr a, w1) /\ f a w1 = (r, w')).
Proof.
  unfold bind. destruct (m w) as [[e|a] w1]; intros H.
  - left. exists e. now inversion H.
  - right. now exists a, w1.
Qed.

(** *** What each call does *)

Lemma pathExists_run p w :
  pathExists p w =
    (inr (match node_at (files w) p with Some _ => true | None => false end),
     World (files w) (log w ++ [PathExists p])).
Proof. reflexivity. Qed.

Lemma readdir_run p w :
  readdir p w =
    (match node_at (files w) p with
     | Some Directory => inr (names (files w) p)
     | Some _ => inl (ENOTDIR p)
     | None => inl (ENOENT p)
     end, World (files w) (log w ++ [Readdir p])).
Proof.
  unfold readdir, bind, record, get_files; simpl.
  destruct (node_at (files w) p) as [[]|]; reflexivity.
Qed.

Lemma readdirTypes_run p w :
  readdirTypes p w =
    (match node_at (files w) p with
     | Some Directory => inr (dirents (files w) p)
     | Some _ => inl (ENOTDIR p)
     | None => inl (ENOENT p)
     end, World (files w) (log w ++ [Readdir p])).
Proof.
  unfold readdirTypes, bind, record, get_files; simpl.
  destruct (node_at (files w) p) as [[]|]; reflexivity.
Qed.

Lemma readFile_run p w :
  readFile p w =
    (match node_at (files w) p with
     | Some (File c) => inr c
     | Some Directory => inl (EISDIR p)
     | Some Special => inl (EINVAL p)
     | None => inl (ENOENT p)
     end, World (files w) (log w ++ [ReadFile p])).
Proof.
  unfold readFile, bind, record, get_files; simpl.
  destruct (node_at (files w) p) as [[]|]; reflexivity.
Qed.

Lemma stat_run p w :
  stat p w =
    (match node_at (files w) p with
     | Some n => inr (kind_of n)
     | None => inl (ENOENT p)
     end, World (files w) (log w ++ [Stat p])).
Proof.
  unfold stat, bind, record, get_files; simpl.
  destruct (node_at (files w) p); reflexivity.
Qed.

Lemma remove_run p w :
  remove p w = (inr tt, World (rm p (files w)) (log w ++ [Remove p])).
Proof. reflexivity. Qed.

Lemma ensureDir_run p w :
  ensureDir p w =
    match mkdirs (files w) [] p with
    | inr t' => (inr tt, World t' (log w ++ [EnsureDir p]))
    | inl e => (inl e, World (files w) (log w ++ [EnsureDir p]))
    end.
Proof.
  unfold ensureDir, bind, record, get_files; simpl.
  destruct (mkdirs (files w) [] p); reflexivity.
Qed.

(** *** Computations that only read *)

(** A reader leaves the tree as it is, and its outcome depends on
    the tree alone. *)
Definition reader {A} (m : M A) : Prop :=
  forall w,
    files (m w).2 = files w /\
    forall w', files w' = files w -> (m w').1 = (m w).1.

Lemma reader_ret {A} (a : A) : reader (ret a).
Proof. intros w; split; [reflexivity | intros; reflexivity]. Qed.

Lemma reader_throw {A} e : reader (@throw A e).
Proof. intros w; split; [reflexivity | intros; reflexivity]. Qed.

Lemma reader_bind {A B} (m : M A) (f : A -> M B) :
  reader m -> (forall a, reader (f a)) -> reader (bind m f).
Proof.
  intros Hm Hf w. destruct (Hm w) as [Hfiles Hres].
  split.
  - unfold bind. destruct (m w) as [[e|a] w1] eqn:E; simpl in *; [assumption|].
    destruct (Hf a w1) as [H1 _]. now rewrite H1.
  - intros w' Hw'. specialize (Hres w' Hw').
    unfold bind.
    destruct (Hm w') as [Hfiles' _].
    destruct (m w) as [[e|a] w1] eqn:E, (m w') as [[e'|a'] w1'] eqn:E';
      simpl in *; try congruence.
    inversion Hres; subst a'.
    destruct (Hf a w1) as [_ H2]. apply H2. congruence.
Qed.

Lemma reader_pathExists p : reader (pathExists p).
Proof.
  intros w; split; [reflexivity|]. intros w' H.
  rewrite !pathExists_run; simpl. now rewrite H.
Qed.

Lemma reader_readdir p : reader (readdir p).
Proof.
  intros w; split; [now rewrite readdir_run|]. intros w' H.
  rewrite !readdir_run; simpl. now rewrite H.
Qed.

Lemma reader_readdirTypes p : reader (readdirTypes p).
Proof.
  intros w; split; [now rewrite readdirTypes_run|]. intros w' H.
  rewrite !readdirTypes_run; simpl. now rewrite H.
Qed.

Lemma reader_readFile p : reader (readFile p).
Proof.
  intros w; split; [now rewrite readFile_run|]. intros w' H.
  rewrite !readFile_run; simpl. now rewrite H.
Qed.

Lemma reader_stat p : reader (stat p).
Proof.
  intros w; split; [now rewrite stat_run|]. intros w' H.
  rewrite !stat_run; simpl. now rewrite H.
Qed.

Lemma reader_foldM {A B} (f : B -> A -> M B) l :
  (forall acc x, reader (f acc x)) -> forall acc, reader (foldM f acc l).
Proof.
  intros Hf. induction l as [|x l IH]; intros acc; simpl.
  - apply reader_ret.
  - apply reader_bind; [apply Hf | intros; apply IH].
Qed.

Lemma reader_forEach {A} (f : A -> M unit) l :
  (forall x, reader (f x)) -> reader (forEach l f).
Proof.
  intros Hf. induction l as [|x l IH]; simpl.
  - apply reader_ret.
  - apply reader_bind; [apply Hf | intros; apply IH].
Qed.

Lemma reader_files {A} (m : M A) w : reader m -> files (m w).2 = files w.
Proof. intros H. apply H. Qed.

Lemma reader_result {A} (m : M A) w w' :
  reader m -> files w' = files w -> (m w').1 = (m w).1.
Proof. intros H. now apply H. Qed.

(** *** The calls a computation issues *)

(** Every call issued by [m], whatever the outcome, satisfies [P]. *)
Definition emits {A} (P : call -> Prop) (m : M A) : Prop :=
  forall w, exists l, log (m w).2 = log w ++ l /\ Forall P l.

Lemma emits_ret {A} P (a : A) : emits P (ret a).
Proof. intros w. exists []. simpl. now rewrite app_nil_r. Qed.

Lemma emits_throw {A} P e : emits P (@throw A e).
Proof. intros w. exists []. simpl. now rewrite app_nil_r. Qed.

Lemma emits_bind {A B} P (m : M A) (f : A -> M B) :
  emits P m -> (forall a, emits P (f a)) -> emits P (bind m f).
Proof.
  intros Hm Hf w. destruct (Hm w) as (l1 & E1 & F1).
  unfold bind. destruct (m w) as [[e|a] w1]; simpl in *.
  - now exists l1.
  - destruct (Hf a w1) as (l2 & E2 & F2).
    exists (l1 ++ l2). split.
    + rewrite E2, E1. now rewrite app_assoc.
    + now apply Forall_app.
Qed.

Lemma emits_weaken {A} (P Q : call -> Prop) (m : M A) :
  (forall c, P c -> Q c) -> emits P m -> emits Q m.
Proof.
  intros HPQ Hm w. destruct (Hm w) as (l & E & F).
  exists l. split; [assumption|]. eapply Forall_impl; eauto.
Qed.

Lemma emits_record P c : P c -> emits P (record c).
Proof. intros H w. exists [c]. simpl. split; [reflexivity|]. now constructor. Qed.

Lemma emits_get_files P : emits P get_files.
Proof. intros w. exists []. simpl. now rewrite app_nil_r. Qed.

Lemma emits_put_files P t : emits P (put_files t).
Proof. intros w. exists []. simpl. now rewrite app_nil_r. Qed.

Lemma emits_foldM {A B} P (f : B -> A -> M B) l :
  (forall acc x, emits P (f acc x)) -> forall acc, emits P (foldM f acc l).
Proof.
  intros Hf. induction l as [|x l IH]; intros acc; simpl.
  - apply emits_ret.
  - apply emits_bind; [apply Hf | intros; apply IH].
Qed.

Lemma emits_forEach {A} P (f : A -> M unit) l :
  (forall x, emits P (f x)) -> emits P (forEach l f).
Proof.
  intros Hf. induction l as [|x l IH]; simpl.
  - apply emits_ret.
  - apply emits_bind; [apply Hf | intros; apply IH].
Qed.

Lemma emits_catch {A} P (m : M A) h :
  emits P m -> (forall e, emits P (h e)) -> emits P (catch m h).
Proof.
  intros Hm Hh w. destruct (Hm w) as (l1 & E1 & F1).
  unfold catch. destruct (m w) as [[e|a] w1]; simpl in *.
  - destruct (Hh e w1) as (l2 & E2 & F2).
    exists (l1 ++ l2). split.
    + rewrite E2, E1. now rewrite app_assoc.
    + now apply Forall_app.
  - now exists l1.
Qed.

End FsFacts.

(* ================================================================== *)
(** ** Facts about strings *)
(* ================================================================== *)

Module StrFacts.

(** [c] does not occur in [s]. *)
Definition absent (c : ascii) (s : string) : Prop :=
  Js.includes (String c EmptyString) s = false.

Lemma absent_nil c : absent c EmptyString.
Proof. reflexivity. Qed.

Lemma absent_cons c a s : absent c (String a s) <-> a <> c /\ absent c s.
Proof.
  unfold absent; simpl.
  destruct (Ascii.eqb_spec c a) as [->|Hne]; simpl.
  - split; [discriminate | intros [H _]; congruence].
  - split; [intros H; split; [congruence | assumption] | intros [_ H]; assumption].
Qed.

Lemma absent_app c s1 s2 : absent c (s1 +:+ s2) <-> absent c s1 /\ absent c s2.
Proof.
  induction s1 as [|a s1 IH].
  - split; [intros H; split; [apply absent_nil | assumption] | intros [_ H]; assumption].
  - change (String a s1 +:+ s2) with (String a (s1 +:+ s2)).
    rewrite !absent_cons, IH. tauto.
Qed.

Lemma append_nil_r s : s +:+ EmptyString = s.
Proof. induction s; simpl; congruence. Qed.

Lemma append_assoc s1 s2 s3 : (s1 +:+ s2) +:+ s3 = s1 +:+ s2 +:+ s3.
Proof. induction s1; simpl; congruence. Qed.

Lemma length_append s1 s2 :
  String.length (s1 +:+ s2) = String.length s1 + String.length s2.
Proof. induction s1; simpl; congruence. Qed.

(** A suffix can be cancelled. *)
Lemma append_inv_r s a b : a +:+ s = b +:+ s -> a = b.
Proof.
  revert b. induction a as [|x a IH]; intros [|y b] H; simpl in *.
  - reflexivity.
  - apply (f_equal String.length) in H. simpl in H. rewrite length_append in H. lia.
  - apply (f_equal String.length) in H. simpl in H. rewrite length_append in H. lia.
  - inversion H; subst. f_equal. now apply IH.
Qed.

(** Two texts that agree up to and including the first occurrence of
    [c] on each side agree before it and after it. *)
Lemma split_at_first c a1 r1 a2 r2 :
  absent c a1 -> absent c a2 ->
  a1 +:+ String c r1 = a2 +:+ String c r2 -> a1 = a2 /\ r1 = r2.
Proof.
  revert a2. induction a1 as [|x a1 IH]; intros [|y a2] H1 H2 H; simpl in *.
  - inversion H. auto.
  - inversion H; subst. apply absent_cons in H2. tauto.
  - inversion H; subst. apply absent_cons in H1. tauto.
  - inversion H; subst. apply absent_cons in H1, H2.
    destruct (IH a2) as [-> ->]; tauto.
Qed.

Lemma split_nonempty sep s : Js.split sep s <> [].
Proof.
  destruct s as [|c s]; simpl; [discriminate|].
  destruct (Ascii.eqb c sep); [discriminate|].
  destruct (Js.split sep s); discriminate.
Qed.

Lemma split_absent sep s : absent sep s -> Js.split sep s = [s].
Proof.
  induction s as [|c s IH]; intros H; simpl; [reflexivity|].
  apply absent_cons in H; destruct H as [Hc Hs].
  destruct (Ascii.eqb_spec c sep); [contradiction|].
  now rewrite IH.
Qed.

Lemma split_app sep a b :
  absent sep a -> Js.split sep (a +:+ String sep b) = a :: Js.split sep b.
Proof.
  induction a as [|c a IH]; intros H; simpl.
  - now rewrite Ascii.eqb_refl.
  - apply absent_cons in H; destruct H as [Hc Ha].
    destruct (Ascii.eqb_spec c sep); [contradiction|].
    now rewrite IH.
Qed.

Lemma join_cons_char sep c w ws :
  Js.join sep (String c w :: ws) = String c (Js.join sep (w :: ws)).
Proof. destruct ws; reflexivity. Qed.

Lemma startsWith_app p s : Js.startsWith p (p +:+ s) = true.
Proof. induction p; simpl; [reflexivity|]. now rewrite Ascii.eqb_refl. Qed.

Lemma startsWith_inv p s :
  Js.startsWith p s = true -> exists r, s = p +:+ r.
Proof.
  revert s. induction p as [|a p IH]; intros s H; simpl in *.
  - now exists s.
  - destruct s as [|b s]; [discriminate|].
    apply andb_true_iff in H; destruct H as [Hab H].
    apply Ascii.eqb_eq in Hab; subst b.
    destruct (IH s H) as [r ->]. now exists r.
Qed.

Lemma replaceSeps_app c a b :
  Js.replaceSeps c (a +:+ b) = Js.replaceSeps c a +:+ Js.replaceSeps c b.
Proof. induction a; simpl; congruence. Qed.

Lemma replaceSeps_id c s :
  absent "/"%char s -> absent "\"%char s -> Js.replaceSeps c s = s.
Proof.
  induction s as [|a s IH]; intros H1 H2; simpl; [reflexivity|].
  apply absent_cons in H1, H2. destruct H1 as [N1 H1], H2 as [N2 H2].
  rewrite IH by assumption. unfold Js.is_sep.
  destruct (Ascii.eqb_spec a "/"%char); [contradiction|].
  destruct (Ascii.eqb_spec a "\"%char); [contradiction|]. reflexivity.
Qed.

Lemma replaceSeps_no_slash c s :
  c <> "/"%char -> absent "/"%char (Js.replaceSeps c s).
Proof.
  intros Hc. induction s as [|a s IH]; simpl; [apply absent_nil|].
  apply absent_cons. split; [|assumption].
  unfold Js.is_sep. destruct (Ascii.eqb_spec a "/"%char) as [->|Hne]; simpl; [assumption|].
  destruct (Ascii.eqb a "\"%char); assumption.
Qed.

End StrFacts.

(* ================================================================== *)
(** ** Titles *)
(* ================================================================== *)

Module TitleFacts.
Import StrFacts.

(** [formatTitle] is the title case of the specification.  The two
    statements go together: the one for a name whose first word is
    still to be capitalized, the other for a word already begun. *)
Lemma formatTitle_titleCaseFrom name :
  Js.join " " (map Trae.capitalize (Js.split "-"%char name)) = Spec.titleCaseFrom true name /\
  (forall w ws, Js.split "-"%char name = w :: ws ->
     Js.join " " (w :: map Trae.capitalize ws) = Spec.titleCaseFrom false name).
Proof.
  assert (Hcons : forall l, l <> [] ->
            Js.join " " (EmptyString :: l) = String " "%char (Js.join " " l)).
  { intros [|x l] Hl; [contradiction | reflexivity]. }
  assert (Hne : forall s, map Trae.capitalize (Js.split "-"%char s) <> []).
  { intros s. pose proof (split_nonempty "-"%char s).
    destruct (Js.split "-"%char s); [contradiction | discriminate]. }
  induction name as [|c name [IH1 IH2]].
  - split; [reflexivity | intros w ws H; inversion H; reflexivity].
  - cbn [Js.split Spec.titleCaseFrom]. destruct (Ascii.eqb c "-"%char) eqn:E.
    + split.
      * cbn [map Trae.capitalize]. rewrite Hcons by apply Hne. now rewrite IH1.
      * intros w ws H; inversion H; subst.
        rewrite Hcons by apply Hne. now rewrite IH1.
    + destruct (Js.split "-"%char name) as [|w ws] eqn:S.
      { exfalso. now apply (split_nonempty "-"%char name). }
      split.
      * cbn [map Trae.capitalize]. rewrite join_cons_char.
        now rewrite (IH2 w ws eq_refl).
      * intros w' ws' H; inversion H; subst w' ws'.
        rewrite join_cons_char. now rewrite (IH2 w ws eq_refl).
Qed.

Lemma formatTitle_titleCase name : Trae.formatTitle name = Spec.titleCase name.
Proof. apply formatTitle_titleCaseFrom. Qed.

Lemma titleCase_nonempty name : name <> EmptyString -> Spec.titleCase name <> EmptyString.
Proof.
  destruct name as [|c name]; [contradiction|]. intros _.
  unfold Spec.titleCase; simpl. destruct (Ascii.eqb c "-"%char); discriminate.
Qed.

Example formatTitle_dev_story : Trae.formatTitle "dev-story" = "Dev Story".
Proof. reflexivity. Qed.

Example formatTitle_empty : Trae.formatTitle EmptyString = EmptyString.
Proof. reflexivity. Qed.

End TitleFacts.

(* ================================================================== *)
(** ** Facts about paths *)
(* ================================================================== *)

Module PathFacts.
Import StrFacts Path FsOps.

Definition valid (s : string) : Prop := valid_name s = true.

Lemma valid_inv s :
  valid s -> s <> EmptyString /\ absent "/"%char s /\ s <> "." /\ s <> "..".
Proof.
  unfold valid, valid_name. intros H.
  apply andb_true_iff in H; destruct H as [H H4].
  apply andb_true_iff in H; destruct H as [H H3].
  apply andb_true_iff in H; destruct H as [H1 H2].
  apply negb_true_iff in H2, H3, H4.
  repeat split.
  - destruct s; [discriminate | discriminate].
  - exact H2.
  - intros ->. discriminate.
  - intros ->. discriminate.
Qed.

Lemma valid_intro s :
  s <> EmptyString -> absent "/"%char s -> s <> "." -> s <> ".." -> valid s.
Proof.
  intros H1 H2 H3 H4. unfold valid, valid_name.
  rewrite H2. destruct s; [contradiction|]. simpl.
  unfold is_dot, is_dotdot.
  apply eqb_neq in H3, H4. now rewrite H3, H4.
Qed.

Lemma step_valid acc s : valid s -> step acc s = s :: acc.
Proof.
  intros H. destruct (valid_inv s H) as (H1 & _ & H3 & H4).
  unfold step, is_dot, is_dotdot.
  apply eqb_neq in H3, H4. rewrite H3, H4.
  destruct s; [contradiction | reflexivity].
Qed.

Lemma step_rel_valid acc s : valid s -> step_rel acc s = s :: acc.
Proof.
  intros H. destruct (valid_inv s H) as (H1 & _ & H3 & H4).
  unfold step_rel, is_dot, is_dotdot.
  apply eqb_neq in H3, H4. rewrite H3, H4.
  destruct s; [contradiction | reflexivity].
Qed.

Lemma segments_valid l : Forall valid l -> segments l = l.
Proof.
  unfold segments. induction 1 as [|s l Hs Hl IH]; simpl; [reflexivity|].
  destruct (valid_inv s Hs) as (_ & H2 & _).
  rewrite (split_absent _ _ H2). simpl. now rewrite IH.
Qed.

Lemma fold_step_valid l acc : Forall valid l -> fold_left step l acc = rev l ++ acc.
Proof.
  intros H. revert acc. induction H as [|s l Hs Hl IH]; intros acc; simpl; [reflexivity|].
  rewrite step_valid by assumption. rewrite IH. now rewrite <- app_assoc.
Qed.

Lemma fold_step_rel_valid l acc :
  Forall valid l -> fold_left step_rel l acc = rev l ++ acc.
Proof.
  intros H. revert acc. induction H as [|s l Hs Hl IH]; intros acc; simpl; [reflexivity|].
  rewrite step_rel_valid by assumption. rewrite IH. now rewrite <- app_assoc.
Qed.

(** Joining file names onto a directory appends them. *)
Lemma join_valid d l : Forall valid l -> join d l = d ++ l.
Proof.
  intros H. unfold join. rewrite (segments_valid l H), (fold_step_valid l _ H).
  now rewrite rev_app_distr, !rev_involutive.
Qed.

Lemma join_one d s : valid s -> join d [s] = d ++ [s].
Proof. intros H. apply join_valid. now constructor. Qed.

(** The segments of a joined path are file names whenever those of
    the directory are. *)
Lemma split_no_slash s : Forall (absent "/"%char) (Js.split "/"%char s).
Proof.
  induction s as [|c s IH]; simpl.
  - constructor; [apply absent_nil | constructor].
  - destruct (Ascii.eqb_spec c "/"%char) as [->|Hne].
    + constructor; [apply absent_nil | assumption].
    + destruct (Js.split "/"%char s) as [|w ws].
      * constructor; [|constructor]. apply absent_cons. split; [assumption | apply absent_nil].
      * inversion IH; subst. constructor; [|assumption]. apply absent_cons. now split.
Qed.

Lemma step_keeps_valid acc s :
  absent "/"%char s -> Forall valid acc -> Forall valid (step acc s).
Proof.
  intros Hs Hacc. unfold step.
  destruct (negb (Js.nonempty s) || is_dot s) eqn:E1; [assumption|].
  destruct (is_dotdot s) eqn:E2.
  - destruct acc; simpl; [constructor | now inversion Hacc].
  - constructor; [|assumption].
    apply orb_false_iff in E1; destruct E1 as [E1 E3].
    apply negb_false_iff in E1.
    unfold valid, valid_name. now rewrite E1, Hs, E3, E2.
Qed.

Lemma join_keeps_valid d l : Forall valid d -> Forall valid (join d l).
Proof.
  intros Hd. unfold join. apply Forall_rev.
  assert (Hseg : Forall (absent "/"%char) (segments l)).
  { unfold segments. induction l as [|s l IH]; simpl; [constructor|].
    apply Forall_app. split; [apply split_no_slash | assumption]. }
  assert (Hacc : Forall valid (rev d)) by now apply Forall_rev.
  revert Hacc. generalize (rev d). induction Hseg as [|s ss Hs Hss IH]; intros acc Hacc; simpl.
  - assumption.
  - apply IH. now apply step_keeps_valid.
Qed.

(** *** Relative path strings *)

Lemma split_join l :
  l <> [] -> Forall (absent "/"%char) l -> Js.split "/"%char (Js.join "/" l) = l.
Proof.
  intros Hne H. induction H as [|w l Hw Hl IH]; [contradiction|].
  destruct l as [|w2 ws].
  - simpl. now apply split_absent.
  - change (Js.join "/" (w :: w2 :: ws)) with (w +:+ String "/"%char (Js.join "/" (w2 :: ws))).
    rewrite split_app by assumption. f_equal. apply IH. discriminate.
Qed.

Lemma endsWith_slash_app x s :
  s <> EmptyString -> Js.endsWith "/" s = false -> Js.endsWith "/" (x +:+ s) = false.
Proof.
  intros Hs H. induction x as [|a x IH]; [assumption|].
  change (String a x +:+ s) with (String a (x +:+ s)).
  cbn [Js.endsWith]. rewrite IH, orb_false_r.
  destruct (String.eqb_spec "/" (String a (x +:+ s))) as [E|E]; [|reflexivity].
  inversion E as [[Ea Ex]]. destruct x; simpl in Ex; [congruence | discriminate].
Qed.

Lemma endsWith_slash_absent s : absent "/"%char s -> Js.endsWith "/" s = false.
Proof.
  induction s as [|a s IH]; intros H; [reflexivity|].
  apply absent_cons in H; destruct H as [Ha Hs].
  cbn [Js.endsWith]. rewrite (IH Hs), orb_false_r.
  destruct (String.eqb_spec "/" (String a s)) as [E|E]; [|reflexivity].
  inversion E; congruence.
Qed.

Lemma join_nonempty sep w l : w <> EmptyString -> Js.join sep (w :: l) <> EmptyString.
Proof. intros H. destruct w; [contradiction|]. destruct l; simpl; discriminate. Qed.

Lemma join_endsWith l :
  l <> [] -> Forall valid l -> Js.endsWith "/" (Js.join "/" l) = false.
Proof.
  intros Hne H. induction H as [|w l Hw Hl IH]; [contradiction|].
  destruct (valid_inv w Hw) as (W1 & W2 & _).
  destruct l as [|w2 ws].
  - simpl. now apply endsWith_slash_absent.
  - change (Js.join "/" (w :: w2 :: ws)) with (w +:+ "/" +:+ Js.join "/" (w2 :: ws)).
    rewrite <- append_assoc. apply endsWith_slash_app.
    + inversion Hl; subst. apply join_nonempty. now destruct (valid_inv w2 H1).
    + apply IH. discriminate.
Qed.

Lemma join_startsWith w l : valid w -> Js.startsWith "/" (Js.join "/" (w :: l)) = false.
Proof.
  intros Hw. destruct (valid_inv w Hw) as (W1 & W2 & _).
  destruct w as [|a w]; [contradiction|].
  apply absent_cons in W2; destruct W2 as [Ha _].
  rewrite join_cons_char. cbn [Js.startsWith].
  destruct (Ascii.eqb_spec "/"%char a); [congruence | reflexivity].
Qed.

Lemma filter_nonempty_valid l :
  Forall valid l -> filter (fun a => Js.nonempty a) l = l.
Proof.
  induction 1 as [|w l Hw Hl IH]; [reflexivity|].
  destruct (valid_inv w Hw) as (W1 & _).
  destruct w; [contradiction|].
  rewrite filter_cons_True by (simpl; exact I). now rewrite IH.
Qed.

(** Joining file names gives them back separated by slashes. *)
Lemma join_str_valid l : l <> [] -> Forall valid l -> join_str l = Js.join "/" l.
Proof.
  intros Hne H. unfold join_str. rewrite (filter_nonempty_valid l H).
  destruct l as [|w l]; [contradiction|].
  assert (Hw : valid w) by now inversion H.
  assert (Hj : Js.join "/" (w :: l) <> EmptyString).
  { apply join_nonempty. now destruct (valid_inv w Hw). }
  destruct (Js.join "/" (w :: l)) as [|c j] eqn:E; [contradiction|].
  cbn [Js.nonempty]. rewrite <- E. unfold normalize.
  rewrite (join_startsWith w l Hw), (join_endsWith _ Hne H). cbn [andb].
  rewrite split_join; [|assumption|].
  - rewrite (fold_step_rel_valid _ _ H), app_nil_r, rev_involutive.
    rewrite E. cbn [Js.nonempty]. simpl. now rewrite append_nil_r.
  - eapply Forall_impl; [exact H|]. intros s Hs. now destruct (valid_inv s Hs) as (_ & ? & _).
Qed.

(** A name followed by an extension is a file name when the name has
    no slash. *)
Lemma valid_ext n ext :
  absent "/"%char n -> valid ext -> 2 < String.length ext -> valid (n +:+ ext).
Proof.
  intros Hn Hext Hlen. destruct (valid_inv ext Hext) as (E1 & E2 & _).
  apply valid_intro.
  - destruct n; simpl; [assumption | discriminate].
  - apply absent_app; now split.
  - intros H. apply (f_equal String.length) in H. rewrite length_append in H. simpl in H. lia.
  - intros H. apply (f_equal String.length) in H. rewrite length_append in H. simpl in H. lia.
Qed.

End PathFacts.

(* ================================================================== *)
(** ** C3: the title when no pattern matches *)
(* ================================================================== *)

Module TitleFallback.
Import StrFacts TitleFacts BaseIdeSetup AgentCommandGenerator.

Lemma startsWith_app_both a b c :
  Js.startsWith (a +:+ b) (a +:+ c) = Js.startsWith b c.
Proof. induction a; simpl; [reflexivity|]. now rewrite Ascii.eqb_refl. Qed.

(** What the claim says of the Cursor adapter: when the content has
    no title attribute the title is the title-cased name. *)
Definition cursor_falls_back_to_title_case (content name : string) : Prop :=
  Regex.search (Regex.attr "title") content = None ->
  Cursor.captured (Regex.attr "title") content name = Spec.titleCase name.

(** C3 as stated fails for the Cursor adapter: an agent file without
    title attribute and the name dev-story is described under the
    name itself, not under its title case. *)
Lemma cursor_title_is_raw_name :
  Cursor.description "<agent>" (Metadata "core" "dev-story") = "BEAT CORE Agent: dev-story" /\
  Spec.titleCase "dev-story" = "Dev Story" /\
  ~ cursor_falls_back_to_title_case "<agent>" "dev-story".
Proof.
  split; [reflexivity|]. split; [reflexivity|].
  intros H. specialize (H eq_refl). vm_compute in H. discriminate.
Qed.

(** C3 (amended): for an artifact whose content matches none of the
    title patterns, the Trae adapter titles the rule with
    [formatTitle] of the name, which is the title case of the
    specification (each word between hyphens capitalized, joined by
    spaces) and is not empty unless the name is; the rule text opens
    with that title.  The Cursor adapter falls back to the name as it
    is. *)
Theorem title_fallback (a : artifact) (task : resource) (content : string)
    (projectDir : path) (md : metadata) :
  Regex.search (Regex.field "description") (art_content a) = None ->
  Regex.search (Regex.attr "name") content = None ->
  Regex.search (Regex.attr "title") content = None ->
  Trae.agentTitle a = Spec.titleCase (art_name a) /\
  Trae.resourceTitle task content = Spec.titleCase (res_name task) /\
  (art_name a <> EmptyString -> Trae.agentTitle a <> EmptyString) /\
  (res_name task <> EmptyString -> Trae.resourceTitle task content <> EmptyString) /\
  Js.startsWith ("# " +:+ Spec.titleCase (art_name a) +:+ " Agent Rule")
    (Trae.createAgentRule a projectDir) = true /\
  Js.startsWith ("# " +:+ Spec.titleCase (res_name task) +:+ " Task Rule")
    (Trae.createTaskRule task content) = true /\
  Cursor.captured (Regex.attr "title") content (meta_name md) = meta_name md /\
  Cursor.captured (Regex.attr "name") content (meta_name md) = meta_name md.
Proof.
  intros Hd Hn Ht.
  assert (Ha : Trae.agentTitle a = Spec.titleCase (art_name a)).
  { unfold Trae.agentTitle. rewrite Hd. apply formatTitle_titleCase. }
  assert (Hr : Trae.resourceTitle task content = Spec.titleCase (res_name task)).
  { unfold Trae.resourceTitle. rewrite Hn. apply formatTitle_titleCase. }
  repeat split.
  - exact Ha.
  - exact Hr.
  - intros H. rewrite Ha. now apply titleCase_nonempty.
  - intros H. rewrite Hr. now apply titleCase_nonempty.
  - unfold Trae.createAgentRule. rewrite Ha.
    rewrite (startsWith_app_both "# "), startsWith_app_both. reflexivity.
  - unfold Trae.createTaskRule. rewrite Hr.
    rewrite (startsWith_app_both "# "), startsWith_app_both. reflexivity.
  - unfold Cursor.captured. now rewrite Ht.
  - unfold Cursor.captured. now rewrite Hn.
Qed.

(** The theorem at the launcher of the agent dev-story and the task
    index-docs. *)
Lemma title_fallback_witness :
  Trae.agentTitle (Artifact "agent-launcher" "core" "dev-story" "core/agents/dev-story.md"
                     "You must fully embody this agent." ["proj"; "beat"; "core"; "agents"; "dev-story.md"])
    = "Dev Story" /\
  Trae.resourceTitle (Resource ["proj"; "beat"; "core"; "tasks"; "index-docs.md"]
                        "index-docs" "core" None) "<task>" = "Index Docs".
Proof.
  pose proof (title_fallback
    (Artifact "agent-launcher" "core" "dev-story" "core/agents/dev-story.md"
       "You must fully embody this agent." ["proj"; "beat"; "core"; "agents"; "dev-story.md"])
    (Resource ["proj"; "beat"; "core"; "tasks"; "index-docs.md"] "index-docs" "core" None)
    "<task>" ["proj"] (Metadata "core" "index-docs")
    eq_refl eq_refl eq_refl) as (H1 & H2 & _).
  split; [exact H1 | exact H2].
Defined.

End TitleFallback.

(* ================================================================== *)
(** ** C6: destinations of distinct artifacts *)
(* ================================================================== *)

Module NoCollision.
Import StrFacts PathFacts Path.

Lemma singleton_inj {A} (x y : A) : [x] = [y] -> x = y.
Proof. intros H. now inversion H. Qed.

Lemma singular_no_hyphen k : absent "-"%char (Spec.singular k).
Proof. destruct k; reflexivity. Qed.

Lemma plural_no_hyphen k : absent "-"%char (Spec.plural k).
Proof. destruct k; reflexivity. Qed.

Lemma plural_valid k : valid (Spec.plural k).
Proof. destruct k; reflexivity. Qed.

Lemma plural_no_backslash k : absent "\"%char (Spec.plural k).
Proof. destruct k; reflexivity. Qed.

Lemma singular_inj k1 k2 : Spec.singular k1 = Spec.singular k2 -> k1 = k2.
Proof. destruct k1, k2; simpl; intros H; try reflexivity; discriminate. Qed.

Lemma plural_inj k1 k2 : Spec.plural k1 = Spec.plural k2 -> k1 = k2.
Proof. destruct k1, k2; simpl; intros H; try reflexivity; discriminate. Qed.

(** The flat names of the Trae adapter, spelled out. *)
Lemma ruleName_eq kind m n :
  Trae.ruleName kind m n
  = "beat-" +:+ kind +:+ String "-"%char (m +:+ String "-"%char (n +:+ ".md")).
Proof. reflexivity. Qed.

Lemma ruleName_valid kind m n :
  absent "/"%char kind -> absent "/"%char m -> absent "/"%char n ->
  valid (Trae.ruleName kind m n).
Proof.
  intros Hk Hm Hn. rewrite ruleName_eq. apply valid_intro.
  - discriminate.
  - apply absent_app. split; [reflexivity|].
    apply absent_app. split; [assumption|].
    apply absent_cons. split; [discriminate|].
    apply absent_app. split; [assumption|].
    apply absent_cons. split; [discriminate|].
    apply absent_app. split; [assumption | reflexivity].
  - discriminate.
  - discriminate.
Qed.

Lemma ruleName_inj k1 m1 n1 k2 m2 n2 :
  absent "-"%char k1 -> absent "-"%char k2 ->
  absent "-"%char m1 -> absent "-"%char m2 ->
  Trae.ruleName k1 m1 n1 = Trae.ruleName k2 m2 n2 ->
  k1 = k2 /\ m1 = m2 /\ n1 = n2.
Proof.
  intros Hk1 Hk2 Hm1 Hm2 H. rewrite !ruleName_eq in H.
  apply (String.app_inj "beat-") in H.
  apply split_at_first in H; [|assumption..]. destruct H as [-> H].
  apply split_at_first in H; [|assumption..]. destruct H as [-> H].
  apply append_inv_r in H. auto.
Qed.

(** The flat names of the Codex and Cline adapters, spelled out. *)
Lemma flat_name m k n :
  valid m -> absent "\"%char m -> valid k -> absent "\"%char k ->
  absent "/"%char n -> absent "\"%char n ->
  Flat.flattenFilename (join_str [m; k; n +:+ ".md"])
  = "beat-" +:+ m +:+ String "-"%char (k +:+ String "-"%char (n +:+ ".md")).
Proof.
  intros Hm Hm' Hk Hk' Hn Hn'.
  assert (Hf : valid (n +:+ ".md")).
  { apply valid_ext; [assumption | reflexivity | simpl; lia]. }
  rewrite join_str_valid; [|discriminate|repeat constructor; assumption].
  unfold Flat.flattenFilename. f_equal.
  change (Js.join "/" [m; k; n +:+ ".md"])
    with (m +:+ String "/"%char (k +:+ String "/"%char (n +:+ ".md"))).
  destruct (valid_inv m Hm) as (_ & Hm2 & _), (valid_inv k Hk) as (_ & Hk2 & _).
  rewrite replaceSeps_app, (replaceSeps_id _ m) by assumption. f_equal.
  change (Js.replaceSeps "-" (String "/" (k +:+ String "/" (n +:+ ".md"))))
    with (String "-"%char (Js.replaceSeps "-" (k +:+ String "/"%char (n +:+ ".md")))).
  f_equal.
  rewrite replaceSeps_app, (replaceSeps_id _ k) by assumption. f_equal.
  change (Js.replaceSeps "-" (String "/" (n +:+ ".md")))
    with (String "-"%char (Js.replaceSeps "-" (n +:+ ".md"))).
  f_equal. rewrite replaceSeps_app, (replaceSeps_id _ n) by assumption. reflexivity.
Qed.

Lemma flattenFilename_valid r : valid (Flat.flattenFilename r).
Proof.
  unfold Flat.flattenFilename. apply valid_intro.
  - discriminate.
  - apply absent_app. split; [reflexivity|]. apply replaceSeps_no_slash. discriminate.
  - discriminate.
  - discriminate.
Qed.

(** What the claim says of the flat names of the Trae adapter:
    artifacts that differ in module, kind or name have different
    destinations. *)
Definition flat_names_injective : Prop :=
  forall rulesPath k1 m1 n1 k2 m2 n2,
    (k1, m1, n1) <> (k2, m2, n2) ->
    Trae.target rulesPath (Spec.singular k1) m1 n1
    <> Trae.target rulesPath (Spec.singular k2) m2 n2.

(** C6 as stated fails for flat naming: the agent c of module a-b and
    the agent b-c of module a are both written to
    beat-agent-a-b-c.md. *)
Lemma flat_names_collide :
  Trae.target ["proj"; ".trae"; "rules"] "agent" "a-b" "c"
    = ["proj"; ".trae"; "rules"; "beat-agent-a-b-c.md"] /\
  Trae.target ["proj"; ".trae"; "rules"] "agent" "a" "b-c"
    = ["proj"; ".trae"; "rules"; "beat-agent-a-b-c.md"] /\
  Flat.target ["home"; ".codex"; "prompts"] (join_str ["a-agents"; "agents"; "b.md"])
    = Flat.target ["home"; ".codex"; "prompts"] (join_str ["a"; "agents"; "agents-b.md"]) /\
  ~ flat_names_injective.
Proof.
  split; [reflexivity|]. split; [reflexivity|]. split; [reflexivity|].
  intros H.
  apply (H ["proj"; ".trae"; "rules"] Spec.Agent "a-b" "c" Spec.Agent "a" "b-c");
    [discriminate | reflexivity].
Qed.

(** C6 (amended): under the nested naming of Cursor and Windsurf,
    artifacts that differ in module, kind or name have different
    destinations, for modules that are file names and names without
    slash.  Under the flat naming of Trae and of Codex and Cline they
    have different destinations when, in addition, the module names
    contain no hyphen (and, for Codex and Cline, neither module nor
    name contains a backslash). *)
Theorem destinations_distinct (root : path) (k1 k2 : Spec.kind) (m1 n1 m2 n2 : string) :
  valid m1 -> valid m2 -> absent "/"%char n1 -> absent "/"%char n2 ->
  (Cursor.target root m1 (Spec.plural k1) n1 = Cursor.target root m2 (Spec.plural k2) n2 ->
     (k1, m1, n1) = (k2, m2, n2)) /\
  (Windsurf.target root m1 (Spec.plural k1) n1 = Windsurf.target root m2 (Spec.plural k2) n2 ->
     (k1, m1, n1) = (k2, m2, n2)) /\
  (absent "-"%char m1 -> absent "-"%char m2 ->
   Trae.target root (Spec.singular k1) m1 n1 = Trae.target root (Spec.singular k2) m2 n2 ->
     (k1, m1, n1) = (k2, m2, n2)) /\
  (absent "-"%char m1 -> absent "-"%char m2 ->
   absent "\"%char m1 -> absent "\"%char m2 -> absent "\"%char n1 -> absent "\"%char n2 ->
   Flat.target root (join_str [m1; Spec.plural k1; n1 +:+ ".md"])
     = Flat.target root (join_str [m2; Spec.plural k2; n2 +:+ ".md"]) ->
     (k1, m1, n1) = (k2, m2, n2)).
Proof.
  intros Hm1 Hm2 Hn1 Hn2.
  destruct (valid_inv m1 Hm1) as (_ & Hs1 & _), (valid_inv m2 Hm2) as (_ & Hs2 & _).
  assert (Hnested : forall ext, valid ext -> 2 < String.length ext ->
            join root [m1; Spec.plural k1; n1 +:+ ext]
              = join root [m2; Spec.plural k2; n2 +:+ ext] ->
            (k1, m1, n1) = (k2, m2, n2)).
  { intros ext Hext Hlen H.
    rewrite !join_valid in H
      by (repeat constructor; try assumption; try apply plural_valid; now apply valid_ext).
    apply app_inv_head in H. inversion H as [[E1 E2 E3]].
    apply plural_inj in E2. apply append_inv_r in E3. congruence. }
  repeat split.
  - apply (Hnested ".mdc"); [reflexivity | simpl; lia].
  - apply (Hnested ".md"); [reflexivity | simpl; lia].
  - intros Hh1 Hh2 H. unfold Trae.target in H.
    assert (Hk : forall k, absent "/"%char (Spec.singular k)) by (intros []; reflexivity).
    rewrite !join_one in H by (apply ruleName_valid; auto).
    apply app_inv_head, singleton_inj in H. rename H into E.
    apply ruleName_inj in E; try assumption; try apply singular_no_hyphen.
    destruct E as (E1 & -> & ->). apply singular_inj in E1. congruence.
  - intros Hh1 Hh2 Hb1 Hb2 Hc1 Hc2 H. unfold Flat.target in H.
    rewrite !join_one in H by apply flattenFilename_valid.
    apply app_inv_head, singleton_inj in H. rename H into E.
    rewrite !flat_name in E
      by (try assumption; try apply plural_valid; try apply plural_no_backslash).
    apply (String.app_inj "beat-") in E.
    apply split_at_first in E; [|assumption..]. destruct E as [-> E].
    apply split_at_first in E; [|apply plural_no_hyphen..]. destruct E as [E1 E].
    apply append_inv_r in E. apply plural_inj in E1. congruence.
Qed.

(** The theorem at the agents dev of core and dev-story of bmm:
    their destinations differ under the nested and the flat naming. *)
Lemma destinations_distinct_witness :
  Cursor.target ["proj"; ".cursor"; "rules"; "beat"] "core" "agents" "dev"
    <> Cursor.target ["proj"; ".cursor"; "rules"; "beat"] "bmm" "agents" "dev-story" /\
  Trae.target ["proj"; ".trae"; "rules"] "agent" "core" "dev"
    <> Trae.target ["proj"; ".trae"; "rules"] "agent" "bmm" "dev-story".
Proof.
  split.
  - intros H.
    apply (proj1 (destinations_distinct ["proj"; ".cursor"; "rules"; "beat"]
                    Spec.Agent Spec.Agent "core" "dev" "bmm" "dev-story"
                    eq_refl eq_refl eq_refl eq_refl)) in H.
    discriminate H.
  - intros H.
    apply (proj1 (proj2 (proj2 (destinations_distinct ["proj"; ".trae"; "rules"]
                    Spec.Agent Spec.Agent "core" "dev" "bmm" "dev-story"
                    eq_refl eq_refl eq_refl eq_refl))) eq_refl eq_refl) in H.
    discriminate H.
Defined.

End NoCollision.

(* ================================================================== *)
(** ** Facts about the tree *)
(* ================================================================== *)

Module TreeFacts.
Import StrFacts PathFacts Path Fs FsOps.

Lemma strip_prefix_app d r : strip_prefix d (d ++ r) = Some r.
Proof. induction d as [|a d IH]; simpl; [reflexivity|]. now rewrite String.eqb_refl. Qed.

Lemma strip_prefix_Some d k r : strip_prefix d k = Some r -> k = d ++ r.
Proof.
  revert k. induction d as [|a d IH]; intros k H; simpl in *.
  - now inversion H.
  - destruct k as [|b k]; [discriminate|].
    destruct (String.eqb_spec a b) as [->|]; [|discriminate].
    simpl. f_equal. now apply IH.
Qed.

Lemma child_of_Some d k n : child_of d k = Some n <-> k = d ++ [n].
Proof.
  unfold child_of. split.
  - destruct (strip_prefix d k) as [[|x [|y r]]|] eqn:E; intros H; inversion H; subst.
    now apply strip_prefix_Some.
  - intros ->. now rewrite strip_prefix_app.
Qed.

Lemma elem_of_names (t : gmap path node) d n :
  n ∈ names t d <-> is_Some (t !! (d ++ [n])).
Proof.
  unfold names. rewrite list_elem_of_omap. split.
  - intros ([k v] & Hin & Hc). simpl in Hc. apply child_of_Some in Hc. subst k.
    apply elem_of_map_to_list in Hin. now exists v.
  - intros [v Hv]. exists (d ++ [n], v). split.
    + now apply elem_of_map_to_list.
    + simpl. now apply child_of_Some.
Qed.

Lemma names_valid (t : gmap path node) d n :
  valid_tree t -> n ∈ names t d -> valid n.
Proof.
  intros Ht Hn. apply elem_of_names in Hn. destruct Hn as [v Hv].
  specialize (Ht _ _ Hv). apply Forall_app in Ht. destruct Ht as [_ Ht].
  now inversion Ht.
Qed.

Lemma node_at_app (t : gmap path node) d n : node_at t (d ++ [n]) = t !! (d ++ [n]).
Proof. unfold node_at. destruct (d ++ [n]) eqn:E; [|reflexivity]. now destruct d. Qed.

Lemma elem_of_dirents (t : gmap path node) d n k :
  (n, k) ∈ dirents t d <-> exists v, t !! (d ++ [n]) = Some v /\ kind_of v = k.
Proof.
  unfold dirents. rewrite list_elem_of_omap. split.
  - intros ([p v] & Hin & Hc). simpl in Hc.
    destruct (child_of d p) as [n'|] eqn:E; [|discriminate].
    inversion Hc; subst. apply child_of_Some in E. subst p.
    apply elem_of_map_to_list in Hin. now exists v.
  - intros (v & Hv & <-). exists (d ++ [n], v). split.
    + now apply elem_of_map_to_list.
    + simpl. assert (E : child_of d (d ++ [n]) = Some n) by now apply child_of_Some.
      now rewrite E.
Qed.

End TreeFacts.

(* ================================================================== *)
(** ** The collector *)
(* ================================================================== *)

Module CollectorFacts.
Import StrFacts PathFacts TreeFacts FsFacts Path Fs FsOps BeatArtifacts Collected.

Lemma reader_agentFile dirPath m acc file : reader (agentFile dirPath m acc file).
Proof.
  unfold agentFile.
  destruct (negb (Js.endsWith ".md" file)); [apply reader_ret|].
  destruct (Js.includes ".customize." file); [apply reader_ret|].
  apply reader_bind; [apply reader_readFile|]. intros c.
  destruct (Js.includes _ c); apply reader_ret.
Qed.

Lemma reader_getAgentsFromDir dirPath m : reader (getAgentsFromDir dirPath m).
Proof.
  unfold getAgentsFromDir. apply reader_bind; [apply reader_pathExists|].
  intros ex. destruct (negb ex); [apply reader_ret|].
  apply reader_bind; [apply reader_readdir|]. intros l.
  apply reader_foldM. intros; apply reader_agentFile.
Qed.

Lemma reader_getTasksFromDir dirPath m : reader (getTasksFromDir dirPath m).
Proof.
  unfold getTasksFromDir. apply reader_bind; [apply reader_pathExists|].
  intros ex. destruct (negb ex); [apply reader_ret|].
  apply reader_bind; [apply reader_readdir|]. intros l. apply reader_ret.
Qed.

Lemma reader_moduleItems fromDir beatDir sub acc m :
  (forall p n, reader (fromDir p n)) -> reader (moduleItems fromDir beatDir sub acc m).
Proof.
  intros H. unfold moduleItems. apply reader_bind; [apply reader_pathExists|].
  intros ex. destruct ex; [|apply reader_ret].
  apply reader_bind; [apply H|]. intros; apply reader_ret.
Qed.

Lemma reader_standaloneDir d acc e : reader (standaloneDir d acc e).
Proof.
  unfold standaloneDir. destruct (negb (isDirectory e.2)); [apply reader_ret|].
  apply reader_bind; [apply reader_readdir|]. intros l.
  apply reader_foldM. intros; apply reader_agentFile.
Qed.

Lemma reader_getAgentsFromBeat beatDir mods : reader (getAgentsFromBeat beatDir mods).
Proof.
  unfold getAgentsFromBeat. apply reader_bind; [apply reader_pathExists|].
  intros ex. apply reader_bind.
  { destruct ex; [apply reader_getAgentsFromDir | apply reader_ret]. }
  intros agents. apply reader_bind.
  { apply reader_foldM. intros. apply reader_moduleItems. apply reader_getAgentsFromDir. }
  intros agents'. apply reader_bind; [apply reader_pathExists|].
  intros ex'. destruct ex'; [|apply reader_ret].
  apply reader_bind; [apply reader_readdirTypes|]. intros l.
  apply reader_foldM. intros; apply reader_standaloneDir.
Qed.

Lemma reader_getTasksFromBeat beatDir mods : reader (getTasksFromBeat beatDir mods).
Proof.
  unfold getTasksFromBeat. apply reader_bind; [apply reader_pathExists|].
  intros ex. apply reader_bind.
  { destruct ex; [apply reader_getTasksFromDir | apply reader_ret]. }
  intros tasks. apply reader_foldM. intros. apply reader_moduleItems.
  apply reader_getTasksFromDir.
Qed.

(** The loop over the files of an agents directory returns the
    entries of the files kept, in the order of the listing. *)
Lemma agent_loop dirPath m l : forall acc w r w',
  foldM (agentFile dirPath m) acc l w = (inr r, w') ->
  r = acc ++ map (mkItem dirPath m) (filter (fun f => agent_keep (files w) dirPath f) l).
Proof.
  induction l as [|file l IH]; intros acc w r w' H.
  - simpl in H. inversion H. now rewrite app_nil_r.
  - cbn [foldM] in H. apply bind_inv in H.
    destruct H as [(e & _ & He) | (acc' & w1 & H1 & H2)]; [discriminate|].
    assert (Hf : files w1 = files w).
    { pose proof (reader_files (agentFile dirPath m acc file) w
                    (reader_agentFile _ _ _ _)) as Hr. now rewrite H1 in Hr. }
    apply IH in H2. rewrite Hf in H2. subst r.
    assert (Hskip : agent_keep (files w) dirPath file = false ->
              acc' = acc ->
              acc' ++ map (mkItem dirPath m)
                        (filter (fun f => agent_keep (files w) dirPath f) l)
              = acc ++ map (mkItem dirPath m)
                        (filter (fun f => agent_keep (files w) dirPath f) (file :: l))).
    { intros K ->. rewrite filter_cons_False by (rewrite K; simpl; tauto). reflexivity. }
    unfold agentFile in H1.
    destruct (Js.endsWith ".md" file) eqn:E1; cbn [negb] in H1.
    2:{ inversion H1; subst. apply Hskip; [|reflexivity].
        unfold agent_keep. now rewrite E1. }
    destruct (Js.includes ".customize." file) eqn:E2.
    { inversion H1; subst. apply Hskip; [|reflexivity].
      unfold agent_keep. now rewrite E1, E2. }
    apply bind_inv in H1.
    destruct H1 as [(e & _ & He) | (c & w2 & R1 & R2)]; [discriminate|].
    rewrite readFile_run in R1.
    destruct (node_at (files w) (join dirPath [file])) as [[content| |]|] eqn:N;
      inversion R1; subst.
    fold localskip in R2. destruct (Js.includes localskip c) eqn:E3; inversion R2; subst.
    + apply Hskip; [|reflexivity]. unfold agent_keep. now rewrite E1, E2, N, E3.
    + rewrite (filter_cons_True _ file).
      * cbn [map]. now rewrite <- app_assoc.
      * unfold agent_keep. rewrite E1, E2, N, E3. exact I.
Qed.

Lemma task_loop dirPath m l : forall acc,
  fold_left (taskFile dirPath m) l acc
  = acc ++ map (mkItem dirPath m) (filter (fun f => Js.endsWith ".md" f) l).
Proof.
  induction l as [|file l IH]; intros acc; simpl.
  - now rewrite app_nil_r.
  - rewrite IH. unfold taskFile.
    destruct (Js.endsWith ".md" file) eqn:E; cbn [negb].
    + rewrite filter_cons_True by (now rewrite E). cbn [map]. now rewrite <- app_assoc.
    + rewrite filter_cons_False by (now rewrite E). reflexivity.
Qed.

End CollectorFacts.

Module TreeCheckFacts.
Import PathFacts Path Fs FsOps TreeCheck.

Lemma valid_treeb_ok t : valid_treeb t = true -> valid_tree t.
Proof.
  unfold valid_treeb, valid_tree. intros H p n Hp.
  rewrite forallb_forall in H.
  specialize (H (p, n)). simpl in H.
  assert (Hin : In (p, n) (map_to_list t)).
  { apply list_elem_of_In. now apply elem_of_map_to_list. }
  specialize (H Hin). rewrite forallb_forall in H.
  apply List.Forall_forall. exact H.
Qed.

Lemma wf_treeb_ok t : wf_treeb t = true -> wf_tree t.
Proof.
  unfold wf_treeb, wf_tree. intros H p s n Hp.
  rewrite forallb_forall in H.
  assert (Hin : In (p ++ [s], n) (map_to_list t)).
  { apply list_elem_of_In. now apply elem_of_map_to_list. }
  specialize (H _ Hin). simpl in H.
  unfold parent in H. rewrite removelast_last in H.
  destruct (p ++ [s]) eqn:E; [now destruct p|].
  destruct (node_at t p) as [[]|]; congruence.
Qed.

End TreeCheckFacts.

(* ================================================================== *)
(** ** C4: the exclusion rules *)
(* ================================================================== *)

Module ExclusionRules.
Import StrFacts PathFacts TreeFacts FsFacts CollectorFacts TreeCheckFacts.
Import Path Fs FsOps BeatArtifacts Collected.

(** What the claim says of the task files: one whose name has the
    customization segment is not collected. *)
Definition customized_tasks_excluded : Prop :=
  forall dirPath m w r w' file,
    getTasksFromDir dirPath m w = (inr r, w') ->
    Js.includes ".customize." file = true ->
    forall it, it ∈ r -> item_path it <> dirPath ++ [file].

(** C4 as stated fails for tasks: the task file index.customize.md,
    whose content also carries the skip marker, is collected. *)
Lemma customized_task_collected :
  (getTasksFromBeat Examples.beat [] Examples.installed).1
  = inr [Item (Examples.beat ++ ["core"; "tasks"; "index.md"]) "index" "core";
         Item (Examples.beat ++ ["core"; "tasks"; "index.customize.md"])
           "index.customize" "core"] /\
  ~ customized_tasks_excluded.
Proof.
  split; [vm_compute; reflexivity|].
  intros H.
  refine (H (Examples.beat ++ ["core"; "tasks"]) "core" Examples.installed _ _
            "index.customize.md" _ eq_refl
            (Item (Examples.beat ++ ["core"; "tasks"; "index.customize.md"])
               "index.customize" "core") _ eq_refl).
  - vm_compute. reflexivity.
  - apply list_elem_of_In. right. left. reflexivity.
Qed.

(** C4 (amended): of the files of an agents directory, the collector
    returns those whose name ends in .md and has no customization
    segment and whose content lacks the skip marker, so that an agent
    file with either marker is excluded.  Of the files of a tasks
    directory it returns every one whose name ends in .md: neither
    check is applied to tasks. *)
Theorem exclusion_rules (dirPath : path) (m : string) (w : world) :
  valid_tree (files w) ->
  node_at (files w) dirPath = Some Directory ->
  (forall r w', getAgentsFromDir dirPath m w = (inr r, w') ->
     r = map (mkItem dirPath m)
           (filter (fun f => agent_keep (files w) dirPath f) (names (files w) dirPath)) /\
     forall file content,
       Js.includes ".customize." file = true \/
       (files w !! (dirPath ++ [file]) = Some (File content) /\
        Js.includes localskip content = true) ->
       forall it, it ∈ r -> item_path it <> dirPath ++ [file]) /\
  (getTasksFromDir dirPath m w).1
  = inr (map (mkItem dirPath m)
           (filter (fun f => Js.endsWith ".md" f) (names (files w) dirPath))).
Proof.
  intros Hvalid Hdir. split.
  - intros r w' H. unfold getAgentsFromDir in H.
    rewrite (bind_ok _ _ _ _ _ (pathExists_run dirPath w)) in H.
    rewrite Hdir in H. cbn [negb] in H.
    rewrite (bind_ok _ _ _ (names (files w) dirPath)
               (World (files w) ((log w ++ [PathExists dirPath]) ++ [Readdir dirPath]))) in H.
    2:{ rewrite readdir_run. simpl. now rewrite Hdir. }
    apply agent_loop in H. simpl in H. split; [exact H|].
    intros file content Hmark it Hit Hpath. subst r.
    apply list_elem_of_fmap in Hit. destruct Hit as (f & -> & Hf).
    apply list_elem_of_filter in Hf. destruct Hf as [Hkeep Hf].
    assert (Vf : valid f) by (eapply names_valid; eauto).
    unfold mkItem in Hpath. simpl in Hpath. rewrite join_one in Hpath by assumption.
    apply app_inv_head in Hpath. inversion Hpath; subst f.
    unfold agent_keep in Hkeep. rewrite join_one, node_at_app in Hkeep by assumption.
    destruct Hmark as [Hc | [Hc Hs]].
    + rewrite Hc in Hkeep. rewrite andb_false_r in Hkeep. exact Hkeep.
    + rewrite Hc, Hs in Hkeep. rewrite andb_false_r in Hkeep. exact Hkeep.
  - unfold getTasksFromDir.
    rewrite (bind_ok _ _ _ _ _ (pathExists_run dirPath w)).
    rewrite Hdir. cbn [negb].
    rewrite (bind_ok _ _ _ (names (files w) dirPath)
               (World (files w) ((log w ++ [PathExists dirPath]) ++ [Readdir dirPath]))).
    2:{ rewrite readdir_run. simpl. now rewrite Hdir. }
    simpl. now rewrite task_loop.
Qed.

(** The theorem at the agents directory of the example
    installation: of dev.md, dev.customize.md and the skipped web.md
    only dev.md is collected. *)
Lemma exclusion_rules_witness :
  (getAgentsFromDir (Examples.beat ++ ["core"; "agents"]) "core" Examples.installed).1
  = inr [Item (Examples.beat ++ ["core"; "agents"; "dev.md"]) "dev" "core"].
Proof.
  pose proof (exclusion_rules (Examples.beat ++ ["core"; "agents"]) "core" Examples.installed
                (valid_treeb_ok (files Examples.installed) eq_refl) eq_refl) as [H _].
  destruct (getAgentsFromDir (Examples.beat ++ ["core"; "agents"]) "core" Examples.installed)
    as [[e|r] w'] eqn:E.
  - vm_compute in E. discriminate E.
  - destruct (H r w' eq_refl) as [-> _]. vm_compute. reflexivity.
Defined.

End ExclusionRules.

(* ================================================================== *)
(** ** C5: missing directories *)
(* ================================================================== *)

Module MissingDirectories.
Import StrFacts PathFacts TreeFacts FsFacts CollectorFacts.
Import Path Fs FsOps BeatArtifacts Collected.

(** What the claim says of a missing core directory. *)
Definition missing_core_is_fatal : Prop :=
  forall beatDir mods w,
    present (files w) beatDir "agents" "core" = false ->
    fails (getAgentsFromBeat beatDir mods w).1.

(** C5 as stated fails where the installation is missing altogether:
    on the empty tree the collection of agents and of tasks returns
    the empty list and no error. *)
Lemma missing_installation_not_fatal :
  (getAgentsFromBeat Examples.beat ["bmm"] (Examples.mk [])).1 = inr [] /\
  (getTasksFromBeat Examples.beat ["bmm"] (Examples.mk [])).1 = inr [] /\
  ~ missing_core_is_fatal.
Proof.
  split; [reflexivity|]. split; [reflexivity|].
  intros H. destruct (H Examples.beat ["bmm"] (Examples.mk []) eq_refl) as [e He].
  vm_compute in He. discriminate He.
Qed.

(** A module whose directory is missing leaves the list as it is. *)
Lemma moduleItems_missing fromDir beatDir sub acc m w :
  present (files w) beatDir sub m = false ->
  moduleItems fromDir beatDir sub acc m w
  = (inr acc, World (files w) (log w ++ [PathExists (join beatDir [m; sub])])).
Proof.
  intros H. unfold moduleItems, present in *.
  rewrite (bind_ok _ _ _ _ _ (pathExists_run _ w)).
  destruct (node_at (files w) (join beatDir [m; sub])); [discriminate | reflexivity].
Qed.

(** The outcome of the loop over the modules is that of the loop over
    the modules whose directory exists. *)
Lemma modules_present fromDir beatDir sub t l :
  (forall p n, reader (fromDir p n)) ->
  forall acc w, files w = t ->
    (foldM (moduleItems fromDir beatDir sub) acc l w).1
    = (foldM (moduleItems fromDir beatDir sub) acc
         (filter (fun m => present t beatDir sub m) l) w).1.
Proof.
  intros Hr. induction l as [|m l IH]; intros acc w Hw; [reflexivity|].
  assert (Rl : forall a l', reader (foldM (moduleItems fromDir beatDir sub) a l')).
  { intros. apply reader_foldM. intros. now apply reader_moduleItems. }
  destruct (present t beatDir sub m) eqn:P.
  - rewrite filter_cons_True by (now rewrite P). cbn [foldM].
    unfold bind.
    pose proof (reader_files (moduleItems fromDir beatDir sub acc m) w
                  (reader_moduleItems _ _ _ _ _ Hr)) as Hf.
    destruct (moduleItems fromDir beatDir sub acc m w) as [[e|acc'] w1]; [reflexivity|].
    apply IH. simpl in Hf. congruence.
  - rewrite filter_cons_False by (now rewrite P). cbn [foldM].
    rewrite (bind_ok _ _ _ _ _ (moduleItems_missing fromDir beatDir sub acc m w
                                  ltac:(now rewrite Hw))).
    rewrite IH by (simpl; exact Hw).
    apply reader_result; [apply Rl | reflexivity].
Qed.

(** Two computations with the same outcome, followed by the same
    reader, have the same outcome. *)
Lemma bind_outcome {A B} (m1 m2 : M A) (k : A -> M B) w1 w2 :
  reader m1 -> reader m2 -> (forall a, reader (k a)) ->
  files w1 = files w2 -> (m1 w1).1 = (m2 w2).1 ->
  (bind m1 k w1).1 = (bind m2 k w2).1.
Proof.
  intros R1 R2 Rk Hw H. unfold bind.
  pose proof (reader_files m1 w1 R1) as F1. pose proof (reader_files m2 w2 R2) as F2.
  destruct (m1 w1) as [[e1|a1] u1], (m2 w2) as [[e2|a2] u2]; simpl in *; try congruence.
  inversion H; subst. apply reader_result; [apply Rk | congruence].
Qed.

(** The same computation followed by two continuations with the
    same outcome. *)
Lemma bind_head {A B} (m : M A) (k1 k2 : A -> M B) w :
  (forall a w2, m w = (inr a, w2) -> (k1 a w2).1 = (k2 a w2).1) ->
  (bind m k1 w).1 = (bind m k2 w).1.
Proof.
  intros H. unfold bind. destruct (m w) as [[e|a] w2]; [reflexivity|]. now apply H.
Qed.

(** The last part of the collection of the agents: the loop over the
    directories of the standalone area, when it exists. *)
Definition standaloneAgents (beatDir : path) (agents : list item) : M (list item) :=
  let standaloneAgentsDir := join beatDir ["agents"] in
  ex <- pathExists standaloneAgentsDir ;;
  if ex then
    agentDirs <- readdirTypes standaloneAgentsDir ;;
    foldM (standaloneDir standaloneAgentsDir) agents agentDirs
  else ret agents.

(** C5 (amended): a missing directory is never an error.  The outcome
    of the collection is the same when the selected modules whose
    directory is missing are left out; when the core directory is
    missing, core contributes nothing: the outcome is that of the
    rest of the collection started from the empty list, which is the
    loop over the selected modules, followed for the agents by the
    standalone area; and when nothing is there the collection returns
    the empty list. *)
Theorem missing_directories (beatDir : path) (mods : list string) (w : world) :
  (getTasksFromBeat beatDir mods w).1
    = (getTasksFromBeat beatDir
         (filter (fun m => present (files w) beatDir "tasks" m) mods) w).1 /\
  (getAgentsFromBeat beatDir mods w).1
    = (getAgentsFromBeat beatDir
         (filter (fun m => present (files w) beatDir "agents" m) mods) w).1 /\
  (present (files w) beatDir "tasks" "core" = false ->
   (getTasksFromBeat beatDir mods w).1
     = (foldM (moduleItems getTasksFromDir beatDir "tasks") [] mods w).1) /\
  (present (files w) beatDir "tasks" "core" = false ->
   Forall (fun m => present (files w) beatDir "tasks" m = false) mods ->
   (getTasksFromBeat beatDir mods w).1 = inr []) /\
  (present (files w) beatDir "agents" "core" = false ->
   Forall (fun m => present (files w) beatDir "agents" m = false) mods ->
   node_at (files w) (join beatDir ["agents"]) = None ->
   (getAgentsFromBeat beatDir mods w).1 = inr []) /\
  (present (files w) beatDir "agents" "core" = false ->
   (getAgentsFromBeat beatDir mods w).1
     = ((agents <- foldM (moduleItems getAgentsFromDir beatDir "agents") [] mods ;;
         standaloneAgents beatDir agents) w).1).
Proof.
  assert (RT : forall a l, reader (foldM (moduleItems getTasksFromDir beatDir "tasks") a l)).
  { intros. apply reader_foldM. intros. apply reader_moduleItems, reader_getTasksFromDir. }
  assert (RA : forall a l, reader (foldM (moduleItems getAgentsFromDir beatDir "agents") a l)).
  { intros. apply reader_foldM. intros. apply reader_moduleItems, reader_getAgentsFromDir. }
  assert (Hnone : forall fromDir sub a l u,
            Forall (fun m => present (files u) beatDir sub m = false) l ->
            (foldM (moduleItems fromDir beatDir sub) a l u).1 = inr a /\
            files (foldM (moduleItems fromDir beatDir sub) a l u).2 = files u).
  { intros fromDir sub a l. induction l as [|m l IH]; intros u Hl; [split; reflexivity|].
    inversion Hl as [|? ? Hm Hl']; subst. cbn [foldM].
    rewrite (bind_ok _ _ _ _ _ (moduleItems_missing fromDir beatDir sub a m u Hm)).
    destruct (IH (World (files u) (log u ++ [PathExists (join beatDir [m; sub])])) Hl')
      as [I1 I2].
    split; [exact I1 | exact I2]. }
  repeat split.
  - unfold getTasksFromBeat.
    rewrite !(bind_ok _ _ _ _ _ (pathExists_run _ w)).
    apply bind_head. intros tasks w2 Hcore.
    assert (F2 : files w2 = files w).
    { match type of Hcore with ?m ?u = _ =>
        pose proof (reader_files m u) as Hf; rewrite Hcore in Hf; apply Hf end.
      destruct (node_at _ _); [apply reader_getTasksFromDir | apply reader_ret]. }
    rewrite <- F2. apply modules_present; [apply reader_getTasksFromDir | reflexivity].
  - unfold getAgentsFromBeat.
    rewrite !(bind_ok _ _ _ _ _ (pathExists_run _ w)).
    apply bind_head. intros agents w2 Hcore.
    assert (F2 : files w2 = files w).
    { match type of Hcore with ?m ?u = _ =>
        pose proof (reader_files m u) as Hf; rewrite Hcore in Hf; apply Hf end.
      destruct (node_at _ _); [apply reader_getAgentsFromDir | apply reader_ret]. }
    apply bind_outcome; try reflexivity; try apply RA.
    + intros agents'. apply reader_bind; [apply reader_pathExists|].
      intros ex'. destruct ex'; [|apply reader_ret].
      apply reader_bind; [apply reader_readdirTypes|]. intros l.
      apply reader_foldM. intros; apply reader_standaloneDir.
    + rewrite <- F2. apply modules_present; [apply reader_getAgentsFromDir | reflexivity].
  - intros Hcore. unfold getTasksFromBeat.
    rewrite (bind_ok _ _ _ _ _ (pathExists_run _ w)).
    unfold present in Hcore.
    destruct (node_at (files w) (join beatDir ["core"; "tasks"])); [discriminate|].
    unfold bind, ret. apply reader_result; [apply RT | reflexivity].
  - intros Hcore Hmods. unfold getTasksFromBeat.
    rewrite (bind_ok _ _ _ _ _ (pathExists_run _ w)).
    unfold present in Hcore.
    destruct (node_at (files w) (join beatDir ["core"; "tasks"])); [discriminate|].
    unfold bind at 1, ret. apply Hnone. exact Hmods.
  - intros Hcore Hmods Hstand. unfold getAgentsFromBeat.
    rewrite (bind_ok _ _ _ _ _ (pathExists_run _ w)).
    unfold present in Hcore.
    destruct (node_at (files w) (join beatDir ["core"; "agents"])); [discriminate|].
    unfold bind at 1, ret.
    set (w1 := World (files w) (log w ++ [PathExists (join beatDir ["core"; "agents"])])).
    destruct (Hnone getAgentsFromDir "agents" [] mods w1 Hmods) as [H1 H2].
    unfold bind at 1.
    destruct (foldM (moduleItems getAgentsFromDir beatDir "agents") [] mods w1)
      as [[e|r] w2]; simpl in H1, H2; [discriminate|].
    inversion H1; subst r.
    rewrite (bind_ok _ _ _ _ _ (pathExists_run _ w2)).
    rewrite H2. simpl. now rewrite Hstand.
  - intros Hcore. unfold getAgentsFromBeat.
    rewrite (bind_ok _ _ _ _ _ (pathExists_run _ w)).
    unfold present in Hcore.
    destruct (node_at (files w) (join beatDir ["core"; "agents"])); [discriminate|].
    unfold bind at 1, ret.
    apply (bind_outcome _ _ (standaloneAgents beatDir)).
    + apply RA.
    + apply RA.
    + intros agents'. unfold standaloneAgents.
      apply reader_bind; [apply reader_pathExists|].
      intros ex'. destruct ex'; [|apply reader_ret].
      apply reader_bind; [apply reader_readdirTypes|]. intros l.
      apply reader_foldM. intros; apply reader_standaloneDir.
    + reflexivity.
    + apply reader_result; [apply RA | reflexivity].
Qed.

(** The theorem at the example installation with the selected modules
    bmm and cis, which are not installed: the outcome is that of the
    collection from core alone; and at an installation without core,
    where the agents are those of the module bmm and of the
    standalone area. *)
Lemma missing_directories_witness :
  (getTasksFromBeat Examples.beat ["bmm"; "cis"] Examples.installed).1
  = (getTasksFromBeat Examples.beat [] Examples.installed).1 /\
  (getTasksFromBeat Examples.beat ["bmm"] (Examples.mk [])).1 = inr [] /\
  (getAgentsFromBeat Examples.beat ["bmm"] MissingExamples.modules_only).1
  = inr [Item (Examples.beat ++ ["bmm"; "agents"; "pm.md"]) "pm" "bmm";
         Item (Examples.beat ++ ["agents"; "solo"; "helper.md"]) "helper" "standalone"].
Proof.
  split; [|split].
  - exact (proj1 (missing_directories Examples.beat ["bmm"; "cis"] Examples.installed)).
  - exact (proj1 (proj2 (proj2 (proj2
             (missing_directories Examples.beat ["bmm"] (Examples.mk [])))))
           eq_refl ltac:(repeat constructor)).
  - rewrite (proj2 (proj2 (proj2 (proj2 (proj2
               (missing_directories Examples.beat ["bmm"] MissingExamples.modules_only)))))
             eq_refl).
    vm_compute. reflexivity.
Defined.

End MissingDirectories.

(* ================================================================== *)
(** ** C1: what a cleanup removes *)
(* ================================================================== *)

Module CleanupFacts.
Import StrFacts PathFacts TreeFacts FsFacts Path Fs FsOps Cleanup.

Lemma rm_lookup (q : path) (t : gmap path node) (p : path) :
  rm q t !! p = if decide (q `prefix_of` p) then None else t !! p.
Proof.
  unfold rm. destruct (decide (q `prefix_of` p)) as [H|H].
  - apply map_lookup_filter_None. right. intros x _ Hn. now apply Hn.
  - destruct (t !! p) as [x|] eqn:E.
    + apply map_lookup_filter_Some. split; [assumption | exact H].
    + apply map_lookup_filter_None. now left.
Qed.

(** Starting from a tree of file names, [m] leaves every path as it
    is or removes it, and then the path satisfies [S]. *)
Definition scoped {A} (S : path -> Prop) (m : M A) : Prop :=
  forall w, valid_tree (files w) ->
    forall p, files (m w).2 !! p = files w !! p \/
              (files (m w).2 !! p = None /\ S p).

Lemma scoped_valid {A} S (m : M A) w :
  scoped S m -> valid_tree (files w) -> valid_tree (files (m w).2).
Proof.
  intros Hm Hw p n Hp. destruct (Hm w Hw p) as [E|[E _]].
  - eapply Hw. rewrite <- E. exact Hp.
  - rewrite Hp in E. discriminate E.
Qed.

Lemma scoped_reader {A} S (m : M A) : reader m -> scoped S m.
Proof. intros Hr w _ p. left. now rewrite (reader_files m w Hr). Qed.

Lemma scoped_ret {A} S (a : A) : scoped S (ret a).
Proof. apply scoped_reader, reader_ret. Qed.

Lemma scoped_bind {A B} S (m : M A) (k : A -> M B) :
  scoped S m -> (forall a, scoped S (k a)) -> scoped S (bind m k).
Proof.
  intros Hm Hk w Hw p.
  pose proof (scoped_valid S m w Hm Hw) as Hv.
  specialize (Hm w Hw p). unfold bind.
  destruct (m w) as [[e|a] w1]; simpl in *; [exact Hm|].
  destruct (Hk a w1 Hv p) as [E|[E HS]].
  - rewrite E. exact Hm.
  - right. now split.
Qed.

Lemma scoped_remove (S : path -> Prop) (q : path) :
  (forall p, q `prefix_of` p -> S p) -> scoped S (remove q).
Proof.
  intros H w _ p. rewrite remove_run. simpl. rewrite rm_lookup.
  destruct (decide (q `prefix_of` p)); [right; auto | now left].
Qed.

Lemma scoped_forEach {A} S (f : A -> M unit) (P : A -> Prop) l :
  Forall P l -> (forall x, P x -> scoped S (f x)) -> scoped S (forEach l f).
Proof.
  intros Hl Hf. induction Hl as [|x l Hx Hl IH]; simpl.
  - apply scoped_ret.
  - apply scoped_bind; [now apply Hf | intros; apply IH].
Qed.

(** A loop over the listing of a directory: the names are file
    names. *)
Lemma scoped_listing S dir (body : string -> M unit) :
  (forall file, valid file -> scoped S (body file)) ->
  scoped S (bind (readdir dir) (fun l => forEach l body)).
Proof.
  intros Hb w Hw p. unfold bind. rewrite readdir_run.
  destruct (node_at (files w) dir) as [[]|]; simpl; try now left.
  assert (Hl : Forall valid (names (files w) dir)).
  { apply List.Forall_forall. intros n Hn. apply list_elem_of_In in Hn.
    eapply names_valid; eauto. }
  exact (scoped_forEach S body valid _ Hl Hb
           (World (files w) (log w ++ [Readdir dir])) Hw p).
Qed.

Lemma scoped_removeIfExists (S : path -> Prop) (q : path) :
  (forall p, q `prefix_of` p -> S p) -> scoped S (removeIfExists q).
Proof.
  intros H. unfold removeIfExists.
  apply scoped_bind; [apply scoped_reader, reader_pathExists|].
  intros [|]; [now apply scoped_remove | apply scoped_ret].
Qed.

(** An entry directly under a root of the scope that passes the test
    is owned, with everything below it. *)
Lemma owned_below sc (root : path) (test : string -> bool) (name : string) (p : path) :
  (root, test) ∈ sc -> test name = true -> (root ++ [name]) `prefix_of` p -> owned sc p.
Proof.
  intros Hin Ht [rest ->]. exists root, test, name, rest.
  repeat split; [assumption | now rewrite <- app_assoc | assumption].
Qed.

Lemma scoped_sweep sc (root : path) (test : string -> bool) (dir : path) :
  (root, test) ∈ sc -> dir = root ->
  scoped (owned sc)
    (bind (pathExists dir) (fun ex =>
       if ex then bind (readdir dir) (fun l =>
         forEach l (fun file => if test file then remove (join dir [file]) else ret tt))
       else ret tt)).
Proof.
  intros Hin ->. apply scoped_bind; [apply scoped_reader, reader_pathExists|].
  intros [|]; [|apply scoped_ret].
  apply scoped_listing. intros file Hf.
  destruct (test file) eqn:T; [|apply scoped_ret].
  apply scoped_remove. intros p Hp. rewrite join_one in Hp by assumption.
  eapply owned_below; eauto.
Qed.

Lemma scoped_clearOldBeatFiles sc (root dir : path) :
  (root, Js.startsWith "beat-") ∈ sc -> dir = root ->
  scoped (owned sc) (Flat.clearOldBeatFiles dir).
Proof.
  intros Hin ->. unfold Flat.clearOldBeatFiles.
  apply scoped_bind; [apply scoped_reader, reader_pathExists|].
  intros [|]; cbn [negb]; [|apply scoped_ret].
  apply scoped_listing. intros file Hf.
  destruct (Js.startsWith "beat-" file) eqn:T; cbn [negb]; [|apply scoped_ret].
  assert (Hrm : scoped (owned sc) (remove (join root [file]))).
  { apply scoped_remove. intros p Hp. rewrite join_one in Hp by assumption.
    eapply owned_below; eauto. }
  apply scoped_bind; [apply scoped_reader, reader_stat|].
  intros st. destruct (isFile st); [exact Hrm|].
  destruct (isDirectory st); [exact Hrm | apply scoped_ret].
Qed.

Lemma scoped_entry sc (root : path) (test : string -> bool) (name : string) (dir : path) :
  (root, test) ∈ sc -> test name = true -> dir = root ++ [name] ->
  scoped (owned sc) (removeIfExists dir).
Proof.
  intros Hin Ht ->. apply scoped_removeIfExists. intros p Hp.
  eapply owned_below; eauto.
Qed.

Ltac joined :=
  unfold Codex.getCodexPromptDir;
  rewrite ?join_valid by (repeat constructor);
  rewrite <- ?app_assoc; reflexivity.

Ltac in_scope := apply list_elem_of_In; simpl; tauto.

Ltac sweep root :=
  apply (scoped_sweep _ root Trae.ruleFor); [in_scope | joined].

Ltac entry root test name :=
  apply (scoped_entry _ root test name); [in_scope | reflexivity | joined].

Ltac clear_ root :=
  apply (scoped_clearOldBeatFiles _ root); [in_scope | joined].

(** Every cleanup stays within its scope. *)
Lemma run_scoped c projectDir homedir :
  scoped (owned (scope c projectDir homedir)) (run c projectDir homedir).
Proof.
  destruct c; simpl.
  - sweep (projectDir ++ [".trae"; "rules"]).
  - apply scoped_bind; [|intros _].
    + sweep (projectDir ++ [".opencode"; "agent"]).
    + sweep (projectDir ++ [".opencode"; "command"]).
  - entry (projectDir ++ [".cursor"; "rules"]) (is_ "beat") "beat".
  - entry (projectDir ++ [".windsurf"; "workflows"]) (is_ "beat") "beat".
  - entry (projectDir ++ [".augment"; "commands"]) (is_ "beat") "beat".
  - entry (projectDir ++ [".iflow"; "commands"]) (is_ "beat") "beat".
  - apply scoped_bind; [|intros _; apply scoped_bind; [|intros _]].
    + entry (projectDir ++ [".qwen"; "commands"]) (is_ "beat") "beat".
    + entry (projectDir ++ [".qwen"]) (one_of ["beat-method"; "Beat"]) "beat-method".
    + entry (projectDir ++ [".qwen"]) (one_of ["beat-method"; "Beat"]) "Beat".
  - apply scoped_bind; [|intros _; apply scoped_bind; [|intros _]].
    + entry (projectDir ++ [".qwen"]) (one_of ["agents"; "beat-method"; "beatDir"]) "agents".
    + entry (projectDir ++ [".qwen"]) (one_of ["agents"; "beat-method"; "beatDir"])
        "beat-method".
    + entry (projectDir ++ [".qwen"]) (one_of ["agents"; "beat-method"; "beatDir"]) "beatDir".
  - clear_ (homedir ++ [".codex"; "prompts"]).
  - clear_ (projectDir ++ [".clinerules"; "workflows"]).
Qed.

End CleanupFacts.

Module CleanupScope.
Import StrFacts PathFacts TreeFacts FsFacts CleanupFacts TreeCheckFacts.
Import Path Fs FsOps Cleanup CleanupExamples.

(** C1 as stated fails for the Qwen adapter: the removal of old
    configuration that its setup runs deletes the directory agents
    under .qwen, whose name neither starts with beat- nor is beat. *)
Lemma unmarked_entry_removed :
  files qwen_project !! ["proj"; ".qwen"; "agents"] = Some Directory /\
  Spec.marked "agents" = false /\
  files (run QwenOldConfig ["proj"] ["home"] qwen_project).2
    !! ["proj"; ".qwen"; "agents"] = None /\
  ~ unmarked_kept QwenOldConfig ["proj"] ["home"] qwen_project.
Proof.
  split; [reflexivity|]. split; [reflexivity|]. split; [vm_compute; reflexivity|].
  intros H.
  specialize (H ["proj"; ".qwen"] (one_of ["agents"; "beat-method"; "beatDir"])
                "agents" Directory).
  assert (E : files (run QwenOldConfig ["proj"] ["home"] qwen_project).2
                !! (["proj"; ".qwen"] ++ ["agents"]) = Some Directory).
  { apply H; [apply list_elem_of_In; left; reflexivity | reflexivity | reflexivity]. }
  vm_compute in E. discriminate E.
Qed.

(** C1 (amended): starting from a tree of file names, every path a
    cleanup removes is an entry, or lies below an entry, that sits
    directly under a directory of the adapter and passes the test of
    that directory: the name starts with beat- and ends in .md (Trae,
    OpenCode), starts with beat- (Codex, Cline), is beat (Cursor,
    Windsurf, Auggie, iFlow, Qwen), or is one of the directories the
    Qwen adapter lists by name.  Every other path keeps what it
    named. *)
Theorem cleanup_scoped (c : cleaner) (projectDir homedir : path) (w : world) :
  valid_tree (files w) ->
  (forall p n,
     files w !! p = Some n ->
     files (run c projectDir homedir w).2 !! p = None ->
     owned (scope c projectDir homedir) p) /\
  (forall p,
     ~ owned (scope c projectDir homedir) p ->
     files (run c projectDir homedir w).2 !! p = files w !! p).
Proof.
  intros Hw. split.
  - intros p n Hp Hgone.
    destruct (run_scoped c projectDir homedir w Hw p) as [E|[_ Ho]]; [|exact Ho].
    rewrite Hgone, Hp in E. discriminate E.
  - intros p Hno.
    destruct (run_scoped c projectDir homedir w Hw p) as [E|[_ Ho]]; [exact E|].
    contradiction.
Qed.

(** The theorem at a Trae rules directory with an installed rule and
    a rule of the user: the rule of the user is kept, the installed
    rule is removed. *)
Lemma cleanup_scoped_witness :
  files (run TraeCleanup ["proj"] ["home"] trae_project).2
    !! ["proj"; ".trae"; "rules"; "my-notes.md"] = Some (File "my notes") /\
  files (run TraeCleanup ["proj"] ["home"] trae_project).2
    !! ["proj"; ".trae"; "rules"; "beat-agent-core-dev.md"] = None.
Proof.
  split; [|vm_compute; reflexivity].
  rewrite (proj2 (cleanup_scoped TraeCleanup ["proj"] ["home"] trae_project
                    (valid_treeb_ok (files trae_project) eq_refl))).
  - reflexivity.
  - intros (root & test & name & rest & Hin & Hp & Ht).
    apply list_elem_of_In in Hin. destruct Hin as [Hin|[]].
    inversion Hin; subst root test. simpl in Hp.
    inversion Hp; subst name rest. vm_compute in Ht. discriminate Ht.
Defined.

End CleanupScope.

(* ================================================================== *)
(** ** C10: the configured date across saves *)
(* ================================================================== *)

Module ConfigFacts.
Import StrFacts PathFacts TreeFacts FsFacts TreeCheckFacts.
Import Path Fs FsOps IdeConfigManager.

Lemma writeFile_run (p : path) c w :
  writeFile p c w =
    let w1 := World (files w) (log w ++ [WriteFile p c]) in
    match p with
    | [] => (inl (EISDIR p), w1)
    | _ =>
        match node_at (files w) (parent p) with
        | Some Directory =>
            match files w !! p with
            | Some Directory => (inl (EISDIR p), w1)
            | Some Special => (inr tt, w1)
            | _ => (inr tt, World (<[p := File c]> (files w)) (log w ++ [WriteFile p c]))
            end
        | Some _ => (inl (ENOTDIR p), w1)
        | None => (inl (ENOENT p), w1)
        end
    end.
Proof.
  unfold writeFile, bind, record, get_files; simpl.
  destruct p as [|s p]; [reflexivity|].
  destruct (node_at (files w) (parent (s :: p))) as [[]|]; try reflexivity.
  destruct (files w !! (s :: p)) as [[]|]; reflexivity.
Qed.

(** In a well-formed tree everything above a node is a directory. *)
Lemma wf_above (t : gmap path node) (a b : path) n :
  wf_tree t -> b <> [] -> node_at t (a ++ b) = Some n -> node_at t a = Some Directory.
Proof.
  intros Hwf. revert n. induction b as [|s b IH] using rev_ind; intros n Hb H; [contradiction|].
  rewrite app_assoc, node_at_app in H. apply Hwf in H.
  destruct b as [|x b']; [now rewrite app_nil_r in H|].
  eapply IH; [discriminate | exact H].
Qed.

(** Creating a directory that is there changes nothing. *)
Lemma mkdirs_present (t : gmap path node) (todo seen : path) :
  wf_tree t -> node_at t (seen ++ todo) = Some Directory -> mkdirs t seen todo = inr t.
Proof.
  intros Hwf. revert seen. induction todo as [|s todo IH]; intros seen H; [reflexivity|].
  simpl. assert (Hd : node_at t (seen ++ [s]) = Some Directory).
  { destruct todo as [|x todo'].
    - exact H.
    - apply (wf_above t (seen ++ [s]) (x :: todo') Directory Hwf); [discriminate|].
      now rewrite <- app_assoc. }
  rewrite node_at_app in Hd. rewrite Hd. apply IH. now rewrite <- app_assoc.
Qed.

(** Creating directories keeps every node that is there. *)
Lemma mkdirs_keeps (todo : list string) :
  forall (t : gmap path node) (seen : path) t' (q : path) n,
    mkdirs t seen todo = inr t' -> t !! q = Some n -> t' !! q = Some n.
Proof.
  induction todo as [|s rest IH]; intros t seen t' q n H Hq; cbn [mkdirs] in H.
  - inversion H; subst. exact Hq.
  - destruct (t !! (seen ++ [s])) as [[]|] eqn:Hd; try discriminate H.
    + eapply IH; eassumption.
    + eapply IH; [exact H|]. rewrite lookup_insert_ne; [exact Hq|].
      intros E. rewrite E in Hd. congruence.
Qed.

(** Loading a configuration file that is there and parses. *)
Lemma loadIdeConfig_run yaml_load beatDir ideName w content existing :
  node_at (files w) (getIdeConfigPath beatDir ideName) = Some (File content) ->
  yaml_load content = Some existing ->
  loadIdeConfig yaml_load beatDir ideName w
  = (inr existing,
     World (files w)
       ((log w ++ [PathExists (getIdeConfigPath beatDir ideName)])
          ++ [ReadFile (getIdeConfigPath beatDir ideName)])).
Proof.
  intros Hnode Hload. unfold loadIdeConfig.
  rewrite (bind_ok _ _ _ _ _ (pathExists_run _ w)). rewrite Hnode. cbn [negb].
  unfold catch.
  rewrite (bind_ok _ _ _ content
             (World (files w)
                ((log w ++ [PathExists (getIdeConfigPath beatDir ideName)])
                   ++ [ReadFile (getIdeConfigPath beatDir ideName)]))).
  2:{ rewrite readFile_run. cbn [files log]. now rewrite Hnode. }
  now rewrite Hload.
Qed.

End ConfigFacts.

Module ConfiguredDate.
Import StrFacts PathFacts TreeFacts FsFacts TreeCheckFacts ConfigFacts.
Import Path Fs FsOps IdeConfigManager.

(** The text written: the dump, ended by a line feed. *)
Definition written (dump : string) : string :=
  if Js.endsWith Js.nl dump then dump else dump +:+ Js.nl.

(** What the claim says of the configuration: every value other than
    null and undefined is stored as it is. *)
Definition new_value_stored : Prop :=
  forall (yaml_load : string -> option value) (yaml_dump : value -> string)
         (now : string) (beatDir : path) (ideName : string) (configuration : value)
         (w w' : world),
    configuration <> VNull -> configuration <> VUndefined ->
    saveIdeConfig yaml_load yaml_dump now beatDir ideName configuration w = (inr tt, w') ->
    exists doc,
      files w' !! getIdeConfigPath beatDir ideName = Some (File (written (yaml_dump doc))) /\
      prop doc "configuration" = configuration.

(** C10 as stated fails for a configuration that is falsy without
    being null or undefined: saving the number zero over the
    configuration of the example stores the empty object. *)
Lemma falsy_configuration_dropped :
  files (saveIdeConfig ConfigExamples.load_date ResaveExamples.dump_configuration
           "2025-06-30T12:00:00.000Z" Examples.beat "cursor" (VNum 0)
           ConfigExamples.configured).2
    !! (Examples.beat ++ ["_cfg"; "ides"; "cursor.yaml"])
  = Some (File ("configuration: {}" +:+ Js.nl)) /\
  ~ new_value_stored.
Proof.
  assert (Hfile : files (saveIdeConfig ConfigExamples.load_date
                           ResaveExamples.dump_configuration
                           "2025-06-30T12:00:00.000Z" Examples.beat "cursor" (VNum 0)
                           ConfigExamples.configured).2
                    !! (Examples.beat ++ ["_cfg"; "ides"; "cursor.yaml"])
                  = Some (File ("configuration: {}" +:+ Js.nl)))
    by (vm_compute; reflexivity).
  split; [exact Hfile|]. intros H.
  destruct (saveIdeConfig ConfigExamples.load_date ResaveExamples.dump_configuration
              "2025-06-30T12:00:00.000Z" Examples.beat "cursor" (VNum 0)
              ConfigExamples.configured) as [[e|[]] w'] eqn:E.
  { apply (f_equal fst) in E. vm_compute in E. discriminate E. }
  assert (N1 : VNum 0 <> VNull) by discriminate.
  assert (N2 : VNum 0 <> VUndefined) by discriminate.
  destruct (H _ _ _ _ _ _ _ _ N1 N2 E) as (doc & Hdoc & Hconf).
  cbn [snd] in Hfile.
  change (getIdeConfigPath Examples.beat "cursor")
    with (Examples.beat ++ ["_cfg"; "ides"; "cursor.yaml"]) in Hdoc.
  rewrite Hfile in Hdoc. unfold ResaveExamples.dump_configuration in Hdoc.
  rewrite Hconf in Hdoc. vm_compute in Hdoc. discriminate Hdoc.
Qed.

(** Saving over a configuration of an IDE whose name is a file name
    returns normally. *)
Lemma resave_returns
    (yaml_load : string -> option value) (yaml_dump : value -> string)
    (now : string) (beatDir : path) (ideName : string) (configuration : value)
    (w : world) (content : string) (existing : value) :
  wf_tree (files w) ->
  absent "/"%char ideName ->
  files w !! getIdeConfigPath beatDir ideName = Some (File content) ->
  yaml_load content = Some existing ->
  truthy (prop existing "configured_date") = true ->
  exists w',
    saveIdeConfig yaml_load yaml_dump now beatDir ideName configuration w = (inr tt, w').
Proof.
  intros Hwf Hide Hfile Hload Hdate.
  assert (Hname : valid (ideName +:+ ".yaml")).
  { apply valid_ext; [assumption | reflexivity | simpl; lia]. }
  assert (Hpath : getIdeConfigPath beatDir ideName
                  = getIdeConfigDir beatDir ++ [ideName +:+ ".yaml"]).
  { unfold getIdeConfigPath. now apply join_one. }
  assert (Hdir : node_at (files w) (getIdeConfigDir beatDir) = Some Directory).
  { rewrite Hpath in Hfile. now apply Hwf in Hfile. }
  assert (Hex : truthy existing = true).
  { destruct existing; try (simpl in Hdate; discriminate). reflexivity. }
  assert (Hnode : node_at (files w) (getIdeConfigPath beatDir ideName) = Some (File content)).
  { rewrite Hpath, node_at_app, <- Hpath. exact Hfile. }
  assert (Hparent : parent (getIdeConfigPath beatDir ideName) = getIdeConfigDir beatDir).
  { unfold parent. rewrite Hpath. apply removelast_last. }
  assert (Hcons : exists s r, getIdeConfigPath beatDir ideName = s :: r).
  { rewrite Hpath. destruct (getIdeConfigDir beatDir); simpl; eauto. }
  set (p := getIdeConfigPath beatDir ideName) in *.
  set (doc := configData ideName (prop existing "configured_date") now configuration).
  set (l1 := log w ++ [EnsureDir (getIdeConfigDir beatDir)]).
  set (l2 := l1 ++ [PathExists p]).
  set (l3 := (l2 ++ [PathExists p]) ++ [ReadFile p]).
  exists (World (<[p := File (written (yaml_dump doc))]> (files w))
            (l3 ++ [WriteFile p (written (yaml_dump doc))])).
  unfold saveIdeConfig. fold p.
  rewrite (bind_ok _ _ _ tt (World (files w) l1)).
  2:{ rewrite ensureDir_run, (mkdirs_present _ _ [] Hwf Hdir). reflexivity. }
  rewrite (bind_ok _ _ _ true (World (files w) l2)).
  2:{ rewrite pathExists_run. cbn [files log]. now rewrite Hnode. }
  rewrite (bind_ok _ _ _ (prop existing "configured_date") (World (files w) l3)).
  2:{ unfold catch.
      rewrite (bind_ok _ _ _ existing (World (files w) l3)).
      2:{ apply (loadIdeConfig_run yaml_load beatDir ideName (World (files w) l2)
                   content existing); assumption. }
      rewrite Hex, Hdate. reflexivity. }
  rewrite writeFile_run. cbn zeta. cbn [files log].
  rewrite Hparent, Hdir, Hfile. fold doc. unfold written.
  destruct Hcons as (s & r & ->). reflexivity.
Qed.

(** C10 (amended): when a readable configuration file of the IDE
    exists and its document has a configured date, every save that
    returns normally has written the dump of a document with the
    name of the IDE, the same configured date, the time of the save
    as last update and, as configuration, the new value when it is
    truthy and the empty object when it is falsy (null, undefined,
    false, zero, the empty string); this for every IDE name.  The
    save does return normally when the name of the IDE holds no
    slash, whatever exists lying in a directory. *)
Theorem configured_date_preserved
    (yaml_load : string -> option value) (yaml_dump : value -> string)
    (now : string) (beatDir : path) (ideName : string) (configuration : value)
    (w : world) (content : string) (existing : value) :
  let p := getIdeConfigPath beatDir ideName in
  let doc :=
    VObj [("ide", VStr ideName);
          ("configured_date", prop existing "configured_date");
          ("last_updated", VStr now);
          ("configuration", if truthy configuration then configuration else VObj [])] in
  files w !! p = Some (File content) ->
  yaml_load content = Some existing ->
  truthy (prop existing "configured_date") = true ->
  (forall w',
     saveIdeConfig yaml_load yaml_dump now beatDir ideName configuration w = (inr tt, w') ->
     files w' !! p = Some (File (written (yaml_dump doc)))) /\
  (wf_tree (files w) -> absent "/"%char ideName ->
   exists w',
     saveIdeConfig yaml_load yaml_dump now beatDir ideName configuration w = (inr tt, w')).
Proof.
  intros p doc Hfile Hload Hdate. split.
  2:{ intros Hwf Hide. eapply resave_returns; eassumption. }
  intros w' H. unfold saveIdeConfig in H. fold p in H.
  apply bind_inv in H. destruct H as [(e & _ & He) | ([] & w1 & E1 & H)]; [discriminate|].
  apply bind_inv in H. destruct H as [(e & _ & He) | (ex & w2 & E2 & H)]; [discriminate|].
  apply bind_inv in H. destruct H as [(e & _ & He) | (date & w3 & E3 & E4)]; [discriminate|].
  (* the directories are made: the file is still there *)
  rewrite ensureDir_run in E1.
  destruct (mkdirs (files w) [] (getIdeConfigDir beatDir)) as [e|t1] eqn:Hmk;
    [discriminate E1|].
  inversion E1; subst w1; clear E1.
  pose proof (mkdirs_keeps _ _ _ _ _ _ Hmk Hfile) as Hfile1.
  (* the path is not the root, where nothing can be written *)
  assert (Hcons : exists s r, p = s :: r).
  { destruct p as [|s r]; [|eauto]. rewrite writeFile_run in E4. discriminate E4. }
  assert (Hnode1 : node_at t1 p = Some (File content)).
  { destruct Hcons as (s & r & Hp). rewrite Hp in *. exact Hfile1. }
  rewrite pathExists_run in E2. cbn [files log] in E2. rewrite Hnode1 in E2.
  inversion E2; subst ex w2; clear E2.
  (* the date is the one of the file *)
  assert (Hex : truthy existing = true).
  { destruct existing; try (simpl in Hdate; discriminate). reflexivity. }
  unfold catch in E3.
  pose proof (loadIdeConfig_run yaml_load beatDir ideName
                (World t1 ((log w ++ [EnsureDir (getIdeConfigDir beatDir)])
                             ++ [PathExists p]))
                content existing Hnode1 Hload) as Hl.
  rewrite (bind_ok _ _ _ _ _ Hl) in E3.
  rewrite Hex, Hdate in E3. cbn [andb] in E3. unfold ret in E3.
  inversion E3; subst date w3; clear E3.
  (* the write replaces the file *)
  rewrite writeFile_run in E4. cbn zeta in E4. cbn [files log] in E4.
  destruct Hcons as (s & r & Hp). rewrite Hp in *.
  rewrite Hfile1 in E4.
  destruct (node_at t1 (parent (s :: r))) as [[]|]; try discriminate E4.
  inversion E4; subst w'. cbn [files]. apply lookup_insert_eq.
Qed.

(** The theorem at a configuration saved on the first of January
    2024 and saved again later: the file keeps the first date. *)
Lemma configured_date_preserved_witness :
  exists w',
    saveIdeConfig ConfigExamples.load_date ConfigExamples.dump_date
      "2025-06-30T12:00:00.000Z" Examples.beat "cursor" VNull ConfigExamples.configured
      = (inr tt, w') /\
    files w' !! (Examples.beat ++ ["_cfg"; "ides"; "cursor.yaml"])
      = Some (File ("2024-01-01T00:00:00.000Z" +:+ Js.nl)).
Proof.
  destruct (configured_date_preserved ConfigExamples.load_date ConfigExamples.dump_date
              "2025-06-30T12:00:00.000Z" Examples.beat "cursor" VNull
              ConfigExamples.configured "2024-01-01T00:00:00.000Z"
              (VObj [("configured_date", VStr "2024-01-01T00:00:00.000Z")])
              eq_refl eq_refl eq_refl)
    as (Hfile & Hrun).
  destruct (Hrun (wf_treeb_ok (files ConfigExamples.configured) eq_refl) eq_refl)
    as (w' & Hw').
  exists w'. split; [exact Hw'|].
  change (Examples.beat ++ ["_cfg"; "ides"; "cursor.yaml"])
    with (getIdeConfigPath Examples.beat "cursor").
  rewrite (Hfile w' Hw'). reflexivity.
Defined.

End ConfiguredDate.

(* ================================================================== *)
(** ** C8: reinstalling *)
(* ================================================================== *)

Module SyncFacts.
Import StrFacts PathFacts TreeFacts FsFacts CleanupFacts ConfigFacts NoCollision.
Import Path Fs FsOps Flat Sync.

(** *** Computations whose effect depends on the tree alone *)

Definition oblivious {A} (m : M A) : Prop :=
  forall w w', files w = files w' ->
    (m w).1 = (m w').1 /\ files (m w).2 = files (m w').2.

Lemma oblivious_ret {A} (a : A) : oblivious (ret a).
Proof. intros w w' H. now split. Qed.

Lemma oblivious_bind {A B} (m : M A) (k : A -> M B) :
  oblivious m -> (forall a, oblivious (k a)) -> oblivious (bind m k).
Proof.
  intros Hm Hk w w' H. destruct (Hm w w' H) as [H1 H2]. unfold bind.
  destruct (m w) as [[e|a] w1], (m w') as [[e'|a'] w1']; simpl in *; try congruence.
  - split; congruence.
  - inversion H1; subst. now apply Hk.
Qed.

Lemma oblivious_writeFile (p : path) c : oblivious (writeFile p c).
Proof.
  intros w w' H. rewrite !writeFile_run. cbn zeta. rewrite <- H.
  destruct p as [|s p]; [now split|].
  destruct (node_at (files w) (parent (s :: p))) as [[]|]; try (now split).
  destruct (files w !! (s :: p)) as [[]|]; now split.
Qed.

Lemma oblivious_foldM {A B} (f : B -> A -> M B) l :
  (forall acc x, oblivious (f acc x)) -> forall acc, oblivious (foldM f acc l).
Proof.
  intros Hf. induction l as [|x l IH]; intros acc; simpl.
  - apply oblivious_ret.
  - apply oblivious_bind; [apply Hf | intros; apply IH].
Qed.

Lemma oblivious_write A (d : path) : oblivious (flattenAndWriteArtifacts A d).
Proof.
  unfold flattenAndWriteArtifacts. apply oblivious_foldM. intros acc a.
  apply oblivious_bind; [apply oblivious_writeFile | intros; apply oblivious_ret].
Qed.

(** *** The listing has no repetition *)

Lemma NoDup_omap {A B} (f : A -> option B) (l : list A) :
  NoDup l ->
  (forall x y z, x ∈ l -> y ∈ l -> f x = Some z -> f y = Some z -> x = y) ->
  NoDup (omap f l).
Proof.
  induction 1 as [|x l Hx Hl IH]; intros Hinj; simpl; [constructor|].
  destruct (f x) as [z|] eqn:E.
  - constructor.
    + rewrite list_elem_of_omap. intros (y & Hy & Hfy).
      assert (x = y).
      { apply (Hinj x y z); [left | now right | assumption | assumption]. }
      subst y. contradiction.
    + apply IH. intros a b c Ha Hb. apply Hinj; now right.
  - apply IH. intros a b c Ha Hb. apply Hinj; now right.
Qed.

Lemma NoDup_names (t : gmap path node) (d : path) : NoDup (names t d).
Proof.
  unfold names. apply NoDup_omap; [apply NoDup_map_to_list|].
  intros [k1 v1] [k2 v2] n H1 H2 E1 E2. simpl in *.
  apply child_of_Some in E1, E2. subst k1 k2.
  apply elem_of_map_to_list in H1, H2. congruence.
Qed.

(** *** The loop of [clearOldBeatFiles] *)

Lemma prefix_entry (d : path) (e e' : string) rest :
  (d ++ [e]) `prefix_of` (d ++ e' :: rest) -> e = e'.
Proof.
  intros [k Hk]. rewrite <- app_assoc in Hk. apply app_inv_head in Hk.
  simpl in Hk. now inversion Hk.
Qed.

Lemma clear_step_other (d : path) (t : gmap path node) (e e' : string) :
  e <> e' -> clear_step d t e !! (d ++ [e']) = t !! (d ++ [e']).
Proof.
  intros Hne. unfold clear_step. destruct (removable t d e); [|reflexivity].
  rewrite rm_lookup. destruct (decide _) as [Hp|]; [|reflexivity].
  apply prefix_entry in Hp. contradiction.
Qed.

Lemma removable_other (d : path) (t : gmap path node) (e e' : string) :
  e <> e' -> removable (clear_step d t e) d e' = removable t d e'.
Proof. intros Hne. unfold removable. now rewrite clear_step_other. Qed.

(** One round on an entry that is there. *)
Lemma clear_body (d : path) (entry : string) w :
  valid entry ->
  (Js.startsWith "beat-" entry = true -> is_Some (files w !! (d ++ [entry]))) ->
  exists w',
    (if negb (Js.startsWith "beat-" entry) then ret tt
     else bind (stat (join d [entry])) (fun st =>
            if isFile st then remove (join d [entry])
            else if isDirectory st then remove (join d [entry])
            else ret tt)) w = (inr tt, w') /\
    files w' = clear_step d (files w) entry.
Proof.
  intros Hv Hex. unfold clear_step, removable.
  destruct (Js.startsWith "beat-" entry) eqn:B; cbn [negb andb].
  2:{ exists w. now split. }
  destruct (Hex eq_refl) as [n Hn]. rewrite join_one by assumption.
  rewrite (bind_ok _ _ _ (kind_of n) (World (files w) (log w ++ [Stat (d ++ [entry])]))).
  2:{ rewrite stat_run, node_at_app, Hn. reflexivity. }
  rewrite Hn. destruct n; cbn [kind_of isFile isDirectory].
  - eexists. split; [apply remove_run | reflexivity].
  - eexists. split; [apply remove_run | reflexivity].
  - eexists. split; [reflexivity | reflexivity].
Qed.

Lemma clear_loop (d : path) (l : list string) : forall w,
  NoDup l -> Forall valid l ->
  (forall e, e ∈ l -> is_Some (files w !! (d ++ [e]))) ->
  exists w',
    forEach l (fun entry =>
      if negb (Js.startsWith "beat-" entry) then ret tt
      else bind (stat (join d [entry])) (fun st =>
             if isFile st then remove (join d [entry])
             else if isDirectory st then remove (join d [entry])
             else ret tt)) w = (inr tt, w') /\
    files w' = fold_left (clear_step d) l (files w).
Proof.
  induction l as [|e l IH]; intros w Hnd Hv Hex.
  - exists w. now split.
  - inversion Hnd as [|? ? Hnot Hnd']; subst. inversion Hv as [|? ? Hve Hvl]; subst.
    destruct (clear_body d e w Hve) as (w1 & H1 & F1).
    { intros _. apply Hex. left. }
    cbn [forEach]. rewrite (bind_ok _ _ _ _ _ H1).
    destruct (IH w1 Hnd' Hvl) as (w' & H2 & F2).
    { intros e' He'. rewrite F1, clear_step_other.
      - apply Hex. now right.
      - intros ->. contradiction. }
    exists w'. split; [exact H2|]. rewrite F2, F1. reflexivity.
Qed.

(** What the loop leaves at a path. *)
Definition hit (t : gmap path node) (d : path) (l : list string) (p : path) : bool :=
  existsb (fun e => removable t d e && bool_decide ((d ++ [e]) `prefix_of` p)) l.

Lemma hit_other (d : path) t (e : string) l (p : path) :
  e ∉ l -> hit (clear_step d t e) d l p = hit t d l p.
Proof.
  intros Hnot. unfold hit. induction l as [|e' l IH]; [reflexivity|].
  simpl. rewrite removable_other.
  - f_equal. apply IH. intros H. apply Hnot. now right.
  - intros ->. apply Hnot. left.
Qed.

Lemma fold_clear_lookup (d : path) (l : list string) : forall (t : gmap path node) (p : path),
  NoDup l ->
  fold_left (clear_step d) l t !! p = if hit t d l p then None else t !! p.
Proof.
  induction l as [|e l IH]; intros t p Hnd; [reflexivity|].
  inversion Hnd as [|? ? Hnot Hnd']; subst.
  cbn [fold_left]. rewrite IH by assumption. rewrite hit_other by assumption.
  unfold hit at 2. cbn [existsb]. fold (hit t d l p).
  destruct (hit t d l p); [now rewrite orb_true_r|]. rewrite orb_false_r.
  unfold clear_step. destruct (removable t d e); cbn [andb]; [|reflexivity].
  rewrite rm_lookup. destruct (decide _) as [Hp|Hp].
  - now rewrite bool_decide_eq_true_2.
  - now rewrite bool_decide_eq_false_2.
Qed.

Lemma hit_names (d : path) (t : gmap path node) (p : path) :
  hit t d (names t d) p = under_removable t d p.
Proof.
  unfold under_removable, hit.
  destruct (existsb _ _) eqn:E.
  - apply existsb_exists in E. destruct E as (e & He & Hr).
    apply andb_true_iff in Hr. destruct Hr as [Hr Hp].
    apply bool_decide_eq_true in Hp. destruct Hp as [rest ->].
    rewrite <- app_assoc, strip_prefix_app. simpl. now rewrite Hr.
  - destruct (strip_prefix d p) as [[|e rest]|] eqn:S; try reflexivity.
    apply strip_prefix_Some in S. subst p.
    destruct (removable t d e) eqn:R; [|reflexivity].
    exfalso. assert (Hin : e ∈ names t d).
    { apply elem_of_names. unfold removable in R.
      apply andb_true_iff in R. destruct R as [_ R].
      destruct (t !! (d ++ [e])); [eauto | discriminate]. }
    assert (existsb (fun e0 => removable t d e0 &&
                       bool_decide ((d ++ [e0]) `prefix_of` (d ++ e :: rest)))
              (names t d) = true).
    { apply existsb_exists. exists e. split; [now apply list_elem_of_In|].
      rewrite R. cbn [andb]. apply bool_decide_eq_true.
      exists rest. now rewrite <- app_assoc. }
    congruence.
Qed.

Lemma cleared_lookup (d : path) (t : gmap path node) (p : path) :
  cleared d t !! p = if under_removable t d p then None else t !! p.
Proof.
  unfold cleared. rewrite fold_clear_lookup by apply NoDup_names.
  now rewrite hit_names.
Qed.

(** [clearOldBeatFiles] on a directory of a tree of file names. *)
Lemma clear_run (d : path) w :
  valid_tree (files w) -> node_at (files w) d = Some Directory ->
  exists w', clearOldBeatFiles d w = (inr tt, w') /\ files w' = cleared d (files w).
Proof.
  intros Hv Hd. unfold clearOldBeatFiles.
  rewrite (bind_ok _ _ _ _ _ (pathExists_run d w)). rewrite Hd. cbn [negb].
  rewrite (bind_ok _ _ _ (names (files w) d)
             (World (files w) ((log w ++ [PathExists d]) ++ [Readdir d]))).
  2:{ rewrite readdir_run. cbn [files log]. now rewrite Hd. }
  apply (clear_loop d (names (files w) d)
           (World (files w) ((log w ++ [PathExists d]) ++ [Readdir d]))).
  - apply NoDup_names.
  - apply List.Forall_forall. intros n Hn. apply list_elem_of_In in Hn.
    eapply names_valid; eauto.
  - intros e He. now apply elem_of_names in He.
Qed.


(** *** After the cleaning, and after the writing *)

Lemma under_removable_entry (t : gmap path node) (d : path) (e : string) rest :
  under_removable t d (d ++ e :: rest) = removable t d e.
Proof. unfold under_removable. now rewrite strip_prefix_app. Qed.

Lemma under_removable_inv (t : gmap path node) (d p : path) :
  under_removable t d p = true ->
  exists e rest, p = d ++ e :: rest /\ removable t d e = true.
Proof.
  unfold under_removable. destruct (strip_prefix d p) as [[|e rest]|] eqn:S; try discriminate.
  intros H. apply strip_prefix_Some in S. eauto.
Qed.

Lemma under_removable_dir (t : gmap path node) (d : path) : under_removable t d d = false.
Proof.
  unfold under_removable.
  pose proof (strip_prefix_app d []) as H. rewrite app_nil_r in H. now rewrite H.
Qed.

(** Nothing removable is left after the cleaning. *)
Lemma cleared_no_removable (t : gmap path node) (d : path) (e : string) :
  removable (cleared d t) d e = false.
Proof.
  destruct (removable (cleared d t) d e) eqn:R; [|reflexivity]. exfalso.
  unfold removable in R. apply andb_true_iff in R. destruct R as [B R].
  rewrite cleared_lookup in R.
  replace (d ++ [e]) with (d ++ e :: []) in R by reflexivity.
  rewrite under_removable_entry in R.
  destruct (removable t d e) eqn:R'; [discriminate|].
  unfold removable in R'. rewrite B in R'. cbn [andb] in R'.
  change (d ++ [e]) with (d ++ e :: []) in R'. now rewrite R' in R.
Qed.

(** The tree [t'] is [tc] but for files written where [tc] had
    nothing, under flattened names. *)
Definition written_over (d : path) (tc t' : gmap path node) : Prop :=
  forall p, t' !! p = tc !! p \/
            exists r c, p = d ++ [flattenFilename r] /\ t' !! p = Some (File c) /\
                        tc !! p = None.

Lemma flattenFilename_beat r : Js.startsWith "beat-" (flattenFilename r) = true.
Proof. unfold flattenFilename. apply startsWith_app. Qed.

Lemma target_eq (d : path) r : target d r = d ++ [flattenFilename r].
Proof. unfold target. apply join_one, flattenFilename_valid. Qed.

Lemma write_loop (d : path) (tc : gmap path node) A : forall acc w n w1,
  (forall e, removable tc d e = false) ->
  written_over d tc (files w) ->
  foldM (fun written a =>
           bind (writeFile (target d (exp_relativePath a)) (exp_content a))
             (fun _ => ret (S written))) acc A w = (inr n, w1) ->
  written_over d tc (files w1) /\ n = acc + length A.
Proof.
  induction A as [|a A IH]; intros acc w n w1 Htc Hinv H.
  - simpl in H. inversion H; subst. split; [assumption | simpl; lia].
  - cbn [foldM] in H. apply bind_inv in H.
    destruct H as [(e & _ & He) | (acc' & w2 & H1 & H2)]; [discriminate|].
    apply bind_inv in H1.
    destruct H1 as [(e & _ & He) | ([] & w3 & W & R)]; [discriminate|].
    inversion R; subst acc' w3. clear R.
    assert (Hinv2 : written_over d tc (files w2)).
    { rewrite writeFile_run, target_eq in W. cbn zeta in W.
      set (q := d ++ [flattenFilename (exp_relativePath a)]) in *.
      destruct q as [|s q'] eqn:Eq; [inversion W|]. rewrite <- Eq in *.
      destruct (node_at (files w) (parent q)) as [[]|]; try (inversion W; fail).
      destruct (files w !! q) as [[c0| |]|] eqn:Lq; inversion W; subst w2; cbn [files].
      - intros p. destruct (decide (p = q)) as [->|Hne].
        + right. exists (exp_relativePath a), (exp_content a).
          split; [reflexivity|]. split; [apply lookup_insert_eq|].
          destruct (Hinv q) as [E|(r & c & _ & _ & E)]; [|exact E].
          rewrite Lq in E. exfalso.
          specialize (Htc (flattenFilename (exp_relativePath a))).
          unfold removable in Htc. rewrite flattenFilename_beat in Htc.
          fold q in Htc. rewrite <- E in Htc. discriminate Htc.
        + rewrite lookup_insert_ne by congruence. apply Hinv.
      - exact Hinv.
      - intros p. destruct (decide (p = q)) as [->|Hne].
        + right. exists (exp_relativePath a), (exp_content a).
          split; [reflexivity|]. split; [apply lookup_insert_eq|].
          destruct (Hinv q) as [E|(r & c & _ & _ & E)]; [|exact E].
          now rewrite Lq in E.
        + rewrite lookup_insert_ne by congruence. apply Hinv. }
    destruct (IH (S acc) w2 n w1 Htc Hinv2 H2) as [I N].
    split; [exact I | simpl; lia].
Qed.

(** In a well-formed tree nothing lies below what is not there. *)
Lemma wf_below (t : gmap path node) (a b : path) :
  wf_tree t -> b <> [] -> node_at t a = None -> t !! (a ++ b) = None.
Proof.
  intros Hwf Hb Ha. destruct (t !! (a ++ b)) as [n|] eqn:E; [|reflexivity].
  assert (node_at t (a ++ b) = Some n).
  { unfold node_at. destruct (a ++ b) eqn:E'; [now destruct a, b | exact E]. }
  pose proof (wf_above t a b n Hwf Hb H). congruence.
Qed.

(** Cleaning again after the writing gives the cleaned tree back. *)
Lemma cleared_again (d : path) (t t1 : gmap path node) :
  wf_tree t -> written_over d (cleared d t) t1 -> cleared d t1 = cleared d t.
Proof.
  intros Hwf Hinv. apply map_eq. intros p.
  rewrite (cleared_lookup d t1 p).
  destruct (under_removable t1 d p) eqn:U.
  - apply under_removable_inv in U. destruct U as (e & rest & -> & R).
    unfold removable in R. apply andb_true_iff in R. destruct R as [B R].
    destruct (Hinv (d ++ [e])) as [E|(r & c & _ & _ & E)].
    + exfalso. pose proof (cleared_no_removable t d e) as N.
      unfold removable in N. rewrite B, <- E in N. cbn [andb] in N.
      rewrite N in R. discriminate R.
    + symmetry. rewrite cleared_lookup. rewrite under_removable_entry.
      destruct (removable t d e) eqn:R'; [reflexivity|].
      rewrite cleared_lookup in E.
      change (d ++ [e]) with (d ++ e :: []) in E.
      rewrite under_removable_entry, R' in E.
      destruct rest as [|x rest]; [exact E|].
      change (d ++ e :: x :: rest) with (d ++ [e] ++ x :: rest).
      rewrite app_assoc. apply wf_below; [assumption | discriminate|].
      now rewrite node_at_app.
  - destruct (Hinv p) as [E|(r & c & -> & E & _)]; [exact E|].
    exfalso. change (d ++ [flattenFilename r]) with (d ++ flattenFilename r :: []) in U.
    rewrite under_removable_entry in U. unfold removable in U.
    rewrite flattenFilename_beat, E in U. discriminate U.
Qed.

End SyncFacts.

Module Reinstall.
Import StrFacts PathFacts TreeFacts FsFacts CleanupFacts ConfigFacts NoCollision.
Import TreeCheckFacts SyncFacts.
Import Path Fs FsOps Flat Sync.

Lemma written_over_refl (d : path) (tc : gmap path node) : written_over d tc tc.
Proof. intros p. now left. Qed.

(** The destination is still a directory after the cleaning. *)
Lemma cleared_dir (d : path) (t : gmap path node) :
  node_at t d = Some Directory -> node_at (cleared d t) d = Some Directory.
Proof.
  unfold node_at. destruct d as [|s d]; [reflexivity|].
  intros H. now rewrite cleared_lookup, under_removable_dir.
Qed.

Lemma written_over_dir (d : path) (tc t1 : gmap path node) :
  written_over d tc t1 -> node_at tc d = Some Directory -> node_at t1 d = Some Directory.
Proof.
  unfold node_at. destruct d as [|s d]; [reflexivity|].
  intros Hinv H. destruct (Hinv (s :: d)) as [E|(r & c & Hp & _)]; [congruence|].
  exfalso. apply (f_equal length) in Hp. rewrite length_app in Hp. simpl in Hp. lia.
Qed.

Lemma written_over_valid (d : path) (t t1 : gmap path node) :
  valid_tree t -> node_at t d = Some Directory ->
  written_over d (cleared d t) t1 -> valid_tree t1.
Proof.
  intros Hv Hd Hinv p n Hp.
  destruct (Hinv p) as [E|(r & c & -> & _)].
  - rewrite E, cleared_lookup in Hp.
    destruct (under_removable t d p); [discriminate|]. eapply Hv; eauto.
  - apply Forall_app. split.
    + destruct d as [|s d]; [constructor|]. eapply Hv. exact Hd.
    + constructor; [apply flattenFilename_valid | constructor].
Qed.

Lemma clear_absent (d : path) w :
  node_at (files w) d = None ->
  clearOldBeatFiles d w = (inr tt, World (files w) (log w ++ [PathExists d])).
Proof.
  intros D. unfold clearOldBeatFiles.
  rewrite (bind_ok _ _ _ _ _ (pathExists_run d w)). now rewrite D.
Qed.

(** C8: on a well-formed tree of file names, when the cleanup and
    the writing of a list of artifacts into a destination return
    normally, running the same sequence again returns normally with
    the same count and leaves the tree exactly as the first run left
    it. *)
Theorem reinstall_idempotent (artifacts : list export) (destDir : path)
    (w w1 : world) (n : nat) :
  valid_tree (files w) ->
  wf_tree (files w) ->
  sync artifacts destDir w = (inr n, w1) ->
  exists w2, sync artifacts destDir w1 = (inr n, w2) /\ files w2 = files w1.
Proof.
  intros Hv Hwf H. unfold sync in *.
  apply bind_inv in H. destruct H as [(e & _ & He) | ([] & wc & C & W)]; [discriminate|].
  destruct (node_at (files w) destDir) as [[c| |]|] eqn:D.
  - exfalso. unfold clearOldBeatFiles in C.
    rewrite (bind_ok _ _ _ _ _ (pathExists_run destDir w)) in C. rewrite D in C.
    cbn [negb] in C. apply bind_inv in C.
    destruct C as [(e & _ & He) | (l & w' & R & _)]; [discriminate|].
    rewrite readdir_run in R. cbn [files] in R. rewrite D in R. discriminate R.
  - destruct (clear_run destDir w Hv D) as (wc' & C' & Fc).
    rewrite C in C'. inversion C'; subst wc'. clear C'.
    unfold flattenAndWriteArtifacts in W.
    destruct (write_loop destDir (cleared destDir (files w)) artifacts 0 wc n w1) as [Hinv Hn].
    { apply cleared_no_removable. }
    { rewrite Fc. apply written_over_refl. }
    { exact W. }
    assert (Hv1 : valid_tree (files w1)) by (eapply written_over_valid; eauto).
    assert (Hd1 : node_at (files w1) destDir = Some Directory).
    { eapply written_over_dir; [exact Hinv|]. now apply cleared_dir. }
    destruct (clear_run destDir w1 Hv1 Hd1) as (wc2 & C2 & Fc2).
    rewrite (bind_ok _ _ _ _ _ C2).
    assert (Fsame : files wc2 = files wc).
    { rewrite Fc2, Fc. now apply cleared_again. }
    destruct (oblivious_write artifacts destDir wc2 wc Fsame) as [O1 O2].
    fold (flattenAndWriteArtifacts artifacts destDir) in W. rewrite W in O1, O2.
    destruct (flattenAndWriteArtifacts artifacts destDir wc2) as [r2 w2] eqn:W2.
    simpl in O1, O2. subst r2. exists w2. now split.
  - exfalso. unfold clearOldBeatFiles in C.
    rewrite (bind_ok _ _ _ _ _ (pathExists_run destDir w)) in C. rewrite D in C.
    cbn [negb] in C. apply bind_inv in C.
    destruct C as [(e & _ & He) | (l & w' & R & _)]; [discriminate|].
    rewrite readdir_run in R. cbn [files] in R. rewrite D in R. discriminate R.
  - rewrite (clear_absent destDir w D) in C. inversion C; subst wc. clear C.
    destruct artifacts as [|a artifacts].
    + inversion W; subst. eexists. split.
      * rewrite (bind_ok _ _ _ _ _
                   (clear_absent destDir (World (files w) (log w ++ [PathExists destDir])) D)).
        reflexivity.
      * reflexivity.
    + exfalso. unfold flattenAndWriteArtifacts in W. cbn [foldM] in W.
      apply bind_inv in W.
      destruct W as [(e & _ & He) | (acc' & w2 & H1 & _)]; [discriminate|].
      apply bind_inv in H1.
      destruct H1 as [(e & _ & He) | ([] & w3 & Wf & _)]; [discriminate|].
      rewrite writeFile_run, target_eq in Wf. cbn zeta in Wf. cbn [files] in Wf.
      unfold parent in Wf. rewrite removelast_last, D in Wf.
      destruct (destDir ++ [flattenFilename (exp_relativePath a)]); discriminate Wf.
Qed.

(** The theorem at a prompt directory with an older export and files
    of the user: the second run leaves what the first run left. *)
Lemma reinstall_idempotent_witness :
  exists w1 w2,
    sync SyncExamples.exports ["home"; ".codex"; "prompts"] SyncExamples.prompts = (inr 2, w1) /\
    sync SyncExamples.exports ["home"; ".codex"; "prompts"] w1 = (inr 2, w2) /\
    files w2 = files w1 /\
    files w1 !! ["home"; ".codex"; "prompts"; "notes.md"] = Some (File "my notes") /\
    files w1 !! ["home"; ".codex"; "prompts"; "beat-core-agents-old.md"] = None /\
    files w1 !! ["home"; ".codex"; "prompts"; "beat-core-agents-dev.md"]
      = Some (File "launcher of dev").
Proof.
  destruct (sync SyncExamples.exports ["home"; ".codex"; "prompts"] SyncExamples.prompts)
    as [r w1] eqn:E.
  assert (Hr : r = inr 2) by (apply (f_equal fst) in E; vm_compute in E; congruence).
  subst r.
  destruct (reinstall_idempotent SyncExamples.exports ["home"; ".codex"; "prompts"]
              SyncExamples.prompts w1 2
              (valid_treeb_ok (files SyncExamples.prompts) eq_refl)
              (wf_treeb_ok (files SyncExamples.prompts) eq_refl) E) as (w2 & H2 & F2).
  exists w1, w2. split; [reflexivity|]. split; [exact H2|]. split; [exact F2|].
  apply (f_equal (fun x => files x.2)) in E. simpl in E. rewrite <- E.
  repeat split; vm_compute; reflexivity.
Defined.

End Reinstall.

(* ================================================================== *)
(** ** C2: the flat export of an agent *)
(* ================================================================== *)

Module FlatExport.
Import StrFacts PathFacts TreeFacts FsFacts CollectorFacts NoCollision TreeCheckFacts SyncFacts.
Import Path Fs FsOps BeatArtifacts AgentCommandGenerator Flat ExportExamples.

Lemma reader_generateLauncherContent tp bf agent :
  reader (generateLauncherContent tp bf agent).
Proof.
  unfold generateLauncherContent. apply reader_bind; [apply reader_readFile|].
  intros; apply reader_ret.
Qed.

(** The launchers are the template instantiated at each agent, in the
    order of the agents. *)
Lemma launcher_loop tp bf agents : forall acc w l w',
  foldM (launcher tp bf) acc agents w = (inr l, w') ->
  forall a, a ∈ l ->
    a ∈ acc \/
    exists agent template,
      agent ∈ agents /\ node_at (files w) tp = Some (File template) /\
      a = launcherArtifact agent (instantiate bf template agent).
Proof.
  induction agents as [|agent agents IH]; intros acc w l w' H a Ha.
  - simpl in H. inversion H; subst. now left.
  - cbn [foldM] in H. apply bind_inv in H.
    destruct H as [(e & _ & He) | (acc' & w1 & H1 & H2)]; [discriminate|].
    unfold launcher in H1. apply bind_inv in H1.
    destruct H1 as [(e & _ & He) | (c & w2 & G & R)]; [discriminate|].
    inversion R; subst acc' w2. clear R.
    unfold generateLauncherContent in G.
    rewrite (bind_run (readFile tp)), readFile_run in G.
    destruct (node_at (files w) tp) as [[template| |]|] eqn:N; inversion G; subst c w1.
    destruct (IH _ _ _ _ H2 a Ha) as [Hin | (ag & t & Hag & Hn & ->)].
    + apply elem_of_app in Hin. destruct Hin as [Hin|Hin]; [now left|].
      apply list_elem_of_singleton in Hin. subst a.
      right. exists agent, template. split; [left | now split].
    + right. exists ag, t. split; [now right | split; [|reflexivity]].
      cbn [files] in Hn. rewrite N in Hn. exact Hn.
Qed.

(** C2 as stated fails in the scenario of the claim: the Codex setup
    on an installation whose only artifact is core/agents/dev.md, with
    the title Developer, writes the single file
    beat-core-agents-dev.md, and its content is the launcher of the
    agent, which does not contain the title. *)
Lemma scenario_file_name :
  names (files installed) dest = ["beat-core-agents-dev.md"] /\
  files installed !! (dest ++ ["beat-core-agent-dev.md"]) = None /\
  files installed !! (dest ++ ["beat-core-agents-dev.md"])
    = Some (File "---
name: 'dev'
description: 'dev agent'
---

LOAD the FULL agent file from @beat/core/agents/dev.md
") /\
  ~ as_claimed installed.
Proof.
  split; [vm_compute; reflexivity|]. split; [vm_compute; reflexivity|].
  split; [vm_compute; reflexivity|].
  intros (content & Hfile & _). vm_compute in Hfile. discriminate Hfile.
Qed.

(** C2 (amended): every collected agent of module m and name n has
    the relative path m/agents/n.md and, as content, the launcher
    template instantiated at its name and module; the content of the
    source file is not part of it.  For a module that is a file name
    and a name without slash, neither with a backslash, the flat
    naming of Codex and Cline writes it to
    destinationRoot/beat-{m}-agents-{n}.md. *)
Theorem flat_export (templatePath : path) (beatFolderName : string) (beatDir : path)
    (selectedModules : list string) (w w' : world) (l : list artifact) :
  collectAgentArtifacts templatePath beatFolderName beatDir selectedModules w = (inr l, w') ->
  forall a, a ∈ l ->
    art_relativePath a = join_str [art_module a; "agents"; art_name a +:+ ".md"] /\
    (exists template,
       node_at (files w) templatePath = Some (File template) /\
       art_content a
       = instantiate beatFolderName template
           (Item (art_sourcePath a) (art_name a) (art_module a))) /\
    (valid (art_module a) -> absent "\"%char (art_module a) ->
     absent "/"%char (art_name a) -> absent "\"%char (art_name a) ->
     forall destDir,
       Flat.target destDir (art_relativePath a)
       = destDir ++ ["beat-" +:+ art_module a +:+ "-agents-" +:+ art_name a +:+ ".md"]).
Proof.
  intros H a Ha. unfold collectAgentArtifacts in H. apply bind_inv in H.
  destruct H as [(e & _ & He) | (agents & w1 & G & L)]; [discriminate|].
  assert (F1 : files w1 = files w).
  { pose proof (reader_files _ w (reader_getAgentsFromBeat beatDir selectedModules)) as Hf.
    now rewrite G in Hf. }
  destruct (launcher_loop _ _ _ _ _ _ _ L a Ha) as [Hin | (ag & t & _ & Hn & ->)].
  { apply elem_of_nil in Hin. contradiction. }
  rewrite F1 in Hn. destruct ag as [p n m]. unfold launcherArtifact.
  cbn [art_relativePath art_module art_name art_content art_sourcePath
       item_path item_name item_module].
  split; [reflexivity|]. split; [exists t; now split|].
  intros Hm Hm' Hn1 Hn2 destDir.
  rewrite target_eq. f_equal. f_equal.
  now apply (flat_name m "agents" n).
Qed.

(** The theorem at the installation of the scenario. *)
Lemma flat_export_witness :
  exists l w',
    collectAgentArtifacts templatePath "beat" Examples.beat [] single_agent = (inr l, w') /\
    map (fun a => Flat.target dest (art_relativePath a)) l
    = [dest ++ ["beat-core-agents-dev.md"]].
Proof.
  destruct (collectAgentArtifacts templatePath "beat" Examples.beat [] single_agent)
    as [[e|l] w'] eqn:E.
  { apply (f_equal fst) in E. vm_compute in E. discriminate E. }
  exists l, w'. split; [reflexivity|].
  pose proof (flat_export templatePath "beat" Examples.beat [] single_agent w' l E) as H.
  assert (Hl : map (fun a => (art_module a, art_name a)) l = [("core", "dev")]).
  { apply (f_equal fst) in E. vm_compute in E. inversion E. reflexivity. }
  destruct l as [|a [|b l]]; try discriminate Hl.
  inversion Hl as [[Hm Hn]].
  destruct (H a ltac:(left)) as (_ & _ & Ht).
  rewrite Hm, Hn in Ht. cbn [map]. rewrite (Ht eq_refl eq_refl eq_refl eq_refl dest).
  reflexivity.
Defined.

End FlatExport.

(* ================================================================== *)
(** ** C7: rendering twice *)
(* ================================================================== *)

Module OutputFacts.
Import StrFacts PathFacts TreeFacts FsFacts ConfigFacts.
Import Path Fs FsOps Output.

Lemma writeFile_log (p : path) c w : log (writeFile p c w).2 = log w ++ [WriteFile p c].
Proof.
  rewrite writeFile_run. cbn zeta. destruct p as [|s p]; [reflexivity|].
  destruct (node_at (files w) (parent (s :: p))) as [[]|]; try reflexivity.
  destruct (files w !! (s :: p)) as [[]|]; reflexivity.
Qed.

Lemma calls_app {A} (m : M A) w l : log (m w).2 = log w ++ l -> calls m w = l.
Proof. intros H. unfold calls. rewrite H. apply drop_app_length. Qed.

Lemma emits_calls {A} P (m : M A) w : emits P m -> Forall P (calls m w).
Proof. intros H. destruct (H w) as (l & E & F). now rewrite (calls_app m w l E). Qed.

Lemma written_map {A} (f : A -> path) (g : A -> string) l :
  omap written (map (fun a => WriteFile (f a) (g a)) l) = map (fun a => (f a, g a)) l.
Proof.
  induction l as [|a l IH]; [reflexivity|].
  change (omap written (map (fun a => WriteFile (f a) (g a)) (a :: l)))
    with ((f a, g a) :: omap written (map (fun a => WriteFile (f a) (g a)) l)).
  now rewrite IH.
Qed.

(** A loop of writes issues the writes of a prefix of the list, and
    of the whole list when it returns normally. *)
Lemma forEach_write_log {A} (f : A -> path) (g : A -> string) l : forall w,
  exists k,
    log (forEach l (fun a => writeFile (f a) (g a)) w).2
      = log w ++ map (fun a => WriteFile (f a) (g a)) (take k l) /\
    ((forEach l (fun a => writeFile (f a) (g a)) w).1 = inr tt -> k = length l).
Proof.
  induction l as [|a l IH]; intros w.
  - exists 0. simpl. split; [now rewrite app_nil_r | reflexivity].
  - cbn [forEach]. unfold bind.
    pose proof (writeFile_log (f a) (g a) w) as L.
    destruct (writeFile (f a) (g a) w) as [[e|[]] w1]; cbn [snd] in L.
    + exists 1. cbn [fst snd take map]. rewrite take_0. split; [exact L | discriminate].
    + destruct (IH w1) as (k & E & K). exists (S k). split.
      * rewrite E, L. cbn [take map]. now rewrite <- app_assoc.
      * intros H. simpl. f_equal. now apply K.
Qed.

Lemma forEach_write_outputs {A} (f : A -> path) (g : A -> string) l w :
  completes (forEach l (fun a => writeFile (f a) (g a))) w ->
  outputs (forEach l (fun a => writeFile (f a) (g a))) w = map (fun a => (f a, g a)) l.
Proof.
  intros [[] Hc]. destruct (forEach_write_log f g l w) as (k & E & K).
  unfold outputs. rewrite (calls_app _ _ _ E), written_map.
  rewrite (K Hc). now rewrite firstn_all.
Qed.

(** The same for the loop that counts what it writes. *)
Lemma foldM_write_log {A} (f : A -> path) (g : A -> string) l : forall acc w,
  exists k,
    log (foldM (fun n a => bind (writeFile (f a) (g a)) (fun _ => ret (S n))) acc l w).2
      = log w ++ map (fun a => WriteFile (f a) (g a)) (take k l) /\
    (forall n,
       (foldM (fun n a => bind (writeFile (f a) (g a)) (fun _ => ret (S n))) acc l w).1
         = inr n -> k = length l).
Proof.
  induction l as [|a l IH]; intros acc w.
  - exists 0. simpl. split; [now rewrite app_nil_r | reflexivity].
  - cbn [foldM]. rewrite !bind_run.
    pose proof (writeFile_log (f a) (g a) w) as L.
    destruct (writeFile (f a) (g a) w) as [[e|[]] w1]; cbn [snd] in L.
    + exists 1. cbn [fst snd take map]. rewrite take_0.
      split; [exact L | intros n H; discriminate H].
    + unfold ret at 1. cbn beta iota. destruct (IH (S acc) w1) as (k & E & K).
      exists (S k). split.
      * rewrite E, L. cbn [take map]. now rewrite <- app_assoc.
      * intros n H. simpl. f_equal. now apply (K n).
Qed.

Lemma foldM_write_outputs {A} (f : A -> path) (g : A -> string) l acc w :
  completes (foldM (fun n a => bind (writeFile (f a) (g a)) (fun _ => ret (S n))) acc l) w ->
  outputs (foldM (fun n a => bind (writeFile (f a) (g a)) (fun _ => ret (S n))) acc l) w
  = map (fun a => (f a, g a)) l.
Proof.
  intros [n Hc]. destruct (foldM_write_log f g l acc w) as (k & E & K).
  unfold outputs. rewrite (calls_app _ _ _ E), written_map.
  rewrite (K n Hc). now rewrite firstn_all.
Qed.

End OutputFacts.

Module Determinism.
Import StrFacts PathFacts TreeFacts FsFacts ConfigFacts OutputFacts TreeCheckFacts.
Import Path Fs FsOps BaseIdeSetup AgentCommandGenerator Flat Output.

(** What each adapter renders for a list of artifacts: destination
    and content. *)
Definition cursor_render (root : path) (a : artifact) : path * string :=
  (Cursor.target root (art_module a) "agents" (art_name a),
   Cursor.wrapLauncherWithMDC (art_content a) (Metadata (art_module a) (art_name a))).

Definition windsurf_render (root : path) (a : artifact) : path * string :=
  (Windsurf.target root (art_module a) "agents" (art_name a),
   Windsurf.createWorkflowContent (Metadata (art_module a) (art_name a)) (art_content a)).

Definition flat_render (root : path) (a : export) : path * string :=
  (Flat.target root (exp_relativePath a), exp_content a).

Lemma cursor_outputs root A w :
  completes (Cursor.writeLaunchers root A) w ->
  outputs (Cursor.writeLaunchers root A) w = map (cursor_render root) A.
Proof. apply forEach_write_outputs. Qed.

Lemma windsurf_outputs root A w :
  completes (Windsurf.writeLaunchers root A) w ->
  outputs (Windsurf.writeLaunchers root A) w = map (windsurf_render root) A.
Proof. apply forEach_write_outputs. Qed.

Lemma flat_outputs root A w :
  completes (flattenAndWriteArtifacts A root) w ->
  outputs (flattenAndWriteArtifacts A root) w = map (flat_render root) A.
Proof. apply foldM_write_outputs. Qed.

(** C7: rendering and writing the same artifacts under the same
    target from any two states of the file system, when both runs
    return normally, writes the same destinations with the same
    contents in the same order, for the launchers of Cursor and of
    Windsurf and for the flat export of Codex and Cline; and the
    processing of a source file by the Cursor adapter depends on the
    content of the file and the metadata alone. *)
Theorem render_deterministic (root : path) (A : list artifact) (E : list export)
    (base : string -> metadata -> string) (file : path) (md : metadata)
    (w1 w2 : world) :
  (completes (Cursor.writeLaunchers root A) w1 ->
   completes (Cursor.writeLaunchers root A) w2 ->
   outputs (Cursor.writeLaunchers root A) w1
   = outputs (Cursor.writeLaunchers root A) w2) /\
  (completes (Windsurf.writeLaunchers root A) w1 ->
   completes (Windsurf.writeLaunchers root A) w2 ->
   outputs (Windsurf.writeLaunchers root A) w1
   = outputs (Windsurf.writeLaunchers root A) w2) /\
  (completes (flattenAndWriteArtifacts E root) w1 ->
   completes (flattenAndWriteArtifacts E root) w2 ->
   outputs (flattenAndWriteArtifacts E root) w1
   = outputs (flattenAndWriteArtifacts E root) w2) /\
  (forall content,
     node_at (files w1) file = Some (File content) ->
     node_at (files w2) file = Some (File content) ->
     (Cursor.readAndProcess base file md w1).1 = inr (Cursor.processContent base content md) /\
     (Cursor.readAndProcess base file md w2).1 = inr (Cursor.processContent base content md)).
Proof.
  split; [|split; [|split]].
  - intros H1 H2. now rewrite !cursor_outputs.
  - intros H1 H2. now rewrite !windsurf_outputs.
  - intros H1 H2. now rewrite !flat_outputs.
  - intros content H1 H2. unfold Cursor.readAndProcess.
    rewrite !(bind_run (readFile file)), !readFile_run. now rewrite H1, H2.
Qed.

(** The theorem at the export of the example, written into the
    prompt directory as it is found and again into what the first
    run left: the same two files with the same contents. *)
Lemma render_deterministic_witness :
  outputs (flattenAndWriteArtifacts SyncExamples.exports ["home"; ".codex"; "prompts"])
    SyncExamples.prompts
  = outputs (flattenAndWriteArtifacts SyncExamples.exports ["home"; ".codex"; "prompts"])
      (flattenAndWriteArtifacts SyncExamples.exports ["home"; ".codex"; "prompts"]
         SyncExamples.prompts).2.
Proof.
  apply (proj1 (proj2 (proj2
           (render_deterministic ["home"; ".codex"; "prompts"] [] SyncExamples.exports
              (fun c _ => c) [] (Metadata "core" "dev") SyncExamples.prompts
              (flattenAndWriteArtifacts SyncExamples.exports ["home"; ".codex"; "prompts"]
                 SyncExamples.prompts).2)))).
  - exists 2. vm_compute. reflexivity.
  - exists 2. vm_compute. reflexivity.
Defined.

End Determinism.

(* ================================================================== *)
(** ** C9: the order of collection, cleanup and writing *)
(* ================================================================== *)

Module OrderFacts.
Import StrFacts PathFacts TreeFacts FsFacts ConfigFacts OutputFacts CollectorFacts.
Import Path Fs FsOps BaseIdeSetup BeatArtifacts AgentCommandGenerator Flat Output.

(** *** The calls of the primitives *)

Lemma emits_pathExists (P : call -> Prop) p : P (PathExists p) -> emits P (pathExists p).
Proof.
  intros H. unfold pathExists. apply emits_bind; [now apply emits_record|].
  intros _. apply emits_bind; [apply emits_get_files | intros; apply emits_ret].
Qed.

Lemma emits_readdir (P : call -> Prop) p : P (Readdir p) -> emits P (readdir p).
Proof.
  intros H. unfold readdir. apply emits_bind; [now apply emits_record|].
  intros _. apply emits_bind; [apply emits_get_files|]. intros t.
  destruct (node_at t p) as [[]|]; first [apply emits_ret | apply emits_throw].
Qed.

Lemma emits_readdirTypes (P : call -> Prop) p : P (Readdir p) -> emits P (readdirTypes p).
Proof.
  intros H. unfold readdirTypes. apply emits_bind; [now apply emits_record|].
  intros _. apply emits_bind; [apply emits_get_files|]. intros t.
  destruct (node_at t p) as [[]|]; first [apply emits_ret | apply emits_throw].
Qed.

Lemma emits_readFile (P : call -> Prop) p : P (ReadFile p) -> emits P (readFile p).
Proof.
  intros H. unfold readFile. apply emits_bind; [now apply emits_record|].
  intros _. apply emits_bind; [apply emits_get_files|]. intros t.
  destruct (node_at t p) as [[]|]; first [apply emits_ret | apply emits_throw].
Qed.

Lemma emits_stat (P : call -> Prop) p : P (Stat p) -> emits P (stat p).
Proof.
  intros H. unfold stat. apply emits_bind; [now apply emits_record|].
  intros _. apply emits_bind; [apply emits_get_files|]. intros t.
  destruct (node_at t p); first [apply emits_ret | apply emits_throw].
Qed.

Lemma emits_remove (P : call -> Prop) p : P (Remove p) -> emits P (remove p).
Proof.
  intros H. unfold remove. apply emits_bind; [now apply emits_record|].
  intros _. apply emits_bind; [apply emits_get_files | intros; apply emits_put_files].
Qed.

Lemma emits_ensureDir (P : call -> Prop) p : P (EnsureDir p) -> emits P (ensureDir p).
Proof.
  intros H. unfold ensureDir. apply emits_bind; [now apply emits_record|].
  intros _. apply emits_bind; [apply emits_get_files|]. intros t.
  destruct (mkdirs t [] p); first [apply emits_put_files | apply emits_throw].
Qed.

Lemma emits_writeFile (P : call -> Prop) p c : P (WriteFile p c) -> emits P (writeFile p c).
Proof.
  intros H w. exists [WriteFile p c]. split; [apply writeFile_log | now constructor].
Qed.

Lemma emits_removeIfExists (P : call -> Prop) p :
  P (PathExists p) -> P (Remove p) -> emits P (removeIfExists p).
Proof.
  intros H1 H2. unfold removeIfExists. apply emits_bind; [now apply emits_pathExists|].
  intros [|]; [now apply emits_remove | apply emits_ret].
Qed.

(** *** Collection only reads *)

Section Reads.
Variable P : call -> Prop.
Hypothesis Hread : forall c, is_read c -> P c.

Lemma emits_agentFile d m acc file : emits P (agentFile d m acc file).
Proof.
  unfold agentFile. destruct (negb _); [apply emits_ret|].
  destruct (Js.includes ".customize." file); [apply emits_ret|].
  apply emits_bind; [apply emits_readFile, Hread; exact I|].
  intros c. destruct (Js.includes _ c); apply emits_ret.
Qed.

Lemma emits_getAgentsFromDir d m : emits P (getAgentsFromDir d m).
Proof.
  unfold getAgentsFromDir. apply emits_bind; [apply emits_pathExists, Hread; exact I|].
  intros ex. destruct (negb ex); [apply emits_ret|].
  apply emits_bind; [apply emits_readdir, Hread; exact I|].
  intros l. apply emits_foldM. intros; apply emits_agentFile.
Qed.

Lemma emits_getTasksFromDir d m : emits P (getTasksFromDir d m).
Proof.
  unfold getTasksFromDir. apply emits_bind; [apply emits_pathExists, Hread; exact I|].
  intros ex. destruct (negb ex); [apply emits_ret|].
  apply emits_bind; [apply emits_readdir, Hread; exact I|].
  intros l. apply emits_ret.
Qed.

Lemma emits_moduleItems fromDir beatDir sub acc m :
  (forall p n, emits P (fromDir p n)) -> emits P (moduleItems fromDir beatDir sub acc m).
Proof.
  intros H. unfold moduleItems. apply emits_bind; [apply emits_pathExists, Hread; exact I|].
  intros [|]; [|apply emits_ret].
  apply emits_bind; [apply H | intros; apply emits_ret].
Qed.

Lemma emits_getAgentsFromBeat beatDir mods : emits P (getAgentsFromBeat beatDir mods).
Proof.
  unfold getAgentsFromBeat. apply emits_bind; [apply emits_pathExists, Hread; exact I|].
  intros ex. apply emits_bind.
  { destruct ex; [apply emits_getAgentsFromDir | apply emits_ret]. }
  intros agents. apply emits_bind.
  { apply emits_foldM. intros. apply emits_moduleItems. apply emits_getAgentsFromDir. }
  intros agents'. apply emits_bind; [apply emits_pathExists, Hread; exact I|].
  intros [|]; [|apply emits_ret].
  apply emits_bind; [apply emits_readdirTypes, Hread; exact I|]. intros l.
  apply emits_foldM. intros acc e. unfold standaloneDir.
  destruct (negb _); [apply emits_ret|].
  apply emits_bind; [apply emits_readdir, Hread; exact I|]. intros l'.
  apply emits_foldM. intros; apply emits_agentFile.
Qed.

Lemma emits_getTasksFromBeat beatDir mods : emits P (getTasksFromBeat beatDir mods).
Proof.
  unfold getTasksFromBeat. apply emits_bind; [apply emits_pathExists, Hread; exact I|].
  intros ex. apply emits_bind.
  { destruct ex; [apply emits_getTasksFromDir | apply emits_ret]. }
  intros tasks. apply emits_foldM. intros. apply emits_moduleItems.
  apply emits_getTasksFromDir.
Qed.

Lemma emits_collectAgentArtifacts tp bf beatDir mods :
  emits P (collectAgentArtifacts tp bf beatDir mods).
Proof.
  unfold collectAgentArtifacts. apply emits_bind; [apply emits_getAgentsFromBeat|].
  intros agents. apply emits_foldM. intros acc agent. unfold launcher.
  apply emits_bind; [|intros; apply emits_ret].
  unfold generateLauncherContent.
  apply emits_bind; [apply emits_readFile, Hread; exact I | intros; apply emits_ret].
Qed.

Lemma emits_collectArtifacts tp bf base cwa projectDir beatDir mods :
  (forall d, emits P (cwa d)) ->
  emits P (collectArtifacts tp bf base cwa projectDir beatDir mods).
Proof.
  intros Hw. unfold collectArtifacts.
  apply emits_bind; [apply emits_collectAgentArtifacts|]. intros arts.
  apply emits_bind; [apply emits_getTasksFromBeat|]. intros tasks.
  apply emits_bind.
  { apply emits_foldM. intros acc task.
    apply emits_bind; [|intros; apply emits_ret].
    unfold readAndProcessWithProject.
    apply emits_bind; [apply emits_readFile, Hread; exact I | intros; apply emits_ret]. }
  intros arts'. apply emits_bind; [apply Hw | intros; apply emits_ret].
Qed.

End Reads.

(** *** Phases *)

(** The calls of [m] are calls that satisfy [P] followed by calls
    that satisfy [Q]. *)
Definition phased {A} (P Q : call -> Prop) (m : M A) : Prop :=
  forall w, exists l1 l2,
    log (m w).2 = log w ++ l1 ++ l2 /\ Forall P l1 /\ Forall Q l2.

Lemma phased_late {A} P Q (m : M A) : emits Q m -> phased P Q m.
Proof.
  intros H w. destruct (H w) as (l & E & F). exists [], l.
  split; [exact E|]. split; [constructor | exact F].
Qed.

Lemma phased_bind {A B} P Q (m : M A) (k : A -> M B) :
  emits P m -> (forall a, phased P Q (k a)) -> phased P Q (bind m k).
Proof.
  intros Hm Hk w. destruct (Hm w) as (l0 & E0 & F0).
  rewrite bind_run. destruct (m w) as [[e|a] w1] eqn:Em; cbn [snd] in E0.
  - exists l0, []. split; [|split; [assumption | constructor]].
    cbn [snd]. now rewrite app_nil_r.
  - destruct (Hk a w1) as (l1 & l2 & E1 & F1 & F2).
    exists (l0 ++ l1), l2. split; [|split; [now apply Forall_app | assumption]].
    rewrite E1, E0. now rewrite <- !app_assoc.
Qed.

Lemma phased_calls {A} P Q (m : M A) w :
  phased P Q m -> exists l1 l2, calls m w = l1 ++ l2 /\ Forall P l1 /\ Forall Q l2.
Proof.
  intros H. destruct (H w) as (l1 & l2 & E & F1 & F2). exists l1, l2.
  split; [now apply calls_app | now split].
Qed.

(** *** From phases to orders *)

Lemma phases_removes_before_writes l1 l2 :
  Forall no_write l1 -> Forall no_remove l2 -> removes_before_writes (l1 ++ l2).
Proof.
  intros H1 H2 i j p q c Hi Hj.
  destruct (decide (i < length l1)) as [Li|Li].
  - destruct (decide (j < length l1)) as [Lj|Lj]; [|lia].
    rewrite lookup_app_l in Hj by assumption.
    rewrite Forall_lookup in H1. specialize (H1 _ _ Hj). contradiction.
  - rewrite lookup_app_r in Hi by lia.
    rewrite Forall_lookup in H2. specialize (H2 _ _ Hi). contradiction.
Qed.

Definition no_read_file (c : call) : Prop :=
  match c with ReadFile _ => False | _ => True end.

Lemma phases_reads_before_removes l1 l2 :
  Forall is_read l1 -> Forall no_read_file l2 -> reads_before_removes (l1 ++ l2).
Proof.
  intros H1 H2 i j p q Hi Hj.
  destruct (decide (i < length l1)) as [Li|Li].
  - destruct (decide (j < length l1)) as [Lj|Lj]; [|lia].
    rewrite lookup_app_l in Hj by assumption.
    rewrite Forall_lookup in H1. specialize (H1 _ _ Hj). contradiction.
  - rewrite lookup_app_r in Hi by lia.
    rewrite Forall_lookup in H2. specialize (H2 _ _ Hi). contradiction.
Qed.


Lemma read_no_remove c : is_read c -> no_remove c.
Proof. destruct c; simpl; tauto. Qed.

Lemma read_no_write c : is_read c -> no_write c.
Proof. destruct c; simpl; tauto. Qed.

(** *** The calls of the cleanups and of the writing loops *)

Section Cleaning.
Variable P : call -> Prop.
Hypothesis Hclean : forall c, cleaning c -> P c.

Lemma emits_clearOldBeatFiles d : emits P (clearOldBeatFiles d).
Proof using Hclean.
  unfold clearOldBeatFiles. apply emits_bind; [apply emits_pathExists, Hclean; exact I|].
  intros ex. destruct (negb ex); [apply emits_ret|].
  apply emits_bind; [apply emits_readdir, Hclean; exact I|]. intros l.
  apply emits_forEach. intros entry. destruct (negb _); [apply emits_ret|].
  apply emits_bind; [apply emits_stat, Hclean; exact I|]. intros st.
  destruct (isFile st); [apply emits_remove, Hclean; exact I|].
  destruct (isDirectory st); [apply emits_remove, Hclean; exact I | apply emits_ret].
Qed.

Lemma emits_cleaning_removeIfExists p : emits P (removeIfExists p).
Proof using Hclean. apply emits_removeIfExists; apply Hclean; exact I. Qed.

Lemma emits_trae_cleanup projectDir : emits P (Trae.cleanup projectDir).
Proof using Hclean.
  unfold Trae.cleanup. apply emits_bind; [apply emits_pathExists, Hclean; exact I|].
  intros [|]; [|apply emits_ret].
  apply emits_bind; [apply emits_readdir, Hclean; exact I|]. intros l.
  apply emits_forEach. intros file.
  destruct (Trae.ruleFor file); [apply emits_remove, Hclean; exact I | apply emits_ret].
Qed.

Lemma emits_ensureDir_cleaning p : emits P (ensureDir p).
Proof using Hclean. apply emits_ensureDir, Hclean. exact I. Qed.

End Cleaning.

Section Installing.
Variable P : call -> Prop.
Hypothesis Hok : forall c, no_remove c -> P c.

Lemma emits_write p c : emits P (writeFile p c).
Proof using Hok. apply emits_writeFile, Hok. exact I. Qed.

Lemma emits_mkdir p : emits P (ensureDir p).
Proof using Hok. apply emits_ensureDir, Hok. exact I. Qed.

Lemma emits_read p : emits P (readFile p).
Proof using Hok. apply emits_readFile, Hok. exact I. Qed.

Lemma emits_flattenAndWriteArtifacts A d : emits P (flattenAndWriteArtifacts A d).
Proof using Hok.
  unfold flattenAndWriteArtifacts. apply emits_foldM. intros n a.
  apply emits_bind; [apply emits_write | intros; apply emits_ret].
Qed.

Lemma emits_collect tp bf beatDir mods : emits P (collectAgentArtifacts tp bf beatDir mods).
Proof using Hok.
  apply emits_collectAgentArtifacts. intros c Hc. apply Hok. now apply read_no_remove.
Qed.

End Installing.

End OrderFacts.

(* ================================================================== *)
(** * C9: the order of collection, cleanup and writes *)
(* ================================================================== *)

Module InstallOrder.
Import Path Fs FsOps BaseIdeSetup AgentCommandGenerator Flat Output FsFacts OrderFacts.

(** Chains the lemmas on the calls of the primitives along a sequence
    of binds. *)
Ltac calls_of H :=
  repeat first
    [ apply emits_ret
    | apply emits_mkdir; exact H
    | apply emits_write; exact H
    | apply emits_read; exact H
    | apply emits_collect; exact H
    | apply emits_flattenAndWriteArtifacts; exact H
    | apply emits_forEach; intros ?
    | apply emits_bind; [|intros ?] ].

Section Install.
Variable P : call -> Prop.
Hypothesis Hok : forall c, no_remove c -> P c.
Variable getTasks getTools getWorkflows : path -> bool -> M (list resource).
Hypothesis HT : forall d b, emits P (getTasks d b).
Hypothesis HO : forall d b, emits P (getTools d b).
Hypothesis HW : forall d b, emits P (getWorkflows d b).

Lemma cursor_writeResources base root kind l :
  emits P (Cursor.writeResources base root kind l).
Proof using Hok. unfold Cursor.writeResources, Cursor.readAndProcess. calls_of Hok. Qed.

Lemma cursor_writeLaunchers root l : emits P (Cursor.writeLaunchers root l).
Proof using Hok. unfold Cursor.writeLaunchers. calls_of Hok. Qed.

Lemma cursor_createBEATIndex root a t o wf ms :
  emits P (Cursor.createBEATIndex root a t o wf ms).
Proof using Hok. unfold Cursor.createBEATIndex. calls_of Hok. Qed.

Lemma trae_writeRules root kind create l : emits P (Trae.writeRules root kind create l).
Proof using Hok. unfold Trae.writeRules. calls_of Hok. Qed.

Lemma windsurf_writeResources root kind create l :
  emits P (Windsurf.writeResources root kind create l).
Proof using Hok. unfold Windsurf.writeResources. calls_of Hok. Qed.

Lemma windsurf_writeLaunchers root l : emits P (Windsurf.writeLaunchers root l).
Proof using Hok. unfold Windsurf.writeLaunchers. calls_of Hok. Qed.

End Install.

Section Adapters.
Variable templatePath : path.
Variable beatFolderName : string.
Variable getTasks getTools getWorkflows : path -> bool -> M (list resource).
Hypothesis HT : forall d b, emits no_remove (getTasks d b).
Hypothesis HO : forall d b, emits no_remove (getTools d b).
Hypothesis HW : forall d b, emits no_remove (getWorkflows d b).

Let keep : forall c, no_remove c -> no_remove c := fun _ H => H.

Lemma cursor_phases base projectDir beatDir mods :
  phased no_write no_remove
    (Cursor.setup templatePath beatFolderName base getTasks getTools getWorkflows
       projectDir beatDir mods).
Proof using HT HO HW.
  unfold Cursor.setup. apply phased_bind.
  { unfold Cursor.cleanup. apply emits_cleaning_removeIfExists.
    intros [] H; simpl in *; tauto. }
  intros _. apply phased_late. cbn zeta.
  apply emits_bind; [apply emits_mkdir, keep | intros _].
  apply emits_bind; [apply emits_collect, keep | intros arts].
  apply emits_bind; [apply HT | intros tl].
  apply emits_bind; [apply HO | intros ol].
  apply emits_bind; [apply HW | intros wl].
  apply emits_bind; [calls_of keep | intros _].
  apply emits_bind; [apply cursor_writeLaunchers, keep | intros _].
  do 3 (apply emits_bind; [apply cursor_writeResources, keep | intros _]).
  apply emits_bind; [apply cursor_createBEATIndex, keep | intros _].
  apply emits_ret.
Qed.

Lemma trae_phases projectDir beatDir mods :
  phased no_write no_remove
    (Trae.setup templatePath beatFolderName getTasks getTools getWorkflows
       projectDir beatDir mods).
Proof using HT HO HW.
  unfold Trae.setup. cbn zeta.
  apply phased_bind; [apply emits_ensureDir; exact I | intros _].
  apply phased_bind.
  { apply emits_trae_cleanup. intros [] H; simpl in *; tauto. }
  intros _. apply phased_late.
  apply emits_bind; [apply emits_collect, keep | intros arts].
  apply emits_bind; [apply HT | intros tl].
  apply emits_bind; [apply HO | intros ol].
  apply emits_bind; [apply HW | intros wl].
  apply emits_bind; [calls_of keep | intros _].
  do 3 (apply emits_bind; [apply trae_writeRules, keep | intros _]).
  apply emits_ret.
Qed.

Lemma windsurf_phases projectDir beatDir mods :
  phased no_write no_remove
    (Windsurf.setup templatePath beatFolderName getTasks getTools getWorkflows
       projectDir beatDir mods).
Proof using HT HO HW.
  unfold Windsurf.setup. cbn zeta.
  apply phased_bind; [apply emits_ensureDir; exact I | intros _].
  apply phased_bind.
  { unfold Windsurf.cleanup. apply emits_cleaning_removeIfExists.
    intros [] H; simpl in *; tauto. }
  intros _. apply phased_late.
  apply emits_bind; [apply emits_collect, keep | intros arts].
  apply emits_bind; [apply HT | intros tl].
  apply emits_bind; [apply HO | intros ol].
  apply emits_bind; [apply HW | intros wl].
  apply emits_bind; [calls_of keep | intros _].
  apply emits_bind; [apply windsurf_writeLaunchers, keep | intros _].
  do 3 (apply emits_bind; [apply windsurf_writeResources, keep | intros _]).
  apply emits_ret.
Qed.

(** The adapters that clean first: the calls up to the end of the
    cleanup read no file and write none, and the calls after it
    remove nothing. *)
Lemma cursor_cleans_first base projectDir beatDir mods :
  phased cleaning no_remove
    (Cursor.setup templatePath beatFolderName base getTasks getTools getWorkflows
       projectDir beatDir mods).
Proof using HT HO HW.
  unfold Cursor.setup. apply phased_bind.
  { unfold Cursor.cleanup. apply emits_cleaning_removeIfExists. tauto. }
  intros _. apply phased_late. cbn zeta.
  apply emits_bind; [apply emits_mkdir, keep | intros _].
  apply emits_bind; [apply emits_collect, keep | intros arts].
  apply emits_bind; [apply HT | intros tl].
  apply emits_bind; [apply HO | intros ol].
  apply emits_bind; [apply HW | intros wl].
  apply emits_bind; [calls_of keep | intros _].
  apply emits_bind; [apply cursor_writeLaunchers, keep | intros _].
  do 3 (apply emits_bind; [apply cursor_writeResources, keep | intros _]).
  apply emits_bind; [apply cursor_createBEATIndex, keep | intros _].
  apply emits_ret.
Qed.

Lemma trae_cleans_first projectDir beatDir mods :
  phased cleaning no_remove
    (Trae.setup templatePath beatFolderName getTasks getTools getWorkflows
       projectDir beatDir mods).
Proof using HT HO HW.
  unfold Trae.setup. cbn zeta.
  apply phased_bind; [apply emits_ensureDir; exact I | intros _].
  apply phased_bind; [apply emits_trae_cleanup; tauto | intros _].
  apply phased_late.
  apply emits_bind; [apply emits_collect, keep | intros arts].
  apply emits_bind; [apply HT | intros tl].
  apply emits_bind; [apply HO | intros ol].
  apply emits_bind; [apply HW | intros wl].
  apply emits_bind; [calls_of keep | intros _].
  do 3 (apply emits_bind; [apply trae_writeRules, keep | intros _]).
  apply emits_ret.
Qed.

Lemma windsurf_cleans_first projectDir beatDir mods :
  phased cleaning no_remove
    (Windsurf.setup templatePath beatFolderName getTasks getTools getWorkflows
       projectDir beatDir mods).
Proof using HT HO HW.
  unfold Windsurf.setup. cbn zeta.
  apply phased_bind; [apply emits_ensureDir; exact I | intros _].
  apply phased_bind.
  { unfold Windsurf.cleanup. apply emits_cleaning_removeIfExists. tauto. }
  intros _. apply phased_late.
  apply emits_bind; [apply emits_collect, keep | intros arts].
  apply emits_bind; [apply HT | intros tl].
  apply emits_bind; [apply HO | intros ol].
  apply emits_bind; [apply HW | intros wl].
  apply emits_bind; [calls_of keep | intros _].
  apply emits_bind; [apply windsurf_writeLaunchers, keep | intros _].
  do 3 (apply emits_bind; [apply windsurf_writeResources, keep | intros _]).
  apply emits_ret.
Qed.

End Adapters.

Section Flat.
Variable templatePath : path.
Variable beatFolderName : string.
Variable base : string -> metadata -> path -> string.
Variable collectWorkflowArtifacts : path -> M (list export * (nat * nat)).
Hypothesis Hwf : forall d, emits is_read (collectWorkflowArtifacts d).

Lemma collect_reads (P : call -> Prop) projectDir beatDir mods :
  (forall c, is_read c -> P c) ->
  emits P (collectArtifacts templatePath beatFolderName base collectWorkflowArtifacts
             projectDir beatDir mods).
Proof using Hwf.
  intros H. apply emits_collectArtifacts; [exact H|].
  intros d. apply (emits_weaken is_read); [exact H | apply Hwf].
Qed.

Lemma codex_phases homedir projectDir beatDir mods :
  phased no_write no_remove
    (Codex.setup templatePath beatFolderName base collectWorkflowArtifacts homedir
       projectDir beatDir mods).
Proof using Hwf.
  unfold Codex.setup.
  apply phased_bind; [apply collect_reads, read_no_write | intros ac]. cbn zeta.
  apply phased_bind; [apply emits_ensureDir; exact I | intros _].
  apply phased_bind.
  { apply emits_clearOldBeatFiles. intros [] H; simpl in *; tauto. }
  intros _. apply phased_late.
  apply emits_bind; [apply emits_flattenAndWriteArtifacts; tauto | intros; apply emits_ret].
Qed.

Lemma codex_collects_first homedir projectDir beatDir mods :
  phased is_read no_read_file
    (Codex.setup templatePath beatFolderName base collectWorkflowArtifacts homedir
       projectDir beatDir mods).
Proof using Hwf.
  unfold Codex.setup.
  apply phased_bind; [apply collect_reads; tauto | intros ac]. cbn zeta.
  apply phased_late.
  apply emits_bind; [apply emits_ensureDir; exact I | intros _].
  apply emits_bind.
  { apply emits_clearOldBeatFiles. intros [] H; simpl in *; tauto. }
  intros _.
  apply emits_bind; [|intros; apply emits_ret].
  unfold flattenAndWriteArtifacts. apply emits_foldM. intros n a.
  apply emits_bind; [apply emits_writeFile; exact I | intros; apply emits_ret].
Qed.

Lemma cline_phases projectDir beatDir mods :
  phased no_write no_remove
    (Cline.setup templatePath beatFolderName base collectWorkflowArtifacts
       projectDir beatDir mods).
Proof using Hwf.
  unfold Cline.setup. cbn zeta.
  apply phased_bind; [apply emits_ensureDir; exact I | intros _].
  apply phased_bind.
  { apply emits_clearOldBeatFiles. intros [] H; simpl in *; tauto. }
  intros _. apply phased_late.
  apply emits_bind; [apply collect_reads, read_no_remove | intros ac].
  apply emits_bind; [apply emits_flattenAndWriteArtifacts; tauto | intros; apply emits_ret].
Qed.

Lemma cline_cleans_first projectDir beatDir mods :
  phased cleaning no_remove
    (Cline.setup templatePath beatFolderName base collectWorkflowArtifacts
       projectDir beatDir mods).
Proof using Hwf.
  unfold Cline.setup. cbn zeta.
  apply phased_bind; [apply emits_ensureDir; exact I | intros _].
  apply phased_bind; [apply emits_clearOldBeatFiles; tauto | intros _].
  apply phased_late.
  apply emits_bind; [apply collect_reads, read_no_remove | intros ac].
  apply emits_bind; [apply emits_flattenAndWriteArtifacts; tauto | intros; apply emits_ret].
Qed.

End Flat.

Lemma ordered {A} (m : M A) w :
  phased no_write no_remove m -> removes_before_writes (calls m w).
Proof.
  intros H. destruct (phased_calls _ _ m w H) as (l1 & l2 & E & F1 & F2).
  rewrite E. now apply phases_removes_before_writes.
Qed.

Lemma collected_first {A} (m : M A) w :
  phased is_read no_read_file m -> reads_before_removes (calls m w).
Proof.
  intros H. destruct (phased_calls _ _ m w H) as (l1 & l2 & E & F1 & F2).
  rewrite E. now apply phases_reads_before_removes.
Qed.

(** Every removal comes before every reading of a file: the cleanup
    is over when the collection reads its first source. *)
Definition removes_before_reads (l : list call) : Prop :=
  forall i j p q,
    l !! i = Some (Remove p) -> l !! j = Some (ReadFile q) -> i < j.

Lemma cleaned_first {A} (m : M A) w :
  phased cleaning no_remove m -> removes_before_reads (calls m w).
Proof.
  intros H. destruct (phased_calls _ _ m w H) as (l1 & l2 & E & F1 & F2).
  rewrite E. intros i j p q Hi Hj.
  destruct (decide (i < length l1)) as [Li|Li].
  - destruct (decide (j < length l1)) as [Lj|Lj]; [|lia].
    rewrite lookup_app_l in Hj by assumption.
    rewrite Forall_lookup in F1. specialize (F1 _ _ Hj). contradiction.
  - rewrite lookup_app_r in Hi by lia.
    rewrite Forall_lookup in F2. specialize (F2 _ _ Hi). contradiction.
Qed.

(** No removal of a path follows a write of that path. *)
Definition no_delete_after_write (l : list call) : Prop :=
  forall i j p content,
    l !! i = Some (WriteFile p content) -> l !! j = Some (Remove p) -> j < i.

Lemma removes_first_no_delete_after_write l :
  removes_before_writes l -> no_delete_after_write l.
Proof. intros H i j p c Hi Hj. exact (H j i p p c Hj Hi). Qed.

(** C9, as stated, fails on the Cursor adapter: its setup begins with
    the cleanup, and the agents are collected afterwards.  In the
    reinstallation of the example the old rules directory is removed by
    the second call, and the agent file is read by the seventh. *)
Lemma cursor_cleans_before_collecting :
  OrderExamples.cursor_calls !! 1 = Some (Remove ["proj"; ".cursor"; "rules"; "beat"]) /\
  OrderExamples.cursor_calls !! 6
    = Some (ReadFile (Examples.beat ++ ["core"; "agents"; "dev.md"])) /\
  ~ reads_before_removes OrderExamples.cursor_calls.
Proof.
  assert (H1 : OrderExamples.cursor_calls !! 1
               = Some (Remove ["proj"; ".cursor"; "rules"; "beat"])) by (vm_compute; reflexivity).
  assert (H6 : OrderExamples.cursor_calls !! 6
               = Some (ReadFile (Examples.beat ++ ["core"; "agents"; "dev.md"])))
    by (vm_compute; reflexivity).
  split; [exact H1|]. split; [exact H6|].
  intros H. specialize (H 6 1 _ _ H6 H1). lia.
Qed.

(** C9 (amended): in the install sequence of every adapter (Codex,
    Cline, Cursor, Trae, Windsurf) every removal is issued before the
    first output file is written, so that no path is deleted after it
    was written; only the Codex adapter finishes the collection before
    its cleanup begins: all its reads of source files precede all its
    removals.  Cline, Cursor, Trae and Windsurf clean first and
    collect afterwards: all their removals precede all their reads of
    source files.  The listings of the base class and the workflow
    collector are taken as parameters that only read. *)
Theorem install_order
    (templatePath : path) (beatFolderName : string)
    (processContent : string -> metadata -> string)
    (processWithProject : string -> metadata -> path -> string)
    (collectWorkflowArtifacts : path -> M (list export * (nat * nat)))
    (getTasks getTools getWorkflows : path -> bool -> M (list resource))
    (homedir projectDir beatDir : path) (selectedModules : list string) (w : world) :
  (forall d, emits is_read (collectWorkflowArtifacts d)) ->
  (forall d b, emits is_read (getTasks d b)) ->
  (forall d b, emits is_read (getTools d b)) ->
  (forall d b, emits is_read (getWorkflows d b)) ->
  let codex := Codex.setup templatePath beatFolderName processWithProject
                 collectWorkflowArtifacts homedir projectDir beatDir selectedModules in
  let cline := Cline.setup templatePath beatFolderName processWithProject
                 collectWorkflowArtifacts projectDir beatDir selectedModules in
  let cursor := Cursor.setup templatePath beatFolderName processContent
                  getTasks getTools getWorkflows projectDir beatDir selectedModules in
  let trae := Trae.setup templatePath beatFolderName getTasks getTools getWorkflows
                projectDir beatDir selectedModules in
  let windsurf := Windsurf.setup templatePath beatFolderName getTasks getTools getWorkflows
                    projectDir beatDir selectedModules in
  reads_before_removes (calls codex w) /\
  removes_before_writes (calls codex w) /\
  removes_before_writes (calls cline w) /\
  removes_before_writes (calls cursor w) /\
  removes_before_writes (calls trae w) /\
  removes_before_writes (calls windsurf w) /\
  no_delete_after_write (calls codex w) /\
  no_delete_after_write (calls cline w) /\
  no_delete_after_write (calls cursor w) /\
  no_delete_after_write (calls trae w) /\
  no_delete_after_write (calls windsurf w) /\
  removes_before_reads (calls cline w) /\
  removes_before_reads (calls cursor w) /\
  removes_before_reads (calls trae w) /\
  removes_before_reads (calls windsurf w).
Proof.
  intros Hwf HT HO HW codex cline cursor trae windsurf.
  assert (HT' : forall d b, emits no_remove (getTasks d b))
    by (intros; eapply emits_weaken; [apply read_no_remove | apply HT]).
  assert (HO' : forall d b, emits no_remove (getTools d b))
    by (intros; eapply emits_weaken; [apply read_no_remove | apply HO]).
  assert (HW' : forall d b, emits no_remove (getWorkflows d b))
    by (intros; eapply emits_weaken; [apply read_no_remove | apply HW]).
  assert (C1 : removes_before_writes (calls codex w))
    by (apply ordered, codex_phases, Hwf).
  assert (C2 : removes_before_writes (calls cline w))
    by (apply ordered, cline_phases, Hwf).
  assert (C3 : removes_before_writes (calls cursor w))
    by (apply ordered, cursor_phases; assumption).
  assert (C4 : removes_before_writes (calls trae w))
    by (apply ordered, trae_phases; assumption).
  assert (C5 : removes_before_writes (calls windsurf w))
    by (apply ordered, windsurf_phases; assumption).
  assert (D2 : removes_before_reads (calls cline w))
    by (apply cleaned_first, cline_cleans_first, Hwf).
  assert (D3 : removes_before_reads (calls cursor w))
    by (apply cleaned_first, cursor_cleans_first; assumption).
  assert (D4 : removes_before_reads (calls trae w))
    by (apply cleaned_first, trae_cleans_first; assumption).
  assert (D5 : removes_before_reads (calls windsurf w))
    by (apply cleaned_first, windsurf_cleans_first; assumption).
  split; [apply collected_first, codex_collects_first, Hwf|].
  repeat split; try assumption; now apply removes_first_no_delete_after_write.
Qed.

(** The theorem at a project that holds the files of an earlier
    install of every adapter: each setup removes an old file, reads
    the agent file and writes its output. *)
Lemma install_order_witness :
  let up := ReinstallExamples.upgraded in
  let codex := Codex.setup ExportExamples.templatePath "beat" ExportExamples.plain
                 ExportExamples.noWorkflows ["home"] ["proj"] Examples.beat [] in
  let cline := Cline.setup ExportExamples.templatePath "beat" ExportExamples.plain
                 ExportExamples.noWorkflows ["proj"] Examples.beat [] in
  let cursor := Cursor.setup ExportExamples.templatePath "beat" OrderExamples.unchanged
                  OrderExamples.nothing OrderExamples.nothing OrderExamples.nothing
                  ["proj"] Examples.beat [] in
  let trae := Trae.setup ExportExamples.templatePath "beat"
                OrderExamples.nothing OrderExamples.nothing OrderExamples.nothing
                ["proj"] Examples.beat [] in
  let windsurf := Windsurf.setup ExportExamples.templatePath "beat"
                    OrderExamples.nothing OrderExamples.nothing OrderExamples.nothing
                    ["proj"] Examples.beat [] in
  (reads_before_removes (calls codex up) /\
   removes_before_writes (calls codex up) /\
   removes_before_writes (calls cline up) /\
   removes_before_writes (calls cursor up) /\
   removes_before_writes (calls trae up) /\
   removes_before_writes (calls windsurf up) /\
   removes_before_reads (calls cline up) /\
   removes_before_reads (calls cursor up) /\
   removes_before_reads (calls trae up) /\
   removes_before_reads (calls windsurf up)) /\
  (calls codex up !! 3 = Some (ReadFile (Examples.beat ++ ["core"; "agents"; "dev.md"])) /\
   calls codex up !! 11 = Some (Remove ["home"; ".codex"; "prompts"; "beat-old.md"]) /\
   calls cline up !! 4 = Some (Remove ["proj"; ".clinerules"; "workflows"; "beat-old.md"]) /\
   calls cline up !! 8 = Some (ReadFile (Examples.beat ++ ["core"; "agents"; "dev.md"])) /\
   calls cursor up !! 1 = Some (Remove ["proj"; ".cursor"; "rules"; "beat"]) /\
   calls cursor up !! 6 = Some (ReadFile (Examples.beat ++ ["core"; "agents"; "dev.md"])) /\
   calls trae up !! 3 = Some (Remove ["proj"; ".trae"; "rules"; "beat-agent-core-old.md"]) /\
   calls trae up !! 7 = Some (ReadFile (Examples.beat ++ ["core"; "agents"; "dev.md"])) /\
   calls windsurf up !! 2 = Some (Remove ["proj"; ".windsurf"; "workflows"; "beat"]) /\
   calls windsurf up !! 6 = Some (ReadFile (Examples.beat ++ ["core"; "agents"; "dev.md"]))).
Proof.
  intros up codex cline cursor trae windsurf.
  pose proof (install_order ExportExamples.templatePath "beat" OrderExamples.unchanged
                ExportExamples.plain ExportExamples.noWorkflows
                OrderExamples.nothing OrderExamples.nothing OrderExamples.nothing
                ["home"] ["proj"] Examples.beat [] ReinstallExamples.upgraded) as H.
  assert (Hwf : forall d, emits is_read (ExportExamples.noWorkflows d)).
  { intros d. apply emits_ret. }
  assert (Hn : forall (d : path) (b : bool), emits is_read (OrderExamples.nothing d b)).
  { intros d b. apply emits_ret. }
  specialize (H Hwf Hn Hn Hn). cbv zeta in H.
  destruct H as (H1 & H2 & H3 & H4 & H5 & H6 & _ & _ & _ & _ & _ & H7 & H8 & H9 & H10).
  split; [repeat split; assumption|].
  repeat split; vm_compute; reflexivity.
Defined.

End InstallOrder.

(* ================================================================== *)
(** * The configuration store: loading, saving, deleting *)
(* ================================================================== *)

Module ConfigStoreFacts.
Import StrFacts PathFacts TreeFacts FsFacts TreeCheckFacts ConfigFacts.
Import Path Fs FsOps IdeConfigManager Output.

Lemma catch_run {A} (m : M A) (h : error -> M A) w :
  catch m h w = match m w with
                | (inl e, w') => h e w'
                | (inr a, w') => (inr a, w')
                end.
Proof. reflexivity. Qed.

(** The document held at a path: null unless a regular file is there
    whose content parses. *)
Definition stored (yaml_load : string -> option value) (t : gmap path node) (p : path)
    : value :=
  match node_at t p with
  | Some (File content) =>
      match yaml_load content with
      | Some v => v
      | None => VNull
      end
  | _ => VNull
  end.

Lemma loadIdeConfig_stored yaml_load beatDir ideName w :
  exists l,
    loadIdeConfig yaml_load beatDir ideName w
    = (inr (stored yaml_load (files w) (getIdeConfigPath beatDir ideName)),
       World (files w) (log w ++ l)) /\
    Forall is_read l.
Proof.
  unfold loadIdeConfig, stored.
  set (p := getIdeConfigPath beatDir ideName).
  rewrite bind_run, pathExists_run.
  destruct (node_at (files w) p) as [n|] eqn:Hn; cbn [negb].
  - rewrite catch_run, bind_run, readFile_run. cbn [files log]. rewrite Hn.
    exists [PathExists p; ReadFile p].
    split; [|repeat constructor].
    rewrite <- app_assoc. cbn [app].
    destruct n as [content| |]; try reflexivity.
    destruct (yaml_load content); reflexivity.
  - exists [PathExists p]. split; [reflexivity | repeat constructor].
Qed.

Lemma loadIdeConfig_reader yaml_load beatDir ideName :
  reader (loadIdeConfig yaml_load beatDir ideName).
Proof.
  intros w. destruct (loadIdeConfig_stored yaml_load beatDir ideName w) as (l & E & _).
  rewrite E. split; [reflexivity|]. intros w' Hw'.
  destruct (loadIdeConfig_stored yaml_load beatDir ideName w') as (l' & E' & _).
  rewrite E'. cbn [fst]. now rewrite Hw'.
Qed.

(** *** Creating directories *)

Lemma mkdirs_spec (todo : list string) : forall (t : gmap path node) (seen : path) t',
  mkdirs t seen todo = inr t' ->
  forall q : path,
    t' !! q = t !! q \/
    (t !! q = None /\ t' !! q = Some Directory /\
     seen `prefix_of` q /\ q `prefix_of` (seen ++ todo) /\ q <> seen).
Proof.
  induction todo as [|s rest IH]; intros t seen t' H q.
  - simpl in H. inversion H. now left.
  - cbn [mkdirs] in H.
    assert (Hlen : forall r : path, seen ++ [s] `prefix_of` r -> r <> seen).
    { intros r [k Hk] ->. apply (f_equal length) in Hk.
      rewrite !length_app in Hk. simpl in Hk. lia. }
    assert (Hpre : seen `prefix_of` seen ++ [s]) by (now exists [s]).
    assert (Hstep : forall t0 : gmap path node,
              mkdirs t0 (seen ++ [s]) rest = inr t' ->
              t' !! q = t0 !! q \/
              (t0 !! q = None /\ t' !! q = Some Directory /\
               seen `prefix_of` q /\ q `prefix_of` (seen ++ s :: rest) /\ q <> seen)).
    { intros t0 H0. destruct (IH t0 (seen ++ [s]) t' H0 q) as [E | (E1 & E2 & P1 & P2 & N)].
      - now left.
      - right. rewrite <- app_assoc in P2. cbn [app] in P2.
        repeat split; try assumption; [now transitivity (seen ++ [s]) | now apply Hlen]. }
    destruct (t !! (seen ++ [s])) as [[]|] eqn:Hd; try discriminate H.
    + now apply Hstep.
    + destruct (Hstep _ H) as [E | (E1 & E2 & P1 & P2 & N)].
      * destruct (decide (q = seen ++ [s])) as [->|Hq].
        -- right. rewrite lookup_insert_eq in E.
           repeat split; try assumption; [now exists rest; rewrite <- app_assoc | now apply Hlen].
        -- left. now rewrite lookup_insert_ne in E by congruence.
      * right. destruct (decide (q = seen ++ [s])) as [->|Hq].
        -- now rewrite lookup_insert_eq in E1.
        -- rewrite lookup_insert_ne in E1 by congruence. now repeat split.
Qed.

(** The directory asked for is there afterwards. *)
Lemma mkdirs_dir (todo : list string) : forall (t : gmap path node) (seen : path) t',
  mkdirs t seen todo = inr t' -> todo <> [] -> t' !! (seen ++ todo) = Some Directory.
Proof.
  induction todo as [|s rest IH]; intros t seen t' H Hne; [contradiction|].
  cbn [mkdirs] in H.
  assert (Hlast : forall t0 : gmap path node,
            t0 !! (seen ++ [s]) = Some Directory ->
            mkdirs t0 (seen ++ [s]) rest = inr t' ->
            t' !! (seen ++ s :: rest) = Some Directory).
  { intros t0 Hd H0. destruct rest as [|x rest'].
    - simpl in H0. inversion H0; subst. exact Hd.
    - specialize (IH t0 (seen ++ [s]) t' H0 ltac:(discriminate)).
      now rewrite <- app_assoc in IH. }
  destruct (t !! (seen ++ [s])) as [[]|] eqn:Hd; try discriminate H.
  - now apply (Hlast t).
  - apply (Hlast _ (lookup_insert_eq _ _ _) H).
Qed.

(** Nothing but directories in the way: the directories are made. *)
Lemma mkdirs_ok (todo : list string) : forall (t : gmap path node) (seen : path),
  (forall (q : path) n, q `prefix_of` (seen ++ todo) -> t !! q = Some n -> n = Directory) ->
  exists t', mkdirs t seen todo = inr t'.
Proof.
  induction todo as [|s rest IH]; intros t seen Hfree; [now exists t|].
  cbn [mkdirs].
  assert (Hpre : seen ++ [s] `prefix_of` seen ++ s :: rest).
  { exists rest. now rewrite <- app_assoc. }
  destruct (t !! (seen ++ [s])) as [n|] eqn:Hd.
  - rewrite (Hfree _ _ Hpre Hd). apply IH. intros q n' Hq. apply Hfree.
    now rewrite <- app_assoc in Hq.
  - apply IH. intros q n' Hq Hn. rewrite <- app_assoc in Hq. cbn [app] in Hq.
    destruct (decide (q = seen ++ [s])) as [->|Hne].
    + rewrite lookup_insert_eq in Hn. now inversion Hn.
    + rewrite lookup_insert_ne in Hn by congruence. now apply (Hfree q).
Qed.

(** *** Saving *)

Definition terminated (dump : string) : string :=
  if Js.endsWith Js.nl dump then dump else dump +:+ Js.nl.

(** The configured date a save writes over a tree: the one of the
    document held at the path when it has one, the time of the save
    otherwise. *)
Definition kept_date (yaml_load : string -> option value) (t : gmap path node) (p : path)
    (now : string) : value :=
  let existing := stored yaml_load t p in
  if truthy existing && truthy (prop existing "configured_date")
  then prop existing "configured_date"
  else VStr now.

Lemma saveIdeConfig_run yaml_load yaml_dump now beatDir ideName configuration w :
  let dir := getIdeConfigDir beatDir in
  let p := getIdeConfigPath beatDir ideName in
  match mkdirs (files w) [] dir with
  | inl e =>
      exists l, saveIdeConfig yaml_load yaml_dump now beatDir ideName configuration w
                = (inl e, World (files w) l)
  | inr t1 =>
      exists l,
        saveIdeConfig yaml_load yaml_dump now beatDir ideName configuration w
        = writeFile p
            (terminated (yaml_dump (configData ideName (kept_date yaml_load t1 p now) now
                                      configuration)))
            (World t1 l)
  end.
Proof.
  intros dir p. unfold saveIdeConfig. fold dir p.
  rewrite bind_run, ensureDir_run.
  destruct (mkdirs (files w) [] dir) as [e|t1]; [eexists; reflexivity|].
  rewrite bind_run, pathExists_run. cbn [files log].
  set (l2 := (log w ++ [EnsureDir dir]) ++ [PathExists p]).
  assert (Hdate : exists l,
            (if match node_at t1 p with Some _ => true | None => false end
             then catch
                    (bind (loadIdeConfig yaml_load beatDir ideName) (fun existing =>
                       if truthy existing && truthy (prop existing "configured_date")
                       then ret (prop existing "configured_date")
                       else ret (VStr now)))
                    (fun _ => ret (VStr now))
             else ret (VStr now)) (World t1 l2)
            = (inr (kept_date yaml_load t1 p now), World t1 l)).
  { unfold kept_date, stored. fold p.
    destruct (node_at t1 p) as [n|] eqn:Hn.
    - rewrite catch_run, bind_run.
      destruct (loadIdeConfig_stored yaml_load beatDir ideName (World t1 l2)) as (l & E & _).
      rewrite E. cbn [files]. unfold stored. fold p. rewrite Hn.
      eexists.
      destruct (truthy _ && truthy _); reflexivity.
    - eexists. reflexivity. }
  destruct Hdate as (l & Hdate). rewrite bind_run, Hdate. exists l.
  reflexivity.
Qed.

Lemma endsWith_refl s : Js.endsWith s s = true.
Proof. destruct s; simpl; [reflexivity|]. now rewrite Ascii.eqb_refl, String.eqb_refl. Qed.

Lemma endsWith_app suf s : Js.endsWith suf (s +:+ suf) = true.
Proof.
  induction s as [|c s IH]; [apply endsWith_refl|].
  change (String c s +:+ suf) with (String c (s +:+ suf)).
  cbn [Js.endsWith]. rewrite IH. apply orb_true_r.
Qed.

Lemma terminated_ends dump : Js.endsWith Js.nl (terminated dump) = true.
Proof.
  unfold terminated. destruct (Js.endsWith Js.nl dump) eqn:E; [exact E | apply endsWith_app].
Qed.

Lemma configPath_child beatDir ideName :
  absent "/"%char ideName ->
  getIdeConfigPath beatDir ideName = getIdeConfigDir beatDir ++ [ideName +:+ ".yaml"].
Proof.
  intros H. unfold getIdeConfigPath. apply join_one.
  apply valid_ext; [assumption | reflexivity | simpl; lia].
Qed.

Lemma configDir_eq beatDir : getIdeConfigDir beatDir = beatDir ++ ["_cfg"; "ides"].
Proof. unfold getIdeConfigDir. apply join_valid. repeat constructor. Qed.

Lemma child_not_prefix (d : path) (s : string) : ~ (d ++ [s]) `prefix_of` d.
Proof.
  intros [k Hk]. apply (f_equal length) in Hk. rewrite !length_app in Hk. simpl in Hk. lia.
Qed.

Lemma node_at_child (t : gmap path node) (d : path) (s : string) :
  node_at t (d ++ [s]) = t !! (d ++ [s]).
Proof. destruct d; reflexivity. Qed.

Lemma parent_child (d : path) (s : string) : parent (d ++ [s]) = d.
Proof. unfold parent. apply removelast_last. Qed.

(** *** Removing the first occurrence of an extension *)

Lemma startsWith_refl p : Js.startsWith p p = true.
Proof. induction p as [|c p IH]; simpl; [reflexivity|]. now rewrite Ascii.eqb_refl. Qed.

Lemma drop_all p : Js.drop (String.length p) p = EmptyString.
Proof. induction p as [|c p IH]; [reflexivity | exact IH]. Qed.

Lemma substitution_empty m b a : Js.substitution m b a EmptyString = EmptyString.
Proof. reflexivity. Qed.

Lemma startsWith_before c p' x y :
  absent c p' -> Js.startsWith p' (x +:+ String c y) = true -> Js.startsWith p' x = true.
Proof.
  revert x. induction p' as [|d p'' IH]; intros x Habs H; [now destruct x|].
  apply absent_cons in Habs. destruct Habs as [Hd Habs].
  destruct x as [|e x'].
  - simpl in H. apply andb_true_iff in H. destruct H as [H _].
    apply Ascii.eqb_eq in H. congruence.
  - change (String e x' +:+ String c y) with (String e (x' +:+ String c y)) in H.
    cbn [Js.startsWith] in *. apply andb_true_iff in H. destruct H as [H1 H2].
    rewrite H1. cbn [andb]. now apply IH.
Qed.

(** A pattern whose first character does not occur again in it does
    not straddle the end of a text that lacks it. *)
Lemma startsWith_straddle c p' n :
  absent c p' -> n <> EmptyString ->
  Js.includes (String c p') n = false ->
  Js.startsWith (String c p') (n +:+ String c p') = false.
Proof.
  intros Habs Hn Hinc. destruct n as [|a n']; [contradiction|].
  cbn [Js.includes] in Hinc. apply orb_false_iff in Hinc. destruct Hinc as [Hs _].
  change (String a n' +:+ String c p') with (String a (n' +:+ String c p')).
  cbn [Js.startsWith] in *.
  destruct (Ascii.eqb c a); [|reflexivity]. cbn [andb] in *.
  destruct (Js.startsWith p' (n' +:+ String c p')) eqn:E; [|reflexivity].
  apply startsWith_before in E; [congruence | assumption].
Qed.

Lemma replace_from_suffix c p' n : forall before,
  absent c p' -> Js.includes (String c p') n = false ->
  Js.replace_from (String c p') EmptyString before (n +:+ String c p') = n.
Proof.
  induction n as [|a n' IH]; intros before Habs Hinc.
  - change (EmptyString +:+ String c p') with (String c p').
    unfold Js.replace_from.
    rewrite startsWith_refl, drop_all. reflexivity.
  - pose proof (startsWith_straddle c p' (String a n') Habs ltac:(discriminate) Hinc) as Hs.
    change (String a n' +:+ String c p') with (String a (n' +:+ String c p')) in *.
    cbn [Js.replace_from]. rewrite Hs. f_equal. apply IH; [assumption|].
    cbn [Js.includes] in Hinc. apply orb_false_iff in Hinc. tauto.
Qed.

(** [(n + ext).replace(ext, '')] is [n] when [n] does not contain the
    extension. *)
Lemma replace_yaml n :
  Js.includes ".yaml" n = false -> Js.replace ".yaml" EmptyString (n +:+ ".yaml") = n.
Proof. intros H. apply replace_from_suffix; [reflexivity | exact H]. Qed.

Lemma replace_md_stem n :
  Js.includes ".md" n = false -> Js.replace ".md" EmptyString (n +:+ ".md") = n.
Proof. intros H. apply replace_from_suffix; [reflexivity | exact H]. Qed.

(** *** Loading every configuration *)

Section LoadAll.
Variable yaml_load : string -> option value.
Variable beatDir : path.
Variable t : gmap path node.

Definition key (file : string) : string := Js.replace ".yaml" EmptyString file.

Definition held (k : string) : value := stored yaml_load t (getIdeConfigPath beatDir k).

(** What one round of the loop does to the object. *)
Definition entry (configs : gmap string value) (file : string) : gmap string value :=
  if Js.endsWith ".yaml" file && truthy (held (key file))
  then assign (key file) (prop (held (key file)) "configuration") configs
  else configs.

Definition listed (l : list string) (k : string) : bool :=
  existsb (fun file => Js.endsWith ".yaml" file && String.eqb (key file) k) l.

Lemma loadEntry_run configs file w :
  files w = t ->
  exists w',
    loadEntry yaml_load beatDir configs file w = (inr (entry configs file), w') /\
    files w' = t.
Proof.
  intros Hw. unfold loadEntry, entry. fold (key file).
  destruct (Js.endsWith ".yaml" file); cbn [andb]; [|now exists w].
  rewrite bind_run.
  destruct (loadIdeConfig_stored yaml_load beatDir (key file) w) as (l & E & _).
  rewrite E, Hw. fold (held (key file)).
  destruct (truthy (held (key file))); eexists; split; reflexivity.
Qed.

Lemma fill_run l : forall configs w,
  files w = t ->
  exists w',
    fillUntilError (loadEntry yaml_load beatDir) configs l w
    = (inr (fold_left entry l configs), w') /\
    files w' = t.
Proof.
  induction l as [|file l IH]; intros configs w Hw; [now exists w|].
  cbn [fillUntilError fold_left].
  destruct (loadEntry_run configs file w Hw) as (w1 & E & Hw1). rewrite E.
  now apply IH.
Qed.

Lemma entry_lookup configs file k :
  entry configs file !! k
  = if Js.endsWith ".yaml" file && String.eqb (key file) k && truthy (held k)
       && negb (String.eqb k "__proto__")
    then Some (prop (held k) "configuration")
    else configs !! k.
Proof.
  unfold entry, assign.
  destruct (Js.endsWith ".yaml" file); cbn [andb]; [|reflexivity].
  destruct (String.eqb_spec (key file) k) as [->|Hne]; cbn [andb].
  - destruct (truthy (held k)); cbn [andb]; [|reflexivity].
    destruct (String.eqb k "__proto__"); cbn [negb]; [reflexivity|].
    apply lookup_insert_eq.
  - destruct (truthy (held (key file))); [|reflexivity].
    destruct (String.eqb (key file) "__proto__"); [reflexivity|].
    now apply lookup_insert_ne.
Qed.

Lemma fold_entry_lookup l : forall configs k,
  fold_left entry l configs !! k
  = if listed l k && truthy (held k) && negb (String.eqb k "__proto__")
    then Some (prop (held k) "configuration")
    else configs !! k.
Proof.
  induction l as [|file l IH]; intros configs k; [reflexivity|].
  cbn [fold_left listed existsb]. fold (listed l k). rewrite IH, entry_lookup.
  destruct (listed l k); cbn [andb orb].
  - rewrite orb_true_r. cbn [andb].
    destruct (truthy (held k)); cbn [andb]; [|now rewrite !andb_false_r].
    destruct (String.eqb k "__proto__"); cbn [negb]; [now rewrite !andb_false_r | reflexivity].
  - rewrite orb_false_r. reflexivity.
Qed.

End LoadAll.

Lemma loadAll_run yaml_load beatDir w :
  exists w',
    loadAllIdeConfigs yaml_load beatDir w
    = (inr (match node_at (files w) (getIdeConfigDir beatDir) with
            | Some Directory =>
                fold_left (entry yaml_load beatDir (files w))
                  (names (files w) (getIdeConfigDir beatDir)) ∅
            | _ => ∅
            end), w') /\
    files w' = files w.
Proof.
  unfold loadAllIdeConfigs. set (dir := getIdeConfigDir beatDir).
  rewrite bind_run, pathExists_run.
  destruct (node_at (files w) dir) as [n|] eqn:Hn; cbn [negb]; [|eexists; split; reflexivity].
  rewrite catch_run, bind_run, readdir_run. cbn [files log]. rewrite Hn.
  destruct n; try (eexists; split; reflexivity).
  destruct (fill_run yaml_load beatDir (files w) (names (files w) dir) ∅
              (World (files w) ((log w ++ [PathExists dir]) ++ [Readdir dir])) eq_refl)
    as (w' & E & Hw').
  rewrite E. now exists w'.
Qed.

End ConfigStoreFacts.

Module ConfigLoad.
Import StrFacts PathFacts TreeFacts FsFacts ConfigFacts ConfigStoreFacts.
Import Path Fs FsOps IdeConfigManager Output.

(** X1: Loading a configuration never raises and never changes the tree:
    it returns the parsed document when the configuration path holds a
    regular file whose content parses, and null in every other case,
    be the path missing, a directory, or a file that does not
    parse. *)
Theorem load_never_throws
    (yaml_load : string -> option value) (beatDir : path) (ideName : string) (w : world) :
  let p := getIdeConfigPath beatDir ideName in
  let r := loadIdeConfig yaml_load beatDir ideName w in
  files r.2 = files w /\
  Forall is_read (calls (loadIdeConfig yaml_load beatDir ideName) w) /\
  r.1 = inr (match node_at (files w) p with
             | Some (File content) =>
                 match yaml_load content with
                 | Some document => document
                 | None => VNull
                 end
             | Some Directory | Some Special | None => VNull
             end).
Proof.
  intros p r. subst r.
  destruct (loadIdeConfig_stored yaml_load beatDir ideName w) as (l & E & F).
  split; [now rewrite E|]. split.
  - rewrite (OutputFacts.calls_app _ w l); [exact F | now rewrite E].
  - rewrite E. cbn [fst]. unfold stored. fold p.
    destruct (node_at (files w) p) as [[]|]; reflexivity.
Qed.

End ConfigLoad.

Module ConfigSave.
Import StrFacts PathFacts TreeFacts FsFacts ConfigFacts ConfigStoreFacts.
Import Path Fs FsOps IdeConfigManager Output.

(** X2: The first save of an IDE: when no file stands where a directory
    of the configuration path is needed and the IDE has no
    configuration yet, the save returns normally, makes the
    directories, and writes a document whose configured date and last
    update are both the time of the save; the text written ends with
    a line feed, and nothing else in the tree changes. *)
Theorem first_save
    (yaml_load : string -> option value) (yaml_dump : value -> string)
    (now : string) (beatDir : path) (ideName : string) (configuration : value)
    (w : world) :
  let dir := getIdeConfigDir beatDir in
  let p := getIdeConfigPath beatDir ideName in
  let document :=
    VObj [("ide", VStr ideName);
          ("configured_date", VStr now);
          ("last_updated", VStr now);
          ("configuration", if truthy configuration then configuration else VObj [])] in
  absent "/"%char ideName ->
  (forall (q : path) n, q `prefix_of` dir -> files w !! q = Some n -> n = Directory) ->
  files w !! p = None ->
  exists w' content,
    saveIdeConfig yaml_load yaml_dump now beatDir ideName configuration w = (inr tt, w') /\
    files w' !! p = Some (File content) /\
    (content = yaml_dump document \/ content = yaml_dump document +:+ Js.nl) /\
    Js.endsWith Js.nl content = true /\
    files w' !! dir = Some Directory /\
    (forall q : path, q <> p -> ~ q `prefix_of` dir -> files w' !! q = files w !! q).
Proof.
  intros dir p document Hide Hfree Hnew.
  assert (Hp : p = dir ++ [ideName +:+ ".yaml"]) by (now apply configPath_child).
  assert (Hdir : dir = beatDir ++ ["_cfg"; "ides"]) by apply configDir_eq.
  destruct (mkdirs_ok dir (files w) [] Hfree) as (t1 & Hmk).
  pose proof (saveIdeConfig_run yaml_load yaml_dump now beatDir ideName configuration w) as Hrun.
  cbn zeta in Hrun. fold dir p in Hrun. rewrite Hmk in Hrun. destruct Hrun as (l & Hrun).
  assert (Ht1p : t1 !! p = None).
  { destruct (mkdirs_spec dir (files w) [] t1 Hmk p) as [E | (_ & _ & _ & P & _)].
    - now rewrite E.
    - rewrite Hp in P. now apply child_not_prefix in P. }
  assert (Ht1d : t1 !! dir = Some Directory).
  { apply (mkdirs_dir dir (files w) [] t1 Hmk). rewrite Hdir. now destruct beatDir. }
  assert (Hkept : kept_date yaml_load t1 p now = VStr now).
  { unfold kept_date, stored. rewrite Hp, node_at_child, <- Hp, Ht1p. reflexivity. }
  rewrite Hkept in Hrun. fold (configData ideName (VStr now) now configuration) in document.
  set (content := terminated (yaml_dump document)).
  exists (World (<[p := File content]> t1) (l ++ [WriteFile p content])), content.
  split; [|split; [apply lookup_insert_eq|split; [|split; [apply terminated_ends|split]]]].
  - rewrite Hrun, writeFile_run. cbn zeta. cbn [files log].
    assert (Hpar : node_at t1 (parent p) = Some Directory).
    { rewrite Hp, parent_child. rewrite Hdir in *. destruct beatDir; exact Ht1d. }
    rewrite Hpar, Ht1p. fold document content.
    rewrite Hp. destruct dir; reflexivity.
  - unfold content, terminated. destruct (Js.endsWith Js.nl (yaml_dump document)); tauto.
  - cbn [files]. rewrite lookup_insert_ne; [exact Ht1d|].
    rewrite Hp. intros E. apply (f_equal length) in E. rewrite length_app in E. simpl in E. lia.
  - intros q Hq Hpre. cbn [files]. rewrite lookup_insert_ne by congruence.
    destruct (mkdirs_spec dir (files w) [] t1 Hmk q) as [E | (_ & _ & _ & P & _)];
      [exact E | contradiction].
Qed.

Lemma first_save_witness :
  exists w',
    saveIdeConfig (StoreExamples.toy_load "2025-06-30T12:00:00.000Z") StoreExamples.toy_dump
      "2025-06-30T12:00:00.000Z" Examples.beat "cursor" VNull StoreExamples.fresh = (inr tt, w') /\
    files w' !! (Examples.beat ++ ["_cfg"; "ides"; "cursor.yaml"])
      = Some (File ("cursor" +:+ Js.nl)).
Proof.
  destruct (first_save (StoreExamples.toy_load "2025-06-30T12:00:00.000Z") StoreExamples.toy_dump
              "2025-06-30T12:00:00.000Z" Examples.beat "cursor" VNull StoreExamples.fresh)
    as (w' & content & Hrun & Hfile & [Hc | Hc] & Hnl & _).
  - reflexivity.
  - intros q n Hq Hn.
    assert (Hin : (q, n) ∈ map_to_list (files StoreExamples.fresh)) by (now apply elem_of_map_to_list).
    vm_compute in Hin.
    repeat (apply list_elem_of_In in Hin; destruct Hin as [Hin | Hin];
            [now inversion Hin | apply list_elem_of_In in Hin]).
    now apply elem_of_nil in Hin.
  - reflexivity.
  - rewrite Hc in Hnl. vm_compute in Hnl. discriminate Hnl.
  - exists w'. split; [exact Hrun|].
    change (Examples.beat ++ ["_cfg"; "ides"; "cursor.yaml"])
      with (getIdeConfigPath Examples.beat "cursor").
    rewrite Hfile, Hc. reflexivity.
Defined.

(** X3: Saving and loading again: after a save that returns normally,
    over a path that is not a socket, pipe or device, the IDE has a
    configuration, the file holds the dump of a document with the
    name of the IDE, a configured date (the time of the save when
    there was no file or the file did not parse), the time of the
    save as last update and the configuration passed (the empty
    object for a falsy one), and loading returns that document
    whenever the YAML library reads back what it wrote. *)
Theorem save_then_load
    (yaml_load : string -> option value) (yaml_dump : value -> string)
    (now : string) (beatDir : path) (ideName : string) (configuration : value)
    (w w' : world) :
  let p := getIdeConfigPath beatDir ideName in
  absent "/"%char ideName ->
  files w !! p <> Some Special ->
  saveIdeConfig yaml_load yaml_dump now beatDir ideName configuration w = (inr tt, w') ->
  exists configuredDate content,
    let document :=
      VObj [("ide", VStr ideName);
            ("configured_date", configuredDate);
            ("last_updated", VStr now);
            ("configuration", if truthy configuration then configuration else VObj [])] in
    files w' !! p = Some (File content) /\
    (content = yaml_dump document \/ content = yaml_dump document +:+ Js.nl) /\
    (files w !! p = None -> configuredDate = VStr now) /\
    (forall existing, files w !! p = Some (File existing) ->
       yaml_load existing = None -> configuredDate = VStr now) /\
    (hasIdeConfig beatDir ideName w').1 = inr true /\
    (yaml_load content = Some document ->
     (loadIdeConfig yaml_load beatDir ideName w').1 = inr document).
Proof.
  intros p Hide Hspecial Hsave.
  assert (Hp : p = getIdeConfigDir beatDir ++ [ideName +:+ ".yaml"])
    by (now apply configPath_child).
  pose proof (saveIdeConfig_run yaml_load yaml_dump now beatDir ideName configuration w) as Hrun.
  cbn zeta in Hrun. fold p in Hrun.
  destruct (mkdirs (files w) [] (getIdeConfigDir beatDir)) as [e|t1] eqn:Hmk.
  { destruct Hrun as (l & Hrun). rewrite Hrun in Hsave. discriminate Hsave. }
  destruct Hrun as (l & Hrun). rewrite Hsave in Hrun.
  exists (kept_date yaml_load t1 p now).
  set (document := configData ideName (kept_date yaml_load t1 p now) now configuration) in *.
  set (content := terminated (yaml_dump document)) in *.
  exists content. cbn zeta. fold (configData ideName (kept_date yaml_load t1 p now) now
                                  configuration). fold document.
  assert (Ht1p : t1 !! p = files w !! p).
  { destruct (mkdirs_spec _ (files w) [] t1 Hmk p) as [E | (_ & _ & _ & P & _)].
    - exact E.
    - rewrite Hp in P. now apply child_not_prefix in P. }
  assert (Hw' : files w' = <[p := File content]> t1).
  { rewrite writeFile_run in Hrun. cbn zeta in Hrun. cbn [files log] in Hrun.
    rewrite Ht1p in Hrun.
    destruct p as [|s r] eqn:Ep; [discriminate Hrun|].
    destruct (node_at t1 (parent (s :: r))) as [[]|]; try discriminate Hrun.
    destruct (files w !! (s :: r)) as [[]|]; try discriminate Hrun;
      try (now inversion Hrun); contradiction. }
  assert (Hfile : files w' !! p = Some (File content))
    by (rewrite Hw'; apply lookup_insert_eq).
  assert (Hnode : node_at (files w') p = Some (File content)).
  { rewrite Hp, node_at_child, <- Hp. exact Hfile. }
  split; [exact Hfile|]. split.
  { unfold content, terminated. destruct (Js.endsWith Js.nl (yaml_dump document)); tauto. }
  split.
  { intros Hnone. unfold kept_date, stored.
    rewrite Hp, node_at_child, <- Hp, Ht1p, Hnone. reflexivity. }
  split.
  { intros existing Hfile0 Hbad. unfold kept_date, stored.
    rewrite Hp, node_at_child, <- Hp, Ht1p, Hfile0, Hbad. reflexivity. }
  split.
  - unfold hasIdeConfig. fold p. rewrite pathExists_run. cbn [fst]. now rewrite Hnode.
  - intros Hload.
    destruct (loadIdeConfig_stored yaml_load beatDir ideName w') as (l' & E & _).
    rewrite E. cbn [fst]. unfold stored. fold p. now rewrite Hnode, Hload.
Qed.

Lemma save_then_load_witness :
  exists w',
    saveIdeConfig (StoreExamples.toy_load "2025-06-30T12:00:00.000Z") StoreExamples.toy_dump
      "2025-06-30T12:00:00.000Z" Examples.beat "cursor" VNull StoreExamples.fresh = (inr tt, w') /\
    (hasIdeConfig Examples.beat "cursor" w').1 = inr true /\
    (loadIdeConfig (StoreExamples.toy_load "2025-06-30T12:00:00.000Z") Examples.beat "cursor" w').1
    = inr (VObj [("ide", VStr "cursor");
                 ("configured_date", VStr "2025-06-30T12:00:00.000Z");
                 ("last_updated", VStr "2025-06-30T12:00:00.000Z");
                 ("configuration", VObj [])]).
Proof.
  destruct (saveIdeConfig (StoreExamples.toy_load "2025-06-30T12:00:00.000Z") StoreExamples.toy_dump
              "2025-06-30T12:00:00.000Z" Examples.beat "cursor" VNull StoreExamples.fresh)
    as [[e|[]] w'] eqn:Hsave.
  { apply (f_equal fst) in Hsave. vm_compute in Hsave. discriminate Hsave. }
  exists w'. split; [reflexivity|].
  destruct (save_then_load (StoreExamples.toy_load "2025-06-30T12:00:00.000Z") StoreExamples.toy_dump
              "2025-06-30T12:00:00.000Z" Examples.beat "cursor" VNull StoreExamples.fresh w')
    as (date & content & Hfile & Hc & Hdate & _ & Hhas & Hload).
  - reflexivity.
  - vm_compute. discriminate.
  - exact Hsave.
  - split; [exact Hhas|].
    rewrite (Hdate eq_refl) in Hc, Hload. cbn zeta in Hload. apply Hload.
    destruct Hc as [-> | ->]; reflexivity.
Defined.

End ConfigSave.

Module ConfigDelete.
Import StrFacts PathFacts TreeFacts FsFacts ConfigFacts CleanupFacts ConfigStoreFacts.
Import Path Fs FsOps IdeConfigManager Output.

(** X4: Deleting a configuration never raises, also when there is none;
    afterwards the IDE has no configuration and loading it returns
    null, and nothing outside the configuration path has changed: in
    particular the configuration of every other IDE is as it was. *)
Theorem delete_config
    (yaml_load : string -> option value) (beatDir : path) (ideName : string) (w : world) :
  let p := getIdeConfigPath beatDir ideName in
  absent "/"%char ideName ->
  exists w',
    deleteIdeConfig beatDir ideName w = (inr tt, w') /\
    (hasIdeConfig beatDir ideName w').1 = inr false /\
    (loadIdeConfig yaml_load beatDir ideName w').1 = inr VNull /\
    (forall q : path, ~ p `prefix_of` q -> files w' !! q = files w !! q) /\
    (forall other, absent "/"%char other -> other <> ideName ->
       files w' !! getIdeConfigPath beatDir other
       = files w !! getIdeConfigPath beatDir other).
Proof.
  intros p Hide.
  assert (Hp : p = getIdeConfigDir beatDir ++ [ideName +:+ ".yaml"])
    by (now apply configPath_child).
  assert (Hrun : exists w', deleteIdeConfig beatDir ideName w = (inr tt, w') /\
            node_at (files w') p = None /\
            (forall q : path, ~ p `prefix_of` q -> files w' !! q = files w !! q)).
  { unfold deleteIdeConfig. fold p. rewrite bind_run, pathExists_run.
    destruct (node_at (files w) p) as [n|] eqn:Hn.
    - rewrite remove_run. eexists. split; [reflexivity|]. cbn [files]. split.
      + rewrite Hp, node_at_child, <- Hp, rm_lookup. now rewrite decide_True.
      + intros q Hq. rewrite rm_lookup. now rewrite decide_False.
    - eexists. split; [reflexivity|]. cbn [files]. now split. }
  destruct Hrun as (w' & Hrun & Hnone & Hkeep). exists w'.
  split; [exact Hrun|]. split; [|split; [|split; [exact Hkeep|]]].
  - unfold hasIdeConfig. fold p. rewrite pathExists_run. cbn [fst]. now rewrite Hnone.
  - destruct (loadIdeConfig_stored yaml_load beatDir ideName w') as (l & E & _).
    rewrite E. cbn [fst]. unfold stored. fold p. now rewrite Hnone.
  - intros other Hother Hne. apply Hkeep.
    rewrite (configPath_child beatDir other Hother), Hp.
    intros [k Hk]. rewrite <- app_assoc in Hk. apply app_inv_head in Hk.
    cbn [app] in Hk. inversion Hk as [[Hname Hrest]].
    apply append_inv_r in Hname. congruence.
Qed.

Lemma delete_config_witness :
  exists w',
    deleteIdeConfig Examples.beat "cursor" StoreExamples.two_configs = (inr tt, w') /\
    (hasIdeConfig Examples.beat "cursor" w').1 = inr false /\
    files w' !! (Examples.beat ++ ["_cfg"; "ides"; "trae.yaml"]) = Some (File "trae").
Proof.
  destruct (delete_config (fun _ => None) Examples.beat "cursor" StoreExamples.two_configs eq_refl)
    as (w' & Hrun & Hhas & _ & _ & Hother).
  exists w'. split; [exact Hrun|]. split; [exact Hhas|].
  change (Examples.beat ++ ["_cfg"; "ides"; "trae.yaml"])
    with (getIdeConfigPath Examples.beat "trae").
  rewrite (Hother "trae" eq_refl ltac:(discriminate)). reflexivity.
Defined.

End ConfigDelete.

Module ConfigAll.
Import StrFacts PathFacts TreeFacts FsFacts ConfigFacts ConfigStoreFacts.
Import Path Fs FsOps IdeConfigManager Output.

(** X5: Loading all configurations never raises and never changes the
    tree.  The object returned is empty when the configuration
    directory is missing or is not a directory; otherwise each of its
    entries stands for a file of the directory whose name ends in
    [.yaml]: the key is the name with its first [.yaml] removed, and
    the value is the configuration field of the document that loading
    that key returns, which is truthy. *)
Theorem load_all
    (yaml_load : string -> option value) (beatDir : path) (w : world) :
  let dir := getIdeConfigDir beatDir in
  exists configs w',
    loadAllIdeConfigs yaml_load beatDir w = (inr configs, w') /\
    files w' = files w /\
    (node_at (files w) dir <> Some Directory -> configs = ∅) /\
    forall ideName configuration,
      configs !! ideName = Some configuration ->
      ideName <> "__proto__" /\
      exists file document,
        file ∈ names (files w) dir /\
        Js.endsWith ".yaml" file = true /\
        ideName = Js.replace ".yaml" EmptyString file /\
        (loadIdeConfig yaml_load beatDir ideName w).1 = inr document /\
        truthy document = true /\
        configuration = prop document "configuration".
Proof.
  intros dir. destruct (loadAll_run yaml_load beatDir w) as (w' & E & Hw'). fold dir in E.
  eexists. exists w'. split; [exact E|]. split; [exact Hw'|]. split.
  - intros Hn. destruct (node_at (files w) dir) as [[]|]; try reflexivity. contradiction.
  - intros k v Hk.
    destruct (node_at (files w) dir) as [[]|]; try (rewrite lookup_empty in Hk; discriminate).
    rewrite fold_entry_lookup, lookup_empty in Hk.
    destruct (listed (names (files w) dir) k) eqn:Hl; [|discriminate Hk].
    destruct (truthy (held yaml_load beatDir (files w) k)) eqn:Ht; [|discriminate Hk].
    destruct (String.eqb_spec k "__proto__") as [|Hproto]; [discriminate Hk|].
    cbn [andb negb] in Hk. inversion Hk. split; [exact Hproto|].
    apply existsb_exists in Hl. destruct Hl as (file & Hin & Hf).
    apply andb_true_iff in Hf. destruct Hf as [Hext Hkey].
    apply String.eqb_eq in Hkey.
    exists file, (held yaml_load beatDir (files w) k).
    split; [now apply list_elem_of_In|]. split; [exact Hext|].
    split; [now rewrite <- Hkey|]. split; [|now split].
    destruct (loadIdeConfig_stored yaml_load beatDir k w) as (l & El & _).
    now rewrite El.
Qed.

(** X6: An IDE whose configuration file is in the directory and parses
    to a truthy document is in the object returned, with the
    configuration field of the document, as long as its name contains
    neither a slash nor [.yaml] and is not [__proto__]. *)
Theorem configured_ide_is_listed
    (yaml_load : string -> option value) (beatDir : path) (ideName content : string)
    (document : value) (w : world) :
  let dir := getIdeConfigDir beatDir in
  node_at (files w) dir = Some Directory ->
  files w !! (dir ++ [ideName +:+ ".yaml"]) = Some (File content) ->
  yaml_load content = Some document ->
  truthy document = true ->
  absent "/"%char ideName ->
  Js.includes ".yaml" ideName = false ->
  ideName <> "__proto__" ->
  exists configs,
    (loadAllIdeConfigs yaml_load beatDir w).1 = inr configs /\
    configs !! ideName = Some (prop document "configuration").
Proof.
  intros dir Hdir Hfile Hload Htruthy Hide Hyaml Hproto.
  destruct (loadAll_run yaml_load beatDir w) as (w' & E & _). fold dir in E.
  rewrite Hdir in E. eexists. split; [now rewrite E|].
  rewrite fold_entry_lookup, lookup_empty.
  assert (Hheld : held yaml_load beatDir (files w) ideName = document).
  { unfold held, stored. rewrite (configPath_child beatDir ideName Hide). fold dir.
    now rewrite node_at_child, Hfile, Hload. }
  assert (Hlisted : listed (names (files w) dir) ideName = true).
  { apply existsb_exists. exists (ideName +:+ ".yaml"). split.
    - apply list_elem_of_In, elem_of_names. now rewrite Hfile.
    - rewrite endsWith_app. unfold key. rewrite (replace_yaml ideName Hyaml).
      now rewrite String.eqb_refl. }
  rewrite Hlisted, Hheld, Htruthy.
  destruct (String.eqb_spec ideName "__proto__"); [contradiction | reflexivity].
Qed.

Lemma configured_ide_is_listed_witness :
  exists configs,
    (loadAllIdeConfigs (StoreExamples.toy_load "2025-06-30T12:00:00.000Z") Examples.beat
       StoreExamples.two_configs).1 = inr configs /\
    configs !! "cursor" = Some (VObj []).
Proof.
  apply (configured_ide_is_listed (StoreExamples.toy_load "2025-06-30T12:00:00.000Z")
           Examples.beat "cursor" "cursor"
           (VObj [("ide", VStr "cursor");
                  ("configured_date", VStr "2025-06-30T12:00:00.000Z");
                  ("last_updated", VStr "2025-06-30T12:00:00.000Z");
                  ("configuration", VObj [])])
           StoreExamples.two_configs);
    try reflexivity.
  discriminate.
Defined.

End ConfigAll.

(* ================================================================== *)
(** * The collector: frame, names, order and errors *)
(* ================================================================== *)

Module CollectionFacts.
Import StrFacts PathFacts TreeFacts FsFacts CollectorFacts TreeCheckFacts.
Import Path Fs FsOps BeatArtifacts AgentCommandGenerator Collected Output.

Lemma reader_launcher tp bf acc agent : reader (launcher tp bf acc agent).
Proof.
  unfold launcher. apply reader_bind; [apply FlatExport.reader_generateLauncherContent|].
  intros; apply reader_ret.
Qed.

Lemma reader_collectAgentArtifacts tp bf beatDir mods :
  reader (collectAgentArtifacts tp bf beatDir mods).
Proof.
  unfold collectAgentArtifacts. apply reader_bind; [apply reader_getAgentsFromBeat|].
  intros agents. apply reader_foldM. intros; apply reader_launcher.
Qed.

(** The tasks of a directory, read off the tree. *)
Definition tasksAt (t : gmap path node) (p : path) (m : string) : list item :=
  match node_at t p with
  | Some Directory => map (mkItem p m) (filter (fun f => Js.endsWith ".md" f) (names t p))
  | _ => []
  end.

Lemma getTasksFromDir_run p m w :
  exists w',
    getTasksFromDir p m w
    = (match node_at (files w) p with
       | Some Directory | None => inr (tasksAt (files w) p m)
       | Some _ => inl (ENOTDIR p)
       end, w') /\
    files w' = files w.
Proof.
  unfold getTasksFromDir, tasksAt. rewrite bind_run, pathExists_run.
  destruct (node_at (files w) p) as [n|] eqn:Hn; cbn [negb];
    [|eexists; split; reflexivity].
  rewrite bind_run, readdir_run. cbn [files log]. rewrite Hn.
  destruct n; try (eexists; split; reflexivity).
  eexists. split; [unfold ret; rewrite task_loop; reflexivity | reflexivity].
Qed.

Lemma moduleTasks_run beatDir acc m w :
  exists w',
    moduleItems getTasksFromDir beatDir "tasks" acc m w
    = (match node_at (files w) (join beatDir [m; "tasks"]) with
       | Some Directory | None =>
           inr (acc ++ tasksAt (files w) (join beatDir [m; "tasks"]) m)
       | Some _ => inl (ENOTDIR (join beatDir [m; "tasks"]))
       end, w') /\
    files w' = files w.
Proof.
  unfold moduleItems. set (p := join beatDir [m; "tasks"]).
  rewrite bind_run, pathExists_run.
  destruct (node_at (files w) p) as [n|] eqn:Hn.
  - rewrite bind_run.
    destruct (getTasksFromDir_run p m (World (files w) (log w ++ [PathExists p])))
      as (w1 & E & Hw1).
    rewrite E. cbn [files] in *. rewrite Hn.
    destruct n; eexists; (split; [reflexivity | assumption]).
  - exists (World (files w) (log w ++ [PathExists p])). split; [|reflexivity].
    unfold tasksAt. rewrite Hn. now rewrite app_nil_r.
Qed.

Lemma moduleTasks_loop beatDir mods : forall acc w,
  (forall m, m ∈ mods ->
     node_at (files w) (join beatDir [m; "tasks"]) = None \/
     node_at (files w) (join beatDir [m; "tasks"]) = Some Directory) ->
  exists w',
    foldM (moduleItems getTasksFromDir beatDir "tasks") acc mods w
    = (inr (acc ++ flat_map (fun m => tasksAt (files w) (join beatDir [m; "tasks"]) m) mods),
       w') /\
    files w' = files w.
Proof.
  induction mods as [|m mods IH]; intros acc w Hok.
  - exists w. cbn. now rewrite app_nil_r.
  - cbn [foldM flat_map]. rewrite bind_run.
    destruct (moduleTasks_run beatDir acc m w) as (w1 & E & Hw1). rewrite E.
    assert (Hm : node_at (files w) (join beatDir [m; "tasks"]) = None \/
                 node_at (files w) (join beatDir [m; "tasks"]) = Some Directory)
      by (apply Hok; left).
    assert (Hrest : forall m', m' ∈ mods ->
              node_at (files w1) (join beatDir [m'; "tasks"]) = None \/
              node_at (files w1) (join beatDir [m'; "tasks"]) = Some Directory).
    { intros m' Hm'. rewrite Hw1. apply Hok. now right. }
    destruct (IH (acc ++ tasksAt (files w) (join beatDir [m; "tasks"]) m) w1 Hrest)
      as (w2 & E2 & Hw2).
    exists w2. split; [|congruence].
    destruct Hm as [Hm | Hm]; rewrite Hm; rewrite E2, Hw1, <- app_assoc; reflexivity.
Qed.

(** *** Agent files that cannot be read *)

(** A file of an agents directory that the collector reads. *)
Definition candidate (file : string) : bool :=
  Js.endsWith ".md" file && negb (Js.includes ".customize." file).

Definition unreadable (t : gmap path node) (dirPath : path) (file : string) : bool :=
  candidate file &&
  match node_at t (join dirPath [file]) with
  | Some (File _) => false
  | _ => true
  end.

Lemma agentFile_outcome dirPath m acc file w :
  (exists e, (agentFile dirPath m acc file w).1 = inl e)
  <-> unreadable (files w) dirPath file = true.
Proof.
  unfold agentFile, unreadable, candidate.
  destruct (Js.endsWith ".md" file); cbn [negb andb].
  2:{ split; [intros [e H]; discriminate H | discriminate]. }
  destruct (Js.includes ".customize." file); cbn [negb andb].
  { split; [intros [e H]; discriminate H | discriminate]. }
  rewrite bind_run, readFile_run.
  destruct (node_at (files w) (join dirPath [file])) as [[c| |]|].
  - split; [|discriminate]. intros [e H].
    destruct (Js.includes _ c); discriminate H.
  - split; [reflexivity | intros _; eexists; reflexivity].
  - split; [reflexivity | intros _; eexists; reflexivity].
  - split; [reflexivity | intros _; eexists; reflexivity].
Qed.

Lemma agent_loop_outcome dirPath m l : forall acc w,
  (exists e, (foldM (agentFile dirPath m) acc l w).1 = inl e)
  <-> existsb (unreadable (files w) dirPath) l = true.
Proof.
  induction l as [|file l IH]; intros acc w.
  - cbn. split; [intros [e H]; discriminate H | discriminate].
  - cbn [foldM existsb]. rewrite bind_run.
    pose proof (agentFile_outcome dirPath m acc file w) as Hhead.
    pose proof (reader_files (agentFile dirPath m acc file) w
                  (reader_agentFile _ _ _ _)) as Hfiles.
    destruct (agentFile dirPath m acc file w) as [[e|acc'] w1]; cbn [fst snd] in *.
    + assert (Hu : unreadable (files w) dirPath file = true)
        by (apply Hhead; now exists e).
      rewrite Hu. split; [reflexivity | intros _; now exists e].
    + assert (Hu : unreadable (files w) dirPath file = false).
      { destruct (unreadable (files w) dirPath file); [|reflexivity].
        destruct (proj2 Hhead eq_refl) as [e He]. discriminate He. }
      rewrite Hu. cbn [orb]. rewrite <- Hfiles. apply IH.
Qed.

End CollectionFacts.

Module CollectionFrame.
Import StrFacts PathFacts TreeFacts FsFacts CollectorFacts TreeCheckFacts CollectionFacts.
Import Path Fs FsOps BeatArtifacts AgentCommandGenerator Collected Output.

(** X7: Collection only reads: whatever its outcome, collecting the
    agents, the tasks or the agent launchers leaves the tree as it
    is, and every call it issues is a test for existence, a listing
    or the reading of a file. *)
Theorem collection_reads_only
    (templatePath : path) (beatFolderName : string) (beatDir : path)
    (selectedModules : list string) (w : world) :
  let agents := getAgentsFromBeat beatDir selectedModules in
  let tasks := getTasksFromBeat beatDir selectedModules in
  let launchers := collectAgentArtifacts templatePath beatFolderName beatDir selectedModules in
  (files (agents w).2 = files w /\ Forall is_read (calls agents w)) /\
  (files (tasks w).2 = files w /\ Forall is_read (calls tasks w)) /\
  (files (launchers w).2 = files w /\ Forall is_read (calls launchers w)).
Proof.
  intros agents tasks launchers. repeat split.
  - apply reader_files, reader_getAgentsFromBeat.
  - apply OutputFacts.emits_calls, OrderFacts.emits_getAgentsFromBeat. tauto.
  - apply reader_files, reader_getTasksFromBeat.
  - apply OutputFacts.emits_calls, OrderFacts.emits_getTasksFromBeat. tauto.
  - apply reader_files, reader_collectAgentArtifacts.
  - apply OutputFacts.emits_calls, OrderFacts.emits_collectAgentArtifacts. tauto.
Qed.

End CollectionFrame.

Module CollectionOrder.
Import StrFacts PathFacts TreeFacts FsFacts CollectorFacts TreeCheckFacts CollectionFacts.
Import Path Fs FsOps BeatArtifacts AgentCommandGenerator Collected Output.

(** X8: The tasks are listed module by module: first those of core, then
    those of each selected module in the order of the selection, a
    module selected twice (or core selected) being listed twice; a
    module without tasks directory adds nothing.  This holds when
    none of the tasks paths is a file; when the one of core is, the
    collection raises ENOTDIR. *)
Theorem tasks_in_order (beatDir : path) (selectedModules : list string) (w : world) :
  let dir m := join beatDir [m; "tasks"] in
  let tasksOf m :=
    match node_at (files w) (dir m) with
    | Some Directory =>
        map (mkItem (dir m) m)
          (filter (fun f => Js.endsWith ".md" f) (names (files w) (dir m)))
    | _ => []
    end in
  ((forall m, m ∈ "core" :: selectedModules ->
      node_at (files w) (dir m) = None \/ node_at (files w) (dir m) = Some Directory) ->
   (getTasksFromBeat beatDir selectedModules w).1
   = inr (tasksOf "core" ++ flat_map tasksOf selectedModules)) /\
  (forall n, node_at (files w) (dir "core") = Some n -> n <> Directory ->
     (getTasksFromBeat beatDir selectedModules w).1 = inl (ENOTDIR (dir "core"))).
Proof.
  intros dir tasksOf.
  assert (Htasks : forall m, tasksOf m = tasksAt (files w) (dir m) m) by reflexivity.
  unfold getTasksFromBeat. fold (dir "core").
  rewrite bind_run, pathExists_run.
  set (w0 := World (files w) (log w ++ [PathExists (dir "core")])).
  destruct (getTasksFromDir_run (dir "core") "core" w0) as (w1 & E1 & Hw1).
  change (files w0) with (files w) in E1, Hw1.
  split.
  - intros Hok.
    assert (Hcore : exists w1',
              (if match node_at (files w) (dir "core") with Some _ => true | None => false end
               then getTasksFromDir (dir "core") "core"
               else ret []) w0 = (inr (tasksOf "core"), w1') /\ files w1' = files w).
    { assert (Hc : node_at (files w) (dir "core") = None \/
                   node_at (files w) (dir "core") = Some Directory) by (apply Hok; left).
      destruct Hc as [Hn | Hn].
      - exists w0. rewrite Htasks. unfold tasksAt. rewrite Hn. split; reflexivity.
      - rewrite Hn in *. exists w1. rewrite Htasks. split; assumption. }
    destruct Hcore as (w1' & Ec & Hw1'). rewrite bind_run, Ec.
    destruct (moduleTasks_loop beatDir selectedModules (tasksOf "core") w1') as (w2 & E2 & _).
    { intros m Hm. rewrite Hw1'. apply Hok. now right. }
    rewrite E2, Hw1'. reflexivity.
  - intros n Hn Hnd. rewrite Hn in *. rewrite bind_run, E1.
    destruct n; [reflexivity | contradiction | reflexivity].
Qed.

Lemma tasks_in_order_witness :
  (getTasksFromBeat Examples.beat ["core"] CollectExamples.broken).1
  = inr [Item (Examples.beat ++ ["core"; "tasks"; "index.md"]) "index" "core";
         Item (Examples.beat ++ ["core"; "tasks"; "index.md"]) "index" "core"].
Proof.
  rewrite (proj1 (tasks_in_order Examples.beat ["core"] CollectExamples.broken)).
  - vm_compute. reflexivity.
  - intros m Hm. right.
    apply list_elem_of_In in Hm. destruct Hm as [<- | [<- | []]]; vm_compute; reflexivity.
Defined.

End CollectionOrder.

Module CollectionNames.
Import StrFacts PathFacts TreeFacts FsFacts CollectorFacts TreeCheckFacts CollectionFacts ConfigStoreFacts.
Import Path Fs FsOps BeatArtifacts AgentCommandGenerator Collected Output.

(** X9: A file [n.md] of a tasks or agents directory is collected under
    the name [n], as long as [n] itself does not contain [.md]: every
    such entry of a tasks directory, and every such regular file of an
    agents directory that carries neither the customization segment
    nor the skip marker. *)
Theorem collected_under_stem (dirPath : path) (m n : string) (w : world) :
  let file := n +:+ ".md" in
  valid_tree (files w) ->
  node_at (files w) dirPath = Some Directory ->
  Js.includes ".md" n = false ->
  (is_Some (files w !! (dirPath ++ [file])) ->
   exists r, (getTasksFromDir dirPath m w).1 = inr r /\
             Item (dirPath ++ [file]) n m ∈ r) /\
  (forall content,
     files w !! (dirPath ++ [file]) = Some (File content) ->
     Js.includes ".customize." file = false ->
     Js.includes localskip content = false ->
     forall r w', getAgentsFromDir dirPath m w = (inr r, w') ->
                  Item (dirPath ++ [file]) n m ∈ r).
Proof.
  intros file Hvalid Hdir Hn.
  assert (Hitem : forall node, files w !! (dirPath ++ [file]) = Some node ->
            mkItem dirPath m file = Item (dirPath ++ [file]) n m /\
            file ∈ names (files w) dirPath).
  { intros node Hnode.
    assert (Hin : file ∈ names (files w) dirPath)
      by (apply elem_of_names; now rewrite Hnode).
    split; [|exact Hin]. unfold mkItem.
    rewrite join_one by (eapply names_valid; eauto).
    unfold file. now rewrite replace_md_stem. }
  split.
  - intros [node Hnode]. destruct (Hitem node Hnode) as [Hmk Hin].
    destruct (getTasksFromDir_run dirPath m w) as (w' & E & _).
    rewrite E, Hdir. eexists. split; [reflexivity|].
    unfold tasksAt. rewrite Hdir, <- Hmk.
    apply list_elem_of_fmap. exists file. split; [reflexivity|].
    apply list_elem_of_filter. split; [|exact Hin].
    unfold file. now rewrite endsWith_app.
  - intros content Hnode Hcust Hskip r w' H.
    destruct (Hitem _ Hnode) as [Hmk Hin].
    unfold getAgentsFromDir in H.
    rewrite (bind_ok _ _ _ _ _ (pathExists_run dirPath w)) in H.
    rewrite Hdir in H. cbn [negb] in H.
    rewrite (bind_ok _ _ _ (names (files w) dirPath)
               (World (files w) ((log w ++ [PathExists dirPath]) ++ [Readdir dirPath]))) in H.
    2:{ rewrite readdir_run. simpl. now rewrite Hdir. }
    apply agent_loop in H. simpl in H. subst r. rewrite <- Hmk.
    apply list_elem_of_fmap. exists file. split; [reflexivity|].
    apply list_elem_of_filter. split; [|exact Hin].
    unfold agent_keep. unfold file at 1. rewrite endsWith_app. fold file.
    rewrite Hcust. rewrite join_one by (eapply names_valid; eauto).
    now rewrite node_at_child, Hnode, Hskip.
Qed.

Lemma collected_under_stem_witness :
  exists r,
    (getTasksFromDir (Examples.beat ++ ["core"; "tasks"]) "core" Examples.installed).1 = inr r /\
    Item (Examples.beat ++ ["core"; "tasks"; "index.md"]) "index" "core" ∈ r.
Proof.
  apply (proj1 (collected_under_stem (Examples.beat ++ ["core"; "tasks"]) "core" "index"
                  Examples.installed
                  (valid_treeb_ok (files Examples.installed) eq_refl) eq_refl eq_refl)).
  vm_compute. eauto.
Defined.

End CollectionNames.

Module CollectionErrors.
Import StrFacts PathFacts TreeFacts FsFacts CollectorFacts TreeCheckFacts CollectionFacts.
Import Path Fs FsOps BeatArtifacts AgentCommandGenerator Collected Output.

(** X10: The agents of a directory are collected unless one of its
    entries that the collector reads (the name ends in [.md] and has
    no customization segment) is not a regular file: then, and only
    then, the collection raises an error.  The same directory is
    listed as tasks without error, since task files are not read. *)
Theorem agents_fail_on_unreadable (dirPath : path) (m : string) (w : world) :
  valid_tree (files w) ->
  node_at (files w) dirPath = Some Directory ->
  (fails (getAgentsFromDir dirPath m w).1 <->
   exists file,
     file ∈ names (files w) dirPath /\
     Js.endsWith ".md" file = true /\
     Js.includes ".customize." file = false /\
     (files w !! (dirPath ++ [file]) = Some Directory \/
      files w !! (dirPath ++ [file]) = Some Special)) /\
  ~ fails (getTasksFromDir dirPath m w).1.
Proof.
  intros Hvalid Hdir. split.
  - unfold fails, getAgentsFromDir.
    rewrite bind_run, pathExists_run, Hdir. cbn [negb].
    rewrite bind_run, readdir_run. cbn [files log]. rewrite Hdir.
    rewrite agent_loop_outcome. cbn [files].
    split.
    + intros H. apply existsb_exists in H. destruct H as (file & Hin & Hu).
      apply list_elem_of_In in Hin.
      unfold unreadable, candidate in Hu.
      apply andb_true_iff in Hu. destruct Hu as [Hc Hu].
      apply andb_true_iff in Hc. destruct Hc as [He Hc].
      apply negb_true_iff in Hc.
      rewrite join_one, node_at_app in Hu by (eapply names_valid; eauto).
      exists file. repeat split; try assumption.
      apply elem_of_names in Hin. destruct Hin as [node Hnode]. rewrite Hnode in *.
      destruct node; [discriminate Hu | now left | now right].
    + intros (file & Hin & He & Hc & Hnode).
      apply existsb_exists. exists file. split; [now apply list_elem_of_In|].
      unfold unreadable, candidate. rewrite He, Hc. cbn [negb andb].
      rewrite join_one, node_at_app by (eapply names_valid; eauto).
      destruct Hnode as [-> | ->]; reflexivity.
  - intros [e He]. destruct (getTasksFromDir_run dirPath m w) as (w' & E & _).
    rewrite E, Hdir in He. discriminate He.
Qed.

Lemma agents_fail_on_unreadable_witness :
  fails (getAgentsFromDir (Examples.beat ++ ["core"; "agents"]) "core"
           CollectExamples.broken).1 /\
  ~ fails (getAgentsFromDir (Examples.beat ++ ["core"; "agents"]) "core"
             Examples.installed).1.
Proof.
  split.
  - apply (proj1 (agents_fail_on_unreadable (Examples.beat ++ ["core"; "agents"]) "core"
                    CollectExamples.broken
                    (valid_treeb_ok (files CollectExamples.broken) eq_refl) eq_refl)).
    exists "notes.md". split; [|split; [reflexivity|split; [reflexivity|left; reflexivity]]].
    apply elem_of_names. vm_compute. eauto.
  - intros [e He]. vm_compute in He. discriminate He.
Defined.

End CollectionErrors.

(* ================================================================== *)
(** * The agent launchers *)
(* ================================================================== *)

Module LauncherFacts.
Import StrFacts PathFacts TreeFacts FsFacts CollectorFacts CollectionFacts ConfigFacts.
Import Path Fs FsOps BeatArtifacts AgentCommandGenerator Collected Output.

(** The error of reading something that is not a regular file. *)
Definition read_error (p : path) (n : option node) : error :=
  match n with
  | Some Directory => EISDIR p
  | Some Special => EINVAL p
  | _ => ENOENT p
  end.

Lemma launcher_run tp bf acc agent w :
  exists w',
    launcher tp bf acc agent w
    = (match node_at (files w) tp with
       | Some (File template) =>
           inr (acc ++ [launcherArtifact agent (instantiate bf template agent)])
       | other => inl (read_error tp other)
       end, w') /\
    files w' = files w.
Proof.
  unfold launcher, generateLauncherContent. rewrite !bind_run, readFile_run.
  destruct (node_at (files w) tp) as [[template| |]|]; eexists; split; reflexivity.
Qed.

Lemma launcher_loop_run tp bf agents : forall acc w,
  exists w',
    foldM (launcher tp bf) acc agents w
    = (match agents, node_at (files w) tp with
       | [], _ => inr acc
       | _, Some (File template) =>
           inr (acc ++ map (fun agent =>
                              launcherArtifact agent (instantiate bf template agent)) agents)
       | _, other => inl (read_error tp other)
       end, w') /\
    files w' = files w.
Proof.
  induction agents as [|agent agents IH]; intros acc w; [now exists w|].
  cbn [foldM]. rewrite bind_run.
  destruct (launcher_run tp bf acc agent w) as (w1 & E & Hw1). rewrite E.
  destruct (node_at (files w) tp) as [[template| |]|] eqn:Hn;
    try (exists w1; split; [reflexivity | assumption]).
  destruct (IH (acc ++ [launcherArtifact agent (instantiate bf template agent)]) w1)
    as (w2 & E2 & Hw2).
  exists w2. split; [|congruence]. rewrite E2, Hw1, Hn.
  destruct agents; cbn [map]; [reflexivity|]. now rewrite <- app_assoc.
Qed.

Lemma collect_run tp bf beatDir mods w :
  (collectAgentArtifacts tp bf beatDir mods w).1
  = match (getAgentsFromBeat beatDir mods w).1 with
    | inl e => inl e
    | inr agents =>
        match agents, node_at (files w) tp with
        | [], _ => inr []
        | _, Some (File template) =>
            inr (map (fun agent =>
                        launcherArtifact agent (instantiate bf template agent)) agents)
        | _, other => inl (read_error tp other)
        end
    end.
Proof.
  unfold collectAgentArtifacts. rewrite bind_run.
  pose proof (reader_files _ w (reader_getAgentsFromBeat beatDir mods)) as Hf.
  destruct (getAgentsFromBeat beatDir mods w) as [[e|agents] w1]; [reflexivity|].
  cbn [fst snd] in *.
  destruct (launcher_loop_run tp bf agents [] w1) as (w2 & E & _).
  rewrite E, Hf. reflexivity.
Qed.

End LauncherFacts.

Module LauncherTemplate.
Import StrFacts PathFacts TreeFacts FsFacts CollectorFacts CollectionFacts LauncherFacts.
Import Path Fs FsOps BeatArtifacts AgentCommandGenerator Collected Output.

(** X11: The launchers follow the agents: when the template is a regular
    file, collection returns one launcher for each agent collected,
    in the same order, of type agent-launcher and with the template
    instantiated at the agent as content.  The template is read for
    each agent and not otherwise: without agents the result is empty
    whether the template exists or not, and with an agent and no
    template the collection raises ENOENT for the template.  An error
    of the collection of the agents is passed on. *)
Theorem launchers_follow_agents
    (templatePath : path) (beatFolderName : string) (beatDir : path)
    (selectedModules : list string) (w : world) :
  let collected := (getAgentsFromBeat beatDir selectedModules w).1 in
  let launchers :=
    (collectAgentArtifacts templatePath beatFolderName beatDir selectedModules w).1 in
  (forall agents template,
     collected = inr agents ->
     node_at (files w) templatePath = Some (File template) ->
     launchers
     = inr (map (fun agent =>
                   Artifact "agent-launcher" (item_module agent) (item_name agent)
                     (join_str [item_module agent; "agents"; item_name agent +:+ ".md"])
                     (instantiate beatFolderName template agent) (item_path agent))
              agents)) /\
  (collected = inr [] -> launchers = inr []) /\
  (forall agent agents,
     collected = inr (agent :: agents) ->
     node_at (files w) templatePath = None ->
     launchers = inl (ENOENT templatePath)) /\
  (forall e, collected = inl e -> launchers = inl e).
Proof.
  intros collected launchers. subst collected launchers.
  rewrite collect_run. repeat split.
  - intros agents template -> ->. destruct agents; reflexivity.
  - now intros ->.
  - now intros agent agents -> ->.
  - now intros e ->.
Qed.

Lemma launchers_follow_agents_witness :
  (collectAgentArtifacts ExportExamples.templatePath "beat" Examples.beat []
     Examples.installed).1
  = inl (ENOENT ExportExamples.templatePath) /\
  (collectAgentArtifacts ExportExamples.templatePath "beat" Examples.beat []
     (Examples.mk [])).1 = inr [].
Proof.
  split.
  - apply (proj1 (proj2 (proj2
             (launchers_follow_agents ExportExamples.templatePath "beat" Examples.beat []
                Examples.installed)))
             (Item (Examples.beat ++ ["core"; "agents"; "dev.md"]) "dev" "core") []);
      vm_compute; reflexivity.
  - apply (proj1 (proj2
             (launchers_follow_agents ExportExamples.templatePath "beat" Examples.beat []
                (Examples.mk [])))).
    vm_compute. reflexivity.
Defined.

End LauncherTemplate.

Module LauncherWrite.
Import StrFacts PathFacts TreeFacts FsFacts CollectorFacts CollectionFacts LauncherFacts.
Import ConfigFacts OutputFacts.
Import Path Fs FsOps BeatArtifacts AgentCommandGenerator Collected Output.

Definition is_launcher (a : artifact) : bool := String.eqb (art_type a) "agent-launcher".

Definition launcherDir (base : path) (a : artifact) : path :=
  join base [art_module a; "agents"].

Definition launcherPath (base : path) (a : artifact) : path :=
  join (launcherDir base a) [art_name a +:+ ".md"].

Lemma write_launchers_log base l : forall acc w n w',
  foldM (fun writtenCount a =>
    if String.eqb (art_type a) "agent-launcher" then
      bind (ensureDir (join base [art_module a; "agents"])) (fun _ =>
      bind (writeFile (join (join base [art_module a; "agents"]) [art_name a +:+ ".md"])
              (art_content a)) (fun _ =>
      ret (S writtenCount)))
    else ret writtenCount) acc l w = (inr n, w') ->
  n = acc + length (filter (fun a => is_launcher a) l) /\
  log w' = log w ++ flat_map (fun a =>
             if is_launcher a
             then [EnsureDir (launcherDir base a);
                   WriteFile (launcherPath base a) (art_content a)]
             else []) l.
Proof.
  induction l as [|a l IH]; intros acc w n w' H.
  - cbn in H. inversion H; subst. cbn. split; [lia | now rewrite app_nil_r].
  - cbn [foldM] in H. apply bind_inv in H.
    destruct H as [(e & _ & He) | (acc' & w1 & H1 & H2)]; [discriminate|].
    apply IH in H2. destruct H2 as [Hn Hlog].
    cbn [flat_map]. fold (is_launcher a) in *.
    destruct (is_launcher a) eqn:Ha.
    + rewrite filter_cons_True by (rewrite Ha; exact I).
      apply bind_inv in H1.
      destruct H1 as [(e & _ & He) | ([] & w2 & E1 & H1)]; [discriminate|].
      apply bind_inv in H1.
      destruct H1 as [(e & _ & He) | ([] & w3 & E2 & H1)]; [discriminate|].
      inversion H1; subst acc' w3. clear H1.
      assert (L1 : log w2 = log w ++ [EnsureDir (launcherDir base a)]).
      { rewrite ensureDir_run in E1. unfold launcherDir.
        destruct (mkdirs (files w) [] (join base [art_module a; "agents"]));
          inversion E1; reflexivity. }
      assert (L2 : log w1 = log w2 ++ [WriteFile (launcherPath base a) (art_content a)]).
      { pose proof (writeFile_log (launcherPath base a) (art_content a) w2) as Hl.
        unfold launcherPath, launcherDir in Hl. now rewrite E2 in Hl. }
      split; [cbn [length]; lia|].
      rewrite Hlog, L2, L1, <- !app_assoc. reflexivity.
    + rewrite filter_cons_False by (rewrite Ha; simpl; tauto).
      inversion H1; subst acc' w1. now split.
Qed.

(** X12: Writing the launchers: a run that returns normally has written,
    in order, exactly the artifacts of type agent-launcher, each to
    [{base}/{module}/agents/{name}.md] with its content, after
    making its directory, and returns their number; artifacts of
    another type are passed over.  Whatever the outcome, nothing is
    read or removed. *)
Theorem launchers_written (baseCommandsDir : path) (artifacts : list artifact)
    (w w' : world) (n : nat) :
  let launchers :=
    filter (fun a => String.eqb (art_type a) "agent-launcher") artifacts in
  emits (fun c => match c with EnsureDir _ | WriteFile _ _ => True | _ => False end)
    (writeAgentLaunchers baseCommandsDir artifacts) /\
  (writeAgentLaunchers baseCommandsDir artifacts w = (inr n, w') ->
   n = length launchers /\
   outputs (writeAgentLaunchers baseCommandsDir artifacts) w
   = map (fun a => (join (join baseCommandsDir [art_module a; "agents"])
                      [art_name a +:+ ".md"], art_content a)) launchers).
Proof.
  intros launchers. split.
  - unfold writeAgentLaunchers. apply emits_foldM. intros acc a.
    destruct (String.eqb (art_type a) "agent-launcher"); [|apply emits_ret].
    apply emits_bind; [apply OrderFacts.emits_ensureDir; exact I | intros _].
    apply emits_bind; [apply OrderFacts.emits_writeFile; exact I | intros _].
    apply emits_ret.
  - intros H. destruct (write_launchers_log _ _ _ _ _ _ H) as [Hn Hlog].
    split; [exact Hn|].
    unfold outputs. rewrite (calls_app _ w _ ltac:(rewrite H; exact Hlog)).
    subst launchers. clear. unfold is_launcher.
    induction artifacts as [|a l IH]; [reflexivity|].
    cbn [flat_map]. destruct (String.eqb (art_type a) "agent-launcher") eqn:Ha.
    + rewrite filter_cons_True by (rewrite Ha; exact I).
      cbn [app omap written map]. cbn. f_equal. exact IH.
    + rewrite filter_cons_False by (rewrite Ha; simpl; tauto). exact IH.
Qed.

Lemma launchers_written_witness :
  outputs
    (writeAgentLaunchers ["proj"; "commands"]
       [Artifact "agent-launcher" "core" "dev" "core/agents/dev.md" "launcher of dev"
          ["proj"; "beat"; "core"; "agents"; "dev.md"];
        Artifact "workflow-command" "core" "plan" "core/workflows/plan.md" "plan"
          ["proj"; "beat"; "core"; "workflows"; "plan.md"]])
    StoreExamples.fresh
  = [(["proj"; "commands"; "core"; "agents"; "dev.md"], "launcher of dev")].
Proof.
  set (arts := [Artifact "agent-launcher" "core" "dev" "core/agents/dev.md" "launcher of dev"
                  ["proj"; "beat"; "core"; "agents"; "dev.md"];
                Artifact "workflow-command" "core" "plan" "core/workflows/plan.md" "plan"
                  ["proj"; "beat"; "core"; "workflows"; "plan.md"]]).
  destruct (writeAgentLaunchers ["proj"; "commands"] arts StoreExamples.fresh)
    as [[e|n] w'] eqn:E.
  { apply (f_equal fst) in E. vm_compute in E. discriminate E. }
  destruct (proj2 (launchers_written ["proj"; "commands"] arts StoreExamples.fresh w' n) E)
    as [_ Hout].
  rewrite Hout. reflexivity.
Defined.

End LauncherWrite.

(* ================================================================== *)
(** * The flat export: where it writes, and how it is detected *)
(* ================================================================== *)

Module FlatFacts.
Import StrFacts PathFacts TreeFacts FsFacts TreeCheckFacts ConfigFacts SyncFacts OutputFacts.
Import ConfigStoreFacts.
Import Path Fs FsOps Flat Sync Output.

(** What a write that returns normally leaves: the parent was a
    directory, something is at the path, and whatever was in the
    tree is still there, directories as directories. *)
Lemma writeFile_keeps (p : path) c w w2 :
  writeFile p c w = (inr tt, w2) ->
  node_at (files w) (parent p) = Some Directory /\
  is_Some (files w2 !! p) /\
  (forall (q : path) n0, files w !! q = Some n0 ->
     is_Some (files w2 !! q) /\ (n0 = Directory -> files w2 !! q = Some Directory)).
Proof.
  intros H. rewrite writeFile_run in H. cbn zeta in H.
  destruct p as [|s r] eqn:Ep; [discriminate H|]. rewrite <- Ep in *.
  destruct (node_at (files w) (parent p)) as [[]|]; try discriminate H.
  split; [reflexivity|].
  assert (Hins : files w !! p <> Some Directory ->
            forall (q : path) n0, files w !! q = Some n0 ->
              is_Some (<[p := File c]> (files w) !! q) /\
              (n0 = Directory -> <[p := File c]> (files w) !! q = Some Directory)).
  { intros Hnd q n0 Hq. destruct (decide (q = p)) as [->|Hne].
    - rewrite lookup_insert_eq. split; [eauto|]. intros ->. contradiction.
    - rewrite lookup_insert_ne by congruence. rewrite Hq. split; [eauto | now intros ->]. }
  destruct (files w !! p) as [[c0| |]|] eqn:Lp; inversion H; subst w2; cbn [files].
  - split; [rewrite lookup_insert_eq; eauto|]. apply Hins. congruence.
  - split; [rewrite Lp; eauto|]. intros q n0 Hq. rewrite Hq. split; [eauto | now intros ->].
  - split; [rewrite lookup_insert_eq; eauto|]. apply Hins. congruence.
Qed.

(** After a write loop that returns normally every artifact has
    something at its destination, and the destination directory is a
    directory when anything was written. *)
Lemma write_loop_keeps (d : path) A : forall acc w n w',
  foldM (fun written a =>
           bind (writeFile (target d (exp_relativePath a)) (exp_content a))
             (fun _ => ret (S written))) acc A w = (inr n, w') ->
  (forall (q : path) n0, files w !! q = Some n0 ->
     is_Some (files w' !! q) /\ (n0 = Directory -> files w' !! q = Some Directory)) /\
  (forall a, a ∈ A -> is_Some (files w' !! (d ++ [flattenFilename (exp_relativePath a)]))) /\
  (A <> [] -> node_at (files w') d = Some Directory).
Proof.
  induction A as [|a A IH]; intros acc w n w' H.
  - cbn in H. inversion H; subst. split; [|split].
    + intros q n0 Hq. rewrite Hq. split; [eauto | now intros ->].
    + intros a Ha. now apply elem_of_nil in Ha.
    + contradiction.
  - cbn [foldM] in H. apply bind_inv in H.
    destruct H as [(e & _ & He) | (acc' & w2 & H1 & H2)]; [discriminate|].
    apply bind_inv in H1.
    destruct H1 as [(e & _ & He) | ([] & w3 & W & R)]; [discriminate|].
    inversion R; subst acc' w3. clear R.
    rewrite target_eq in W. apply writeFile_keeps in W.
    destruct W as (Hpar & Hp & Hkeep).
    rewrite parent_child in Hpar.
    destruct (IH _ _ _ _ H2) as (Hkeep2 & Hall & _).
    assert (Htrans : forall (q : path) n0, files w !! q = Some n0 ->
              is_Some (files w' !! q) /\ (n0 = Directory -> files w' !! q = Some Directory)).
    { intros q n0 Hq. destruct (Hkeep q n0 Hq) as [[n2 Hq2] Hd2].
      destruct (Hkeep2 q n2 Hq2) as [Hs Hd]. split; [exact Hs|].
      intros ->. specialize (Hd2 eq_refl). rewrite Hq2 in Hd2. inversion Hd2. now apply Hd. }
    split; [exact Htrans|]. split.
    + intros b Hb. apply elem_of_cons in Hb. destruct Hb as [-> | Hb]; [|now apply Hall].
      destruct Hp as [n2 Hn2]. now apply (Hkeep2 _ n2).
    + intros _. destruct d as [|s r]; [reflexivity|].
      cbn [node_at] in *. now apply (Htrans _ Directory).
Qed.

(** The outcome of the body of [detect]. *)
Lemma detect_run (d : path) w :
  (bind (pathExists d) (fun ex =>
     if negb ex then ret false
     else bind (readdir d) (fun entries =>
            ret (existsb (fun entry => Js.startsWith "beat-" entry) entries))) w).1
  = match node_at (files w) d with
    | None => inr false
    | Some Directory =>
        inr (existsb (fun entry => Js.startsWith "beat-" entry) (names (files w) d))
    | Some _ => inl (ENOTDIR d)
    end.
Proof.
  rewrite bind_run, pathExists_run.
  destruct (node_at (files w) d) as [n|] eqn:Hn; cbn [negb]; [|reflexivity].
  rewrite bind_run, readdir_run. cbn [files log]. rewrite Hn.
  destruct n; reflexivity.
Qed.

Lemma detect_written (d : path) A acc w n w' :
  A <> [] ->
  foldM (fun written a =>
           bind (writeFile (target d (exp_relativePath a)) (exp_content a))
             (fun _ => ret (S written))) acc A w = (inr n, w') ->
  (bind (pathExists d) (fun ex =>
     if negb ex then ret false
     else bind (readdir d) (fun entries =>
            ret (existsb (fun entry => Js.startsWith "beat-" entry) entries))) w').1
  = inr true.
Proof.
  intros Hne H. rewrite detect_run.
  destruct (write_loop_keeps d A acc w n w' H) as (_ & Hall & Hdir).
  rewrite (Hdir Hne). f_equal.
  destruct A as [|a A]; [contradiction|].
  apply existsb_exists. exists (flattenFilename (exp_relativePath a)).
  split; [|apply flattenFilename_beat].
  apply list_elem_of_In, elem_of_names, Hall. left.
Qed.

(** After the old files are cleared nothing that starts with [beat-]
    is left, sockets, pipes and devices apart. *)
Lemma detect_cleared (d : path) w w' :
  valid_tree (files w) ->
  (forall e, Js.startsWith "beat-" e = true -> files w !! (d ++ [e]) <> Some Special) ->
  clearOldBeatFiles d w = (inr tt, w') ->
  (bind (pathExists d) (fun ex =>
     if negb ex then ret false
     else bind (readdir d) (fun entries =>
            ret (existsb (fun entry => Js.startsWith "beat-" entry) entries))) w').1
  = inr false.
Proof.
  intros Hv Hspecial H. rewrite detect_run.
  destruct (node_at (files w) d) as [[c| |]|] eqn:D.
  - exfalso. unfold clearOldBeatFiles in H.
    rewrite (bind_ok _ _ _ _ _ (pathExists_run d w)) in H. rewrite D in H.
    cbn [negb] in H. apply bind_inv in H.
    destruct H as [(e & _ & He) | (l & w1 & R & _)]; [discriminate|].
    rewrite readdir_run in R. cbn [files] in R. rewrite D in R. discriminate R.
  - destruct (clear_run d w Hv D) as (wc & C & Fc).
    rewrite H in C. inversion C; subst wc. clear C.
    rewrite Fc, (Reinstall.cleared_dir d (files w) D). f_equal.
    destruct (existsb _ _) eqn:Hex; [|reflexivity]. exfalso.
    apply existsb_exists in Hex. destruct Hex as (e & Hin & Hbeat).
    apply list_elem_of_In, elem_of_names in Hin. destruct Hin as [n Hn].
    pose proof (cleared_no_removable (files w) d e) as Hrem.
    unfold removable in Hrem. rewrite Hbeat, Hn in Hrem. cbn [andb] in Hrem.
    destruct n; try discriminate Hrem.
    rewrite cleared_lookup in Hn.
    destruct (under_removable (files w) d (d ++ [e])); [discriminate Hn|].
    now apply (Hspecial e).
  - exfalso. unfold clearOldBeatFiles in H.
    rewrite (bind_ok _ _ _ _ _ (pathExists_run d w)) in H. rewrite D in H.
    cbn [negb] in H. apply bind_inv in H.
    destruct H as [(e & _ & He) | (l & w1 & R & _)]; [discriminate|].
    rewrite readdir_run in R. cbn [files] in R. rewrite D in R. discriminate R.
  - rewrite (Reinstall.clear_absent d w D) in H. inversion H; subst w'. cbn [files].
    now rewrite D.
Qed.

End FlatFacts.

Module Detection.
Import StrFacts PathFacts TreeFacts FsFacts TreeCheckFacts ConfigFacts SyncFacts FlatFacts.
Import Path Fs FsOps Flat Sync Output.

(** X13: An installation that wrote something is detected: after a setup
    of the Codex or of the Cline adapter that returns normally and
    reports at least one file written, [detect] of that adapter
    returns true. *)
Theorem detect_after_setup
    (templatePath : path) (beatFolderName : string)
    (processContent : string -> BaseIdeSetup.metadata -> path -> string)
    (collectWorkflowArtifacts : path -> M (list export * (nat * nat)))
    (homedir projectDir beatDir : path) (selectedModules : list string)
    (w w' : world) (installed : counts) (written : nat) :
  (Codex.setup templatePath beatFolderName processContent collectWorkflowArtifacts homedir
     projectDir beatDir selectedModules w = (inr (installed, S written), w') ->
   (Codex.detect homedir w').1 = inr true) /\
  (Cline.setup templatePath beatFolderName processContent collectWorkflowArtifacts
     projectDir beatDir selectedModules w = (inr (installed, S written), w') ->
   (Cline.detect projectDir w').1 = inr true).
Proof.
  split; intros H.
  - unfold Codex.setup in H. apply bind_inv in H.
    destruct H as [(e & _ & He) | (ac & w1 & _ & H)]; [discriminate|]. cbn zeta in H.
    apply bind_inv in H. destruct H as [(e & _ & He) | ([] & w2 & _ & H)]; [discriminate|].
    apply bind_inv in H. destruct H as [(e & _ & He) | ([] & w3 & _ & H)]; [discriminate|].
    apply bind_inv in H. destruct H as [(e & _ & He) | (k & w4 & W & R)]; [discriminate|].
    inversion R; subst. clear R.
    unfold Codex.detect. apply (detect_written _ ac.1 0 w3 (S written)); [|exact W].
    intros Hnil. rewrite Hnil in W. discriminate W.
  - unfold Cline.setup in H. cbn zeta in H.
    apply bind_inv in H. destruct H as [(e & _ & He) | ([] & w1 & _ & H)]; [discriminate|].
    apply bind_inv in H. destruct H as [(e & _ & He) | ([] & w2 & _ & H)]; [discriminate|].
    apply bind_inv in H. destruct H as [(e & _ & He) | (ac & w3 & _ & H)]; [discriminate|].
    apply bind_inv in H. destruct H as [(e & _ & He) | (k & w4 & W & R)]; [discriminate|].
    inversion R; subst. clear R.
    assert (Hd : join (join projectDir [Cline.configDir]) [Cline.workflowsDir]
                 = join projectDir [Cline.configDir; Cline.workflowsDir]).
    { rewrite !join_valid by (repeat constructor). now rewrite <- app_assoc. }
    rewrite Hd in W.
    unfold Cline.detect. apply (detect_written _ ac.1 0 w3 (S written)); [|exact W].
    intros Hnil. rewrite Hnil in W. discriminate W.
Qed.

Lemma detect_after_setup_witness :
  (Codex.detect ["home"] ExportExamples.installed).1 = inr true.
Proof.
  destruct (Codex.setup ExportExamples.templatePath "beat" ExportExamples.plain
              ExportExamples.noWorkflows ["home"] ["proj"] Examples.beat []
              ExportExamples.single_agent) as [[e|[c [|n]]] w'] eqn:E.
  - apply (f_equal fst) in E. vm_compute in E. discriminate E.
  - apply (f_equal fst) in E. vm_compute in E. discriminate E.
  - unfold ExportExamples.installed. rewrite E. cbn [snd].
    exact (proj1 (detect_after_setup ExportExamples.templatePath "beat" ExportExamples.plain
                    ExportExamples.noWorkflows ["home"] ["proj"] Examples.beat []
                    ExportExamples.single_agent w' c n) E).
Defined.

(** X14: An installation that was cleaned up is no longer detected: after
    a cleanup of the Codex or of the Cline adapter that returns
    normally, on a tree of file names whose destination holds no
    socket, pipe or device with a name that starts with [beat-],
    [detect] of that adapter returns false. *)
Theorem detect_after_cleanup (homedir projectDir : path) (w w' : world) :
  let prompts := homedir ++ [".codex"; "prompts"] in
  let workflows := projectDir ++ [".clinerules"; "workflows"] in
  valid_tree (files w) ->
  (Codex.cleanup homedir w = (inr tt, w') ->
   (forall e, Js.startsWith "beat-" e = true -> files w !! (prompts ++ [e]) <> Some Special) ->
   (Codex.detect homedir w').1 = inr false) /\
  (Cline.cleanup projectDir w = (inr tt, w') ->
   (forall e, Js.startsWith "beat-" e = true ->
      files w !! (workflows ++ [e]) <> Some Special) ->
   (Cline.detect projectDir w').1 = inr false).
Proof.
  intros prompts workflows Hv.
  assert (Hp : Codex.getCodexPromptDir homedir = prompts).
  { unfold Codex.getCodexPromptDir. apply join_valid. repeat constructor. }
  assert (Hc : join projectDir [Cline.configDir; Cline.workflowsDir] = workflows).
  { apply join_valid. repeat constructor. }
  split; intros H Hs.
  - unfold Codex.cleanup in H. unfold Codex.detect. rewrite Hp in *.
    now apply (detect_cleared prompts w w').
  - unfold Cline.cleanup in H. unfold Cline.detect. rewrite Hc in *.
    now apply (detect_cleared workflows w w').
Qed.

Lemma detect_after_cleanup_witness :
  (Codex.detect ["home"] SyncExamples.prompts).1 = inr true /\
  (Codex.detect ["home"] (Codex.cleanup ["home"] SyncExamples.prompts).2).1 = inr false.
Proof.
  split; [vm_compute; reflexivity|].
  destruct (Codex.cleanup ["home"] SyncExamples.prompts) as [[e|[]] w'] eqn:E.
  { apply (f_equal fst) in E. vm_compute in E. discriminate E. }
  cbn [snd].
  apply (proj1 (detect_after_cleanup ["home"] ["proj"] SyncExamples.prompts w'
                  (valid_treeb_ok (files SyncExamples.prompts) eq_refl)) E).
  intros e He Hn.
  assert (Hin : (["home"; ".codex"; "prompts"] ++ [e], Special)
                ∈ map_to_list (files SyncExamples.prompts))
    by (now apply elem_of_map_to_list).
  vm_compute in Hin.
  repeat (apply list_elem_of_In in Hin; destruct Hin as [Hin | Hin];
          [discriminate Hin | apply list_elem_of_In in Hin]).
  now apply elem_of_nil in Hin.
Defined.

End Detection.

Module FlatConfined.
Import StrFacts PathFacts TreeFacts FsFacts TreeCheckFacts ConfigFacts SyncFacts FlatFacts.
Import Path Fs FsOps Flat Sync Output.

Lemma write_frame (p : path) c w (q : path) :
  q <> p -> files (writeFile p c w).2 !! q = files w !! q.
Proof.
  intros Hne. rewrite writeFile_run. cbn zeta.
  destruct p as [|s r] eqn:Ep; [reflexivity|]. rewrite <- Ep in *.
  destruct (node_at (files w) (parent p)) as [[]|]; try reflexivity.
  destruct (files w !! p) as [[]|]; try reflexivity;
    cbn [snd files]; now rewrite lookup_insert_ne by congruence.
Qed.

(** X15: The flat export stays in its directory: whatever the relative
    paths of the artifacts, every call it issues writes a file
    directly under the destination, under a name that is a file name
    and starts with [beat-]; nothing else in the tree changes, and a
    run that returns normally returns the number of artifacts. *)
Theorem flat_export_confined (artifacts : list export) (destDir : path) (w : world) :
  let run := flattenAndWriteArtifacts artifacts destDir in
  Forall (fun c => exists name content,
            c = WriteFile (destDir ++ [name]) content /\
            Js.startsWith "beat-" name = true /\
            valid_name name = true)
    (calls run w) /\
  (forall q : path,
     files (run w).2 !! q = files w !! q \/
     exists name, q = destDir ++ [name] /\ Js.startsWith "beat-" name = true) /\
  (forall n, (run w).1 = inr n -> n = length artifacts).
Proof.
  intros run. subst run. unfold flattenAndWriteArtifacts. split; [|split].
  - apply OutputFacts.emits_calls. apply emits_foldM. intros acc a.
    apply emits_bind; [|intros; apply emits_ret].
    apply OrderFacts.emits_writeFile. rewrite target_eq.
    exists (flattenFilename (exp_relativePath a)), (exp_content a).
    split; [reflexivity|]. split; [apply flattenFilename_beat|].
    apply NoCollision.flattenFilename_valid.
  - generalize 0 as acc. revert w.
    induction artifacts as [|a A IH]; intros w acc q; [now left|].
    cbn [foldM]. rewrite !bind_run.
    pose proof (write_frame (target destDir (exp_relativePath a)) (exp_content a) w q) as Hf.
    destruct (writeFile (target destDir (exp_relativePath a)) (exp_content a) w)
      as [[e|[]] w1]; cbn [snd] in *.
    + destruct (decide (q = target destDir (exp_relativePath a))) as [->|Hne].
      * right. rewrite target_eq. eexists. split; [reflexivity | apply flattenFilename_beat].
      * left. now apply Hf.
    + cbn [ret]. destruct (IH w1 (S acc) q) as [E | R]; [|now right].
      destruct (decide (q = target destDir (exp_relativePath a))) as [->|Hne].
      * right. rewrite target_eq. eexists. split; [reflexivity | apply flattenFilename_beat].
      * left. rewrite E. now apply Hf.
  - intros n Hn.
    assert (Hgen : forall A acc w0 n0,
              (foldM (fun written a =>
                        bind (writeFile (target destDir (exp_relativePath a)) (exp_content a))
                          (fun _ => ret (S written))) acc A w0).1 = inr n0 ->
              n0 = acc + length A).
    { clear. induction A as [|a A IH]; intros acc w0 n0 H.
      - cbn in H. inversion H. cbn. lia.
      - cbn [foldM] in H. rewrite !bind_run in H.
        destruct (writeFile (target destDir (exp_relativePath a)) (exp_content a) w0)
          as [[e|[]] w1]; [discriminate H|].
        cbn [ret] in H. apply IH in H. cbn [length]. lia. }
    now apply Hgen in Hn.
Qed.

End FlatConfined.

(* ================================================================== *)
(** * What a cleanup removes *)
(* ================================================================== *)

Module RemovalFacts.
Import StrFacts PathFacts TreeFacts FsFacts TreeCheckFacts CleanupFacts ConfigFacts SyncFacts.
Import Path Fs FsOps Cleanup.

(** A tree of file names in which whatever exists lies in a
    directory. *)
Definition tidy (t : gmap path node) : Prop := valid_tree t /\ wf_tree t.

Lemma rm_tidy (q : path) (t : gmap path node) : tidy t -> tidy (rm q t).
Proof.
  intros [Hv Hwf]. split.
  - intros p n Hp. rewrite rm_lookup in Hp.
    destruct (decide (q `prefix_of` p)); [discriminate|]. now apply (Hv p n).
  - intros p s n Hp. rewrite rm_lookup in Hp.
    destruct (decide (q `prefix_of` p ++ [s])) as [|Hnp]; [discriminate|].
    pose proof (Hwf p s n Hp) as Hd.
    destruct p as [|x p']; [reflexivity|]. cbn [node_at] in *.
    rewrite rm_lookup. destruct (decide (q `prefix_of` x :: p')) as [Hpre|]; [|exact Hd].
    exfalso. apply Hnp. destruct Hpre as [k Hk]. exists (k ++ [s]).
    now rewrite Hk, <- app_assoc.
Qed.

(** What a step of a cleanup does: it keeps the tree tidy and adds
    nothing. *)
Definition after (w w' : world) : Prop :=
  tidy (files w') /\ forall p : path, files w !! p = None -> files w' !! p = None.

Lemma after_refl w : tidy (files w) -> after w w.
Proof. intros H. now split. Qed.

Lemma after_same w w' : tidy (files w) -> files w' = files w -> after w w'.
Proof. intros H E. unfold after. rewrite E. now split. Qed.

Lemma after_trans w1 w2 w3 : after w1 w2 -> after w2 w3 -> after w1 w3.
Proof. intros [_ H1] [T H2]. split; [exact T|]. intros p Hp. apply H2, H1, Hp. Qed.

Lemma remove_after (q : path) w :
  tidy (files w) ->
  remove q w = (inr tt, (remove q w).2) /\
  after w (remove q w).2 /\
  files (remove q w).2 !! q = None.
Proof.
  intros Ht. rewrite remove_run. unfold after. cbn [snd files].
  split; [reflexivity|]. split.
  - split; [now apply rm_tidy|]. intros p Hp. rewrite rm_lookup, Hp.
    now destruct (decide _).
  - rewrite rm_lookup. now rewrite decide_True.
Qed.

(** [if (await fs.pathExists(q)) await fs.remove(q)] *)
Lemma removeIfExists_after (q : path) w :
  tidy (files w) -> q <> [] ->
  removeIfExists q w = (inr tt, (removeIfExists q w).2) /\
  after w (removeIfExists q w).2 /\
  files (removeIfExists q w).2 !! q = None.
Proof.
  intros Ht Hq. unfold removeIfExists. rewrite bind_run, pathExists_run.
  destruct (node_at (files w) q) as [n|] eqn:Hn.
  - set (w0 := World (files w) (log w ++ [PathExists q])).
    destruct (remove_after q w0 Ht) as (E & Ha & Hg). rewrite E. cbn [snd].
    split; [reflexivity|]. split; [exact Ha | exact Hg].
  - cbn [snd files]. split; [reflexivity|]. split; [now apply after_same|].
    destruct q; [contradiction | exact Hn].
Qed.

(** The loop of a cleanup that removes the entries that pass a
    test. *)
Lemma sweep_loop (dir : path) (test : string -> bool) (l : list string) : forall w,
  Forall valid l -> tidy (files w) ->
  let body := fun file => if test file then remove (join dir [file]) else ret tt in
  forEach l body w = (inr tt, (forEach l body w).2) /\
  after w (forEach l body w).2 /\
  forall x, x ∈ l -> test x = true -> files (forEach l body w).2 !! (dir ++ [x]) = None.
Proof.
  induction l as [|x l IH]; intros w Hv Ht body.
  - cbn. split; [reflexivity|]. split; [now apply after_refl|].
    intros x Hx. now apply elem_of_nil in Hx.
  - inversion Hv as [|? ? Hvx Hvl]; subst. cbn [forEach]. rewrite bind_run.
    assert (Hstep : exists w1, body x w = (inr tt, w1) /\ after w w1 /\
              (test x = true -> files w1 !! (dir ++ [x]) = None)).
    { unfold body. destruct (test x).
      - rewrite join_one by assumption.
        destruct (remove_after (dir ++ [x]) w Ht) as (E & Ha & Hg).
        exists (remove (dir ++ [x]) w).2. now rewrite E at 1.
      - exists w. split; [reflexivity|]. split; [now apply after_refl | discriminate]. }
    destruct Hstep as (w1 & E1 & Ha1 & Hg1). rewrite E1.
    destruct (IH w1 Hvl (proj1 Ha1)) as (E2 & Ha2 & Hg2). fold body in E2, Ha2, Hg2.
    split; [exact E2|]. split; [now apply (after_trans w w1)|].
    intros y Hy Hty. apply elem_of_cons in Hy. destruct Hy as [-> | Hy].
    + apply (proj2 Ha2). now apply Hg1.
    + now apply Hg2.
Qed.

Lemma sweep_after (dir : path) (test : string -> bool) w r w' :
  tidy (files w) ->
  bind (pathExists dir) (fun ex =>
    if ex then bind (readdir dir) (fun l =>
      forEach l (fun file => if test file then remove (join dir [file]) else ret tt))
    else ret tt) w = (inr r, w') ->
  after w w' /\
  forall name, test name = true -> files w' !! (dir ++ [name]) = None.
Proof.
  intros Ht H. rewrite bind_run, pathExists_run in H.
  destruct (node_at (files w) dir) as [n|] eqn:Hn.
  - rewrite bind_run, readdir_run in H. cbn [files log] in H. rewrite Hn in H.
    destruct n; try discriminate H.
    set (w0 := World (files w) ((log w ++ [PathExists dir]) ++ [Readdir dir])) in *.
    assert (Hvl : Forall valid (names (files w) dir)).
    { apply List.Forall_forall. intros x Hx. apply list_elem_of_In in Hx.
      eapply names_valid; [apply Ht | exact Hx]. }
    destruct (sweep_loop dir test (names (files w) dir) w0 Hvl Ht) as (E & Ha & Hg).
    cbn zeta in E, Ha, Hg. rewrite E in H. inversion H as [[Hr Hw']].
    split; [exact Ha|]. intros name Htest.
    destruct (files w !! (dir ++ [name])) as [node|] eqn:Hnode.
    + apply Hg; [|exact Htest]. apply elem_of_names. now rewrite Hnode.
    + now apply (proj2 Ha).
  - inversion H; subst. split; [now apply after_same|]. intros name _. cbn [files].
    apply (wf_below (files w) dir [name] (proj2 Ht)); [discriminate | exact Hn].
Qed.

Lemma clear_after (d : path) w w' :
  tidy (files w) ->
  Flat.clearOldBeatFiles d w = (inr tt, w') ->
  forall name, Js.startsWith "beat-" name = true ->
    files w !! (d ++ [name]) <> Some Special ->
    files w' !! (d ++ [name]) = None.
Proof.
  intros Ht H name Hb Hs.
  destruct (node_at (files w) d) as [[c| |]|] eqn:D.
  - exfalso. unfold Flat.clearOldBeatFiles in H.
    rewrite (bind_ok _ _ _ _ _ (pathExists_run d w)) in H. rewrite D in H.
    cbn [negb] in H. apply bind_inv in H.
    destruct H as [(e & _ & He) | (l & w1 & R & _)]; [discriminate|].
    rewrite readdir_run in R. cbn [files] in R. rewrite D in R. discriminate R.
  - destruct (clear_run d w (proj1 Ht) D) as (wc & C & Fc).
    rewrite H in C. inversion C; subst wc. clear C.
    rewrite Fc, cleared_lookup, under_removable_entry. unfold Sync.removable. rewrite Hb.
    cbn [andb]. destruct (files w !! (d ++ [name])) as [[]|]; try reflexivity. contradiction.
  - exfalso. unfold Flat.clearOldBeatFiles in H.
    rewrite (bind_ok _ _ _ _ _ (pathExists_run d w)) in H. rewrite D in H.
    cbn [negb] in H. apply bind_inv in H.
    destruct H as [(e & _ & He) | (l & w1 & R & _)]; [discriminate|].
    rewrite readdir_run in R. cbn [files] in R. rewrite D in R. discriminate R.
  - rewrite (Reinstall.clear_absent d w D) in H. inversion H; subst w'. cbn [files].
    apply (wf_below (files w) d [name] (proj2 Ht)); [discriminate | exact D].
Qed.

End RemovalFacts.

Module CleanupComplete.
Import StrFacts PathFacts TreeFacts FsFacts TreeCheckFacts CleanupFacts ConfigFacts SyncFacts.
Import RemovalFacts.
Import Path Fs FsOps Cleanup.

Lemma one_removed (q : path) w r w' :
  tidy (files w) -> q <> [] -> removeIfExists q w = (inr r, w') ->
  after w w' /\ files w' !! q = None.
Proof.
  intros Ht Hq H. destruct (removeIfExists_after q w Ht Hq) as (E & Ha & Hg).
  rewrite E in H. inversion H as [[Hr Hw']]. now split.
Qed.

Lemma three_removed (q1 q2 q3 : path) w r w' :
  tidy (files w) -> q1 <> [] -> q2 <> [] -> q3 <> [] ->
  bind (removeIfExists q1) (fun _ =>
    bind (removeIfExists q2) (fun _ => removeIfExists q3)) w = (inr r, w') ->
  files w' !! q1 = None /\ files w' !! q2 = None /\ files w' !! q3 = None.
Proof.
  intros Ht H1 H2 H3 H.
  apply bind_inv in H. destruct H as [(e & _ & He) | (r1 & w1 & E1 & H)]; [discriminate|].
  apply bind_inv in H. destruct H as [(e & _ & He) | (r2 & w2 & E2 & E3)]; [discriminate|].
  destruct (one_removed q1 w r1 w1 Ht H1 E1) as [A1 G1].
  destruct (one_removed q2 w1 r2 w2 (proj1 A1) H2 E2) as [A2 G2].
  destruct (one_removed q3 w2 r w' (proj1 A2) H3 E3) as [A3 G3].
  split; [|split; [|exact G3]].
  - apply (proj2 A3), (proj2 A2), G1.
  - apply (proj2 A3), G2.
Qed.

Lemma is_name (n name : string) : is_ n name = true -> name = n.
Proof. unfold is_. apply String.eqb_eq. Qed.

Ltac scope_cases H :=
  apply list_elem_of_In in H; simpl in H;
  repeat (destruct H as [H | H]; [inversion H; subst; clear H|]); try contradiction.

Ltac nonempty := intros E; apply (f_equal length) in E; rewrite !length_app in E;
                 simpl in E; lia.

(** X16: A cleanup removes all it owns: after a cleanup that returns
    normally, started on a tree of file names in which whatever
    exists lies in a directory, no entry is left that sits directly
    under a directory of the adapter and passes the test of that
    directory, except for the sockets, pipes and devices that the
    flat cleanups of Codex and Cline pass over. *)
Theorem cleanup_complete (c : cleaner) (projectDir homedir : path) (w w' : world) :
  valid_tree (files w) ->
  wf_tree (files w) ->
  run c projectDir homedir w = (inr tt, w') ->
  forall root test name,
    (root, test) ∈ scope c projectDir homedir ->
    test name = true ->
    (c = CodexCleanup \/ c = ClineCleanup -> files w !! (root ++ [name]) <> Some Special) ->
    files w' !! (root ++ [name]) = None.
Proof.
  intros Hv Hwf H root test name Hin Htest Hspecial.
  assert (Ht : tidy (files w)) by (now split).
  destruct c; cbn [run scope] in *.
  - (* Trae *)
    scope_cases Hin. unfold Trae.cleanup in H. cbn zeta in H.
    rewrite join_valid in H by (repeat constructor).
    now apply (sweep_after _ Trae.ruleFor w tt w' Ht H).
  - (* OpenCode *)
    unfold OpenCode.cleanup, OpenCode.cleanFolder in H.
    rewrite !join_valid in H by (repeat constructor).
    apply bind_inv in H. destruct H as [(e & _ & He) | ([] & w1 & E1 & E2)]; [discriminate|].
    destruct (sweep_after _ Trae.ruleFor w tt w1 Ht E1) as [A1 G1].
    destruct (sweep_after _ Trae.ruleFor w1 tt w' (proj1 A1) E2) as [A2 G2].
    scope_cases Hin.
    + apply (proj2 A2). now apply G1.
    + now apply G2.
  - (* Cursor *)
    scope_cases Hin. apply is_name in Htest. subst name.
    unfold Cursor.cleanup in H. cbn zeta in H.
    rewrite join_valid in H by (repeat constructor).
    rewrite <- app_assoc. apply (one_removed _ w tt w' Ht); [nonempty | exact H].
  - (* Windsurf *)
    scope_cases Hin. apply is_name in Htest. subst name.
    unfold Windsurf.cleanup in H. cbn zeta in H.
    rewrite join_valid in H by (repeat constructor).
    rewrite <- app_assoc. apply (one_removed _ w tt w' Ht); [nonempty | exact H].
  - (* Auggie *)
    scope_cases Hin. apply is_name in Htest. subst name.
    unfold Auggie.cleanup in H. cbn zeta in H.
    rewrite !join_valid in H by (repeat constructor).
    rewrite <- !app_assoc in *. apply (one_removed _ w tt w' Ht); [nonempty | exact H].
  - (* iFlow *)
    scope_cases Hin. apply is_name in Htest. subst name.
    unfold IFlow.cleanup in H.
    rewrite join_valid in H by (repeat constructor).
    rewrite <- app_assoc. apply (one_removed _ w tt w' Ht); [nonempty | exact H].
  - (* Qwen *)
    unfold Qwen.cleanup in H. rewrite !join_valid in H by (repeat constructor).
    apply three_removed in H; [|assumption|nonempty|nonempty|nonempty].
    destruct H as (G1 & G2 & G3).
    scope_cases Hin.
    + apply is_name in Htest. subst name. now rewrite <- app_assoc.
    + unfold one_of in Htest. cbn [existsb] in Htest.
      rewrite orb_false_r in Htest. apply orb_true_iff in Htest.
      destruct Htest as [E | E]; apply String.eqb_eq in E; subst name;
        rewrite <- app_assoc; assumption.
  - (* Qwen, old configuration *)
    unfold Qwen.cleanupOldConfig in H. rewrite !join_valid in H by (repeat constructor).
    rewrite <- !app_assoc in H.
    apply three_removed in H; [|assumption|nonempty|nonempty|nonempty].
    destruct H as (G1 & G2 & G3).
    scope_cases Hin.
    unfold one_of in Htest. cbn [existsb] in Htest.
    rewrite orb_false_r in Htest. apply orb_true_iff in Htest.
    destruct Htest as [E | Htest]; [|apply orb_true_iff in Htest; destruct Htest as [E | E]];
      apply String.eqb_eq in E; subst name; rewrite <- app_assoc; assumption.
  - (* Codex *)
    scope_cases Hin. unfold Codex.cleanup, Codex.getCodexPromptDir in H.
    rewrite join_valid in H by (repeat constructor).
    apply (clear_after _ w w' Ht H name Htest). apply Hspecial. now left.
  - (* Cline *)
    scope_cases Hin. unfold Cline.cleanup in H.
    rewrite join_valid in H by (repeat constructor).
    apply (clear_after _ w w' Ht H name Htest). apply Hspecial. now right.
Qed.

Lemma cleanup_complete_witness :
  files (run TraeCleanup ["proj"] ["home"] CleanupExamples.trae_project).2
    !! ["proj"; ".trae"; "rules"; "beat-agent-core-dev.md"] = None.
Proof.
  destruct (run TraeCleanup ["proj"] ["home"] CleanupExamples.trae_project)
    as [[e|[]] w'] eqn:E.
  { apply (f_equal fst) in E. vm_compute in E. discriminate E. }
  cbn [snd].
  apply (cleanup_complete TraeCleanup ["proj"] ["home"] CleanupExamples.trae_project w'
           (valid_treeb_ok (files CleanupExamples.trae_project) eq_refl)
           (wf_treeb_ok (files CleanupExamples.trae_project) eq_refl) E
           ["proj"; ".trae"; "rules"] Trae.ruleFor "beat-agent-core-dev.md").
  - left.
  - reflexivity.
  - intros [Hc | Hc]; discriminate Hc.
Defined.

End CleanupComplete.

(* ================================================================== *)
(** * The index of the Cursor rules *)
(* ================================================================== *)

Module IndexFacts.
Import StrFacts PathFacts FsFacts.
Import Path Fs FsOps.

Lemma includes_start x s : Js.startsWith x s = true -> Js.includes x s = true.
Proof. intros H. destruct s; cbn [Js.includes]; now rewrite H. Qed.

Lemma includes_here x s : Js.includes x (x +:+ s) = true.
Proof. apply includes_start, startsWith_app. Qed.

Lemma includes_refl x : Js.includes x x = true.
Proof. rewrite <- (append_nil_r x) at 2. apply includes_here. Qed.

Lemma includes_app_r x a b : Js.includes x b = true -> Js.includes x (a +:+ b) = true.
Proof.
  intros H. induction a as [|c a IH]; [exact H|].
  change (String c a +:+ b) with (String c (a +:+ b)).
  cbn [Js.includes]. rewrite IH. apply orb_true_r.
Qed.

Lemma startsWith_app_l x a b : Js.startsWith x a = true -> Js.startsWith x (a +:+ b) = true.
Proof.
  intros H. apply startsWith_inv in H. destruct H as [r ->].
  rewrite append_assoc. apply startsWith_app.
Qed.

Lemma includes_app_l x a b : Js.includes x a = true -> Js.includes x (a +:+ b) = true.
Proof.
  induction a as [|c a IH]; intros H.
  - cbn [Js.includes] in H. rewrite orb_false_r in H.
    destruct x; [now destruct b | discriminate H].
  - change (String c a +:+ b) with (String c (a +:+ b)).
    cbn [Js.includes] in *. apply orb_true_iff in H. destruct H as [H | H].
    + change (String c (a +:+ b)) with (String c a +:+ b).
      rewrite (startsWith_app_l _ _ _ H). reflexivity.
    + rewrite (IH H). apply orb_true_r.
Qed.

(** A text built by appending one piece for each member of a list
    includes what one of the pieces includes. *)
Lemma fold_includes {A} (f : A -> string) x (l : list A) : forall acc,
  Js.includes x acc = true \/ (exists a, a ∈ l /\ Js.includes x (f a) = true) ->
  Js.includes x (fold_left (fun acc a => acc +:+ f a) l acc) = true.
Proof.
  induction l as [|a l IH]; intros acc H.
  - destruct H as [H | (a & Ha & _)]; [exact H | now apply elem_of_nil in Ha].
  - cbn [fold_left]. apply IH. destruct H as [H | (b & Hb & Hx)].
    + left. now apply includes_app_l.
    + apply elem_of_cons in Hb. destruct Hb as [-> | Hb].
      * left. now apply includes_app_r.
      * right. now exists b.
Qed.

(** The members of a set filled in order. *)
Lemma setOf_fold (l : list string) : forall acc,
  NoDup acc ->
  NoDup (fold_left (fun acc x => if bool_decide (x ∈ acc) then acc else acc ++ [x]) l acc) /\
  forall x, x ∈ fold_left (fun acc x => if bool_decide (x ∈ acc) then acc else acc ++ [x])
                  l acc
            <-> x ∈ acc \/ x ∈ l.
Proof.
  induction l as [|y l IH]; intros acc Hnd.
  - cbn. split; [exact Hnd|]. intros x. split; [now left|].
    intros [H | H]; [exact H | now apply elem_of_nil in H].
  - cbn [fold_left]. destruct (bool_decide (y ∈ acc)) eqn:Hy.
    + apply bool_decide_eq_true in Hy. destruct (IH acc Hnd) as [N M].
      split; [exact N|]. intros x. rewrite M. split.
      * intros [H | H]; [now left | right; now right].
      * intros [H | H]; [now left|]. apply elem_of_cons in H.
        destruct H as [-> | H]; [now left | now right].
    + apply bool_decide_eq_false in Hy.
      assert (Hnd' : NoDup (acc ++ [y])).
      { apply NoDup_app. split; [exact Hnd|]. split; [|apply NoDup_singleton].
        intros x Hx Hx'. apply list_elem_of_singleton in Hx'. congruence. }
      destruct (IH (acc ++ [y]) Hnd') as [N M].
      split; [exact N|]. intros x. rewrite M, elem_of_app, list_elem_of_singleton, elem_of_cons.
      tauto.
Qed.

Lemma setOf_spec (l : list string) :
  NoDup (Cursor.setOf l) /\ forall x, x ∈ Cursor.setOf l <-> x ∈ l.
Proof.
  destruct (setOf_fold l [] (NoDup_nil_2)) as [N M]. split; [exact N|].
  intros x. unfold Cursor.setOf. rewrite M. split; [|now right].
  intros [H | H]; [now apply elem_of_nil in H | exact H].
Qed.

Lemma elem_of_namesIn m n (l : list (string * string)) :
  (m, n) ∈ l -> n ∈ Cursor.namesIn m l.
Proof.
  intros H. unfold Cursor.namesIn. apply list_elem_of_fmap. exists (m, n).
  split; [reflexivity|]. apply list_elem_of_filter. split; [|exact H].
  cbn. now rewrite String.eqb_refl.
Qed.

(** The line of an entry is in the section of its module. *)
Lemma section_includes heading kind m n names :
  n ∈ names ->
  Js.includes ("- @beat/" +:+ m +:+ "/" +:+ kind +:+ "/" +:+ n +:+ " - " +:+ n +:+ Js.nl)
    (Cursor.indexSection heading kind m names) = true.
Proof.
  intros Hn. unfold Cursor.indexSection.
  destruct names as [|n0 ns] eqn:E; [now apply elem_of_nil in Hn|]. rewrite <- E in *.
  apply (includes_app_r _ "**"), (includes_app_r _ heading), (includes_app_r _ ":**"),
    (includes_app_r _ Js.nl), includes_app_l.
  apply (fold_includes
           (fun n => "- @beat/" +:+ m +:+ "/" +:+ kind +:+ "/" +:+ n +:+ " - " +:+ n +:+ Js.nl)).
  right. exists n. split; [exact Hn | apply includes_refl].
Qed.

End IndexFacts.

Module CursorIndex.
Import StrFacts PathFacts FsFacts IndexFacts.
Import Path Fs FsOps.

(** X17: The index of the Cursor rules lists everything installed: with
    the modules gathered as the setup gathers them, the index has a
    heading for every module and, for every agent, task, tool and
    workflow, the line that references it under its module and
    kind. *)
Theorem index_lists_everything (agents tasks tools workflows : list (string * string)) :
  let modules :=
    Cursor.setOf (map fst agents ++ map fst tasks ++ map fst tools ++ map fst workflows) in
  let index := Cursor.indexContent agents tasks tools workflows modules in
  let line kind m n :=
    "- @beat/" +:+ m +:+ "/" +:+ kind +:+ "/" +:+ n +:+ " - " +:+ n +:+ Js.nl in
  NoDup modules /\
  (forall m, m ∈ modules ->
     Js.includes ("### " +:+ Js.toUpperCase m +:+ Js.nl) index = true) /\
  (forall m n, (m, n) ∈ agents -> Js.includes (line "agents" m n) index = true) /\
  (forall m n, (m, n) ∈ tasks -> Js.includes (line "tasks" m n) index = true) /\
  (forall m n, (m, n) ∈ tools -> Js.includes (line "tools" m n) index = true) /\
  (forall m n, (m, n) ∈ workflows -> Js.includes (line "workflows" m n) index = true).
Proof.
  intros modules index line.
  destruct (setOf_spec (map fst agents ++ map fst tasks ++ map fst tools ++ map fst workflows))
    as [Hnd Hmem]. fold modules in Hnd, Hmem.
  set (part := fun m =>
         "### " +:+ Js.toUpperCase m +:+ Js.nl +:+ Js.nl
           +:+ Cursor.indexSection "Agents" "agents" m (Cursor.namesIn m agents)
           +:+ Cursor.indexSection "Tasks" "tasks" m (Cursor.namesIn m tasks)
           +:+ Cursor.indexSection "Tools" "tools" m (Cursor.namesIn m tools)
           +:+ Cursor.indexSection "Workflows" "workflows" m (Cursor.namesIn m workflows)).
  assert (Hpart : forall x m, m ∈ modules -> Js.includes x (part m) = true ->
            Js.includes x index = true).
  { intros x m Hm Hx. unfold index, Cursor.indexContent.
    match goal with
    | |- Js.includes _ (?header +:+ _ +:+ ?footer) = true =>
        apply (includes_app_r _ header), includes_app_l
    end.
    apply (fold_includes part). right. now exists m. }
  assert (Hin : forall (l : list (string * string)) m n, (m, n) ∈ l -> m ∈ map fst l).
  { intros l m n H. apply list_elem_of_fmap. now exists (m, n). }
  split; [exact Hnd|]. split; [|split; [|split; [|split]]].
  - intros m Hm. apply (Hpart _ m Hm). unfold part.
    assert (E : forall X, "### " +:+ Js.toUpperCase m +:+ Js.nl +:+ X
                          = ("### " +:+ Js.toUpperCase m +:+ Js.nl) +:+ X).
    { intros X. now rewrite !append_assoc. }
    rewrite E. apply includes_here.
  - intros m n H. apply (Hpart _ m).
    + apply Hmem. rewrite !elem_of_app. left. now apply (Hin agents m n).
    + unfold part.
      apply (includes_app_r _ "### "), (includes_app_r _ (Js.toUpperCase m)),
        (includes_app_r _ Js.nl), (includes_app_r _ Js.nl), includes_app_l.
      now apply section_includes, elem_of_namesIn.
  - intros m n H. apply (Hpart _ m).
    + apply Hmem. rewrite !elem_of_app. right; left. now apply (Hin tasks m n).
    + unfold part.
      apply (includes_app_r _ "### "), (includes_app_r _ (Js.toUpperCase m)),
        (includes_app_r _ Js.nl), (includes_app_r _ Js.nl), includes_app_r, includes_app_l.
      now apply section_includes, elem_of_namesIn.
  - intros m n H. apply (Hpart _ m).
    + apply Hmem. rewrite !elem_of_app. right; right; left. now apply (Hin tools m n).
    + unfold part.
      apply (includes_app_r _ "### "), (includes_app_r _ (Js.toUpperCase m)),
        (includes_app_r _ Js.nl), (includes_app_r _ Js.nl), includes_app_r, includes_app_r,
        includes_app_l.
      now apply section_includes, elem_of_namesIn.
  - intros m n H. apply (Hpart _ m).
    + apply Hmem. rewrite !elem_of_app. right; right; right. now apply (Hin workflows m n).
    + unfold part.
      apply (includes_app_r _ "### "), (includes_app_r _ (Js.toUpperCase m)),
        (includes_app_r _ Js.nl), (includes_app_r _ Js.nl), includes_app_r, includes_app_r,
        includes_app_r.
      now apply section_includes, elem_of_namesIn.
Qed.

Lemma index_lists_everything_witness :
  Js.includes "- @beat/core/agents/dev - dev"
    (Cursor.indexContent [("core", "dev")] [] [] [] ["core"]) = true.
Proof.
  pose proof (index_lists_everything [("core", "dev")] [] [] []) as H. cbn zeta in H.
  destruct H as (_ & _ & H & _). specialize (H "core" "dev" ltac:(left)).
  change (Cursor.setOf (map fst [("core", "dev")] ++ map fst [] ++ map fst [] ++ map fst []))
    with ["core"] in H.
  vm_compute in H |- *. exact H.
Defined.

End CursorIndex.

(* ================================================================== *)
(** * What a setup writes is what the cleanup removes *)
(* ================================================================== *)

Module RoundTrip.
Import StrFacts PathFacts TreeFacts FsFacts TreeCheckFacts CleanupFacts ConfigFacts SyncFacts.
Import RemovalFacts.
Import Path Fs FsOps.






End RoundTrip.

(* ================================================================== *)
(** * What the flat adapters export *)
(* ================================================================== *)

Module ExportShape.
Import StrFacts PathFacts TreeFacts FsFacts CollectorFacts CollectionFacts LauncherFacts.
Import Path Fs FsOps BaseIdeSetup BeatArtifacts AgentCommandGenerator Flat.

(** The content of a file, empty when there is none. *)
Definition content_at (t : gmap path node) (p : path) : string :=
  match node_at t p with
  | Some (File content) => content
  | _ => EmptyString
  end.

Section Shape.
Variable base : string -> metadata -> path -> string.
Variable projectDir : path.

Definition agentExport (a : artifact) : export :=
  Export "agent" (art_module a) (art_sourcePath a) (art_relativePath a) (art_content a).

Definition taskExport (t : gmap path node) (task : item) : export :=
  Export "task" (item_module task) (item_path task)
    (join_str [item_module task; "tasks"; item_name task +:+ ".md"])
    (base (content_at t (item_path task)) (Metadata (item_module task) (item_name task))
       projectDir).

Lemma task_loop_run (tasks : list item) : forall acc w r w',
  foldM (fun acc task =>
      bind (readAndProcessWithProject base (item_path task)
              (Metadata (item_module task) (item_name task)) projectDir) (fun content =>
      ret (acc ++ [Export "task" (item_module task) (item_path task)
                     (join_str [item_module task; "tasks"; item_name task +:+ ".md"])
                     content]))) acc tasks w = (inr r, w') ->
  r = acc ++ map (taskExport (files w)) tasks /\
  files w' = files w /\
  Forall (fun task => exists content,
            node_at (files w) (item_path task) = Some (File content)) tasks.
Proof.
  induction tasks as [|task tasks IH]; intros acc w r w' H.
  - cbn in H. inversion H; subst. rewrite app_nil_r. repeat split. constructor.
  - cbn [foldM] in H. apply bind_inv in H.
    destruct H as [(e & _ & He) | (acc' & w1 & H1 & H2)]; [discriminate|].
    apply bind_inv in H1.
    destruct H1 as [(e & _ & He) | (content & w2 & R & E)]; [discriminate|].
    inversion E; subst acc' w2. clear E.
    unfold readAndProcessWithProject in R. apply bind_inv in R.
    destruct R as [(e & _ & He) | (c & w3 & R & E)]; [discriminate|].
    inversion E; subst content w3. clear E.
    rewrite readFile_run in R.
    destruct (node_at (files w) (item_path task)) as [[c0| |]|] eqn:Hn;
      inversion R; subst c w1. clear R.
    apply IH in H2. cbn [files] in H2. destruct H2 as (Hr & Hf & Hall).
    split; [|split; [exact Hf|]].
    + rewrite Hr, <- app_assoc. cbn [map app]. unfold taskExport at 2, content_at.
      now rewrite Hn.
    + constructor; [now exists c0 | exact Hall].
Qed.

End Shape.

(** X19: The artifacts of the flat adapters follow the collection: when
    the collection of Codex or Cline returns normally, its artifacts
    are the agent launchers, as collected, then the tasks, as
    collected, each with the processed content of its file, then the
    workflow artifacts; the relative paths are
    [{module}/agents/{name}.md] and [{module}/tasks/{name}.md], and the
    counts of agents and of tasks are the numbers collected. *)
Theorem exports_follow_collection
    (templatePath : path) (beatFolderName : string)
    (processContent : string -> metadata -> path -> string)
    (collectWorkflowArtifacts : path -> M (list export * (nat * nat)))
    (projectDir beatDir : path) (selectedModules : list string)
    (w w' : world) (artifacts : list export) (installed : counts) :
  collectArtifacts templatePath beatFolderName processContent collectWorkflowArtifacts
    projectDir beatDir selectedModules w = (inr (artifacts, installed), w') ->
  exists launchers collected workflows,
    (collectAgentArtifacts templatePath beatFolderName beatDir selectedModules w).1
      = inr launchers /\
    (getTasksFromBeat beatDir selectedModules w).1 = inr collected /\
    Forall (fun task => exists content,
              node_at (files w) (item_path task) = Some (File content)) collected /\
    artifacts
    = map (fun a => Export "agent" (art_module a) (art_sourcePath a)
                      (join_str [art_module a; "agents"; art_name a +:+ ".md"])
                      (art_content a)) launchers
      ++ map (fun task =>
                Export "task" (item_module task) (item_path task)
                  (join_str [item_module task; "tasks"; item_name task +:+ ".md"])
                  (processContent
                     (match node_at (files w) (item_path task) with
                      | Some (File content) => content
                      | _ => EmptyString
                      end)
                     (Metadata (item_module task) (item_name task)) projectDir)) collected
      ++ workflows /\
    agents installed = length launchers /\
    tasks installed = length collected.
Proof.
  intros H. unfold collectArtifacts in H.
  apply bind_inv in H. destruct H as [(e & _ & He) | (launchers & w1 & E1 & H)]; [discriminate|].
  cbn zeta in H.
  apply bind_inv in H. destruct H as [(e & _ & He) | (collected & w2 & E2 & H)]; [discriminate|].
  apply bind_inv in H. destruct H as [(e & _ & He) | (arts & w3 & E3 & H)]; [discriminate|].
  apply bind_inv in H. destruct H as [(e & _ & He) | (wf & w4 & E4 & H)]; [discriminate|].
  inversion H; subst. clear H.
  assert (F1 : files w1 = files w).
  { pose proof (reader_files _ w
                  (reader_collectAgentArtifacts templatePath beatFolderName beatDir
                     selectedModules)) as Hf. now rewrite E1 in Hf. }
  assert (F2 : files w2 = files w).
  { pose proof (reader_files _ w1 (reader_getTasksFromBeat beatDir selectedModules)) as Hf.
    rewrite E2 in Hf. cbn [snd] in Hf. congruence. }
  apply task_loop_run in E3. destruct E3 as (Harts & F3 & Hall). rewrite F2 in *.
  exists launchers, collected, wf.1. split; [now rewrite E1|]. split.
  { pose proof (reader_result _ w w1 (reader_getTasksFromBeat beatDir selectedModules) F1)
      as Hr. rewrite E2 in Hr. cbn [fst] in Hr. now rewrite <- Hr. }
  split; [exact Hall|]. split; [|now split].
  rewrite Harts, <- app_assoc. f_equal.
  apply map_ext_in. intros a Ha. f_equal.
  pose proof (LauncherFacts.collect_run templatePath beatFolderName beatDir selectedModules w)
    as Hc.
  rewrite E1 in Hc. cbn [fst] in Hc.
  destruct (getAgentsFromBeat beatDir selectedModules w).1 as [e|ags]; [discriminate Hc|].
  assert (Hform : exists ags' template,
            launchers = map (fun agent =>
                               launcherArtifact agent
                                 (instantiate beatFolderName template agent)) ags').
  { destruct ags as [|ag ags].
    - exists [], EmptyString. now inversion Hc.
    - destruct (node_at (files w) templatePath) as [[template| |]|]; try discriminate Hc.
      exists (ag :: ags), template. now inversion Hc. }
  destruct Hform as (ags' & template & ->).
  apply in_map_iff in Ha. destruct Ha as (x & <- & _). reflexivity.
Qed.

Lemma exports_follow_collection_witness :
  exists artifacts installed w',
    collectArtifacts ExportExamples.templatePath "beat" ExportExamples.plain
      ExportExamples.noWorkflows ["proj"] Examples.beat [] ExportExamples.single_agent
    = (inr (artifacts, installed), w') /\
    map exp_relativePath artifacts = ["core/agents/dev.md"] /\
    agents installed = 1 /\ tasks installed = 0.
Proof.
  destruct (collectArtifacts ExportExamples.templatePath "beat" ExportExamples.plain
              ExportExamples.noWorkflows ["proj"] Examples.beat []
              ExportExamples.single_agent) as [[e|[artifacts installed]] w'] eqn:E.
  { apply (f_equal fst) in E. vm_compute in E. discriminate E. }
  exists artifacts, installed, w'. split; [reflexivity|].
  destruct (exports_follow_collection _ _ _ _ _ _ _ _ _ _ _ E)
    as (launchers & collected & workflows & Hl & Hc & _ & Ha & Hn1 & Hn2).
  assert (El : launchers
               = [Artifact "agent-launcher" "core" "dev" "core/agents/dev.md"
                    "---
name: 'dev'
description: 'dev agent'
---

LOAD the FULL agent file from @beat/core/agents/dev.md
" (Examples.beat ++ ["core"; "agents"; "dev.md"])]).
  { vm_compute in Hl. now inversion Hl. }
  assert (Ec : collected = []) by (vm_compute in Hc; now inversion Hc).
  assert (Ew : workflows = []).
  { apply (f_equal (fun r => match r.1 with inr (a, _) => length a | inl _ => 0 end)) in E.
    cbn [fst] in E. rewrite Ha, El, Ec in E. vm_compute in E.
    destruct workflows; [reflexivity | discriminate E]. }
  rewrite Hn1, Hn2, Ha, El, Ec, Ew. repeat split.
Defined.

End ExportShape.

(* ================================================================== *)
(** * The settings of Qwen Code *)
(* ================================================================== *)

Module SettingsFacts.
Import StrFacts PathFacts TreeFacts FsFacts ConfigFacts ConfigStoreFacts.
Import Path Fs FsOps IdeConfigManager QwenSettings.

Lemma filterFiles_strings l : forall kept,
  filterFiles l = Some kept ->
  exists entries, l = map VStr entries /\ kept = map VStr (List.filter keep entries).
Proof.
  induction l as [|v l IH]; intros kept H.
  - inversion H. now exists [].
  - cbn [filterFiles] in H. destruct v; try discriminate H. cbn [keepFile] in H.
    destruct (filterFiles l) as [kept'|]; [|discriminate H].
    destruct (IH kept' eq_refl) as (entries & -> & ->).
    exists (s :: entries). split; [reflexivity|]. cbn [List.filter].
    destruct (keep s); now inversion H.
Qed.

Lemma assoc_setField_eq k v fields : assoc k (setField k v fields) = v.
Proof.
  induction fields as [|[k' v'] fields IH]; cbn [setField assoc].
  - now rewrite String.eqb_refl.
  - destruct (String.eqb k k') eqn:E; cbn [assoc]; [now rewrite String.eqb_refl|].
    now rewrite E.
Qed.

Lemma assoc_setField_ne k k0 v fields :
  k0 <> k -> assoc k0 (setField k v fields) = assoc k0 fields.
Proof.
  intros Hne. induction fields as [|[k' v'] fields IH]; cbn [setField assoc].
  - destruct (String.eqb_spec k0 k); [contradiction | reflexivity].
  - destruct (String.eqb_spec k k') as [->|Hk]; cbn [assoc].
    + destruct (String.eqb_spec k0 k'); [contradiction | reflexivity].
    + now rewrite IH.
Qed.

Lemma filter_shorter {A} (f : A -> bool) l : length (List.filter f l) <= length l.
Proof. induction l as [|x l IH]; cbn; [lia|]. destruct (f x); cbn; lia. Qed.

Lemma write_other (p : path) c w (q : path) :
  q <> p -> files (writeFile p c w).2 !! q = files w !! q.
Proof.
  intros Hne. rewrite writeFile_run. cbn zeta.
  destruct p as [|s r] eqn:Ep; [reflexivity|]. rewrite <- Ep in *.
  destruct (node_at (files w) (parent p)) as [[]|]; try reflexivity.
  destruct (files w !! p) as [[]|]; try reflexivity;
    cbn [snd files]; now rewrite lookup_insert_ne by congruence.
Qed.

Lemma write_at (p : path) c w :
  files (writeFile p c w).2 !! p = files w !! p \/
  files (writeFile p c w).2 !! p = Some (File c).
Proof.
  rewrite writeFile_run. cbn zeta.
  destruct p as [|s r] eqn:Ep; [now left|]. rewrite <- Ep in *.
  destruct (node_at (files w) (parent p)) as [[]|]; try (now left).
  destruct (files w !! p) as [[]|] eqn:Hp; cbn [snd files].
  - right. apply lookup_insert_eq.
  - now left.
  - now left.
  - right. apply lookup_insert_eq.
Qed.

End SettingsFacts.

Module SettingsUpdate.
Import StrFacts PathFacts TreeFacts FsFacts ConfigFacts ConfigStoreFacts SettingsFacts.
Import Path Fs FsOps IdeConfigManager QwenSettings.

(** X20: Updating the settings of Qwen Code never raises and touches
    nothing but [settings.json].  That file changes only when it is
    a regular file that parses to an object whose [contextFileName]
    is an array of strings of which at least one starts with
    [agents/] or [beat-method/]: it is then rewritten with those
    entries dropped, the others kept in order, and every other
    property as it was. *)
Theorem settings_update
    (json_parse : string -> option value) (json_stringify : value -> string)
    (qwenDir : path) (w : world) :
  let settingsPath := join qwenDir ["settings.json"] in
  exists w',
    updateSettings json_parse json_stringify qwenDir w = (inr tt, w') /\
    (forall q : path, q <> settingsPath -> files w' !! q = files w !! q) /\
    (files w' !! settingsPath = files w !! settingsPath \/
     exists content fields entries,
       node_at (files w) settingsPath = Some (File content) /\
       json_parse content = Some (VObj fields) /\
       prop (VObj fields) "contextFileName" = VArr (map VStr entries) /\
       let kept := List.filter keep entries in
       let settings' := VObj (setField "contextFileName" (VArr (map VStr kept)) fields) in
       length kept < length entries /\
       files w' !! settingsPath = Some (File (json_stringify settings')) /\
       prop settings' "contextFileName" = VArr (map VStr kept) /\
       forall k, k <> "contextFileName" -> prop settings' k = prop (VObj fields) k).
Proof.
  intros sp. unfold updateSettings. fold sp.
  rewrite bind_run, pathExists_run.
  destruct (node_at (files w) sp) as [n|] eqn:Hn.
  2:{ eexists. split; [reflexivity|]. cbn [files]. split; [reflexivity | now left]. }
  rewrite catch_run, bind_run, readFile_run. cbn [files log]. rewrite Hn.
  set (l2 := (log w ++ [PathExists sp]) ++ [ReadFile sp]).
  destruct n as [content| |];
    try (eexists; split; [reflexivity|]; cbn [files]; split; [reflexivity | now left]).
  destruct (json_parse content) as [settings|] eqn:Hparse;
    [|eexists; split; [reflexivity|]; cbn [files]; split; [reflexivity | now left]].
  destruct (filterContext settings) as [e|[settings' updated]] eqn:Hf;
    [eexists; split; [reflexivity|]; cbn [files]; split; [reflexivity | now left]|].
  destruct updated;
    [|eexists; split; [reflexivity|]; cbn [files]; split; [reflexivity | now left]].
  pose proof (write_other sp (json_stringify settings') (World (files w) l2)) as Hother.
  pose proof (write_at sp (json_stringify settings') (World (files w) l2)) as Hat.
  cbn [files] in Hother, Hat.
  exists (writeFile sp (json_stringify settings') (World (files w) l2)).2.
  split; [|split; [exact Hother|]].
  { cbn [throw]. destruct (writeFile sp (json_stringify settings') (World (files w) l2))
      as [[e|[]] w1]; reflexivity. }
  destruct Hat as [Hat | Hat]; [now left | right].
  unfold filterContext in Hf.
  destruct settings as [| | | | | | |fields]; try discriminate Hf.
  destruct (assoc "contextFileName" fields) as [| | | | | |fileNames|] eqn:Ha;
    try discriminate Hf.
  destruct (filterFiles fileNames) as [kept|] eqn:Hk; [|discriminate Hf].
  injection Hf as Hs Hu.
  destruct (filterFiles_strings _ _ Hk) as (entries & -> & ->).
  subst settings'. exists content, fields, entries. cbn zeta.
  split; [reflexivity|]. split; [exact Hparse|]. split; [exact Ha|].
  split; [|split; [exact Hat|split]].
  - rewrite !length_map in Hu. apply negb_true_iff, Nat.eqb_neq in Hu.
    pose proof (filter_shorter keep entries). lia.
  - cbn [prop]. apply assoc_setField_eq.
  - intros k Hne. cbn [prop]. now apply assoc_setField_ne.
Qed.

Lemma settings_update_witness :
  exists w',
    updateSettings SettingsExamples.parse_lines SettingsExamples.stringify_lines
      ["proj"; ".qwen"] SettingsExamples.qwen_settings = (inr tt, w') /\
    files w' !! ["proj"; ".qwen"; "settings.json"]
    = Some (File "README.md
NOTES.md").
Proof.
  destruct (settings_update SettingsExamples.parse_lines SettingsExamples.stringify_lines
              ["proj"; ".qwen"] SettingsExamples.qwen_settings) as (w' & Hrun & _ & _).
  exists w'. split; [exact Hrun|].
  apply (f_equal (fun r => files r.2 !! ["proj"; ".qwen"; "settings.json"])) in Hrun.
  cbn [snd] in Hrun. rewrite <- Hrun. vm_compute. reflexivity.
Defined.

End SettingsUpdate.

(* ================================================================== *)
(** * The order of the command installers *)
(* ================================================================== *)

Module CommandInstall.
Import StrFacts PathFacts TreeFacts FsFacts ConfigFacts OutputFacts OrderFacts CollectionFacts.
Import Path Fs FsOps BaseIdeSetup AgentCommandGenerator Output.

(** The computation removes nothing, and every node of the tree
    stays as it is unless the computation writes a file at its
    path. *)
Definition conserves {A} (m : M A) : Prop :=
  forall w, exists l,
    log (m w).2 = log w ++ l /\
    Forall no_remove l /\
    forall (q : path) n,
      files w !! q = Some n ->
      files (m w).2 !! q = Some n \/ exists content, WriteFile q content ∈ l.

Lemma conserves_ret {A} (a : A) : conserves (ret a).
Proof.
  intros w. exists []. cbn. rewrite app_nil_r.
  split; [reflexivity|]. split; [constructor | now left].
Qed.

Lemma conserves_bind {A B} (m : M A) (k : A -> M B) :
  conserves m -> (forall a, conserves (k a)) -> conserves (bind m k).
Proof.
  intros Hm Hk w. destruct (Hm w) as (l1 & E1 & F1 & K1). unfold bind.
  destruct (m w) as [[e|a] w1]; cbn [snd] in *.
  - exists l1. now repeat split.
  - destruct (Hk a w1) as (l2 & E2 & F2 & K2). exists (l1 ++ l2).
    split; [rewrite E2, E1; now rewrite app_assoc|].
    split; [now apply Forall_app|].
    intros q n Hq. destruct (K1 q n Hq) as [H1 | (c & Hc)].
    + destruct (K2 q n H1) as [H2 | (c & Hc)]; [now left|].
      right. exists c. apply elem_of_app. now right.
    + right. exists c. apply elem_of_app. now left.
Qed.

Lemma conserves_forEach {A} (f : A -> M unit) l :
  (forall x, conserves (f x)) -> conserves (forEach l f).
Proof.
  intros Hf. induction l as [|x l IH]; cbn [forEach]; [apply conserves_ret|].
  apply conserves_bind; [apply Hf | intros _; exact IH].
Qed.

(** A computation that leaves the tree as it is and removes
    nothing. *)
Lemma conserves_reading {A} (m : M A) :
  (forall w, files (m w).2 = files w) -> emits no_remove m -> conserves m.
Proof.
  intros Hf He w. destruct (He w) as (l & E & F). exists l.
  split; [exact E|]. split; [exact F|]. intros q n Hq. left. now rewrite Hf.
Qed.

Lemma conserves_ensureDir (p : path) : conserves (ensureDir p).
Proof.
  intros w. exists [EnsureDir p]. rewrite ensureDir_run.
  destruct (mkdirs (files w) [] p) as [e|t'] eqn:Hmk; cbn [snd log files].
  - split; [reflexivity|]. split; [repeat constructor | now left].
  - split; [reflexivity|]. split; [repeat constructor|].
    intros q n Hq. left. eapply mkdirs_keeps; eassumption.
Qed.

Lemma conserves_writeFile (p : path) (content : string) : conserves (writeFile p content).
Proof.
  intros w. exists [WriteFile p content]. rewrite writeFile_run. cbn zeta.
  assert (Hlog : forall r t,
            log (r : error + unit, World t (log w ++ [WriteFile p content])).2
            = log w ++ [WriteFile p content]) by reflexivity.
  assert (Hw : forall (q : path) n, files w !! q = Some n ->
            (<[p := File content]> (files w)) !! q = Some n \/
            exists c, WriteFile q c ∈ [WriteFile p content]).
  { intros q n Hq. destruct (decide (q = p)) as [->|Hne].
    - right. exists content. apply elem_of_cons. now left.
    - left. now rewrite lookup_insert_ne by congruence. }
  destruct p as [|s r]; [|destruct (node_at (files w) (parent (s :: r))) as [[]|];
                           [|destruct (files w !! (s :: r)) as [[]|]| |]];
    cbn [snd log files];
    (split; [reflexivity|]); (split; [repeat constructor|]);
    first [exact Hw | intros q n Hq; now left].
Qed.

Lemma conserves_readFile (p : path) : conserves (readFile p).
Proof.
  apply conserves_reading.
  - intros w. apply (reader_readFile p w).
  - now apply emits_readFile.
Qed.

Lemma conserves_collect tp bf beatDir mods :
  conserves (collectAgentArtifacts tp bf beatDir mods).
Proof.
  apply conserves_reading.
  - intros w. apply (reader_collectAgentArtifacts tp bf beatDir mods w).
  - apply emits_collect. tauto.
Qed.

Lemma conserves_iflow tp bf formatTitle getTasks projectDir beatDir mods :
  (forall d, emits is_read (getTasks d)) ->
  (forall d w, files (getTasks d w).2 = files w) ->
  conserves (IFlow.setup tp bf formatTitle getTasks projectDir beatDir mods).
Proof.
  intros He Hf. unfold IFlow.setup. cbn zeta.
  apply conserves_bind; [apply conserves_ensureDir | intros _].
  apply conserves_bind; [apply conserves_ensureDir | intros _].
  apply conserves_bind; [apply conserves_collect | intros arts].
  apply conserves_bind.
  { apply conserves_forEach. intros a. apply conserves_writeFile. }
  intros _. apply conserves_bind.
  { apply conserves_reading; [apply Hf|].
    eapply emits_weaken; [apply read_no_remove | apply He]. }
  intros tl. apply conserves_bind; [|intros _; apply conserves_ret].
  apply conserves_forEach. intros task.
  apply conserves_bind; [apply conserves_readFile | intros c; apply conserves_writeFile].
Qed.

Ltac chain H :=
  repeat first
    [ apply emits_ret
    | apply emits_mkdir; exact H
    | apply emits_write; exact H
    | apply emits_read; exact H
    | apply emits_collect; exact H
    | apply emits_forEach; intros ?
    | apply emits_bind; [|intros ?] ].

Section Commands.
Variable P : call -> Prop.
Hypothesis Hok : forall c, no_remove c -> P c.

Lemma auggie_writeCommands dir create l : emits P (Auggie.writeCommands dir create l).
Proof using Hok. unfold Auggie.writeCommands. chain Hok. Qed.

Lemma opencode_writes tp bf cwa basename ltm lto gen beatDir mods :
  (forall d, emits P (cwa d)) ->
  (forall d, emits P (ltm d)) ->
  (forall d, emits P (lto d)) ->
  forall commandsBaseDir agentsBaseDir,
  emits P
    (arts <- collectAgentArtifacts tp bf beatDir mods ;;
     forEach arts (fun a =>
       BaseIdeSetup.writeFile
         (OpenCodeSetup.target agentsBaseDir "agent" (art_module a) (art_name a))
         (art_content a)) ;;
     wf <- cwa beatDir ;;
     workflowCommandCount <-
       foldM (fun count a =>
         if String.eqb (Flat.exp_type a) "workflow-command" then
           let workflowName := basename (Flat.exp_relativePath a) ".md" in
           BaseIdeSetup.writeFile
             (OpenCodeSetup.target commandsBaseDir "workflow" (Flat.exp_module a)
                workflowName)
             (Flat.exp_content a) ;;
           ret (S count)
         else ret count) 0 wf.1 ;;
     OpenCodeSetup.generateFlatTaskToolCommands ltm lto gen beatDir commandsBaseDir ;;
     ret (OpenCodeSetup.Result (length arts) workflowCommandCount wf.2)).
Proof using Hok.
  intros HW HT HO commandsBaseDir agentsBaseDir.
  apply emits_bind; [apply emits_collect, Hok | intros arts].
  apply emits_bind; [chain Hok | intros _].
  apply emits_bind; [apply HW | intros wf].
  apply emits_bind.
  { apply emits_foldM. intros count a.
    destruct (String.eqb _ _); [|apply emits_ret]. chain Hok. }
  intros count. apply emits_bind; [|intros; apply emits_ret].
  unfold OpenCodeSetup.generateFlatTaskToolCommands.
  apply emits_bind; [apply HT | intros tasks].
  apply emits_bind; [apply HO | intros tools].
  chain Hok.
Qed.

End Commands.

(** X21: The command installers differ in what they remove.  The setup
    of iFlow never removes anything, and every node of the tree stays
    as it is unless the setup writes a file at its path: commands of
    an earlier install that it does not write again stay.  The
    setups of Auggie and of OpenCode remove before they write: every
    removal they issue precedes every write, so no path is deleted
    after it was written.  The listings of the base class and the
    generators of workflows, tasks and tools are taken as parameters
    that only read; the listing of iFlow leaves the tree as it is. *)
Theorem command_install_order
    (templatePath : path) (beatFolderName : string) (formatTitle : string -> string)
    (getTasks getTools getWorkflows : path -> bool -> M (list resource))
    (listTasks : path -> M (list resource))
    (collectWorkflowArtifacts : path -> M (list Flat.export * (nat * nat)))
    (basename : string -> string -> string)
    (loadTaskManifest loadToolManifest : path -> M (option (list OpenCodeSetup.entry)))
    (generateCommandContent : OpenCodeSetup.entry -> string -> string)
    (projectDir beatDir : path) (selectedModules : list string) (w : world) :
  (forall d b, emits is_read (getTasks d b)) ->
  (forall d b, emits is_read (getTools d b)) ->
  (forall d b, emits is_read (getWorkflows d b)) ->
  (forall d, emits is_read (listTasks d)) ->
  (forall d u, files (listTasks d u).2 = files u) ->
  (forall d, emits is_read (collectWorkflowArtifacts d)) ->
  (forall d, emits is_read (loadTaskManifest d)) ->
  (forall d, emits is_read (loadToolManifest d)) ->
  let iflow := IFlow.setup templatePath beatFolderName formatTitle listTasks
                 projectDir beatDir selectedModules in
  let auggie := Auggie.setup templatePath beatFolderName formatTitle
                  getTasks getTools getWorkflows projectDir beatDir selectedModules in
  let opencode := OpenCodeSetup.setup templatePath beatFolderName
                    collectWorkflowArtifacts basename loadTaskManifest loadToolManifest
                    generateCommandContent projectDir beatDir selectedModules in
  Forall no_remove (calls iflow w) /\
  (forall (q : path) n,
     files w !! q = Some n ->
     files (iflow w).2 !! q = Some n \/
     exists content, WriteFile q content ∈ calls iflow w) /\
  removes_before_writes (calls auggie w) /\
  removes_before_writes (calls opencode w).
Proof.
  intros HT HO HW HL HF HC HM HN iflow auggie opencode.
  destruct (conserves_iflow templatePath beatFolderName formatTitle listTasks
              projectDir beatDir selectedModules HL HF w) as (li & Ei & Fi & Ki).
  fold iflow in Ei, Ki. rewrite (calls_app iflow w li Ei).
  split; [exact Fi|]. split; [exact Ki|]. clear li Ei Fi Ki. split.
  - assert (Hph : phased no_write no_remove auggie).
    { unfold auggie, Auggie.setup. cbn zeta. apply phased_bind.
      { unfold Auggie.cleanup. apply emits_cleaning_removeIfExists.
        intros [] H; simpl in *; tauto. }
      intros _. apply phased_late.
      apply emits_bind; [apply emits_collect; tauto | intros arts].
      apply emits_bind;
        [eapply emits_weaken; [apply read_no_remove | apply HT] | intros tl].
      apply emits_bind;
        [eapply emits_weaken; [apply read_no_remove | apply HO] | intros ol].
      apply emits_bind;
        [eapply emits_weaken; [apply read_no_remove | apply HW] | intros wl].
      do 4 (apply emits_bind; [apply emits_mkdir; tauto | intros _]).
      apply emits_bind; [chain (fun c (H : no_remove c) => H) | intros _].
      do 3 (apply emits_bind; [apply auggie_writeCommands; tauto | intros _]).
      apply emits_ret. }
    destruct (phased_calls _ _ auggie w Hph) as (l1 & l2 & E & F1 & F2).
    rewrite E. now apply phases_removes_before_writes.
  - assert (Hph : phased no_write no_remove opencode).
    { unfold opencode, OpenCodeSetup.setup. cbn zeta.
      assert (Hclean : forall c, cleaning c -> no_write c)
        by (intros [] H; simpl in *; tauto).
      apply phased_bind; [now apply emits_ensureDir | intros _].
      apply phased_bind; [now apply emits_ensureDir | intros _].
      apply phased_bind.
      { unfold OpenCode.cleanup, OpenCode.cleanFolder.
        apply emits_bind; [|intros _];
          (apply emits_bind; [apply emits_pathExists, Hclean; exact I|];
           intros [|]; [|apply emits_ret];
           apply emits_bind; [apply emits_readdir, Hclean; exact I|]; intros l;
           apply emits_forEach; intros file;
           destruct (Trae.ruleFor file);
             [apply emits_remove, Hclean; exact I | apply emits_ret]). }
      intros _. apply phased_late.
      apply opencode_writes; [tauto | | |]; intros d;
        (eapply emits_weaken; [apply read_no_remove|]); [apply HC | apply HM | apply HN]. }
    destruct (phased_calls _ _ opencode w Hph) as (l1 & l2 & E & F1 & F2).
    rewrite E. now apply phases_removes_before_writes.
Qed.

(** The theorem at a project that holds the commands of an earlier
    install: iFlow keeps the old command, and Auggie and OpenCode
    remove their old files before they write the new ones. *)
Lemma command_install_order_witness :
  let up := ReinstallExamples.upgraded in
  let iflow := IFlow.setup ExportExamples.templatePath "beat" Trae.formatTitle
                 (fun _ => ret []) ["proj"] Examples.beat [] in
  let auggie := Auggie.setup ExportExamples.templatePath "beat" Trae.formatTitle
                  OrderExamples.nothing OrderExamples.nothing OrderExamples.nothing
                  ["proj"] Examples.beat [] in
  let opencode := OpenCodeSetup.setup ExportExamples.templatePath "beat"
                    ExportExamples.noWorkflows (fun p _ => p)
                    (fun _ => ret None) (fun _ => ret None) (fun _ _ => EmptyString)
                    ["proj"] Examples.beat [] in
  (Forall no_remove (calls iflow up) /\
   (forall (q : path) n,
      files up !! q = Some n ->
      files (iflow up).2 !! q = Some n \/
      exists content, WriteFile q content ∈ calls iflow up) /\
   removes_before_writes (calls auggie up) /\
   removes_before_writes (calls opencode up)) /\
  (files (iflow up).2 !! ["proj"; ".iflow"; "commands"; "beat"; "agents"; "core-old.md"]
     = Some (File "old command") /\
   is_Some (files (iflow up).2
              !! ["proj"; ".iflow"; "commands"; "beat"; "agents"; "core-dev.md"]) /\
   calls auggie up !! 1 = Some (Remove ["proj"; ".augment"; "commands"; "beat"]) /\
   (exists content,
      calls auggie up !! 12
      = Some (WriteFile ["proj"; ".augment"; "commands"; "beat"; "agents"; "core-dev.md"]
                content)) /\
   calls opencode up !! 4
     = Some (Remove ["proj"; ".opencode"; "agent"; "beat-agent-core-old.md"]) /\
   (exists content,
      calls opencode up !! 13
      = Some (WriteFile ["proj"; ".opencode"; "agent"; "beat-agent-core-dev.md"]
                content))).
Proof.
  intros up iflow auggie opencode. split.
  - apply (command_install_order ExportExamples.templatePath "beat" Trae.formatTitle
             OrderExamples.nothing OrderExamples.nothing OrderExamples.nothing
             (fun _ => ret []) ExportExamples.noWorkflows (fun p _ => p)
             (fun _ => ret None) (fun _ => ret None) (fun _ _ => EmptyString)
             ["proj"] Examples.beat [] ReinstallExamples.upgraded).
    + intros d b. apply emits_ret.
    + intros d b. apply emits_ret.
    + intros d b. apply emits_ret.
    + intros d. apply emits_ret.
    + intros d u. reflexivity.
    + intros d. apply emits_ret.
    + intros d. apply emits_ret.
    + intros d. apply emits_ret.
  - repeat split; vm_compute; eauto.
Defined.

End CommandInstall.

(* ================================================================== *)
(** ** Stripping the front matter of a launcher *)
(* ================================================================== *)

Module FrontmatterFacts.
Import StrFacts.
Import Js Regex.

Lemma lit_app p : forall s s', lit p s = Some s' -> s = p +:+ s'.
Proof.
  induction p as [|a p IH]; intros [|b s] s' H; cbn in H; try discriminate.
  - now inversion H.
  - now inversion H.
  - destruct (Ascii.eqb_spec a b) as [->|]; [|discriminate].
    cbn. f_equal. now apply IH.
Qed.

Lemma lit_here p s : lit p (p +:+ s) = Some s.
Proof.
  induction p as [|a p IH]; cbn; [reflexivity|].
  now rewrite Ascii.eqb_refl.
Qed.

Lemma lit_starts p : forall s, startsWith p s = false -> lit p s = None.
Proof.
  induction p as [|a p IH]; intros [|b s] H; cbn in *; try discriminate; try reflexivity.
  destruct (Ascii.eqb a b); [|reflexivity]. now apply IH.
Qed.

Section Tails.
Context {R : Type}.

Lemma star_tail cls (k : string -> option R) s r :
  star cls k s = Some r -> exists pre rest, s = pre +:+ rest /\ k rest = Some r.
Proof.
  induction s as [|c s IH]; cbn; intros H.
  - now exists EmptyString, EmptyString.
  - destruct (cls c).
    + destruct (star cls k s) as [r'|] eqn:E.
      * destruct (IH H) as (pre & rest & -> & Hk).
        now exists (String c pre), rest.
      * now exists EmptyString, (String c s).
    + now exists EmptyString, (String c s).
Qed.

Lemma star_lazy_tail cls (k : string -> option R) s r :
  star_lazy cls k s = Some r -> exists pre rest, s = pre +:+ rest /\ k rest = Some r.
Proof.
  induction s as [|c s IH]; cbn; intros H.
  - destruct (k EmptyString) eqn:E; [|discriminate].
    exists EmptyString, EmptyString. split; [reflexivity|congruence].
  - destruct (k (String c s)) eqn:E.
    + exists EmptyString, (String c s). split; [reflexivity|congruence].
    + destruct (cls c); [|discriminate].
      destruct (IH H) as (pre & rest & -> & Hk).
      now exists (String c pre), rest.
Qed.

Lemma group_tail cls (k : string -> string -> option R) s :
  forall acc r, group cls k acc s = Some r ->
  exists c pre rest, s = pre +:+ rest /\ k c rest = Some r.
Proof.
  induction s as [|c s IH]; cbn; intros acc r H; [discriminate|].
  destruct (cls c); [|discriminate].
  destruct (group cls k (acc +:+ String c EmptyString) s) as [r'|] eqn:E.
  - destruct (IH _ _ E) as (c' & pre & rest & -> & Hk).
    exists c', (String c pre), rest. split; [reflexivity|congruence].
  - now exists (acc +:+ String c EmptyString), (String c EmptyString), s.
Qed.

(** A greedy run of white space before a line feed ends at the last
    line feed of the run. *)
Lemma star_space_newline (k : string -> option R) blank rest r :
  forallb is_space (list_ascii_of_string blank) = true ->
  match rest with EmptyString => true | String c _ => negb (is_space c) end = true ->
  k rest = Some r ->
  star is_space (fun s => match lit nl s with Some s' => k s' | None => None end)
    (blank +:+ nl +:+ rest) = Some r.
Proof.
  intros Hb Hrest Hk. induction blank as [|c blank IH].
  - assert (E : star is_space
                  (fun s => match lit nl s with Some s' => k s' | None => None end) rest
                = None).
    { destruct rest as [|c rest]; [reflexivity|].
      apply negb_true_iff in Hrest. cbn [star]. rewrite Hrest.
      change (lit nl (String c rest))
        with (if Ascii.eqb newline c then Some rest else None).
      destruct (Ascii.eqb_spec newline c) as [<-|]; [discriminate|reflexivity]. }
    change (EmptyString +:+ nl +:+ rest) with (String newline rest).
    cbn [star]. change (is_space newline) with true. cbv iota. rewrite E.
    change (lit nl (String newline rest)) with (Some rest). exact Hk.
  - cbn [list_ascii_of_string forallb] in Hb.
    apply andb_true_iff in Hb as [Hc Hb].
    change (String c blank +:+ nl +:+ rest) with (String c (blank +:+ nl +:+ rest)).
    cbn [star]. rewrite Hc, (IH Hb). reflexivity.
Qed.

(** A lazy run stops at the first place where what follows matches. *)
Lemma star_lazy_first (k : string -> option R) p skipped rest r :
  (forall s, startsWith p s = false -> k s = None) ->
  (forall c post, startsWith p (String c post +:+ p +:+ rest) = true ->
     startsWith p (String c post) = true) ->
  includes p skipped = false ->
  k (p +:+ rest) = Some r ->
  star_lazy any k (skipped +:+ p +:+ rest) = Some r.
Proof.
  intros Hk Hp. induction skipped as [|c s IH]; intros Hs Hr.
  - cbn [String.append]. destruct (p +:+ rest); cbn; cbn in Hr; now rewrite Hr.
  - cbn [includes] in Hs. apply orb_false_iff in Hs as [Hhere Hs].
    change (String c s +:+ p +:+ rest) with (String c (s +:+ p +:+ rest)).
    cbn [star_lazy]. rewrite Hk.
    + cbn [any]. now apply IH.
    + destruct (startsWith p (String c (s +:+ p +:+ rest))) eqn:E; [|reflexivity].
      apply Hp in E. congruence.
Qed.

End Tails.

Lemma exec_tail r : forall cap s c rest,
  exec r cap s = Some (c, rest) -> exists pre, s = pre +:+ rest.
Proof.
  induction r as [|a r IH]; intros cap s c rest H; cbn in H.
  - inversion H. now exists EmptyString.
  - destruct a as [p|cls|cls|cls].
    + destruct (lit p s) as [s'|] eqn:E; [|discriminate].
      apply lit_app in E as ->. destruct (IH _ _ _ _ H) as (pre & ->).
      exists (p +:+ pre). now rewrite append_assoc.
    + apply star_tail in H as (pre & s' & -> & H).
      destruct (IH _ _ _ _ H) as (pre' & ->).
      exists (pre +:+ pre'). now rewrite append_assoc.
    + apply star_lazy_tail in H as (pre & s' & -> & H).
      destruct (IH _ _ _ _ H) as (pre' & ->).
      exists (pre +:+ pre'). now rewrite append_assoc.
    + apply group_tail in H as (c' & pre & s' & -> & H).
      destruct (IH _ _ _ _ H) as (pre' & ->).
      exists (pre +:+ pre'). now rewrite append_assoc.
Qed.

(** What the strip removes is a prefix, and one that starts with the
    three dashes. *)
Lemma strip_split s :
  exists front, s = front +:+ stripFrontmatter s /\
    (front = EmptyString \/ startsWith "---" front = true).
Proof.
  unfold stripFrontmatter, strip_anchored.
  destruct (exec frontmatterRegex EmptyString s) as [[c rest]|] eqn:E.
  - unfold frontmatterRegex in E. cbn [exec] in E.
    destruct (lit "---" s) as [s'|] eqn:El; [|discriminate].
    apply lit_app in El as ->.
    change (star is_space (exec [Lit nl; StarLazy any; Lit (nl +:+ "---"); Star is_space; Lit nl]
              EmptyString) s' = Some (c, rest)) in E.
    apply star_tail in E as (pre & s'' & -> & E).
    apply exec_tail in E as (pre' & ->).
    exists ("---" +:+ pre +:+ pre'). split; [|right; reflexivity].
    now rewrite !append_assoc.
  - exists EmptyString. split; [reflexivity|now left].
Qed.

(** A line feed and three dashes cannot begin inside the skipped text
    and run over into the closing line. *)
Lemma closing_not_straddled c post rest :
  startsWith (nl +:+ "---") (String c post +:+ (nl +:+ "---") +:+ rest) = true ->
  startsWith (nl +:+ "---") (String c post) = true.
Proof.
  destruct post as [|c2 [|c3 [|c4 post]]]; cbn;
    repeat match goal with
           | |- context [Ascii.eqb ?a ?b] => destruct (Ascii.eqb a b); cbn
           end; congruence.
Qed.

(** A character of the ASCII range that is not white space. *)
Definition plain (c : ascii) : bool :=
  negb (is_space c) && (nat_of_ascii c <? 128).

(** The text is empty or starts with a plain character. *)
Definition starts_plain (s : string) : bool :=
  match s with
  | EmptyString => true
  | String c _ => plain c
  end.

Lemma plain_not_space c : plain c = true -> is_space c = false.
Proof.
  unfold plain. intros H. apply andb_true_iff in H as [H _].
  now apply negb_true_iff.
Qed.

(** The front matter between two lines of dashes is removed whole. *)
Lemma strip_exact blank1 blank2 fm body c fm' :
  forallb is_space (list_ascii_of_string blank1) = true ->
  forallb is_space (list_ascii_of_string blank2) = true ->
  fm = String c fm' -> plain c = true ->
  includes (nl +:+ "---") fm = false ->
  starts_plain body = true ->
  stripFrontmatter
    ("---" +:+ blank1 +:+ nl +:+ fm +:+ (nl +:+ "---") +:+ blank2 +:+ nl +:+ body) = body.
Proof.
  intros H1 H2 -> Hc Hfm Hbody.
  unfold stripFrontmatter, strip_anchored, frontmatterRegex.
  cbn [exec]. rewrite lit_here.
  change (star is_space ?k ?s) with
    (star is_space
       (fun s0 => match lit nl s0 with
                  | Some s' =>
                      star_lazy any
                        (exec [Lit (nl +:+ "---"); Star is_space; Lit nl] EmptyString) s'
                  | None => None
                  end) s).
  erewrite (star_space_newline _ blank1 _ (EmptyString, body)); [reflexivity|exact H1| |].
  { cbn. now rewrite (plain_not_space _ Hc). }
  apply star_lazy_first.
  - intros s Hs. cbn [exec]. now rewrite (lit_starts _ _ Hs).
  - intros c0 post. apply closing_not_straddled.
  - exact Hfm.
  - cbn [exec]. rewrite lit_here.
    change (star is_space ?k ?s) with
      (star is_space
         (fun s0 => match lit nl s0 with
                    | Some s' => Some (EmptyString, s')
                    | None => None
                    end) s).
    apply star_space_newline; [exact H2| |reflexivity].
    destruct body as [|c0 body]; [reflexivity|].
    cbn in Hbody. now rewrite (plain_not_space _ Hbody).
Qed.

End FrontmatterFacts.

Module FrontmatterTail.
Import FrontmatterFacts.
Import Js Regex BaseIdeSetup AgentCommandGenerator.

(** X22: Whatever the launcher of an artifact is, the Windsurf workflow,
    the Cursor rule, the Qwen command and the Trae rule made from it
    carry a tail of the launcher under their own header (Qwen and
    Trae trim it): what is left out is a prefix of the launcher, and
    a prefix that starts with three dashes when anything is left out
    at all, so a launcher that does not start with three dashes is
    kept whole. *)
Theorem launcher_tail_kept (a : artifact) (projectDir : list string) :
  let content := art_content a in
  let md := Metadata (art_module a) (art_name a) in
  exists front body,
    content = front +:+ body /\
    (front = EmptyString \/ startsWith "---" front = true) /\
    Windsurf.createWorkflowContent md content =
      "---
description: " +:+ art_name a +:+ "
auto_execution_mode: 3
---

" +:+ body /\
    Cursor.wrapLauncherWithMDC content md =
      "---
description: " +:+ ("BEAT " +:+ toUpperCase (art_module a) +:+ " Agent: "
                    +:+ Cursor.captured (field "name") content (art_name a)) +:+ "
globs:
alwaysApply: false
---

" +:+ body /\
    QwenSetup.processAgentLauncherContent content md =
      "description = " +:+ dq +:+ "BEAT " +:+ toUpperCase (art_module a)
        +:+ " Agent: " +:+ Cursor.captured (field "description") content (art_name a)
        +:+ dq +:+ "
prompt = " +:+ QwenSetup.tq +:+ "
" +:+ trim body +:+ "
" +:+ QwenSetup.tq +:+ "
" /\
    Trae.createAgentRule a projectDir =
      "# " +:+ Trae.agentTitle a +:+ " Agent Rule

This rule is triggered when the user types `@" +:+ art_name a +:+ "` and activates the "
      +:+ Trae.agentTitle a +:+ " agent persona.

## Agent Activation

" +:+ trim body +:+ "

## File Reference

The full agent definition is located at: `"
      +:+ replaceChar "\"%char "/"%char (PathRel.relative projectDir (art_sourcePath a))
      +:+ "`
".
Proof.
  intros content md.
  destruct (strip_split content) as (front & Hc & Hfront).
  exists front, (stripFrontmatter content). repeat split; assumption || reflexivity.
Qed.

End FrontmatterTail.

Module FrontmatterExact.
Import FrontmatterFacts.
Import Js Regex BaseIdeSetup AgentCommandGenerator.

(** X23: A launcher that opens with a line of three dashes, has a front
    matter that starts with a plain character and holds no line
    starting with three dashes, then a closing line of three dashes,
    loses exactly those lines, together with the white space that
    follows the closing dashes up to the last line feed before the
    body: the Windsurf workflow and the Cursor rule are the new header
    followed by the body, and the prompt of the Qwen command is the
    body trimmed. *)
Theorem frontmatter_removed
    (blank1 blank2 fm body : string) (c : ascii) (fm' : string) (md : metadata) :
  forallb is_space (list_ascii_of_string blank1) = true ->
  forallb is_space (list_ascii_of_string blank2) = true ->
  fm = String c fm' -> plain c = true ->
  includes (nl +:+ "---") fm = false ->
  starts_plain body = true ->
  let content :=
    "---" +:+ blank1 +:+ nl +:+ fm +:+ (nl +:+ "---") +:+ blank2 +:+ nl +:+ body in
  stripFrontmatter content = body /\
  Windsurf.createWorkflowContent md content =
    "---
description: " +:+ meta_name md +:+ "
auto_execution_mode: 3
---

" +:+ body /\
  Cursor.wrapLauncherWithMDC content md =
    "---
description: " +:+ ("BEAT " +:+ toUpperCase (meta_module md) +:+ " Agent: "
                    +:+ Cursor.captured (field "name") content (meta_name md)) +:+ "
globs:
alwaysApply: false
---

" +:+ body /\
  QwenSetup.processAgentLauncherContent content md =
    "description = " +:+ dq +:+ "BEAT " +:+ toUpperCase (meta_module md)
      +:+ " Agent: " +:+ Cursor.captured (field "description") content (meta_name md)
      +:+ dq +:+ "
prompt = " +:+ QwenSetup.tq +:+ "
" +:+ trim body +:+ "
" +:+ QwenSetup.tq +:+ "
".
Proof.
  intros H1 H2 Hfm Hc Hin Hbody content.
  assert (E : stripFrontmatter content = body)
    by (eapply strip_exact; eassumption).
  unfold Windsurf.createWorkflowContent, Cursor.wrapLauncherWithMDC,
    QwenSetup.processAgentLauncherContent.
  rewrite E. repeat split; reflexivity.
Qed.

(** A launcher with a name and a description in its front matter and
    a blank line before its body. *)
Lemma frontmatter_removed_witness :
  let content := "---
name: " +:+ dq +:+ "dev" +:+ dq +:+ "
description: " +:+ dq +:+ "Developer" +:+ dq +:+ "
---

Activate the agent.
" in
  stripFrontmatter content = "Activate the agent.
" /\
  Windsurf.createWorkflowContent (Metadata "core" "developer") content =
    "---
description: developer
auto_execution_mode: 3
---

Activate the agent.
" /\
  Cursor.wrapLauncherWithMDC content (Metadata "core" "developer") =
    "---
description: BEAT CORE Agent: dev
globs:
alwaysApply: false
---

Activate the agent.
" /\
  QwenSetup.processAgentLauncherContent content (Metadata "core" "developer") =
    "description = " +:+ dq +:+ "BEAT CORE Agent: Developer" +:+ dq +:+ "
prompt = " +:+ QwenSetup.tq +:+ "
Activate the agent.
" +:+ QwenSetup.tq +:+ "
".
Proof.
  exact (frontmatter_removed EmptyString nl
           ("name: " +:+ dq +:+ "dev" +:+ dq +:+ nl +:+ "description: " +:+ dq
              +:+ "Developer" +:+ dq)
           ("Activate the agent." +:+ nl) "n"%char
           ("ame: " +:+ dq +:+ "dev" +:+ dq +:+ nl +:+ "description: " +:+ dq
              +:+ "Developer" +:+ dq)
           (Metadata "core" "developer")
           eq_refl eq_refl eq_refl eq_refl eq_refl eq_refl).
Defined.

End FrontmatterExact.

(* ================================================================== *)
(** * The order of the Qwen setup *)
(* ================================================================== *)

Module QwenInstall.
Import StrFacts PathFacts TreeFacts FsFacts OutputFacts OrderFacts.
Import Path Fs FsOps BaseIdeSetup BeatArtifacts AgentCommandGenerator Output.

(** The directories of old installs that the setup removes. *)
Definition oldDirs (qwenDir : path) : list path :=
  [join qwenDir ["agents"]; join qwenDir ["beat-method"]; join qwenDir ["beatDir"]].

(** The calls of the setup before its collection begins: among them
    the only write is the one of the settings file and the only
    removals are those of the old directories. *)
Definition housekeeping (qwenDir : path) (c : call) : Prop :=
  match c with
  | WriteFile p _ => p = join qwenDir ["settings.json"]
  | Remove p => p ∈ oldDirs qwenDir
  | _ => True
  end.

Lemma emits_updateSettings json_parse json_stringify qwenDir :
  emits (housekeeping qwenDir) (QwenSettings.updateSettings json_parse json_stringify qwenDir).
Proof.
  unfold QwenSettings.updateSettings. cbn zeta.
  apply emits_bind; [now apply emits_pathExists | intros [|]]; [|apply emits_ret].
  apply emits_catch; [|intros; apply emits_ret].
  apply emits_bind; [now apply emits_readFile | intros content].
  destruct (json_parse content) as [settings|]; [|apply emits_throw].
  destruct (QwenSettings.filterContext settings) as [e|[settings' [|]]].
  - apply emits_throw.
  - now apply emits_writeFile.
  - apply emits_ret.
Qed.

Lemma emits_cleanupOldConfig qwenDir :
  emits (housekeeping qwenDir) (Qwen.cleanupOldConfig qwenDir).
Proof.
  unfold Qwen.cleanupOldConfig.
  apply emits_bind; [|intros _; apply emits_bind; [|intros _]];
    (apply emits_removeIfExists; [exact I|]); unfold housekeeping, oldDirs.
  - apply elem_of_cons. now left.
  - apply elem_of_cons. right. apply elem_of_cons. now left.
  - apply elem_of_cons. right. apply elem_of_cons. right. apply elem_of_cons. now left.
Qed.

Lemma qwen_phases tp bf base getTools getWorkflows jp js projectDir beatDir mods :
  (forall d b, emits is_read (getTools d b)) ->
  (forall d b, emits is_read (getWorkflows d b)) ->
  phased (housekeeping (join projectDir [Qwen.configDir])) no_remove
    (QwenSetup.setup tp bf base getTools getWorkflows jp js projectDir beatDir mods).
Proof.
  intros HO HW. unfold QwenSetup.setup. cbn zeta.
  apply phased_bind; [now apply emits_ensureDir | intros _].
  apply phased_bind; [apply emits_updateSettings | intros _].
  apply phased_bind; [apply emits_cleanupOldConfig | intros _].
  apply phased_late.
  pose (Hok := fun c (H : no_remove c) => H).
  apply emits_bind; [apply emits_collect; tauto | intros arts].
  apply emits_bind; [apply emits_getTasksFromBeat, read_no_remove | intros tl].
  apply emits_bind;
    [eapply emits_weaken; [apply read_no_remove | apply HO] | intros ol].
  apply emits_bind;
    [eapply emits_weaken; [apply read_no_remove | apply HW] | intros wl].
  apply emits_bind.
  { apply emits_forEach. intros m.
    repeat (apply emits_bind; [apply emits_mkdir; exact Hok | intros _]).
    apply emits_mkdir; exact Hok. }
  intros _. apply emits_bind.
  { apply emits_forEach. intros a. apply emits_write; exact Hok. }
  intros _. apply emits_bind.
  { apply emits_forEach. intros t. unfold QwenSetup.readAndProcess.
    apply emits_bind; [|intros c; apply emits_write; exact Hok].
    apply emits_bind; [apply emits_read; exact Hok | intros; apply emits_ret]. }
  intros _.
  assert (HR : forall d kind l, emits no_remove (QwenSetup.writeResources base d kind l)).
  { intros d kind l. unfold QwenSetup.writeResources, QwenSetup.readAndProcess.
    apply emits_forEach. intros r.
    apply emits_bind; [|intros c; apply emits_write; exact Hok].
    apply emits_bind; [apply emits_read; exact Hok | intros; apply emits_ret]. }
  apply emits_bind; [apply HR | intros _].
  apply emits_bind; [apply HR | intros _].
  apply emits_ret.
Qed.

(** The settings file is no part of an old directory. *)
Lemma settings_apart projectDir p :
  p ∈ oldDirs (join projectDir [Qwen.configDir]) ->
  ~ p `prefix_of` join (join projectDir [Qwen.configDir]) ["settings.json"].
Proof.
  unfold oldDirs. rewrite !join_valid by (repeat constructor).
  intros Hp [k Hk]. rewrite <- !app_assoc in *.
  repeat (apply elem_of_cons in Hp; destruct Hp as [-> | Hp]);
    try (now apply elem_of_nil in Hp);
    rewrite <- !app_assoc in Hk; apply app_inv_head in Hk; discriminate Hk.
Qed.

(** X24: The setup of Qwen removes nothing but the three directories of
    old installs under the configuration directory (agents,
    beat-method, beatDir), and it removes nothing it wrote: the only
    file written before a removal is the settings file, which lies in
    none of the three, and every command file is written after the
    last removal.  The listings of the base class are taken as
    parameters that only read. *)
Theorem qwen_setup_order
    (templatePath : path) (beatFolderName : string)
    (baseProcessContent : string -> metadata -> string)
    (getTools getWorkflows : path -> bool -> M (list resource))
    (json_parse : string -> option IdeConfigManager.value)
    (json_stringify : IdeConfigManager.value -> string)
    (projectDir beatDir : path) (selectedModules : list string) (w : world) :
  (forall d b, emits is_read (getTools d b)) ->
  (forall d b, emits is_read (getWorkflows d b)) ->
  let qwenDir := join projectDir [Qwen.configDir] in
  let l := calls (QwenSetup.setup templatePath beatFolderName baseProcessContent
                    getTools getWorkflows json_parse json_stringify
                    projectDir beatDir selectedModules) w in
  (forall j p, l !! j = Some (Remove p) -> p ∈ oldDirs qwenDir) /\
  (forall i j q content p,
     l !! i = Some (WriteFile q content) -> l !! j = Some (Remove p) -> i < j ->
     q = join qwenDir ["settings.json"] /\ ~ p `prefix_of` q).
Proof.
  intros HO HW qwenDir l.
  destruct (phased_calls _ _ _ w
              (qwen_phases templatePath beatFolderName baseProcessContent getTools
                 getWorkflows json_parse json_stringify projectDir beatDir
                 selectedModules HO HW))
    as (l1 & l2 & E & F1 & F2).
  fold l in E. fold qwenDir in F1.
  assert (Hrem : forall j p, l !! j = Some (Remove p) ->
            j < length l1 /\ p ∈ oldDirs qwenDir).
  { intros j p Hj. rewrite E in Hj.
    destruct (decide (j < length l1)) as [Lj|Lj].
    - split; [exact Lj|]. rewrite lookup_app_l in Hj by assumption.
      rewrite Forall_lookup in F1. exact (F1 _ _ Hj).
    - rewrite lookup_app_r in Hj by lia.
      rewrite Forall_lookup in F2. destruct (F2 _ _ Hj). }
  split.
  - intros j p Hj. exact (proj2 (Hrem j p Hj)).
  - intros i j q content p Hi Hj Hij.
    destruct (Hrem j p Hj) as [Lj Hp].
    rewrite E, lookup_app_l in Hi by lia.
    rewrite Forall_lookup in F1. pose proof (F1 _ _ Hi) as Hq. cbn in Hq.
    subst q. split; [reflexivity|]. now apply settings_apart.
Qed.

(** On the project of the example the settings file is written
    before the old agents directory is removed. *)
Lemma qwen_setup_order_witness :
  let qwenDir := join ["proj"] [Qwen.configDir] in
  let l := calls QwenExamples.qwen_setup QwenExamples.upgraded in
  ((forall j p, l !! j = Some (Remove p) -> p ∈ oldDirs qwenDir) /\
   (forall i j q content p,
      l !! i = Some (WriteFile q content) -> l !! j = Some (Remove p) -> i < j ->
      q = join qwenDir ["settings.json"] /\ ~ p `prefix_of` q)) /\
  ~ removes_before_writes l.
Proof.
  split.
  - apply (qwen_setup_order ExportExamples.templatePath "beat" OrderExamples.unchanged
             OrderExamples.nothing OrderExamples.nothing
             SettingsExamples.parse_lines SettingsExamples.stringify_lines
             ["proj"] Examples.beat [] QwenExamples.upgraded).
    + intros d b. apply emits_ret.
    + intros d b. apply emits_ret.
  - intros H.
    assert (L : 5 < 3); [|lia].
    apply (H 5 3 ["proj"; ".qwen"; "agents"] ["proj"; ".qwen"; "settings.json"]
             "README.md
NOTES.md"); vm_compute; reflexivity.
Defined.

End QwenInstall.

(* ================================================================== *)
(** * The file reference of a Trae agent rule *)
(* ================================================================== *)

Module TraeReference.
Import StrFacts PathFacts.
Import Path AgentCommandGenerator.

Lemma common_below (d rest : path) : PathRel.common d (d ++ rest) = ([], rest).
Proof.
  induction d as [|x d IH]; [now destruct rest|].
  cbn. now rewrite String.eqb_refl.
Qed.

Lemma common_above (d rest : path) : PathRel.common (d ++ rest) d = (rest, []).
Proof.
  induction d as [|x d IH]; [now destruct rest|].
  cbn. now rewrite String.eqb_refl.
Qed.

(** All of the rule before the reference. *)
Definition before_reference (a : artifact) : string :=
  "# " +:+ Trae.agentTitle a +:+ " Agent Rule

This rule is triggered when the user types `@" +:+ art_name a +:+ "` and activates the "
  +:+ Trae.agentTitle a +:+ " agent persona.

## Agent Activation

" +:+ Js.trim (Regex.stripFrontmatter (art_content a)) +:+ "

## File Reference

".

Definition reference (relativePath : string) : string :=
  "The full agent definition is located at: `" +:+ relativePath +:+ "`
".

Lemma rule_split (a : artifact) (projectDir : path) :
  Trae.createAgentRule a projectDir =
    before_reference a +:+
    reference (Js.replaceChar "\"%char "/"%char
                 (PathRel.relative projectDir (art_sourcePath a))).
Proof.
  unfold Trae.createAgentRule, before_reference, reference. cbn zeta.
  rewrite !append_assoc. reflexivity.
Qed.

Lemma dots_kept (l : list string) :
  Js.replaceChar "\"%char "/"%char (Js.join "/" (map (fun _ => "..") l))
  = Js.join "/" (map (fun _ => "..") l).
Proof.
  induction l as [|x l IH]; [reflexivity|].
  destruct l as [|y l]; [reflexivity|].
  change (Js.join "/" (map (fun _ => "..") (x :: y :: l)))
    with ("../" +:+ Js.join "/" (map (fun _ : string => "..") (y :: l))).
  cbn [String.append Js.replaceChar]. cbn [Ascii.eqb Bool.eqb]. now rewrite IH.
Qed.

(** X25: The rule of an agent ends with the reference to the agent file,
    given relative to the project directory: for an agent file of
    the project, the segments below the project directory joined by
    slashes, every backslash of a name turned into a slash; when the
    project directory lies below the path of the agent, one step up
    for each segment in between. *)
Theorem rule_refers_relative (a : artifact) (projectDir rest : path) :
  (art_sourcePath a = projectDir ++ rest ->
   Js.endsWith
     ("The full agent definition is located at: `"
        +:+ Js.replaceChar "\"%char "/"%char (Js.join "/" rest) +:+ "`
")
     (Trae.createAgentRule a projectDir) = true) /\
  (projectDir = art_sourcePath a ++ rest ->
   Js.endsWith
     ("The full agent definition is located at: `"
        +:+ Js.join "/" (map (fun _ => "..") rest) +:+ "`
")
     (Trae.createAgentRule a projectDir) = true).
Proof.
  split; intros E; rewrite rule_split; unfold PathRel.relative.
  - rewrite E, common_below. cbn [map app].
    apply (ConfigStoreFacts.endsWith_app (reference _)).
  - rewrite E, common_above, app_nil_r, dots_kept.
    apply (ConfigStoreFacts.endsWith_app (reference _)).
Qed.

(** The agent of the example, in a project that holds the
    installation. *)
Lemma rule_refers_relative_witness :
  let a := Artifact "agent-launcher" "core" "dev" "core/agents/dev.md" "Activate."
             ["proj"; "beat"; "core"; "agents"; "dev.md"] in
  Js.endsWith
    "The full agent definition is located at: `beat/core/agents/dev.md`
" (Trae.createAgentRule a ["proj"]) = true.
Proof.
  exact (proj1 (rule_refers_relative
                  (Artifact "agent-launcher" "core" "dev" "core/agents/dev.md" "Activate."
                     ["proj"; "beat"; "core"; "agents"; "dev.md"])
                  ["proj"] ["beat"; "core"; "agents"; "dev.md"]) eq_refl).
Defined.

End TraeReference.

(* ================================================================== *)
(** * Titles made from names *)
(* ================================================================== *)

Module TitleFormat.
Import StrFacts.

Lemma split_glue sep a b :
  Js.split sep (a +:+ String sep b) = Js.split sep a ++ Js.split sep b.
Proof.
  induction a as [|c a IH].
  - cbn. now rewrite Ascii.eqb_refl.
  - change (String c a +:+ String sep b) with (String c (a +:+ String sep b)).
    cbn [Js.split]. rewrite IH.
    destruct (Ascii.eqb c sep); [reflexivity|].
    pose proof (split_nonempty sep a) as Hne.
    destruct (Js.split sep a) as [|w ws]; [contradiction | reflexivity].
Qed.

Lemma join_glue sep l1 l2 :
  l1 <> [] -> l2 <> [] ->
  Js.join sep (l1 ++ l2) = Js.join sep l1 +:+ sep +:+ Js.join sep l2.
Proof.
  intros H1 H2. induction l1 as [|w l1 IH]; [contradiction|].
  destruct l1 as [|w' l1].
  - destruct l2 as [|v l2]; [contradiction | reflexivity].
  - change (Js.join sep ((w :: w' :: l1) ++ l2))
      with (w +:+ sep +:+ Js.join sep ((w' :: l1) ++ l2)).
    rewrite IH by discriminate.
    change (Js.join sep (w :: w' :: l1)) with (w +:+ sep +:+ Js.join sep (w' :: l1)).
    now rewrite !append_assoc.
Qed.

Lemma split_without sep s : Forall (absent sep) (Js.split sep s).
Proof.
  induction s as [|c s IH]; cbn [Js.split].
  - constructor; [apply absent_nil | constructor].
  - destruct (Ascii.eqb_spec c sep) as [->|Hne].
    + constructor; [apply absent_nil | assumption].
    + destruct (Js.split sep s) as [|w ws].
      * constructor; [|constructor].
        apply absent_cons. split; [assumption | apply absent_nil].
      * inversion IH; subst. constructor; [|assumption].
        apply absent_cons. now split.
Qed.

Lemma join_without c sep l :
  absent c sep -> Forall (absent c) l -> absent c (Js.join sep l).
Proof.
  intros Hsep H. induction H as [|w l Hw Hl IH]; [apply absent_nil|].
  destruct l as [|w' l]; [exact Hw|].
  change (Js.join sep (w :: w' :: l)) with (w +:+ sep +:+ Js.join sep (w' :: l)).
  apply absent_app. split; [exact Hw|]. apply absent_app. now split.
Qed.

Lemma upper_no_hyphen c : c <> "-"%char -> Js.toUpperChar c <> "-"%char.
Proof.
  destruct c as [[] [] [] [] [] [] [] []]; vm_compute; congruence.
Qed.

Lemma capitalize_without w : absent "-"%char w -> absent "-"%char (Trae.capitalize w).
Proof.
  destruct w as [|c w]; [trivial|]. intros H. apply absent_cons in H as [Hc Hw].
  cbn [Trae.capitalize]. apply absent_cons. split; [now apply upper_no_hyphen | exact Hw].
Qed.

(** X26: A title is made word by word: the title of two names joined by
    a hyphen is the two titles joined by a space, the title of a name
    without hyphen is the name with its first letter in upper case,
    and no title holds a hyphen. *)
Theorem title_by_words (a b : string) :
  Trae.formatTitle (a +:+ "-" +:+ b)
    = Trae.formatTitle a +:+ " " +:+ Trae.formatTitle b /\
  (Js.includes "-" a = false ->
   Trae.formatTitle a
     = match a with
       | EmptyString => EmptyString
       | String c rest => String (Js.toUpperChar c) rest
       end) /\
  Js.includes "-" (Trae.formatTitle a) = false.
Proof.
  unfold Trae.formatTitle. split; [|split].
  - change (a +:+ "-" +:+ b) with (a +:+ String "-"%char b).
    rewrite split_glue, map_app. apply join_glue.
    + pose proof (split_nonempty "-"%char a). now destruct (Js.split "-"%char a).
    + pose proof (split_nonempty "-"%char b). now destruct (Js.split "-"%char b).
  - intros H. rewrite (split_absent "-"%char a H). now destruct a.
  - apply (join_without "-"%char " "); [reflexivity|].
    apply Forall_map. eapply Forall_impl; [apply split_without|].
    intros w Hw. now apply capitalize_without.
Qed.

Lemma title_by_words_witness :
  Trae.formatTitle "code-review" = "Code Review" /\
  Trae.formatTitle "code" = "Code".
Proof.
  destruct (title_by_words "code" "review") as (H1 & H2 & _).
  split; [exact H1 | exact (H2 eq_refl)].
Defined.

End TitleFormat.
